(* ===== verification/_CoqProject ===== *)
-Q . S2P
Prelude.v
Errors.v
External.v
Swsp.v
Streams.v
Pairing.v
Session.v
Peer.v
Waiting.v
Wire.v
Paths.v
Shell.v
FileTransfer.v
FileService.v
Runtime.v
Net.v
ProxyPolicy.v
ProxyHandler.v
Signaling.v
Discovery.v
Transport.v
Web.v
WebServer.v
Fixture.v
Vault.v
Schema.v
Storage.v
Rfc4648.v
Disk.v
Identity.v
Config.v
Telemetry.v
Orchestration.v
Dispatch.v
Copy.v
Command.v
Rtc.v
Qr.v
Cli.v
CliProofs.v
