(* ===== verification/Prelude.v ===== *)
(** * A verification of blnk

    blnk connects two machines over a WebRTC data channel: a peer pairs with
    another through a signaling service, authenticates with a PIN on a control
    stream, and then carries file transfers, shell commands and proxied
    connections as streams of SWSP frames. This library models the Rust crate
    under [src/src] as executable functions and proves what makes its parts
    correct.

    ** The parts and where they are modelled

    - [Prelude] (this file): results, the state-and-error monad, machine integers,
      UTF-8 strings, chunking and the shared lemmas and tactics.
    - [Errors]: [BlnkError] ([utils/error.rs]).
    - [External]: the third-party crates the code calls, as classes of operations
      and separate classes of laws ([subtle], [sha2], [base64], [prost], string
      formatting), with concrete instances for evaluation.
    - [Swsp]: the frame codec ([protocol/swsp.rs]). Flags and lengths are
      integers kept in their machine ranges; decoding works on byte lists.
    - [Streams]: [StreamRegistry] ([stream/mod.rs]): a map from identifiers to
      entries with cyclic identifier allocation over [u32].
    - [Pairing]: commitments and short authentication strings
      ([protocol/pairing.rs]).
    - [Session]: the session state machine ([session/mod.rs]) as a record with
      one function per method, and its runs as sequences of operations.
    - [Peer]: the data-channel peer ([peer/mod.rs]): callbacks arrive in a given
      order, waits look at the state after each. It ends with the class [World],
      which is all the runtime knows of its peer and clock.
    - [Waiting]: the waits of the same file again, as sequences of atomic loads
      that interleave with the stores and notifications of the callbacks.
    - [Rtc]: building a peer, its data channel, offers and answers after
      gathering, and the harness that connects two peers in process
      ([peer/mod.rs]) over the calls of the [webrtc] crate; it implements the
      interface [Peering] of [Orchestration].
    - [Wire]: the protobuf messages ([proto/*.proto], generated bindings) as
      records, and a proto3 codec for evaluation.
    - [Paths]: [std::path] on Unix and the filesystem queries.
    - [Shell]: commands, policy, the run with its two pipe readers and the
      compare-exchange loop they share, and the shell frames
      ([stream/shell.rs]).
    - [FileTransfer], [FileService]: file requests and frames, and the sandboxed
      operations over a filesystem interface ([stream/file.rs]).
    - [Runtime]: [SessionRuntime] ([session/runtime.rs]) over any [World]: control
      messages, the handshake of both roles, stream operations, teardown. It ends
      with the world [Queue]: frames that wait to be taken, the trace of what was
      sent and taken, and a send that encodes its frame and refuses one that is too
      long; [joint] says that the traces of two queues belong to one run.
    - [Net], [ProxyPolicy], [ProxyHandler]: [std::net] addresses with their
      parser, the proxy policy ([stream/proxy.rs]) and the TCP, WebSocket and
      HTTP handlers ([stream/proxy_handler.rs]) over a network interface.
    - [Signaling], [Transport]: the signaling messages ([signaling/mod.rs]) and
      their JSON schema, the bounded WebSocket connection, the endpoint policy,
      the client with its retries and the in-process fixture server
      ([signaling/transport.rs]).
    - [Discovery]: discovery on the local network ([discovery/mod.rs]).
    - [Web]: the browser control server ([web/mod.rs]): one function per route,
      the header middleware, the session store, one step per WebSocket event, and
      the system of all of them under any interleaving. A creation reads the clock
      before it has the lock of the store: how long it waits in between is part of
      the step.
    - [WebServer]: its routes with their methods and layers, what a request does
      as steps of that system, and the life of the listener.
    - [Fixture]: the local signaling server ([LocalFixtureServer] of
      [signaling/transport.rs]).
    - [Vault]: the encrypted payload store ([vault.rs]) over an authenticated
      cipher.
    - [Schema]: the declarations of [storage/schema.rs] as data: every table,
      index and constraint, and what they say of a row. The SQL engine is the class
      [Sqlite]: whether it accepts a row, given the statements it has executed; its
      law is that it refuses what they forbid.
    - [Storage]: the object store ([storage/store.rs]) over any such engine: its
      tables as maps, statements as updates the engine may refuse, transactions
      that keep the old tables on failure.
    - [Rfc4648]: an executable base64 codec that satisfies the laws assumed of the
      [base64] crate; it is used in concrete runs.
    - [Disk]: the calls of [std::fs] that identity and configuration make, their
      laws, and a disk in memory that satisfies them and can fail at any call.
    - [Identity]: keys, codes, both file formats and the atomic write
      ([identity/key.rs]).
    - [Config]: the configuration with the merge of its sources, and the device
      registry ([config/mod.rs]).
    - [Telemetry]: spans, the collector and the exporter
      ([telemetry/braintrust.rs]).
    - [Orchestration], [Dispatch]: the two halves of
      [signaling/orchestration.rs]. The first sets up an authenticated session
      from both ends, using [Transport], [Identity], a peer and [Runtime]; the
      second serves the streams of a session with [Shell] and [FileService] and is
      the client of both.
    - [Copy], [Command]: both ends of a file copy and of a remote command run
      against each other, from two new runtimes to the closed sessions ([cp] and
      [connect] in [main.rs] on one side, [serve_session] on the other). Each side
      is given what the other one sends, and the two traces interleave to one run
      in which nothing is taken before it was sent.
    - [Qr]: the pairing payload and its renderings ([utils/qr.rs]).
    - [Cli], [CliProofs]: the commands ([main.rs], [config/args.rs]) over all of
      the above, and what they guarantee. The state of a command is its
      surroundings and the sessions it holds; it returns, panics ([Panics]) or
      waits beyond the bounds of its loops ([Hangs]).

    A Rust method on [&mut self] is a function to the new state and a result; the
    state is kept on the error path as the code leaves it. Methods keep their
    Rust names, prefixed where two types share one ([rt_], [tcp_], [ws_]). A
    panic is the result [None] ([Panicked] in [Dispatch]).

    ** What the theorems show

    - Commands: the network is reached only for a known device with a PIN, the
      sessions of a command are closed when it returns (with the errors for which
      they are not), [connect] succeeds only if the remote command did, the
      device's identity is made once; a run of the whole program is evaluated
      ([CliProofs]).
    - Frames: encoding and decoding are inverse, decoding is canonical, prefixes
      are incomplete ([Swsp]); frames cross a channel unchanged ([Peer]).
    - Peers: whatever the interleaving of a wait with the callbacks, no success is
      lost, the wait ends, and its verdict is that of the final flags ([Waiting]);
      descriptions are handed out only after gathering, and a harness that is
      returned has both channels open ([Rtc]).
    - Authentication: the PIN comparison is exact, attempts are bounded and
      delayed, no session becomes ready without the PIN ([Session]); the server's
      handshake completes only after the right PIN, against any peer; the
      handshake ends; two runtimes with the same PIN succeed; no stream data moves
      before that ([Runtime]). The bound on the attempts counts every comparison
      and assumes that the retry delay can be added to the clock.
    - Streams: identifiers are unique, non-zero and found when one is free, and
      the accounts balance ([Streams]).
    - Sandboxes: file operations change nothing outside the root, accepted paths
      are exactly the safe ones, uploads, downloads and listings have their
      specified results, and an upload never leaves part of a file at its target,
      whenever its timeout drops it ([FileService], [FileTransfer]); a shell
      command runs exactly when the policy allows it, and its output is returned
      whole and within the limit, however its pipes interleave, or not at all
      ([Shell]).
    - Proxy: the address patterns are exactly the intended blocks; no operation
      connects to an internal address, HTTP requests for host names with a trailing
      dot excepted; redirects and retries stay inside the policy;
      byte, redirect and concurrency limits hold ([ProxyPolicy],
      [ProxyHandler]).
    - Signaling: messages survive the wire and only well-formed ones pass in
      either direction; the endpoint check decides the same addresses as the
      proxy's, no dial happens without it, retries are bounded and get a
      registration through a dropped connection ([Transport]); discovery reports
      exactly the peers announced in time with safe identifiers ([Discovery]).
    - Session setup: a device hands out a session only to a client that proved
      the PIN inside its encrypted request, for the fresh nonce and the very
      description that was connected, and again in the handshake; a challenge
      works once ([Orchestration]).
    - Serving: nothing runs before the session is ready, serving ends and tears
      the session down however it ends ([Dispatch]); a copy in either direction
      runs to its end on both sides and delivers exactly the file's bytes
      ([Copy]), and so does a command whose answer fits the frames it is sent in:
      its output is printed and its exit code or error reported ([Command]).
    - Browser control: sessions change only with authority, the number of sessions
      is limited, and so is the rate of their creation up to the wait for the
      lock, a connection is told nothing before its CSRF token ([Web]); a request
      does to the store what its answer says, every answer carries the hardening
      headers, the server runs only on a loopback address with a checked
      configuration ([WebServer]).
    - Data at rest: the object store implements append-only histories
      and keeps its tables within the declared constraints, on any engine that
      enforces them ([Storage]); the schema can be created again ([Schema]); vault
      payloads put under a fresh or matching reference read back, and cannot be
      relabelled among identities without NUL bytes ([Vault]);
      an atomic write replaces the file or leaves it, loaded identities are valid,
      identities and registries reload from both formats ([Identity], [Config]).
    - Telemetry: the spans of a session form one trace ([Telemetry]). Pairing
      codes: the payload reads back whatever characters it has ([Qr]).
    - Some theorems record behaviour that is not what the code means to do: a
      retried PIN is refused for being early ([Runtime.early_retry_aborts]), the
      last shell input frame is not decodable, an overwriting upload can lose the
      file, an upload that times out leaves its temporary file, a shrinking file
      makes a download panic, a full TCP read gives an unsendable frame, IPv6
      literals skip the literal-address check, the signaling client's check can be
      outrun by a second lookup, closed browser sessions are never purged,
      creations that waited for the lock exceed the rate
      ([Web.stale_clock_exceeds_rate]), an HTTP request for a name with a trailing
      dot is not pinned ([ProxyHandler.trailing_dot_unpinned]), a retry delay that
      does not fit the clock leaves guesses uncounted
      ([Session.oversized_delay_uncounted]), a command with long output fails
      after it ran ([Command.long_output_fails]), a vault payload can be
      overwritten unreadably, and a NUL byte confuses two identities
      ([Vault.nul_confuses_identities]), object kinds and tags are lost
      ([Storage.kind_and_tags_lost]), a failing registry save loses the devices,
      exported durations are a thousand times too long, a refused answer leaves
      the peer open, a truncated download is accepted, a connection failure can be
      reported as a timeout ([Waiting.failure_can_be_lost]), environment variables
      set nothing but the PIN ([Config.environment_sets_only_pin]), a session is
      dropped open when telemetry cannot be set up, and the ASCII rendering of a
      QR code is never used ([Qr.ascii_fallback_unreachable]).

    ** Bounds and fuel

    Loops that the code ends by a condition on outside events take fuel and
    return [None] when it runs out; each has a theorem that a computed amount is
    enough: the handshake needs one message more than [handshake_measure] (one
    connect and one PIN per allowed failure for a server, two messages per PIN
    for a client), an HTTP request one iteration more than its redirects, waiting
    one step per callback that is still to come, identifier allocation one step
    per identifier, the fixture server one step per frame of its client, and the
    dispatcher with its receive loops one step per frame the peer still sends
    ([Dispatch.serving_terminates]; a loop out of fuel is [Starved]). An
    interleaving of a wait with callbacks has at most [Waiting.weight] steps. The
    wait for an empty send buffer reads it as often as its timeout allows, which
    is a parameter. The commands pass on the bounds of the loops they run.
    [run_until_disconnect] ends at its first event. The proxy's WebSocket
    read loop skips control messages for as long as the server sends them and has
    no such bound.

    ** Not modelled

    Timeouts appear only as results ("the wait timed out"), given by the
    environment before the call they limit, except that of a file operation,
    which drops it after any of its calls. Third-party crates are parameters: what
    is modelled of [webrtc], [axum], [config], [qrcode], [rsa] and the rest is the
    calls the code makes and the laws it relies on. The argument parser is
    generated by [clap] and the protobuf bindings by the build; their records are
    declared here. File permissions and the default command follow the Unix
    branches of the code. The two sides of the in-process fixture ([Cli]) run
    against their own peers; [Copy] and [Command] run a client and a device
    against each other; there the frames are delivered in order and none is lost.
    What the spawned server does to the machine is accounted
    for when it is joined. The SQL the store runs is translated to operations on
    maps; which rows the engine refuses is left to it. *)
From Corelib Require Export Init.Byte.
From Stdlib Require Export ZArith Lia.
From Stdlib Require Strings.Byte.
From stdpp Require Export base gmap strings list pretty sorting.

#[global] Open Scope Z_scope.

(** ** Results and state-passing computations *)

(** Rust's [Result<T, E>], with the error type first so that a component can
    fix its own error type. *)
Inductive Result (E T : Type) : Type :=
| Ok (t : T)
| Err (e : E).
Arguments Ok {E T} _.
Arguments Err {E T} _.

Lemma Ok_inj {E T} (a b : T) : @Ok E T a = Ok b -> a = b.
Proof. by injection 1. Qed.

Declare Scope rust_scope.
Delimit Scope rust_scope with rust.
#[global] Open Scope rust_scope.

(** [let? x := c in k] is Rust's [let x = c?; k]. *)
Notation "'let?' x ':=' c 'in' k" :=
  (match c with Ok x => k | Err e => Err e end)
  (at level 10, x pattern, c at level 100, k at level 200,
   format "'[v' 'let?'  x  ':='  c  'in' '/' k ']'") : rust_scope.

(** [fail_if! b with e in k] is [if b { return Err(e) }; k]: an early return. *)
Notation "'fail_if!' b 'with' e 'in' k" :=
  (if b then Err e else k)
  (at level 10, b at level 100, e at level 100, k at level 200,
   format "'[v' 'fail_if!'  b  'with'  e  'in' '/' k ']'") : rust_scope.

Definition is_ok {E T} (r : Result E T) : bool :=
  match r with Ok _ => true | Err _ => false end.

Definition is_some {A} (o : option A) : bool :=
  match o with Some _ => true | None => false end.

Definition map_err {E F T} (f : E -> F) (r : Result E T) : Result F T :=
  match r with Ok t => Ok t | Err e => Err (f e) end.

Definition map_ok {E T U} (f : T -> U) (r : Result E T) : Result E U :=
  match r with Ok t => Ok (f t) | Err e => Err e end.

Definition ok_or {E T} (o : option T) (e : E) : Result E T :=
  match o with Some t => Ok t | None => Err e end.

(** [iter.map(f).collect::<Result<Vec<_>, _>>()]: the first error wins. *)
Fixpoint collect_results {E A B} (f : A -> Result E B) (l : list A) : Result E (list B) :=
  match l with
  | [] => Ok []
  | x :: l =>
      match f x with
      | Err e => Err e
      | Ok y => match collect_results f l with Ok ys => Ok (y :: ys) | Err e => Err e end
      end
  end.

(** [let? _ := a in b] succeeds when both do. *)
Lemma seq_ok {E} (a b : Result E unit) :
  (let? _ := a in b) = Ok tt <-> a = Ok tt /\ b = Ok tt.
Proof. destruct a as [[]|e]; naive_solver. Qed.

(** Collecting the images of a section of [f] gives the preimages back. *)
Lemma collect_section {E A B} (f : A -> Result E B) (g : B -> A) l :
  Forall (fun y => f (g y) = Ok y) l -> collect_results f (g <$> l) = Ok l.
Proof. induction 1 as [|y l Hy Hl IH]; cbn; [done|]. by rewrite Hy, IH. Qed.

Lemma collect_Ok {E A B} (f : A -> Result E B) l ys :
  collect_results f l = Ok ys <-> Forall2 (fun x y => f x = Ok y) l ys.
Proof.
  revert ys; induction l as [|x l IH]; intros ys; cbn.
  - split; [intros; by simplify_eq|]. by inversion 1.
  - split.
    + intros H. destruct (f x) eqn:Hx; [|done]. destruct (collect_results f l); [|done].
      simplify_eq. constructor; [done|]. by apply IH.
    + inversion 1 as [|? y ? ys' Hx Hl]; subst. rewrite Hx. apply IH in Hl. by rewrite Hl.
Qed.

(** A Rust method on [&mut self]: the state it leaves behind, also on the
    error path, and its result. *)
Definition SM (S E A : Type) : Type := S -> S * Result E A.

Definition retS {S E A} (a : A) : SM S E A := fun s => (s, Ok a).
Definition failS {S E A} (e : E) : SM S E A := fun s => (s, Err e).
Definition bindS {S E A B} (c : SM S E A) (k : A -> SM S E B) : SM S E B :=
  fun s => match c s with
           | (s', Ok a) => k a s'
           | (s', Err e) => (s', Err e)
           end.
Definition getS {S E A} (f : S -> A) : SM S E A := fun s => (s, Ok (f s)).
Definition modifyS {S E} (f : S -> S) : SM S E unit := fun s => (f s, Ok tt).
Definition liftS {S E A} (r : Result E A) : SM S E A := fun s => (s, r).
(** [let _ = c;]: the effect of [c] without its result. *)
Definition ignoreS {S E A} (c : SM S E A) : SM S E unit :=
  fun s => ((c s).1, Ok tt).

Notation "'let*' x ':=' c 'in' k" := (bindS c (fun x => k))
  (at level 10, x pattern, c at level 100, k at level 200,
   format "'[v' 'let*'  x  ':='  c  'in' '/' k ']'") : rust_scope.
Notation "'do*' c 'in' k" := (bindS c (fun _ => k))
  (at level 10, c at level 100, k at level 200,
   format "'[v' 'do*'  c  'in' '/' k ']'") : rust_scope.

(** ** Tactics and hint databases *)

Create HintDb blnk discriminated.
Create Rewrite HintDb blnk_rw.

(** Boolean tests on the context turned into propositions. *)
Ltac bool_to_prop :=
  repeat match goal with
  | H : (_ && _) = true |- _ => apply andb_true_iff in H as [? ?]
  | H : (_ || _) = false |- _ => apply orb_false_iff in H as [? ?]
  | H : negb _ = true |- _ => apply negb_true_iff in H
  | H : negb _ = false |- _ => apply negb_false_iff in H
  | H : (_ <? _) = true |- _ => apply Z.ltb_lt in H
  | H : (_ <? _) = false |- _ => apply Z.ltb_ge in H
  | H : (_ <=? _) = true |- _ => apply Z.leb_le in H
  | H : (_ <=? _) = false |- _ => apply Z.leb_gt in H
  | H : (_ >? _) = true |- _ => rewrite Z.gtb_ltb in H
  | H : (_ >? _) = false |- _ => rewrite Z.gtb_ltb in H
  | H : (_ =? _) = true |- _ => apply Z.eqb_eq in H
  | H : (_ =? _) = false |- _ => apply Z.eqb_neq in H
  | H : bool_decide _ = true |- _ => apply bool_decide_eq_true in H
  | H : bool_decide _ = false |- _ => apply bool_decide_eq_false in H
  end.

(** Case analysis on every test a computation makes, closing the cases the
    hypotheses rule out. *)
Ltac run_cases :=
  repeat (case_match; simplify_eq/=); bool_to_prop; simplify_eq/=.

(** ** Machine integers *)

Definition U8_MAX : Z := 255.
Definition U16_MAX : Z := 65535.
Definition U32_MAX : Z := 4294967295.
Definition U64_MAX : Z := 18446744073709551615.
Definition I64_MAX : Z := 9223372036854775807.
(** The targets of the crate are 64-bit. *)
Definition USIZE_MAX : Z := U64_MAX.

Definition in_u16 (z : Z) : Prop := 0 <= z <= U16_MAX.
Definition in_u32 (z : Z) : Prop := 0 <= z <= U32_MAX.
Definition in_u64 (z : Z) : Prop := 0 <= z <= U64_MAX.

(** [a.wrapping_add(b)] on an unsigned type with maximum [m]. *)
Definition wrapping_add (m a b : Z) : Z := (a + b) mod (m + 1).
(** [a.saturating_add(b)]. *)
Definition saturating_add (m a b : Z) : Z := Z.min (a + b) m.
(** [a.checked_add(b)]. *)
Definition checked_add (m a b : Z) : option Z :=
  if a + b <=? m then Some (a + b) else None.

Lemma saturating_add_range m a b :
  0 <= a -> 0 <= b -> 0 <= m -> 0 <= saturating_add m a b <= m.
Proof. unfold saturating_add. lia. Qed.

Lemma saturating_add_u64 a b : in_u64 a -> 0 <= b -> in_u64 (saturating_add U64_MAX a b).
Proof. unfold in_u64, saturating_add, U64_MAX. lia. Qed.

Lemma saturating_add_exact m a b : a + b <= m -> saturating_add m a b = a + b.
Proof. unfold saturating_add. lia. Qed.

Lemma checked_add_Some m a b c :
  checked_add m a b = Some c <-> c = a + b /\ a + b <= m.
Proof.
  unfold checked_add. destruct (a + b <=? m) eqn:E; bool_to_prop; split; intros.
  all: simplify_eq; try lia; try (destruct_and!; subst; done).
Qed.

Definition zlen {A} (l : list A) : Z := Z.of_nat (length l).

Lemma zlen_nonneg {A} (l : list A) : 0 <= zlen l.
Proof. unfold zlen. lia. Qed.

Lemma zlen_app {A} (l k : list A) : zlen (l ++ k) = zlen l + zlen k.
Proof. unfold zlen. rewrite length_app. lia. Qed.

Lemma zlen_nil {A} : zlen (@nil A) = 0.
Proof. done. Qed.

Lemma zlen_cons {A} (x : A) l : zlen (x :: l) = zlen l + 1.
Proof. unfold zlen. simpl. lia. Qed.

#[export] Hint Rewrite @zlen_app @zlen_nil @zlen_cons : blnk_rw.
#[export] Hint Resolve zlen_nonneg : blnk.

(** ** Bytes and little-endian encodings *)

#[export] Instance byte_eq_dec : EqDecision byte := Byte.byte_eq_dec.

Definition byte_val (b : byte) : Z := Z.of_N (Byte.to_N b).

Definition byte_of (z : Z) : byte :=
  match Byte.of_N (Z.to_N (z mod 256)) with Some b => b | None => x00 end.

Lemma byte_val_range b : 0 <= byte_val b < 256.
Proof.
  unfold byte_val. pose proof (Byte.to_N_bounded b). lia.
Qed.

Lemma byte_val_of z : byte_val (byte_of z) = z mod 256.
Proof.
  unfold byte_val, byte_of. pose proof (Z.mod_pos_bound z 256).
  destruct (Byte.of_N _) as [b|] eqn:E.
  - apply Byte.to_of_N in E. rewrite E. lia.
  - apply Byte.of_N_None_iff in E. lia.
Qed.

Lemma byte_val_inj b c : byte_val b = byte_val c -> b = c.
Proof.
  unfold byte_val. intros H%N2Z.inj.
  pose proof (Byte.of_to_N b) as Hb. pose proof (Byte.of_to_N c) as Hc.
  rewrite H in Hb. congruence.
Qed.

Lemma byte_of_val b : byte_of (byte_val b) = b.
Proof.
  apply byte_val_inj. rewrite byte_val_of. apply Z.mod_small, byte_val_range.
Qed.

(** [x.to_le_bytes()] for an [n]-byte integer, and [from_le_bytes]. *)
Fixpoint to_le_bytes (n : nat) (z : Z) : list byte :=
  match n with
  | O => []
  | S n => byte_of z :: to_le_bytes n (z / 256)
  end.

Fixpoint from_le_bytes (bs : list byte) : Z :=
  match bs with
  | [] => 0
  | b :: bs => byte_val b + 256 * from_le_bytes bs
  end.

Lemma length_to_le_bytes n z : length (to_le_bytes n z) = n.
Proof. revert z; induction n; simpl; auto. Qed.

Lemma from_to_le_bytes n z :
  0 <= z < 256 ^ Z.of_nat n -> from_le_bytes (to_le_bytes n z) = z.
Proof.
  revert z; induction n as [|n IH]; intros z Hz; simpl.
  - change (256 ^ Z.of_nat 0) with 1 in Hz. lia.
  - rewrite Nat2Z.inj_succ, Z.pow_succ_r in Hz by lia.
    rewrite byte_val_of, IH.
    + pose proof (Z.div_mod z 256). lia.
    + split; [apply Z.div_pos; lia|]. apply Z.div_lt_upper_bound; lia.
Qed.

Lemma from_le_bytes_range bs :
  0 <= from_le_bytes bs < 256 ^ Z.of_nat (length bs).
Proof.
  induction bs as [|b bs IH]; cbn [length from_le_bytes]; [done|].
  pose proof (byte_val_range b).
  rewrite Nat2Z.inj_succ, Z.pow_succ_r by lia. lia.
Qed.

Lemma to_from_le_bytes bs : to_le_bytes (length bs) (from_le_bytes bs) = bs.
Proof.
  induction bs as [|b bs IH]; simpl; [done|].
  pose proof (byte_val_range b). f_equal.
  - rewrite <- (byte_of_val b) at 2. apply byte_val_inj.
    rewrite !byte_val_of, Z.mul_comm, Z_mod_plus_full. done.
  - rewrite Z.mul_comm, Z_div_plus_full, Z.div_small, Z.add_0_l; auto with lia.
Qed.

(** ** Strings

    A Rust [&str] or [String] is a sequence of UTF-8 bytes; it is modelled as a
    [string] of those bytes, so that [len], [as_bytes], comparison and ASCII
    tests are the byte-level ones Rust performs. *)

Definition as_bytes (s : string) : list byte := String.list_byte_of_string s.
Definition str_len (s : string) : Z := zlen (as_bytes s).

Lemma as_bytes_inj s t : as_bytes s = as_bytes t -> s = t.
Proof.
  intros H. rewrite <- (String.string_of_list_byte_of_string s),
    <- (String.string_of_list_byte_of_string t). unfold as_bytes in H. by rewrite H.
Qed.

Lemma as_bytes_append s t : as_bytes (s +:+ t) = as_bytes s ++ as_bytes t.
Proof.
  unfold as_bytes, String.list_byte_of_string. rewrite <- List.map_app. f_equal.
  induction s as [|c s IH]; cbn; [done|]. by rewrite <- IH.
Qed.

Lemma as_bytes_string_of l : as_bytes (String.string_of_list_byte l) = l.
Proof. apply String.list_byte_of_string_of_list_byte. Qed.

(** The UTF-8 encodings of the code points with the Unicode property
    [White_Space], by length. *)
Definition ws1 (b : Z) : bool := ((9 <=? b) && (b <=? 13)) || (b =? 32).
Definition ws2 (b c : Z) : bool := (b =? 0xC2) && ((c =? 0x85) || (c =? 0xA0)).
Definition ws3 (b c d : Z) : bool :=
  ((b =? 0xE1) && (c =? 0x9A) && (d =? 0x80))
  || ((b =? 0xE2) && (c =? 0x80)
      && (((0x80 <=? d) && (d <=? 0x8A)) || (d =? 0xA8) || (d =? 0xA9) || (d =? 0xAF)))
  || ((b =? 0xE2) && (c =? 0x81) && (d =? 0x9F))
  || ((b =? 0xE3) && (c =? 0x80) && (d =? 0x80)).

(** The longest suffix left once leading whitespace is removed. *)
Fixpoint trim_start (l : list byte) : list byte :=
  match l with
  | [] => []
  | b :: l1 =>
      if ws1 (byte_val b) then trim_start l1 else
      match l1 with
      | [] => l
      | c :: l2 =>
          if ws2 (byte_val b) (byte_val c) then trim_start l2 else
          match l2 with
          | [] => l
          | d :: l3 =>
              if ws3 (byte_val b) (byte_val c) (byte_val d) then trim_start l3 else l
          end
      end
  end.

Definition is_nil {A} (l : list A) : bool := match l with [] => true | _ => false end.

(** Trailing whitespace removed: a suffix made of whitespace only is dropped.
    Continuation bytes never start a whitespace sequence, so on valid UTF-8
    the cut falls on a character boundary. *)
Fixpoint trim_end (l : list byte) : list byte :=
  match l with
  | [] => []
  | b :: l1 => if is_nil (trim_start l) then [] else b :: trim_end l1
  end.

Definition trim (s : string) : list byte := trim_end (trim_start (as_bytes s)).

(** [s.trim().is_empty()]. *)
Definition trim_is_empty (s : string) : bool := is_nil (trim_start (as_bytes s)).

Lemma trim_nil_iff s : trim s = [] <-> trim_is_empty s = true.
Proof.
  unfold trim, trim_is_empty.
  assert (Hs : forall l, trim_start (trim_start l) = trim_start l).
  { fix IH 1. intros [|b l1]; [done|]. cbn [trim_start].
    destruct (ws1 _) eqn:E1; [apply IH|].
    destruct l1 as [|c l2]; [cbn; by rewrite E1|].
    destruct (ws2 _ _) eqn:E2; [apply IH|].
    destruct l2 as [|d l3]; [cbn; by rewrite E1, E2|].
    destruct (ws3 _ _ _) eqn:E3; [apply IH|]. cbn. by rewrite E1, E2, E3. }
  specialize (Hs (as_bytes s)). destruct (trim_start (as_bytes s)) as [|b l] eqn:E.
  - done.
  - cbn [trim_end]. rewrite Hs. done.
Qed.

(** [s.contains(c)] and [s.starts_with(c)] for an ASCII character. *)
Definition contains_byte (b : byte) (s : string) : bool :=
  existsb (fun c => byte_val c =? byte_val b) (as_bytes s).
Definition starts_with_byte (b : byte) (s : string) : bool :=
  match as_bytes s with c :: _ => byte_val c =? byte_val b | [] => false end.
Definition str_is_empty (s : string) : bool := is_nil (as_bytes s).

(** [s.to_ascii_lowercase()]. *)
Definition byte_to_ascii_lowercase (b : byte) : byte :=
  let v := byte_val b in
  if (65 <=? v) && (v <=? 90) then byte_of (v + 32) else b.
Definition to_ascii_lowercase (s : string) : string :=
  String.string_of_list_byte (byte_to_ascii_lowercase <$> as_bytes s).

(** [s.trim_end_matches(c)]. *)
Fixpoint drop_end_matches (b : byte) (l : list byte) : list byte :=
  match l with
  | [] => []
  | c :: l' =>
      match drop_end_matches b l' with
      | [] => if byte_val c =? byte_val b then [] else [c]
      | r => c :: r
      end
  end.
Definition trim_end_matches (b : byte) (s : string) : string :=
  String.string_of_list_byte (drop_end_matches b (as_bytes s)).

Definition str_eqb (s t : string) : bool := bool_decide (s = t).

Lemma str_eqb_eq s t : str_eqb s t = true <-> s = t.
Proof. apply bool_decide_eq_true. Qed.
Lemma str_eqb_refl s : str_eqb s s = true.
Proof. by apply str_eqb_eq. Qed.
Lemma str_eqb_ne s t : str_eqb s t = false <-> s <> t.
Proof. rewrite <- not_true_iff_false, str_eqb_eq. done. Qed.

(** [haystack.contains(needle)]. *)
Fixpoint is_prefix (p l : list byte) : bool :=
  match p, l with
  | [], _ => true
  | b :: p, c :: l => (byte_val b =? byte_val c) && is_prefix p l
  | _ :: _, [] => false
  end.
Fixpoint contains_bytes (p l : list byte) : bool :=
  is_prefix p l || match l with [] => false | _ :: l' => contains_bytes p l' end.
Definition str_contains (p s : string) : bool := contains_bytes (as_bytes p) (as_bytes s).

(** Decimal and hexadecimal rendering, as the [{}] and [{:x}] formats. *)
Definition dec (z : Z) : string := pretty z.

Definition hex_digit (z : Z) : string :=
  default "?" (["0";"1";"2";"3";"4";"5";"6";"7";"8";"9";"a";"b";"c";"d";"e";"f"]%string
               !! Z.to_nat z).
(** [{:04x}]. *)
Definition hex4 (z : Z) : string :=
  hex_digit ((z / 4096) mod 16) +:+ hex_digit ((z / 256) mod 16)
  +:+ hex_digit ((z / 16) mod 16) +:+ hex_digit (z mod 16).

(** [std::str::from_utf8(data).is_ok()]. *)
Definition cont (b : byte) : bool := (0x80 <=? byte_val b) && (byte_val b <=? 0xBF).
Definition within (lo hi : Z) (b : byte) : bool := (lo <=? byte_val b) && (byte_val b <=? hi).
Fixpoint utf8_valid (l : list byte) : bool :=
  match l with
  | [] => true
  | a :: l1 =>
      if byte_val a <? 0x80 then utf8_valid l1 else
      match l1 with
      | [] => false
      | b :: l2 =>
          if within 0xC2 0xDF a then cont b && utf8_valid l2 else
          match l2 with
          | [] => false
          | c :: l3 =>
              if within 0xE0 0xEF a then
                (if byte_val a =? 0xE0 then within 0xA0 0xBF b
                 else if byte_val a =? 0xED then within 0x80 0x9F b else cont b)
                && cont c && utf8_valid l3
              else
              match l3 with
              | [] => false
              | d :: l4 =>
                  within 0xF0 0xF4 a
                  && (if byte_val a =? 0xF0 then within 0x90 0xBF b
                      else if byte_val a =? 0xF4 then within 0x80 0x8F b else cont b)
                  && cont c && cont d && utf8_valid l4
              end
          end
      end
  end.

Lemma utf8_ascii l : Forall (fun b => byte_val b < 0x80) l -> utf8_valid l = true.
Proof.
  induction 1 as [|b l Hb Hl IH]; [done|]. cbn [utf8_valid].
  by rewrite (proj2 (Z.ltb_lt _ _) Hb).
Qed.

(** [haystack.find(needle)]: the offset of the first occurrence. *)
Fixpoint find_bytes (p l : list byte) : option nat :=
  if is_prefix p l then Some O
  else match l with [] => None | _ :: l' => S <$> find_bytes p l' end.

Lemma is_prefix_app p l : is_prefix p (p ++ l) = true.
Proof. induction p as [|b p IH]; [done|]. cbn. by rewrite Z.eqb_refl. Qed.

Lemma is_prefix_drop p l : is_prefix p l = true -> l = p ++ drop (length p) l.
Proof.
  revert l. induction p as [|b p IH]; intros [|c l]; cbn; try done.
  intros [Hb%Z.eqb_eq%byte_val_inj Hl%IH]%andb_prop. by rewrite Hb, <- Hl.
Qed.

(** [s.strip_prefix(p)]. *)
Definition strip_prefix (p s : string) : option string :=
  if is_prefix (as_bytes p) (as_bytes s)
  then Some (String.string_of_list_byte (drop (length (as_bytes p)) (as_bytes s))) else None.

Lemma strip_prefix_Some p s t :
  strip_prefix p s = Some t <-> as_bytes s = as_bytes p ++ as_bytes t.
Proof.
  unfold strip_prefix. split.
  - destruct (is_prefix _ _) eqn:E; [|done]. intros [= <-]. rewrite as_bytes_string_of.
    by apply is_prefix_drop.
  - intros ->. rewrite is_prefix_app, drop_app_length. f_equal. apply as_bytes_inj, as_bytes_string_of.
Qed.

(** No occurrence of [p] starts in [l], whatever follows [l]. *)
Fixpoint mismatch (p l : list byte) : bool :=
  match p, l with
  | b :: p, c :: l => negb (byte_val b =? byte_val c) || mismatch p l
  | _, _ => false
  end.
Fixpoint skippable (p l : list byte) : bool :=
  match l with [] => true | _ :: l' => mismatch p l && skippable p l' end.

Lemma mismatch_prefix p l k : mismatch p l = true -> is_prefix p (l ++ k) = false.
Proof.
  revert l. induction p as [|b p IH]; intros [|c l]; cbn; try done.
  destruct (byte_val b =? byte_val c); [apply IH|done].
Qed.

Lemma find_bytes_skip p s l :
  skippable p s = true -> find_bytes p (s ++ l) = (fun n => length s + n)%nat <$> find_bytes p l.
Proof.
  induction s as [|c s IH]; cbn [skippable app]; intros Hs.
  - by destruct (find_bytes p l).
  - apply andb_true_iff in Hs as [Hm Hs]. cbn [find_bytes].
    change (c :: s ++ l) with ((c :: s) ++ l). rewrite mismatch_prefix by done.
    rewrite IH by done. by destruct (find_bytes p l).
Qed.

Lemma skippable_app p s t : skippable p s = true -> skippable p t = true -> skippable p (s ++ t) = true.
Proof.
  intros Hs Ht. assert (Hm : forall l, mismatch p l = true -> mismatch p (l ++ t) = true).
  { clear. induction p as [|b p IH]; intros [|c l]; cbn; try done.
    destruct (byte_val b =? byte_val c); [apply IH|done]. }
  induction s as [|c s IH]; [done|]. cbn [skippable app] in *.
  apply andb_true_iff in Hs as [H1 H2]. rewrite IH by done.
  change (c :: s ++ t) with ((c :: s) ++ t). by rewrite Hm.
Qed.

Lemma skippable_head b p s :
  Forall (fun c => (byte_val b =? byte_val c) = false) s -> skippable (b :: p) s = true.
Proof. induction 1 as [|c s Hc Hs IH]; [done|]. cbn [skippable mismatch]. by rewrite Hc, IH. Qed.

Lemma find_bytes_here p l : find_bytes p (p ++ l) = Some O.
Proof. 
  pose proof (is_prefix_app p l) as Hp. destruct (p ++ l); cbn [find_bytes]; by rewrite Hp.
Qed.

(** [s.lines()]: split after each newline; the newline and a carriage return
    before it are not part of the line. *)
Definition strip_cr (line : list byte) : list byte :=
  match last line with
  | Some b => if byte_val b =? 13 then removelast line else line
  | None => line
  end.
Fixpoint lines_from (cur l : list byte) : list (list byte) :=
  match l with
  | [] => if is_nil cur then [] else [cur]
  | b :: l => if byte_val b =? 10 then strip_cr cur :: lines_from [] l
              else lines_from (cur ++ [b]) l
  end.
Definition lines (l : list byte) : list (list byte) := lines_from [] l.

(** ** Lists *)

(** [slice.chunks(n)] for a positive [n]: consecutive pieces of [n] elements,
    the last one possibly shorter. *)
Fixpoint chunks_aux {A} (fuel n : nat) (l : list A) : list (list A) :=
  match fuel, l with
  | _, [] => []
  | O, _ => []
  | S fuel, _ => take n l :: chunks_aux fuel n (drop n l)
  end.
Definition chunks {A} (n : nat) (l : list A) : list (list A) :=
  chunks_aux (length l) n l.

Section chunk_lemmas.
Context {A : Type} (n : nat) (Hn : (0 < n)%nat).
Implicit Types l : list A.

Lemma chunks_aux_concat fuel l :
  (length l <= fuel)%nat -> concat (chunks_aux fuel n l) = l.
Proof using Hn.
  revert l; induction fuel as [|fuel IH]; intros l Hl.
  - destruct l; [done|simpl in *; lia].
  - destruct l as [|x l]; [done|].
    change (take n (x :: l) ++ concat (chunks_aux fuel n (drop n (x :: l))) = x :: l).
    rewrite IH by (rewrite length_drop; simpl in *; lia). apply take_drop.
Qed.

Lemma chunks_concat l : concat (chunks n l) = l.
Proof using Hn. apply chunks_aux_concat. done. Qed.

Lemma chunks_aux_bounds fuel l :
  Forall (fun c => 0 < length c <= n)%nat (chunks_aux fuel n l).
Proof using Hn.
  revert l; induction fuel as [|fuel IH]; intros [|x l]; simpl; constructor; auto.
  destruct n; [lia|]. simpl. rewrite length_take. lia.
Qed.

Lemma chunks_bounds l : Forall (fun c => 0 < length c <= n)%nat (chunks n l).
Proof using Hn. apply chunks_aux_bounds. Qed.

Lemma chunks_nil_iff l : chunks n l = [] <-> l = [].
Proof using Hn. unfold chunks. destruct l; done. Qed.
End chunk_lemmas.

Lemma bindS_Ok {S E A B} (c : SM S E A) (k : A -> SM S E B) s s' b :
  bindS c k s = (s', Ok b) <->
  exists s1 a, c s = (s1, Ok a) /\ k a s1 = (s', Ok b).
Proof.
  unfold bindS. destruct (c s) as [s1 [a|e]]; naive_solver.
Qed.

(** ** Byte-wise order of strings: [a <= b] on [&str] *)

Fixpoint bytes_leb (a b : list byte) : bool :=
  match a, b with
  | [], _ => true
  | _ :: _, [] => false
  | x :: a, y :: b =>
      if byte_val x <? byte_val y then true
      else if byte_val y <? byte_val x then false else bytes_leb a b
  end.
Definition str_leb (s t : string) : bool := bytes_leb (as_bytes s) (as_bytes t).

Lemma bytes_leb_total a b : bytes_leb a b = false -> bytes_leb b a = true.
Proof.
  revert b; induction a as [|x a IH]; intros [|y b]; cbn; try done.
  destruct (byte_val x <? byte_val y), (byte_val y <? byte_val x); naive_solver.
Qed.

Lemma bytes_leb_antisym a b : bytes_leb a b = true -> bytes_leb b a = true -> a = b.
Proof.
  revert b; induction a as [|x a IH]; intros [|y b]; cbn; try done.
  destruct (byte_val x <? byte_val y) eqn:E1, (byte_val y <? byte_val x) eqn:E2;
    try done; bool_to_prop; [lia|].
  intros ? ?. f_equal; [apply byte_val_inj; lia|auto].
Qed.

Lemma str_leb_total s t : str_leb s t = false -> str_leb t s = true.
Proof. apply bytes_leb_total. Qed.

Lemma str_leb_antisym s t : str_leb s t = true -> str_leb t s = true -> s = t.
Proof. intros H1 H2. by apply as_bytes_inj, bytes_leb_antisym. Qed.

Lemma bytes_leb_trans a b c : bytes_leb a b = true -> bytes_leb b c = true -> bytes_leb a c = true.
Proof.
  revert b c; induction a as [|x a IH]; intros [|y b] [|z c]; cbn; try done.
  destruct (byte_val x <? byte_val y) eqn:E1; destruct (byte_val y <? byte_val z) eqn:E2;
    destruct (byte_val z <? byte_val y) eqn:E3; destruct (byte_val y <? byte_val x) eqn:E4;
    destruct (byte_val x <? byte_val z) eqn:E5; destruct (byte_val z <? byte_val x) eqn:E6;
    bool_to_prop; try done; try lia; eauto.
Qed.

(** ** Sorting by a string key

    [v.sort_by(|a, b| key(a).cmp(key(b)))]: a stable insertion sort. *)
Section sort_by.
Context {A : Type} (key : A -> string).

Fixpoint insert_by (x : A) (l : list A) : list A :=
  match l with
  | [] => [x]
  | y :: l' => if str_leb (key x) (key y) then x :: l else y :: insert_by x l'
  end.
Definition sort_by (l : list A) : list A := foldr insert_by [] l.

Definition key_le (a b : A) : Prop := str_leb (key a) (key b) = true.

#[export] Instance key_le_trans : Transitive key_le.
Proof. intros a b c. apply bytes_leb_trans. Qed.

Lemma insert_by_perm x l : insert_by x l ≡ₚ x :: l.
Proof.
  induction l as [|y l IH]; cbn; [done|]. case_match; [done|]. rewrite IH. constructor.
Qed.

Lemma insert_by_sorted x l : Sorted key_le l -> Sorted key_le (insert_by x l).
Proof.
  induction 1 as [|y l Hl IH Hy]; cbn; [by repeat constructor|].
  destruct (str_leb _ _) eqn:E; [by repeat constructor|]. apply str_leb_total in E.
  constructor; [done|]. destruct l as [|z l]; cbn; [by constructor|].
  inversion Hy; subst. case_match; by constructor.
Qed.

Lemma sort_by_perm l : sort_by l ≡ₚ l.
Proof. induction l as [|x l IH]; cbn; [done|]. by rewrite insert_by_perm, IH. Qed.

Lemma sort_by_sorted l : Sorted key_le (sort_by l).
Proof. induction l as [|x l IH]; cbn; [done|]. by apply insert_by_sorted. Qed.
End sort_by.

(** The entries of a [BTreeMap] in iteration order. *)
Definition btree_entries {V} (m : gmap string V) : list (string * V) :=
  sort_by fst (map_to_list m).

Lemma btree_entries_perm {V} (m : gmap string V) : btree_entries m ≡ₚ map_to_list m.
Proof. apply sort_by_perm. Qed.

(** ** Time

    A [Duration] and an [Instant] are numbers of nanoseconds; [Instant] is
    bounded by the 64-bit seconds of the Unix targets. *)
Definition from_secs (s : Z) : Z := s * 1000000000.
Definition from_millis (ms : Z) : Z := ms * 1000000.
Definition INSTANT_MAX : Z := 9223372036854775807 * 1000000000 + 999999999.
