(* ===== verification/Errors.v ===== *)
(** * The crate's error type

    [BlnkError] of [src/src/utils/error.rs] with its [Display] text, which
    other components inspect and forward. A [std::io::Error] is kept as its
    kind and its message, the two parts the code reads. *)
From S2P Require Import Prelude.

Record IoError := mkIoError {
  io_kind : string;
  io_message : string;
}.

Inductive BlnkError :=
| ErrConfig (m : string)
| ErrIdentity (m : string)
| ErrSignaling (m : string)
| ErrPeer (m : string)
| ErrSession (m : string)
| ErrStream (m : string)
| ErrProtocol (m : string)
| ErrIo (e : IoError).

#[export] Instance IoError_eq_dec : EqDecision IoError.
Proof. solve_decision. Defined.
#[export] Instance BlnkError_eq_dec : EqDecision BlnkError.
Proof. solve_decision. Defined.

(** The [#[error("...")]] attributes of the enum. *)
Definition blnk_error_display (e : BlnkError) : string :=
  match e with
  | ErrConfig m => "config error: " +:+ m
  | ErrIdentity m => "identity error: " +:+ m
  | ErrSignaling m => "signaling error: " +:+ m
  | ErrPeer m => "peer error: " +:+ m
  | ErrSession m => "session error: " +:+ m
  | ErrStream m => "stream error: " +:+ m
  | ErrProtocol m => "protocol error: " +:+ m
  | ErrIo e => "I/O error: " +:+ io_message e
  end.

Abbreviation BResult T := (Result BlnkError T).
