(* ===== verification/External.v ===== *)
(** * What the crate takes from third-party packages

    The sources call a few crates whose code is not part of the repository.
    Each is a class of operations; what the callers rely on is a separate class
    of laws, which states the documented behaviour of the package and appears
    as a hypothesis of the theorems that need it. The module [Concrete] gives
    executable instances that satisfy the laws, for evaluating the model. *)
From S2P Require Import Prelude Errors.

(** ** [subtle]: constant-time comparison of byte slices *)
Class Subtle := { ct_eq : list byte -> list byte -> bool }.

(** [ConstantTimeEq for [T]]: a set choice exactly for equal slices. *)
Class SubtleLaws `{Subtle} : Prop := {
  ct_eq_spec : forall a b, ct_eq a b = true <-> a = b;
}.

(** ** [sha2]: SHA-256 *)
Class Sha2 := { sha256 : list byte -> list byte }.

(** The digest is 32 bytes long. *)
Class Sha2Laws `{Sha2} : Prop := {
  sha256_length : forall m, length (sha256 m) = 32%nat;
}.

(** ** [base64]: the standard alphabet with and without padding, and the
    URL-safe one without

    A decoder returns the text of the crate's [DecodeError]. *)
Class Base64 := {
  standard_encode : list byte -> string;
  standard_decode : string -> Result string (list byte);
  url_safe_no_pad_encode : list byte -> string;
  url_safe_no_pad_decode : string -> Result string (list byte);
  standard_no_pad_encode : list byte -> string;
  standard_no_pad_decode : string -> Result string (list byte);
}.

Class Base64Laws `{Base64} : Prop := {
  standard_roundtrip : forall a, standard_decode (standard_encode a) = Ok a;
  url_safe_no_pad_roundtrip : forall a,
    url_safe_no_pad_decode (url_safe_no_pad_encode a) = Ok a;
  standard_no_pad_roundtrip : forall a,
    standard_no_pad_decode (standard_no_pad_encode a) = Ok a;
}.

(** The shape of the encoded texts: 64 letters, digits and signs with [=] as
    padding, and the length of an unpadded text. *)
Definition base64_char (b : byte) : bool :=
  let v := byte_val b in
  ((65 <=? v) && (v <=? 90)) || ((97 <=? v) && (v <=? 122)) || ((48 <=? v) && (v <=? 57))
  || (v =? 43) || (v =? 47) || (v =? 61).
Class Base64Text `{Base64} : Prop := {
  standard_alphabet : forall a, Forall (fun b => base64_char b = true) (as_bytes (standard_encode a));
  url_safe_no_pad_len : forall a, str_len (url_safe_no_pad_encode a) = (4 * zlen a + 2) / 3;
}.

Lemma standard_encode_inj `{Base64Laws} a b : standard_encode a = standard_encode b -> a = b.
Proof.
  intros Heq. pose proof (standard_roundtrip a) as Ha. rewrite Heq, standard_roundtrip in Ha.
  congruence.
Qed.

(** ** [serde_json]: the text form of one serializable type

    The [Serialize] and [Deserialize] code is generated from the attributes on
    the type; an error is its text. *)
Class SerdeJson (T : Type) := {
  json_to_string : T -> Result string string;
  json_from_str : string -> Result string T;
}.

(** Parsing the text a value was written as gives the value back. *)
Definition json_roundtrips {T} `{SerdeJson T} (t : T) : Prop :=
  exists s, json_to_string t = Ok s /\ json_from_str s = Ok t.

(** ** [prost]: the protobuf codec of one generated message type

    [decode] returns the text of prost's [DecodeError]. *)
Class Prost (M : Type) := {
  encode_to_vec : M -> list byte;
  prost_decode : list byte -> Result string M;
}.

(** Decoding an encoded message gives the message back. *)
Definition prost_roundtrips {M} `{Prost M} (m : M) : Prop :=
  prost_decode (encode_to_vec m) = Ok m.

(** ** [core::fmt]: the [{:?}] rendering of a string, quoted and escaped by the
    Unicode tables of the standard library, and the text of the [Utf8Error] for
    bytes that are not UTF-8 *)
Class RustFmt := { str_debug : string -> string; utf8_error : list byte -> string }.

(** [std::str::from_utf8(bytes)]. *)
Definition str_from_utf8 `{RustFmt} (bytes : list byte) : Result string string :=
  if utf8_valid bytes then Ok (String.string_of_list_byte bytes) else Err (utf8_error bytes).

Module Concrete.
(** Instances used to evaluate the model on concrete inputs. *)
Definition subtle : Subtle := {| ct_eq a b := bool_decide (a = b) |}.

Lemma subtle_laws : @SubtleLaws subtle.
Proof. constructor. intros a b. apply bool_decide_eq_true. Qed.

(** A function with SHA-256's output length: the message padded or cut to 32
    bytes. *)
Definition sha2 : Sha2 := {| sha256 m := take 32 (m ++ replicate 32 x00) |}.

Lemma sha2_laws : @Sha2Laws sha2.
Proof.
  constructor. intros m. unfold sha256, sha2.
  rewrite length_take, length_app, length_replicate. lia.
Qed.

(** The bytes written as they are. *)
Definition base64 : Base64 := {|
  standard_encode := String.string_of_list_byte;
  standard_decode s := Ok (as_bytes s);
  url_safe_no_pad_encode := String.string_of_list_byte;
  url_safe_no_pad_decode s := Ok (as_bytes s);
  standard_no_pad_encode := String.string_of_list_byte;
  standard_no_pad_decode s := Ok (as_bytes s);
|}.

Lemma base64_laws : @Base64Laws base64.
Proof. constructor; simpl; intros a; by rewrite as_bytes_string_of. Qed.

(** Quotes around a string that needs no escaping. *)
Definition rust_fmt : RustFmt := {|
  str_debug s :=
    let quote := String (Ascii.ascii_of_nat 34) EmptyString in quote +:+ s +:+ quote;
  utf8_error _ := "invalid utf-8 sequence";
|}.
End Concrete.
