(* ===== verification/Swsp.v ===== *)
(** * The SWSP frame codec

    [src/src/protocol/swsp.rs]: an eight-byte little-endian header
    ([stream_id : u32], [flags : u16], [payload_len : u16]) followed by the
    payload. The file holds the flag and frame types, the encoder and decoder
    with every error branch, and the codec's correctness: encoding is inverted
    by decoding even when more bytes follow, the decoder accepts exactly the
    images of the encoder, and a proper prefix of a frame is always reported as
    incomplete. *)
From S2P Require Import Prelude Errors.

Definition HEADER_LEN : Z := 8.
Definition DEFAULT_MAX_PAYLOAD_LEN : Z := 16 * 1024.

Definition FLAG_SYN : Z := 0x0001.
Definition FLAG_MORE : Z := 0x0002.
Definition FLAG_FIN : Z := 0x0004.
Definition FLAG_DAT : Z := 0x0008.
Definition KNOWN_FLAGS : Z := Z.lor (Z.lor (Z.lor FLAG_SYN FLAG_MORE) FLAG_FIN) FLAG_DAT.

Inductive FrameError :=
| Incomplete (expected actual : Z)
| UnknownFlags (bits : Z)
| PayloadTooLarge (length maximum : Z)
| LengthOverflow (length : Z)
| InvalidMaximum.

#[export] Instance FrameError_eq_dec : EqDecision FrameError.
Proof. solve_decision. Defined.

(** The [#[error("...")]] attributes: [error.to_string()]. *)
Definition frame_error_display (e : FrameError) : string :=
  match e with
  | Incomplete expected actual =>
      "frame is incomplete: expected " +:+ dec expected +:+ " bytes, received "
      +:+ dec actual
  | UnknownFlags bits => "frame contains unknown flag bits: 0x" +:+ hex4 bits
  | PayloadTooLarge length maximum =>
      "payload length " +:+ dec length +:+ " exceeds maximum " +:+ dec maximum
  | LengthOverflow length =>
      "payload length " +:+ dec length +:+ " cannot be represented by the wire format"
  | InvalidMaximum => "maximum payload length must be at most 65535 bytes"
  end.

(** ** Flags *)

Record FrameFlags := mkFlags { bits : Z }.

#[export] Instance FrameFlags_eq_dec : EqDecision FrameFlags.
Proof. solve_decision. Defined.

Definition NONE : FrameFlags := mkFlags 0.
Definition SYN : FrameFlags := mkFlags FLAG_SYN.
Definition MORE : FrameFlags := mkFlags FLAG_MORE.
Definition FIN : FrameFlags := mkFlags FLAG_FIN.
Definition DAT : FrameFlags := mkFlags FLAG_DAT.

(** [!KNOWN_FLAGS] on [u16]. *)
Definition from_bits (b : Z) : Result FrameError FrameFlags :=
  let unknown := Z.land b (Z.lxor U16_MAX KNOWN_FLAGS) in
  if negb (unknown =? 0) then Err (UnknownFlags unknown) else Ok (mkFlags b).

Definition contains (self other : FrameFlags) : bool :=
  Z.land (bits self) (bits other) =? bits other.
Definition is_syn (f : FrameFlags) : bool := contains f SYN.
Definition is_more (f : FrameFlags) : bool := contains f MORE.
Definition is_fin (f : FrameFlags) : bool := contains f FIN.
Definition is_dat (f : FrameFlags) : bool := contains f DAT.
Definition bitor (a b : FrameFlags) : FrameFlags := mkFlags (Z.lor (bits a) (bits b)).
Infix "|:" := bitor (at level 50, left associativity) : rust_scope.

(** [Display]: [0x{:04x}]. *)
Definition flags_display (f : FrameFlags) : string := "0x" +:+ hex4 (bits f).

(** ** Frames *)

Record Frame := mkFrame {
  stream_id : Z;
  flags : FrameFlags;
  payload : list byte;
}.

#[export] Instance Frame_eq_dec : EqDecision Frame.
Proof. solve_decision. Defined.

Definition validate_maximum (maximum : Z) : Result FrameError unit :=
  if maximum >? U16_MAX then Err InvalidMaximum else Ok tt.

Definition validate_payload_len (length maximum : Z) : Result FrameError unit :=
  if length >? U16_MAX then Err (LengthOverflow length)
  else if length >? maximum then Err (PayloadTooLarge length maximum)
  else Ok tt.

(** [u16::try_from(n)] for a [usize]. *)
Definition u16_try_from (n : Z) : option Z := if n <=? U16_MAX then Some n else None.

Definition encode_with_limit (f : Frame) (maximum : Z) : Result FrameError (list byte) :=
  let? _ := validate_maximum maximum in
  let? _ := validate_payload_len (zlen (payload f)) maximum in
  let? payload_len :=
    ok_or (u16_try_from (zlen (payload f))) (LengthOverflow (zlen (payload f))) in
  let? _ :=
    ok_or (checked_add USIZE_MAX HEADER_LEN (zlen (payload f)))
          (LengthOverflow (zlen (payload f))) in
  Ok (to_le_bytes 4 (stream_id f) ++ to_le_bytes 2 (bits (flags f))
      ++ to_le_bytes 2 payload_len ++ payload f).

Definition encode (f : Frame) : Result FrameError (list byte) :=
  encode_with_limit f DEFAULT_MAX_PAYLOAD_LEN.

Definition decode_with_limit (input : list byte) (maximum : Z)
    : Result FrameError (Frame * Z) :=
  let? _ := validate_maximum maximum in
  if zlen input <? HEADER_LEN then Err (Incomplete HEADER_LEN (zlen input)) else
  let sid := from_le_bytes (take 4 input) in
  let? fl := from_bits (from_le_bytes (take 2 (drop 4 input))) in
  let payload_len := from_le_bytes (take 2 (drop 6 input)) in
  let? _ := validate_payload_len payload_len maximum in
  let? frame_len :=
    ok_or (checked_add USIZE_MAX HEADER_LEN payload_len) (LengthOverflow payload_len) in
  if zlen input <? frame_len then Err (Incomplete frame_len (zlen input)) else
  Ok (mkFrame sid fl (take (Z.to_nat (frame_len - HEADER_LEN)) (drop 8 input)), frame_len).

Definition decode (input : list byte) : Result FrameError (Frame * Z) :=
  decode_with_limit input DEFAULT_MAX_PAYLOAD_LEN.

(** ** Well-formedness

    What the Rust types guarantee of a frame: [stream_id] is a [u32], and the
    flags, whose field is private, come from [from_bits], the constants or
    [bitor]. *)
Definition flags_wf (f : FrameFlags) : Prop := 0 <= bits f <= KNOWN_FLAGS.
Definition frame_wf (f : Frame) : Prop := in_u32 (stream_id f) /\ flags_wf (flags f).

Lemma bits_small_cases (P : Z -> Prop) b :
  0 <= b <= 15 ->
  (forall n, (n < 16)%nat -> P (Z.of_nat n)) -> P b.
Proof. intros Hb HP. rewrite <- (Z2Nat.id b) by lia. apply HP. lia. Qed.

(** Sixteen cases, each closed by evaluation. *)
Ltac all_flag_bits :=
  match goal with
  | |- forall n, (n < 16)%nat -> _ =>
      let n := fresh "n" in let H := fresh "H" in
      intros n H; do 16 (destruct n as [|n]; [try done; vm_compute; try done|]); lia
  end.

Lemma unknown_mask_high_bits n : 4 <= n <= 15 ->
  Z.testbit (Z.lxor U16_MAX KNOWN_FLAGS) n = true.
Proof.
  intros Hn. rewrite <- (Z2Nat.id n) by lia.
  assert (Hk : (4 <= Z.to_nat n < 16)%nat) by lia. revert Hk.
  generalize (Z.to_nat n). intros k Hk.
  do 16 (destruct k as [|k]; [try lia; done|]). lia.
Qed.

Lemma from_bits_Ok b f :
  in_u16 b -> from_bits b = Ok f -> f = mkFlags b /\ flags_wf f.
Proof.
  unfold from_bits, flags_wf, in_u16. intros Hb H. run_cases. split; [done|].
  cbn [bits]. change KNOWN_FLAGS with 15. split; [lia|].
  destruct (Z_le_gt_dec b 15) as [|Hgt]; [done|exfalso].
  assert (Hlog : 4 <= Z.log2 b <= 15).
  { split; [apply Z.log2_le_pow2; lia|].
    enough (Z.log2 b < 16) by lia. apply Z.log2_lt_pow2; unfold U16_MAX in *; lia. }
  assert (Ht : Z.testbit (Z.land b (Z.lxor U16_MAX KNOWN_FLAGS)) (Z.log2 b) = true).
  { rewrite Z.land_spec, Z.bit_log2, unknown_mask_high_bits by lia. done. }
  rewrite H0, Z.testbit_0_l in Ht. done.
Qed.

Lemma from_bits_wf f : flags_wf f -> from_bits (bits f) = Ok f.
Proof.
  destruct f as [b]. unfold flags_wf. cbn [bits]. change KNOWN_FLAGS with 15.
  intros Hb. revert b Hb. intros b Hb.
  apply (bits_small_cases (fun b => from_bits b = Ok (mkFlags b)) b Hb). all_flag_bits.
Qed.

Lemma bitor_wf a b : flags_wf a -> flags_wf b -> flags_wf (a |: b).
Proof.
  destruct a as [a], b as [b]. unfold flags_wf. cbn [bits bitor].
  change KNOWN_FLAGS with 15. intros Ha Hb. split; [apply Z.lor_nonneg; lia|].
  enough (Z.lor a b < 2 ^ 4) by lia.
  destruct (Z.eq_dec (Z.lor a b) 0) as [->|]; [lia|].
  apply Z.log2_lt_pow2; [pose proof (Z.lor_nonneg a b); lia|].
  rewrite Z.log2_lor by lia.
  apply Z.max_lub_lt; eapply Z.le_lt_trans;
    [apply (Z.log2_le_mono _ 15); lia|done|apply (Z.log2_le_mono _ 15); lia|done].
Qed.

Lemma dat_wf : flags_wf DAT. Proof. by vm_compute. Qed.
Lemma fin_wf : flags_wf FIN. Proof. by vm_compute. Qed.
Lemma more_wf : flags_wf MORE. Proof. by vm_compute. Qed.
Lemma syn_wf : flags_wf SYN. Proof. by vm_compute. Qed.
#[export] Hint Resolve dat_wf fin_wf more_wf syn_wf bitor_wf : blnk.

(** ** The encoder as a specification: a fixed header before the payload *)

Definition header (f : Frame) : list byte :=
  to_le_bytes 4 (stream_id f) ++ to_le_bytes 2 (bits (flags f))
  ++ to_le_bytes 2 (zlen (payload f)).

Lemma length_header f : length (header f) = 8%nat.
Proof. unfold header. rewrite !length_app, !length_to_le_bytes. done. Qed.

Lemma encode_with_limit_Ok f m bs :
  encode_with_limit f m = Ok bs <->
  m <= U16_MAX /\ zlen (payload f) <= m /\ bs = header f ++ payload f.
Proof.
  unfold encode_with_limit, validate_maximum, validate_payload_len, u16_try_from,
    checked_add, header, USIZE_MAX, U64_MAX, HEADER_LEN, U16_MAX, ok_or.
  pose proof (zlen_nonneg (payload f)). rewrite !Z.gtb_ltb, <- !app_assoc.
  split; intros.
  - run_cases; try lia; repeat split; lia || done.
  - destruct_and!; subst. run_cases; try lia; done.
Qed.

Lemma zlen_frame_bytes f : zlen (header f ++ payload f) = 8 + zlen (payload f).
Proof. unfold zlen. rewrite length_app, length_header. lia. Qed.

(** The three header fields read back from any buffer that starts with the
    header. *)
Lemma header_fields f k :
  frame_wf f -> zlen (payload f) <= U16_MAX ->
  from_le_bytes (take 4 (header f ++ k)) = stream_id f /\
  from_le_bytes (take 2 (drop 4 (header f ++ k))) = bits (flags f) /\
  from_le_bytes (take 2 (drop 6 (header f ++ k))) = zlen (payload f).
Proof.
  intros [Hid Hfl] Hlen. pose proof (zlen_nonneg (payload f)).
  unfold header, in_u32, flags_wf, U32_MAX, U16_MAX in *. change KNOWN_FLAGS with 15 in *.
  set (a := to_le_bytes 4 _). set (b := to_le_bytes 2 (bits _)).
  set (c := to_le_bytes 2 (zlen _)).
  assert (Ha : length a = 4%nat) by apply length_to_le_bytes.
  assert (Hb : length b = 2%nat) by apply length_to_le_bytes.
  assert (Hc : length c = 2%nat) by apply length_to_le_bytes.
  rewrite <- !app_assoc. repeat split.
  - rewrite take_app_length' by done. apply from_to_le_bytes. lia.
  - rewrite drop_app_length', take_app_length' by done. apply from_to_le_bytes. lia.
  - rewrite (app_assoc a b), drop_app_length', take_app_length'
      by (rewrite ?length_app; lia).
    apply from_to_le_bytes. lia.
Qed.

(** Decoding a buffer that starts with a frame's header sees that frame, and
    decides only on whether the payload is complete. *)
Lemma decode_header f m k :
  frame_wf f -> m <= U16_MAX -> zlen (payload f) <= m ->
  decode_with_limit (header f ++ k) m =
  if zlen k <? zlen (payload f)
  then Err (Incomplete (8 + zlen (payload f)) (8 + zlen k))
  else Ok (mkFrame (stream_id f) (flags f) (take (length (payload f)) k),
           8 + zlen (payload f)).
Proof.
  intros Hwf Hm Hlen. pose proof (zlen_nonneg (payload f)). pose proof (zlen_nonneg k).
  destruct (header_fields f k Hwf) as (H1 & H2 & H3); [lia|].
  unfold decode_with_limit, validate_maximum, validate_payload_len, checked_add, ok_or.
  rewrite H1, H2, H3, (from_bits_wf (flags f)) by apply Hwf.
  rewrite drop_app_length' by (by rewrite length_header).
  rewrite !Z.gtb_ltb. unfold HEADER_LEN, USIZE_MAX, U64_MAX, U16_MAX in *.
  replace (zlen (header f ++ k)) with (8 + zlen k)
    by (unfold zlen; rewrite length_app, length_header; lia).
  assert (Hn : Z.to_nat (8 + zlen (payload f) - 8) = length (payload f))
    by (unfold zlen; lia).
  clear H1 H2 H3. run_cases; try lia; by rewrite ?Hn.
Qed.

(** ** Correctness of the codec *)

(** C4: round trip. A well-formed frame that encodes under a limit decodes back
    to itself under the same limit, consuming exactly the encoded bytes, whatever
    bytes follow it in the buffer. *)
Theorem swsp_roundtrip f m bs rest :
  frame_wf f -> encode_with_limit f m = Ok bs ->
  decode_with_limit (bs ++ rest) m = Ok (f, zlen bs).
Proof.
  intros Hwf (Hm & Hlen & ->)%encode_with_limit_Ok.
  rewrite <- app_assoc, decode_header, zlen_frame_bytes by done.
  rewrite (proj2 (Z.ltb_ge _ _)) by (autorewrite with blnk_rw; pose proof (zlen_nonneg rest); lia).
  rewrite take_app_length. destruct f; done.
Qed.

Definition sample_frame : Frame :=
  mkFrame 7 (SYN |: DAT) [x7b; x7d].

Lemma swsp_roundtrip_witness :
  decode_with_limit (header sample_frame ++ payload sample_frame ++ [xff]) 64
  = Ok (sample_frame, 10).
Proof.
  rewrite app_assoc.
  apply (swsp_roundtrip sample_frame 64 (header sample_frame ++ payload sample_frame) [xff]).
  - split; [unfold in_u32, U32_MAX; simpl; lia|apply bitor_wf; by vm_compute].
  - by vm_compute.
Defined.

(** A buffer of at least eight bytes starts with the header of a frame whose
    payload length is any list of the right size. *)
Lemma header_of_bytes input sid fl n pl :
  (8 <= length input)%nat ->
  sid = from_le_bytes (take 4 input) ->
  bits fl = from_le_bytes (take 2 (drop 4 input)) ->
  n = from_le_bytes (take 2 (drop 6 input)) -> zlen pl = n ->
  header (mkFrame sid fl pl) = take 8 input.
Proof.
  intros Hlen -> Hb -> Hpl. unfold header. cbn [stream_id flags payload].
  rewrite Hb, Hpl.
  rewrite <- (take_drop 4 (take 8 input)), take_take.
  rewrite <- (take_drop 2 (drop 4 (take 8 input))), drop_drop.
  rewrite skipn_firstn_comm, take_take, skipn_firstn_comm. simpl Nat.min. simpl Nat.sub. simpl Nat.add.
  set (a := take 4 input). set (b := take 2 (drop 4 input)). set (c := take 2 (drop 6 input)).
  assert (Ha : length a = 4%nat) by (unfold a; rewrite length_take; lia).
  assert (Hb' : length b = 2%nat) by (unfold b; rewrite length_take, length_drop; lia).
  assert (Hc : length c = 2%nat) by (unfold c; rewrite length_take, length_drop; lia).
  rewrite <- Ha at 1. rewrite <- Hb' at 1. rewrite <- Hc at 1.
  rewrite !to_from_le_bytes. done.
Qed.

(** What a successful decode has read from the buffer. *)
Lemma decode_with_limit_inv input m f n :
  decode_with_limit input m = Ok (f, n) ->
  let pl := from_le_bytes (take 2 (drop 6 input)) in
  m <= 65535 /\ pl <= 65535 /\ pl <= m /\ 8 <= zlen input /\ n = 8 + pl /\ n <= zlen input /\
  from_bits (from_le_bytes (take 2 (drop 4 input))) = Ok (flags f) /\
  stream_id f = from_le_bytes (take 4 input) /\
  payload f = take (Z.to_nat pl) (drop 8 input).
Proof.
  unfold decode_with_limit, validate_maximum, validate_payload_len, ok_or, checked_add,
    HEADER_LEN, U16_MAX.
  generalize (from_le_bytes (take 2 (drop 6 input))). intros pl.
  generalize (from_bits (from_le_bytes (take 2 (drop 4 input)))). intros fb.
  generalize (from_le_bytes (take 4 input)). intros sid H. cbn zeta.
  destruct (m >? 65535) eqn:?; [done|]. destruct (zlen input <? 8) eqn:?; [done|].
  destruct fb as [fl|]; [|done].
  destruct (pl >? 65535) eqn:?; [done|]. destruct (pl >? m) eqn:?; [done|].
  destruct (8 + pl <=? USIZE_MAX) eqn:?; [|done].
  destruct (zlen input <? 8 + pl) eqn:?; [done|].
  injection H as <- <-. cbn [flags stream_id payload].
  rewrite (Z.add_comm 8 pl), Z.add_simpl_r. bool_to_prop. repeat split; lia || done.
Qed.

Lemma from_le_bytes_2 l : 0 <= from_le_bytes (take 2 l) <= U16_MAX.
Proof.
  pose proof (from_le_bytes_range (take 2 l)) as Hr.
  assert (Hp : 256 ^ Z.of_nat (length (take 2 l)) <= 256 ^ 2).
  { apply Z.pow_le_mono_r; [lia|]. rewrite length_take. lia. }
  change (256 ^ 2) with 65536 in Hp. unfold U16_MAX. lia.
Qed.

Lemma from_le_bytes_4 l : 0 <= from_le_bytes (take 4 l) <= U32_MAX.
Proof.
  pose proof (from_le_bytes_range (take 4 l)) as Hr.
  assert (Hp : 256 ^ Z.of_nat (length (take 4 l)) <= 256 ^ 4).
  { apply Z.pow_le_mono_r; [lia|]. rewrite length_take. lia. }
  change (256 ^ 4) with 4294967296 in Hp. unfold U32_MAX. lia.
Qed.

(** C26: the decoder accepts only canonical encodings. Whatever it returns is a
    well-formed frame, the consumed count lies within the buffer, and encoding
    the frame under the same limit reproduces exactly the consumed bytes. *)
Theorem swsp_decode_canonical input m f n :
  decode_with_limit input m = Ok (f, n) ->
  frame_wf f /\ 8 <= n <= zlen input /\
  encode_with_limit f m = Ok (take (Z.to_nat n) input).
Proof.
  intros (Hm & Hp1 & Hp2 & Hl & -> & Hn & Hfl & Hid & Hpay)%decode_with_limit_inv.
  pose proof (from_le_bytes_2 (drop 6 input)) as Hr6.
  set (pl := from_le_bytes (take 2 (drop 6 input))) in *.
  apply from_bits_Ok in Hfl as [Hfl Hwf]; [|apply from_le_bytes_2].
  split; [|split; [lia|]].
  { split; [|done]. rewrite Hid. apply from_le_bytes_4. }
  assert (Hb : zlen (payload f) = pl).
  { rewrite Hpay. unfold zlen in *. rewrite length_take, length_drop. lia. }
  apply encode_with_limit_Ok. rewrite Hb. unfold U16_MAX. split; [lia|split; [lia|]].
  destruct f as [sid fl body]. cbn [stream_id flags payload] in *.
  rewrite (header_of_bytes input _ _ pl body) by (done || (by rewrite Hfl) || unfold zlen in *; lia).
  rewrite Hpay, Z2Nat.inj_add by lia. symmetry. apply take_take_drop.
Qed.

Lemma swsp_decode_canonical_witness :
  frame_wf sample_frame /\ 8 <= 10 <= 11 /\
  encode_with_limit sample_frame 64 =
    Ok (take 10 (header sample_frame ++ payload sample_frame ++ [xff])).
Proof.
  apply (swsp_decode_canonical (header sample_frame ++ payload sample_frame ++ [xff])
           64 sample_frame 10).
  by vm_compute.
Defined.

(** partial input is never mistaken for malformed input. Every proper
    prefix of an encoded frame decodes to [Incomplete], reporting the received
    count and an expected count that exceeds it and stays within the frame. *)
Theorem swsp_prefix_incomplete f m p q :
  frame_wf f -> encode_with_limit f m = Ok (p ++ q) -> q <> [] ->
  exists expected, decode_with_limit p m = Err (Incomplete expected (zlen p)) /\
                   zlen p < expected <= zlen (p ++ q).
Proof.
  intros Hwf (Hm & Hlen & Hpq)%encode_with_limit_Ok Hq.
  assert (Hql : 0 < zlen q) by (destruct q; [done|unfold zlen; simpl; lia]).
  rewrite Hpq, zlen_frame_bytes. pose proof (zlen_nonneg (payload f)).
  apply (f_equal zlen) in Hpq as Hz. rewrite zlen_app, zlen_frame_bytes in Hz.
  destruct (Z.lt_ge_cases (zlen p) 8) as [Hp|Hp].
  - exists 8. split; [|lia]. unfold decode_with_limit, validate_maximum, HEADER_LEN.
    rewrite Z.gtb_ltb, (proj2 (Z.ltb_ge _ _)), (proj2 (Z.ltb_lt _ _)) by lia. done.
  - assert (Hpre : exists k, p = header f ++ k).
    { exists (drop 8 p). apply (f_equal (take 8)) in Hpq.
      rewrite take_app_le in Hpq by (unfold zlen in *; lia).
      rewrite take_app_length' in Hpq by (by rewrite length_header).
      rewrite <- Hpq. by rewrite take_drop. }
    destruct Hpre as [k ->].
    rewrite zlen_app in *. replace (zlen (header f)) with 8 in *
      by (unfold zlen; by rewrite length_header).
    exists (8 + zlen (payload f)).
    rewrite decode_header, (proj2 (Z.ltb_lt _ _)) by (done || lia). split; [done|lia].
Qed.

Lemma swsp_prefix_incomplete_witness :
  exists expected,
    decode_with_limit (header sample_frame ++ [x7b]) 64
      = Err (Incomplete expected 9) /\
    9 < expected <= zlen ((header sample_frame ++ [x7b]) ++ [x7d]).
Proof.
  apply (swsp_prefix_incomplete sample_frame 64 (header sample_frame ++ [x7b]) [x7d]).
  - split; [unfold in_u32, U32_MAX; simpl; lia|apply bitor_wf; by vm_compute].
  - by vm_compute.
  - done.
Defined.

(** the encoder's result on every input: an over-large limit is refused
    before anything else, a payload that does not fit sixteen bits is a length
    overflow, one above the limit is too large, and otherwise the header and
    payload are written. *)
Theorem swsp_encode_total f m :
  encode_with_limit f m =
  if m >? 65535 then Err InvalidMaximum
  else if zlen (payload f) >? 65535 then Err (LengthOverflow (zlen (payload f)))
  else if zlen (payload f) >? m then Err (PayloadTooLarge (zlen (payload f)) m)
  else Ok (header f ++ payload f).
Proof.
  destruct (encode_with_limit f m) eqn:E.
  - apply encode_with_limit_Ok in E as (? & ? & ->). unfold U16_MAX in *.
    run_cases; lia || done.
  - revert E. unfold encode_with_limit, validate_maximum, validate_payload_len,
      u16_try_from, checked_add, ok_or, USIZE_MAX, U64_MAX, U16_MAX, HEADER_LEN.
    intros E. run_cases; lia || done.
Qed.

(** Within the default limit a frame always encodes. *)
Lemma encode_default_Ok f :
  zlen (payload f) <= DEFAULT_MAX_PAYLOAD_LEN -> encode f = Ok (header f ++ payload f).
Proof.
  intros H. apply encode_with_limit_Ok. unfold DEFAULT_MAX_PAYLOAD_LEN, U16_MAX in *.
  repeat split; lia.
Qed.

Lemma encode_default_too_large f :
  DEFAULT_MAX_PAYLOAD_LEN < zlen (payload f) -> is_ok (encode f) = false.
Proof.
  intros H. destruct (encode f) eqn:E; [|done].
  apply encode_with_limit_Ok in E as (? & ? & ?). unfold DEFAULT_MAX_PAYLOAD_LEN in *. lia.
Qed.
