(* ===== verification/Streams.v ===== *)
(** * The stream registry

    [src/src/stream/mod.rs]: stream kinds, registry entries and the registry
    that allocates, accepts, closes and clears stream identifiers. The
    identifier search loop is modelled with fuel; [allocate_loop_terminates] shows
    that one iteration more than the number of active streams always suffices,
    that the search returns the first free identifier in cyclic order and that
    it fails exactly when all [2^32 - 1] identifiers are in use. *)
From S2P Require Import Prelude Errors.

Inductive StreamKind := Http | File | Tcp | WebSocket | Shell.

#[export] Instance StreamKind_eq_dec : EqDecision StreamKind.
Proof. solve_decision. Defined.

Definition kind_as_str (k : StreamKind) : string :=
  match k with
  | Http => "http"
  | File => "file"
  | Tcp => "tcp"
  | WebSocket => "websocket"
  | Shell => "shell"
  end.

(** The derived [Debug] text, used in error messages. *)
Definition kind_debug (k : StreamKind) : string :=
  match k with
  | Http => "Http"
  | File => "File"
  | Tcp => "Tcp"
  | WebSocket => "WebSocket"
  | Shell => "Shell"
  end.

Record StreamEntry := mkEntry {
  entry_id : Z;
  entry_kind : StreamKind;
  connect_path : string;
}.

#[export] Instance StreamEntry_eq_dec : EqDecision StreamEntry.
Proof. solve_decision. Defined.

Record StreamRegistry := mkRegistry {
  next_id : Z;
  active : gmap Z StreamEntry;
  closed_count : Z;
}.

(** ** Operations *)

Definition registry_new : StreamRegistry := mkRegistry 1 ∅ 0.
(** The derived [Default]. *)
Definition registry_default : StreamRegistry := mkRegistry 0 ∅ 0.

Definition registry_len (r : StreamRegistry) : Z := Z.of_nat (size (active r)).
Definition registry_is_empty (r : StreamRegistry) : bool := registry_len r =? 0.
Definition registry_contains (r : StreamRegistry) (id : Z) : bool :=
  bool_decide (is_Some (active r !! id)).
Definition registry_get (r : StreamRegistry) (id : Z) : option StreamEntry := active r !! id.

(** [id.wrapping_add(1).max(1)] on [u32]. *)
Definition succ_id (id : Z) : Z := Z.max (wrapping_add U32_MAX id 1) 1.

Definition exhausted : BlnkError := ErrStream "stream id space exhausted".

(** The [loop] of [allocate_id]: the next identifier it leaves and its result;
    [None] when the fuel runs out. *)
Fixpoint allocate_loop (fuel : nat) (start next : Z) (act : gmap Z StreamEntry)
    : option (Z * BResult Z) :=
  match fuel with
  | O => None
  | S fuel =>
      let candidate := Z.max next 1 in
      let next' := succ_id candidate in
      match act !! candidate with
      | None => Some (next', Ok candidate)
      | Some _ =>
          if next' =? start then Some (next', Err exhausted)
          else allocate_loop fuel start next' act
      end
  end.

Definition allocate_id (r : StreamRegistry) : StreamRegistry * BResult Z :=
  let start := Z.max (next_id r) 1 in
  match allocate_loop (S (size (active r))) start (next_id r) (active r) with
  | Some (n, res) => (mkRegistry n (active r) (closed_count r), res)
  | None => (r, Err exhausted)
  end.

Definition open (r : StreamRegistry) (kind : StreamKind) (path : string)
    : StreamRegistry * BResult StreamEntry :=
  if trim_is_empty path then (r, Err (ErrStream "connect_path must not be empty")) else
  match allocate_id r with
  | (r, Err e) => (r, Err e)
  | (r, Ok id) =>
      let entry := mkEntry id kind path in
      (mkRegistry (next_id r) (<[id := entry]> (active r)) (closed_count r), Ok entry)
  end.

Definition accept (r : StreamRegistry) (id : Z) (kind : StreamKind) (path : string)
    : StreamRegistry * BResult StreamEntry :=
  if id =? 0 then (r, Err (ErrStream "stream id must be non-zero")) else
  if trim_is_empty path then (r, Err (ErrStream "connect_path must not be empty")) else
  if registry_contains r id
  then (r, Err (ErrStream ("stream id already active: " +:+ dec id))) else
  let next := if next_id r <=? id then succ_id id else next_id r in
  let entry := mkEntry id kind path in
  (mkRegistry next (<[id := entry]> (active r)) (closed_count r), Ok entry).

Definition close (r : StreamRegistry) (id : Z) : StreamRegistry * BResult StreamEntry :=
  match active r !! id with
  | None => (r, Err (ErrStream ("unknown stream id: " +:+ dec id)))
  | Some entry =>
      (mkRegistry (next_id r) (delete id (active r))
         (saturating_add U64_MAX (closed_count r) 1), Ok entry)
  end.

Definition clear (r : StreamRegistry) : StreamRegistry :=
  mkRegistry (next_id r) ∅
    (saturating_add U64_MAX (closed_count r) (Z.min (registry_len r) U64_MAX)).

(** ** The identifier search *)

Definition valid_id (id : Z) : Prop := 1 <= id <= U32_MAX.

Lemma succ_id_valid id : valid_id id -> valid_id (succ_id id).
Proof.
  unfold valid_id, succ_id, wrapping_add, U32_MAX. intros H.
  pose proof (Z.mod_pos_bound (id + 1) (4294967295 + 1)). lia.
Qed.

(** The [i]-th candidate of a search that starts at [start]. *)
Definition cyc (start : Z) (i : nat) : Z := (start - 1 + Z.of_nat i) mod U32_MAX + 1.

Section search.
Context (act : gmap Z StreamEntry) (start : Z) (Hstart : valid_id start).
Let N := U32_MAX.

Lemma cyc_valid i : valid_id (cyc start i).
Proof using Type.
  unfold cyc, valid_id, U32_MAX.
  pose proof (Z.mod_pos_bound (start - 1 + Z.of_nat i) 4294967295). lia.
Qed.

Lemma cyc_0 : cyc start 0 = start.
Proof using Hstart.
  unfold cyc, valid_id, U32_MAX in *. rewrite Z.mod_small; lia.
Qed.

Lemma cyc_unfold i : Z.of_nat i < N ->
  cyc start i = if start + Z.of_nat i <=? N then start + Z.of_nat i
                else start + Z.of_nat i - N.
Proof using Hstart.
  unfold N, cyc, valid_id, U32_MAX in *. intros Hi.
  destruct (start + Z.of_nat i <=? 4294967295) eqn:E; bool_to_prop.
  - rewrite Z.mod_small; lia.
  - rewrite <- (Z_mod_plus_full _ (-1)), Z.mod_small; lia.
Qed.

Lemma cyc_S i : Z.of_nat (S i) < N -> succ_id (cyc start i) = cyc start (S i).
Proof using Hstart.
  intros Hi. rewrite !cyc_unfold by lia.
  unfold succ_id, wrapping_add, N, valid_id, U32_MAX in *.
  rewrite Nat2Z.inj_succ in *. unfold Z.succ in *.
  run_cases.
  all: rewrite ?Z.mod_small by lia; try lia.
  replace (start + Z.of_nat i + 1) with (4294967295 + 1) by lia.
  rewrite Z_mod_same_full. lia.
Qed.

Lemma cyc_last i : Z.of_nat (S i) = N -> succ_id (cyc start i) = start.
Proof using Hstart.
  intros Hi. rewrite cyc_unfold by lia.
  unfold succ_id, wrapping_add, N, valid_id, U32_MAX in *. run_cases.
  - assert (start = 1) as -> by lia.
    replace (1 + Z.of_nat i + 1) with (4294967295 + 1) by lia.
    rewrite Z_mod_same_full. lia.
  - rewrite Z.mod_small; lia.
Qed.

Lemma cyc_S_ne_start i : Z.of_nat (S i) < N -> cyc start (S i) <> start.
Proof using Hstart.
  intros Hi. rewrite cyc_unfold by lia. unfold N, valid_id, U32_MAX in *.
  case_match; bool_to_prop; lia.
Qed.

Lemma cyc_inj i j : Z.of_nat i < N -> Z.of_nat j < N ->
  cyc start i = cyc start j -> i = j.
Proof using Hstart.
  intros Hi Hj. rewrite !cyc_unfold by lia. unfold N, valid_id, U32_MAX in *.
  repeat case_match; bool_to_prop; lia.
Qed.

(** Distinct candidates that are all taken: no more of them than streams. *)
Lemma taken_prefix_bound i : Z.of_nat i <= N ->
  (forall j, (j < i)%nat -> is_Some (act !! cyc start j)) -> (i <= size act)%nat.
Proof using Hstart.
  intros Hi Ht. rewrite <- size_dom.
  set (l := cyc start <$> seq 0 i).
  assert (Hnd : NoDup l).
  { apply NoDup_fmap_2_strong; [|apply NoDup_seq].
    intros x y Hx%elem_of_seq Hy%elem_of_seq. apply cyc_inj; lia. }
  replace i with (size (list_to_set l : gset Z)).
  2: { rewrite size_list_to_set by done. unfold l.
       by rewrite length_fmap, length_seq. }
  apply subseteq_size. intros x Hx%elem_of_list_to_set.
  apply list_elem_of_fmap in Hx as (j & -> & Hj%elem_of_seq).
  apply elem_of_dom, Ht. lia.
Qed.

(** The state of the search at its [i]-th candidate: with fuel left for one
    more than the remaining streams it stops at the first free candidate, or at
    the end of a full turn. *)
Lemma allocate_loop_from fuel i next :
  (i + fuel = S (size act))%nat -> Z.of_nat i < N -> Z.max next 1 = cyc start i ->
  (forall j, (j < i)%nat -> is_Some (act !! cyc start j)) ->
  exists k, Z.of_nat k < N /\
    (forall j, (j < k)%nat -> is_Some (act !! cyc start j)) /\
    ((act !! cyc start k = None /\
      allocate_loop fuel start next act = Some (succ_id (cyc start k), Ok (cyc start k)))
     \/ (is_Some (act !! cyc start k) /\ Z.of_nat (S k) = N /\
         allocate_loop fuel start next act = Some (start, Err exhausted))).
Proof using Hstart.
  revert i next. induction fuel as [|fuel IH]; intros i next Hf Hi Hn Ht.
  - exfalso. assert (i <= size act)%nat; [|lia]. apply taken_prefix_bound; [lia|done].
  - cbn [allocate_loop]. rewrite Hn.
    destruct (act !! cyc start i) as [e|] eqn:E; [|eauto 10].
    assert (Ht' : forall j, (j < S i)%nat -> is_Some (act !! cyc start j)).
    { intros j Hj. destruct (decide (j = i)) as [->|]; [eauto|apply Ht; lia]. }
    destruct (decide (Z.of_nat (S i) = N)) as [Hl|Hl].
    + rewrite cyc_last, Z.eqb_refl by done. exists i. eauto 10.
    + assert (Z.of_nat (S i) < N) by lia.
      rewrite cyc_S, (proj2 (Z.eqb_neq _ _)) by (auto using cyc_S_ne_start).
      apply (IH (S i)); [lia|lia|pose proof (cyc_valid (S i)); unfold valid_id in *; lia|done].
Qed.
End search.

Lemma cyc_surj start id : valid_id start -> valid_id id ->
  exists k, Z.of_nat k < U32_MAX /\ id = cyc start k.
Proof.
  intros Hs Hid. exists (Z.to_nat ((id - start) mod U32_MAX)).
  pose proof (Z.mod_pos_bound (id - start) U32_MAX).
  unfold valid_id, U32_MAX in *. split; [lia|].
  unfold cyc, U32_MAX. rewrite Z2Nat.id by lia.
  rewrite Zplus_mod_idemp_r. replace (start - 1 + (id - start)) with (id - 1) by lia.
  rewrite Z.mod_small; lia.
Qed.

(** the identifier search stops. One iteration more than the number of
    active streams is enough fuel from any [u32] starting point, so the [loop]
    always returns. *)
Theorem allocate_loop_terminates next act :
  0 <= next <= U32_MAX ->
  allocate_loop (S (size act)) (Z.max next 1) next act <> None.
Proof.
  intros Hn.
  assert (Hs : valid_id (Z.max next 1)) by (unfold valid_id, U32_MAX in *; lia).
  destruct (allocate_loop_from act (Z.max next 1) Hs (S (size act)) 0 next)
    as (k & _ & _ & [[_ ->]|(_ & _ & ->)]); [lia| | |lia|done|done].
  - unfold U32_MAX. lia.
  - by rewrite cyc_0.
Qed.

Lemma allocate_loop_terminates_witness :
  allocate_loop (S (size ({[1 := mkEntry 1 File "/"]} : gmap Z StreamEntry)))
    (Z.max 1 1) 1 {[1 := mkEntry 1 File "/"]} <> None.
Proof.
  apply (allocate_loop_terminates 1 {[1 := mkEntry 1 File "/"]}). unfold U32_MAX. lia.
Defined.

(** The two outcomes of [allocate_id]. *)
Lemma allocate_id_cases r : 0 <= next_id r <= U32_MAX ->
  let start := Z.max (next_id r) 1 in
  (exists k, Z.of_nat k < U32_MAX /\ active r !! cyc start k = None /\
     (forall j, (j < k)%nat -> is_Some (active r !! cyc start j)) /\
     allocate_id r = (mkRegistry (succ_id (cyc start k)) (active r) (closed_count r),
                      Ok (cyc start k)))
  \/ ((forall id, valid_id id -> is_Some (active r !! id)) /\
      allocate_id r = (mkRegistry start (active r) (closed_count r), Err exhausted)).
Proof.
  intros Hn start. subst start. set (start := Z.max (next_id r) 1).
  assert (Hs : valid_id start) by (unfold start, valid_id, U32_MAX in *; lia).
  unfold allocate_id. fold start.
  destruct (allocate_loop_from (active r) start Hs (S (size (active r))) 0 (next_id r))
    as (k & Hk & Ht & [[Hf ->]|(Hf & Hl & ->)]).
  1: lia. 1: unfold U32_MAX; lia. 1: by rewrite cyc_0. 1: lia.
  - left. eauto 10.
  - right. split; [|done]. intros id Hid.
    destruct (cyc_surj start id Hs Hid) as (j & Hj & ->).
    destruct (decide (j = k)) as [->|]; [done|apply Ht; lia].
Qed.

(** C17: what the search returns. On success the identifier is the first free
    one at or after [next_id] in cyclic order over [1 .. 2^32 - 1] (never 0,
    which is the control stream); it fails only when every identifier is
    taken. *)
Theorem allocate_id_first_free r :
  0 <= next_id r <= U32_MAX ->
  match allocate_id r with
  | (r', Ok id) =>
      active r !! id = None /\ valid_id id /\ active r' = active r /\
      next_id r' = succ_id id /\
      exists k, id = cyc (Z.max (next_id r) 1) k /\
        forall j, (j < k)%nat -> is_Some (active r !! cyc (Z.max (next_id r) 1) j)
  | (r', Err e) =>
      e = exhausted /\ active r' = active r /\
      forall id, valid_id id -> is_Some (active r !! id)
  end.
Proof.
  intros Hn. destruct (allocate_id_cases r Hn) as [(k & Hk & Hf & Ht & ->)|[Ha ->]].
  - repeat split; eauto using cyc_valid; apply cyc_valid.
  - done.
Qed.

(** The highest identifier is taken and the search starts there. *)
Definition wrapping_registry : StreamRegistry :=
  mkRegistry U32_MAX {[U32_MAX := mkEntry U32_MAX Tcp "t"]} 0.

Lemma allocate_id_first_free_witness :
  exists r', allocate_id wrapping_registry = (r', Ok 1) /\
             active wrapping_registry !! 1 = None /\ valid_id 1.
Proof.
  pose proof (allocate_id_first_free wrapping_registry) as H.
  assert (E : allocate_id wrapping_registry =
              (mkRegistry 2 (active wrapping_registry) 0, Ok 1)) by (by vm_compute).
  rewrite E in H. eexists. split; [exact E|].
  assert (Hn : 0 <= next_id wrapping_registry <= U32_MAX) by (split; by vm_compute).
  destruct (H Hn) as (Hfree & Hvalid & _). exact (conj Hfree Hvalid).
Defined.

(** ** The registry invariant *)

Record registry_wf (r : StreamRegistry) : Prop := mkRegistryWf {
  wf_next : 0 <= next_id r <= U32_MAX;
  wf_entries : map_Forall (fun id e =>
    valid_id id /\ entry_id e = id /\ trim_is_empty (connect_path e) = false) (active r);
  wf_closed : 0 <= closed_count r <= U64_MAX;
}.

Lemma registry_new_wf : registry_wf registry_new.
Proof. constructor; simpl; [unfold U32_MAX; lia|apply map_Forall_empty|unfold U64_MAX; lia]. Qed.

Lemma allocate_id_frame r r' res : registry_wf r -> allocate_id r = (r', res) ->
  registry_wf r' /\ active r' = active r /\ closed_count r' = closed_count r /\
  (forall id, res = Ok id -> active r !! id = None /\ valid_id id).
Proof.
  intros [Hn He Hc] H.
  destruct (allocate_id_cases r Hn) as [(k & Hk & Hf & Ht & E)|[Ha E]];
    rewrite E in H; simplify_eq/=;
    (split; [|by (repeat split; try done; intros; simplify_eq; try apply cyc_valid)]);
    constructor; try done; cbn.
  - pose proof (succ_id_valid _ (cyc_valid (Z.max (next_id r) 1) k)) as Hv.
    unfold valid_id in Hv. lia.
  - unfold U32_MAX in *. lia.
Qed.

(** [open] on success: a fresh, valid identifier, registered under its entry. *)
Lemma open_Ok r kind path r' e : registry_wf r -> open r kind path = (r', Ok e) ->
  active r !! entry_id e = None /\ valid_id (entry_id e) /\
  e = mkEntry (entry_id e) kind path /\
  active r' = <[entry_id e := e]> (active r) /\ closed_count r' = closed_count r.
Proof.
  intros Hwf. unfold open. destruct (trim_is_empty path); [done|].
  destruct (allocate_id r) as [r1 [id|]] eqn:E; [|done]. intros H; simplify_eq/=.
  pose proof (allocate_id_frame _ _ _ Hwf E) as (_ & -> & -> & Hid).
  destruct (Hid id) as [? ?]; done.
Qed.

Lemma registry_wf_insert r id kind path next :
  registry_wf r -> valid_id id -> trim_is_empty path = false -> 0 <= next <= U32_MAX ->
  registry_wf (mkRegistry next (<[id := mkEntry id kind path]> (active r)) (closed_count r)).
Proof.
  intros [Hn He Hc] Hid Hp Hnext. constructor; try done; cbn.
  by apply map_Forall_insert_2.
Qed.

Lemma open_wf r kind path : registry_wf r -> registry_wf (open r kind path).1.
Proof.
  intros Hwf. unfold open. destruct (trim_is_empty path) eqn:Hp; [done|].
  destruct (allocate_id r) as [r1 res] eqn:E.
  pose proof (allocate_id_frame _ _ _ Hwf E) as (Hwf1 & _ & _ & Hid).
  destruct res as [id|]; [|done]. cbn.
  apply registry_wf_insert; [done|by apply Hid|done|apply Hwf1].
Qed.

Lemma accept_wf r id kind path : in_u32 id -> registry_wf r ->
  registry_wf (accept r id kind path).1.
Proof.
  intros Hid Hwf. unfold accept. repeat (case_match; [done|]). bool_to_prop. cbn.
  assert (Hv : valid_id id) by (unfold in_u32, valid_id, U32_MAX in *; lia).
  apply registry_wf_insert; [done..|].
  destruct (next_id r <=? id); [|apply Hwf].
  pose proof (succ_id_valid id Hv). unfold valid_id, U32_MAX in *. lia.
Qed.

Lemma close_wf r id : registry_wf r -> registry_wf (close r id).1.
Proof.
  intros [Hn He Hc]. unfold close. case_match; [|done]. constructor; cbn; try done.
  - by apply map_Forall_delete.
  - apply saturating_add_range; unfold U64_MAX in *; lia.
Qed.

Lemma clear_wf r : registry_wf r -> registry_wf (clear r).
Proof.
  intros [Hn He Hc]. constructor; cbn; try done.
  apply saturating_add_range; unfold registry_len, U64_MAX in *; lia.
Qed.

#[export] Hint Resolve registry_new_wf open_wf accept_wf close_wf clear_wf : blnk.

(** ** Histories of a registry *)

Inductive RegistryOp :=
| OpOpen (kind : StreamKind) (path : string)
| OpAccept (id : Z) (kind : StreamKind) (path : string)
| OpClose (id : Z)
| OpClear.

(** One call: the new registry and how many streams it created. *)
Definition registry_step (r : StreamRegistry) (op : RegistryOp) : StreamRegistry * Z :=
  let created (res : StreamRegistry * BResult StreamEntry) :=
    (res.1, if is_ok res.2 then 1 else 0) in
  match op with
  | OpOpen kind path => created (open r kind path)
  | OpAccept id kind path => created (accept r id kind path)
  | OpClose id => ((close r id).1, 0)
  | OpClear => (clear r, 0)
  end.

Fixpoint registry_run (r : StreamRegistry) (ops : list RegistryOp) : StreamRegistry * Z :=
  match ops with
  | [] => (r, 0)
  | op :: ops =>
      let '(r1, n) := registry_step r op in
      let '(r2, m) := registry_run r1 ops in (r2, n + m)
  end.

(** The identifiers a caller passes are [u32]s. *)
Definition op_wf (op : RegistryOp) : Prop :=
  match op with OpAccept id _ _ => in_u32 id | _ => True end.

Lemma registry_step_wf r op : op_wf op -> registry_wf r -> registry_wf (registry_step r op).1.
Proof. destruct op; cbn; auto with blnk. Qed.

Lemma registry_run_wf ops r : Forall op_wf ops -> registry_wf r -> registry_wf (registry_run r ops).1.
Proof.
  intros Hops. revert r. induction Hops as [|op ops Hop Hops IH]; intros r Hr; [done|].
  cbn. pose proof (registry_step_wf r op Hop Hr) as H1.
  destruct (registry_step r op) as [r1 n]. pose proof (IH r1 H1) as H2.
  destruct (registry_run r1 ops) as [r2 m]. done.
Qed.

(** C32: the registry invariant. After any sequence of calls on a new registry
    every active identifier is a non-zero [u32], is stored under the entry that
    carries it, and has a non-blank connect path; the next identifier and the
    closed counter stay in their machine ranges. *)
Theorem registry_invariant ops :
  Forall op_wf ops -> registry_wf (registry_run registry_new ops).1.
Proof. auto using registry_run_wf with blnk. Qed.

Definition sample_ops : list RegistryOp :=
  [OpOpen File "/a"; OpAccept 4294967295 Shell "/s"; OpOpen Tcp " "; OpOpen Http "/b";
   OpClose 1; OpClear].

Lemma registry_invariant_witness : registry_wf (registry_run registry_new sample_ops).1.
Proof.
  apply (registry_invariant sample_ops).
  unfold sample_ops. repeat constructor; unfold in_u32, U32_MAX; cbn; lia.
Defined.

(** The streams a registry has seen: those still open and those closed. *)
Definition seen (r : StreamRegistry) : Z := registry_len r + closed_count r.

Lemma registry_len_insert r id e next c : active r !! id = None ->
  registry_len (mkRegistry next (<[id := e]> (active r)) c) = registry_len r + 1.
Proof.
  intros H. unfold registry_len. cbn [active]. rewrite map_size_insert_None by done. lia.
Qed.

Lemma registry_step_seen r op : registry_wf r -> seen r < U64_MAX ->
  seen (registry_step r op).1 = seen r + (registry_step r op).2.
Proof.
  intros Hwf Hs. pose proof (wf_closed _ Hwf). destruct op as [kind path|id kind path|id|]; cbn.
  - destruct (open r kind path) as [r' [e|e]] eqn:E; cbn.
    + apply open_Ok in E as (Hf & _ & _ & Ha & Hc); [|done].
      unfold seen, registry_len. rewrite Ha, Hc, map_size_insert_None by done. lia.
    + revert E. unfold open. destruct (trim_is_empty path); [intros; simplify_eq; lia|].
      destruct (allocate_id r) as [r1 [id|]] eqn:E1; [done|]. intros; simplify_eq.
      apply allocate_id_frame in E1 as (_ & Ha & Hc & _); [|done].
      unfold seen, registry_len. rewrite Ha, Hc. lia.
  - unfold accept, registry_contains. run_cases; cbn; try lia.
    all: unfold seen; rewrite registry_len_insert by (by apply eq_None_not_Some); cbn; lia.
  - unfold close. destruct (active r !! id) as [e|] eqn:E; cbn; [|lia].
    assert (Hd : registry_len r = Z.of_nat (S (size (delete id (active r))))).
    { unfold registry_len. rewrite <- (insert_delete_id (active r) id e E) at 1.
      by rewrite map_size_insert_None by apply lookup_delete_eq. }
    unfold seen, registry_len in *. cbn [active closed_count].
    rewrite saturating_add_exact; lia.
  - unfold seen, registry_len in *. cbn [active closed_count clear].
    rewrite map_size_empty, Z.min_l, saturating_add_exact by (unfold registry_len in *; lia).
    unfold registry_len. lia.
Qed.

Lemma registry_step_created r op : 0 <= (registry_step r op).2 <= 1.
Proof. destruct op; cbn; try case_match; lia. Qed.

(** no stream is lost or counted twice. Over any history that stays below
    the [u64] counter's range, the streams still open plus the closed counter
    equal those at the start plus the number of successful [open] and [accept]
    calls. *)
Theorem registry_accounting r ops :
  registry_wf r -> Forall op_wf ops -> seen r + zlen ops < U64_MAX ->
  registry_len (registry_run r ops).1 + closed_count (registry_run r ops).1 =
  registry_len r + closed_count r + (registry_run r ops).2.
Proof.
  intros Hr Hops. fold (seen (registry_run r ops).1) (seen r).
  revert r Hr. induction Hops as [|op ops Hop Hops IH]; intros r Hr Hb; cbn; [lia|].
  pose proof (registry_step_wf r op Hop Hr) as H1.
  pose proof (registry_step_created r op) as Hc.
  rewrite zlen_cons in Hb. pose proof (zlen_nonneg ops).
  pose proof (registry_step_seen r op Hr ltac:(lia)) as Hs.
  destruct (registry_step r op) as [r1 n]. cbn in *.
  specialize (IH r1 H1 ltac:(lia)).
  destruct (registry_run r1 ops) as [r2 m]. cbn in *. lia.
Qed.

Lemma registry_accounting_witness :
  registry_len (registry_run registry_new sample_ops).1
  + closed_count (registry_run registry_new sample_ops).1 =
  registry_len registry_new + closed_count registry_new + 3.
Proof.
  change 3 with (registry_run registry_new sample_ops).2.
  apply (registry_accounting registry_new sample_ops).
  - apply registry_new_wf.
  - unfold sample_ops. repeat constructor; unfold in_u32, U32_MAX; cbn; lia.
  - by vm_compute.
Defined.
