(* ===== verification/Pairing.v ===== *)
(** * The pairing protocol's messages

    [src/src/protocol/pairing.rs]: the commit/challenge/reveal messages, the
    commitment to a nonce, its verification, and the six-digit short
    authentication string both peers display. SHA-256, base64, the random
    source and constant-time comparison are the packages of [External]. *)
From S2P Require Import Prelude Errors External.

Definition NONCE_LEN : Z := 32.

Record PairCommit := mkPairCommit {
  commit_type : string;
  commit : string;
}.

Record PairChallenge := mkPairChallenge {
  challenge_type : string;
  nonce_d : list byte;
}.

Record PairReveal := mkPairReveal {
  reveal_type : string;
  nonce_c : list byte;
}.

Record PairCredentials := mkPairCredentials {
  credentials_type : string;
  uid : string;
  public_key : string;
  access_code : string;
}.

Record SasInput := mkSasInput {
  sas_nonce_c : list byte;
  sas_nonce_d : list byte;
  local_fp : string;
  remote_fp : string;
}.

Record SasResult := mkSasResult { sas : string }.

Section pairing.
Context `{Subtle, Sha2, Base64, RustFmt}.

Definition validate_nonce (nonce : list byte) : BResult unit :=
  if negb (zlen nonce =? NONCE_LEN)
  then Err (ErrProtocol ("nonce must be " +:+ dec NONCE_LEN +:+ " bytes, got "
                      +:+ dec (zlen nonce)))
  else Ok tt.

Definition commitment_for (nonce : list byte) : string := standard_encode (sha256 nonce).

Definition pair_commit_from_nonce (nonce : list byte) : BResult PairCommit :=
  let? _ := validate_nonce nonce in
  Ok (mkPairCommit "pair_commit" (commitment_for nonce)).

(** [getrandom::fill] either fills the buffer with the bytes of [random] or
    fails with a message. *)
Definition generate_nonce (random : Result string (list byte)) : BResult (list byte) :=
  match random with
  | Ok bytes => Ok (take (Z.to_nat NONCE_LEN) (bytes ++ replicate (Z.to_nat NONCE_LEN) x00))
  | Err error => Err (ErrProtocol ("generate nonce: " +:+ error))
  end.

Definition pair_challenge_new (random : Result string (list byte)) : BResult PairChallenge :=
  let? nonce := generate_nonce random in
  Ok (mkPairChallenge "pair_challenge" nonce).

Definition pair_reveal_from_nonce (nonce : list byte) : BResult PairReveal :=
  let? _ := validate_nonce nonce in
  Ok (mkPairReveal "pair_reveal" nonce).

Definition pair_credentials_new (uid public_key access_code : string) : PairCredentials :=
  mkPairCredentials "pair_credentials" uid public_key access_code.

Definition verify_commitment (commit : string) (nonce : list byte) : BResult bool :=
  let? _ := validate_nonce nonce in
  let expected := commitment_for nonce in
  Ok (ct_eq (as_bytes expected) (as_bytes commit)).

(** [{value:06}] for a value below one million. *)
Definition digit (z : Z) : byte := byte_of (48 + z mod 10).
Definition fmt06 (v : Z) : string :=
  String.string_of_list_byte
    [digit (v / 100000); digit (v / 10000); digit (v / 1000);
     digit (v / 100); digit (v / 10); digit v].

Definition compute_sas (input : SasInput) : BResult SasResult :=
  let? _ := validate_nonce (sas_nonce_c input) in
  let? _ := validate_nonce (sas_nonce_d input) in
  let '(first_fingerprint, second_fingerprint) :=
    if str_leb (local_fp input) (remote_fp input)
    then (local_fp input, remote_fp input)
    else (remote_fp input, local_fp input) in
  let digest := sha256 (sas_nonce_c input ++ sas_nonce_d input
                        ++ as_bytes first_fingerprint ++ as_bytes second_fingerprint) in
  let? eight :=
    if bool_decide (length (take 8 digest) = 8%nat) then Ok (take 8 digest)
    else Err (ErrProtocol "SAS digest is too short") in
  let value := from_le_bytes eight mod 1000000 in
  Ok (mkSasResult (fmt06 value)).

(** The nonce fields on the wire: unpadded base64. *)
Definition base64_bytes_serialize (bytes : list byte) : string := standard_no_pad_encode bytes.
Definition base64_bytes_deserialize (encoded : string) : Result string (list byte) :=
  standard_no_pad_decode encoded.

(** The hand-written [Debug] implementations. *)
Definition pair_challenge_debug (m : PairChallenge) : string :=
  "PairChallenge { message_type: " +:+ str_debug (challenge_type m)
  +:+ ", nonce_d: " +:+ str_debug "[REDACTED]" +:+ " }".
Definition pair_reveal_debug (m : PairReveal) : string :=
  "PairReveal { message_type: " +:+ str_debug (reveal_type m)
  +:+ ", nonce_c: " +:+ str_debug "[REDACTED]" +:+ " }".
Definition pair_credentials_debug (m : PairCredentials) : string :=
  "PairCredentials { message_type: " +:+ str_debug (credentials_type m)
  +:+ ", uid: " +:+ str_debug (uid m) +:+ ", public_key: " +:+ str_debug (public_key m)
  +:+ ", access_code: " +:+ str_debug "[REDACTED]" +:+ " }".

Lemma validate_nonce_Ok nonce : validate_nonce nonce = Ok tt <-> zlen nonce = NONCE_LEN.
Proof using Type.
  unfold validate_nonce. destruct (zlen nonce =? NONCE_LEN) eqn:E; bool_to_prop; naive_solver.
Qed.

Lemma verify_commitment_Ok `{!SubtleLaws, !Base64Laws} commit nonce b :
  verify_commitment commit nonce = Ok b <->
  zlen nonce = NONCE_LEN /\ (b = true <-> commit = commitment_for nonce).
Proof using Type.
  unfold verify_commitment.
  destruct (validate_nonce nonce) as [[]|e] eqn:E.
  - apply validate_nonce_Ok in E.
    pose proof (ct_eq_spec (as_bytes (commitment_for nonce)) (as_bytes commit)) as Hc.
    assert (Hi : as_bytes (commitment_for nonce) = as_bytes commit <->
                 commit = commitment_for nonce).
    { split; [intros; symmetry; by apply as_bytes_inj|by intros ->]. }
    rewrite Hi in Hc. destruct (ct_eq _ _), b; split; intros; simplify_eq; naive_solver.
  - split; [done|]. intros [Hz _]. apply validate_nonce_Ok in Hz. congruence.
Qed.
End pairing.

(** commit and reveal. The commitment built from a nonce verifies against
    that nonce, and a nonce that verifies against it has the same SHA-256
    digest: opening a commitment to a different value needs a collision. *)
Theorem commitment_binding `{Subtle, Sha2, Base64} `{!SubtleLaws, !Base64Laws}
    nonce c nonce' :
  pair_commit_from_nonce nonce = Ok c ->
  verify_commitment (commit c) nonce = Ok true /\
  (verify_commitment (commit c) nonce' = Ok true ->
   sha256 nonce' = sha256 nonce /\ zlen nonce' = zlen nonce).
Proof.
  unfold pair_commit_from_nonce. intros Hc.
  destruct (validate_nonce nonce) as [[]|] eqn:E; simplify_eq/=.
  apply validate_nonce_Ok in E. rewrite !verify_commitment_Ok. split; [done|].
  intros [Hl [Heq _]]. specialize (Heq eq_refl).
  apply standard_encode_inj in Heq. split; [done|congruence].
Qed.

Lemma commitment_binding_witness :
  let n := replicate 32 x01 in
  @verify_commitment Concrete.subtle Concrete.sha2 Concrete.base64
    (String.string_of_list_byte n) n = Ok true.
Proof.
  apply (@commitment_binding Concrete.subtle Concrete.sha2 Concrete.base64
           Concrete.subtle_laws Concrete.base64_laws (replicate 32 x01)
           (mkPairCommit "pair_commit" (String.string_of_list_byte (replicate 32 x01))) []).
  by vm_compute.
Defined.

(** both peers derive the same authentication string. Swapping the local
    and the remote fingerprint, which is how the two sides call the function,
    does not change the result, errors included. *)
Theorem sas_symmetric `{Sha2} nc nd fp1 fp2 :
  compute_sas (mkSasInput nc nd fp1 fp2) = compute_sas (mkSasInput nc nd fp2 fp1).
Proof.
  unfold compute_sas. cbn [sas_nonce_c sas_nonce_d local_fp remote_fp].
  destruct (validate_nonce nc); [|done]. destruct (validate_nonce nd); [|done].
  destruct (str_leb fp1 fp2) eqn:E1, (str_leb fp2 fp1) eqn:E2; try done.
  - by rewrite (str_leb_antisym fp1 fp2 E1 E2).
  - apply str_leb_total in E1. congruence.
Qed.

Lemma digit_range z : 48 <= byte_val (digit z) <= 57.
Proof.
  unfold digit. rewrite byte_val_of. pose proof (Z.mod_pos_bound z 10).
  rewrite Z.mod_small; lia.
Qed.

(** the authentication string always exists for 32-byte nonces and is six
    ASCII digits. *)
Theorem sas_six_digits `{Sha2} `{!Sha2Laws} input :
  zlen (sas_nonce_c input) = NONCE_LEN -> zlen (sas_nonce_d input) = NONCE_LEN ->
  exists r, compute_sas input = Ok r /\ str_len (sas r) = 6 /\
            Forall (fun b => 48 <= byte_val b <= 57) (as_bytes (sas r)).
Proof.
  intros Hc Hd. unfold compute_sas.
  rewrite (proj2 (validate_nonce_Ok _) Hc), (proj2 (validate_nonce_Ok _) Hd).
  destruct (if str_leb _ _ then _ else _) as [f1 f2].
  rewrite bool_decide_eq_true_2 by (rewrite length_take, sha256_length; done).
  eexists. split; [done|]. unfold fmt06, str_len, as_bytes. cbn [sas].
  rewrite String.list_byte_of_string_of_list_byte.
  split; [done|]. repeat constructor; apply digit_range.
Qed.

Lemma sas_six_digits_witness :
  exists r, @compute_sas Concrete.sha2
              (mkSasInput (replicate 32 x01) (replicate 32 x02) "local" "remote") = Ok r /\
    str_len (sas r) = 6 /\ Forall (fun b => 48 <= byte_val b <= 57) (as_bytes (sas r)).
Proof.
  apply (@sas_six_digits Concrete.sha2 Concrete.sha2_laws
           (mkSasInput (replicate 32 x01) (replicate 32 x02) "local" "remote"));
    by vm_compute.
Defined.
