(* ===== verification/Session.v ===== *)
(** * The session state machine

    [src/src/session/mod.rs]: the control messages' constructors, the session
    configuration, and [Session], which tracks the authentication state, the
    PIN attempts with their retry delay, the stream registry and the traffic
    counters. *)
From S2P Require Import Prelude Errors External Streams.

Definition PIN_LEN : Z := 6.

(** ** Control messages of the session layer *)

Record ConnectMessage := mkConnectMessage {
  connect_type : string;
  connect_msg_path : string;
  connect_version : option Z;
}.

Definition connect_message_new (path : string) (version : option Z) : BResult ConnectMessage :=
  if trim_is_empty path then Err (ErrSession "connect path must not be empty")
  else Ok (mkConnectMessage "connect" path version).

Record AuthRequiredMessage := mkAuthRequiredMessage { auth_required_type : string }.

Definition auth_required_default : AuthRequiredMessage := mkAuthRequiredMessage "auth_required".

Record AuthMessage := mkAuthMessage {
  auth_type : string;
  auth_pin : string;
}.

Definition auth_message_new (pin : string) : BResult AuthMessage :=
  if trim_is_empty pin then Err (ErrSession "PIN must not be empty")
  else Ok (mkAuthMessage "auth" pin).

Record AuthResultMessage := mkAuthResultMessage {
  auth_result_type : string;
  success : bool;
}.

Record ReadyMessage := mkReadyMessage {
  ready_type : string;
  server_version : Z;
  capabilities : list string;
  routing : string;
}.

Definition ready_message_new (server_version : Z) (capabilities : list string)
    (routing : string) : BResult ReadyMessage :=
  if negb (str_eqb routing "target-prefix") && negb (str_eqb routing "direct")
  then Err (ErrSession ("unsupported routing mode: " +:+ routing))
  else Ok (mkReadyMessage "ready" server_version capabilities routing).

Record ControlErrorMessage := mkControlErrorMessage {
  control_error_type : string;
  control_error_message : string;
}.

Definition control_error_new (message : string) : BResult ControlErrorMessage :=
  if trim_is_empty message
  then Err (ErrSession "control error message must not be empty")
  else Ok (mkControlErrorMessage "error" message).

(** ** Configuration and state *)

Record SessionConfig := mkSessionConfig {
  pin_required : bool;
  max_auth_fails : Z;
  pin_fail_delay : Z;
}.

Definition session_config_default : SessionConfig :=
  mkSessionConfig true 3 (from_millis 2000).

Definition session_config_validate (c : SessionConfig) : BResult unit :=
  if pin_required c && (max_auth_fails c =? 0)
  then Err (ErrSession "max_auth_fails must be greater than zero when PIN auth is enabled")
  else Ok tt.

Inductive SessionState := Connecting | Authenticating | Ready | Closed.

#[export] Instance SessionState_eq_dec : EqDecision SessionState.
Proof. solve_decision. Defined.

Definition state_debug (s : SessionState) : string :=
  match s with
  | Connecting => "Connecting"
  | Authenticating => "Authenticating"
  | Ready => "Ready"
  | Closed => "Closed"
  end.

Inductive AuthOutcome :=
| AuthReady
| AuthRejected (attempts_remaining : Z)
| AuthClosed.

Record SessionStats := mkStats {
  bytes_received : Z;
  bytes_sent : Z;
  frames_received : Z;
  frames_sent : Z;
}.

Definition stats_default : SessionStats := mkStats 0 0 0 0.

Record Session := mkSession {
  state : SessionState;
  config : SessionConfig;
  expected_pin : option string;
  auth_attempts : Z;
  registry : StreamRegistry;
  stats : SessionStats;
  next_auth_allowed_at : option Z;
}.

Definition set_state (s : Session) (st : SessionState) : Session :=
  mkSession st (config s) (expected_pin s) (auth_attempts s) (registry s) (stats s)
    (next_auth_allowed_at s).
Definition set_attempts (s : Session) (n : Z) : Session :=
  mkSession (state s) (config s) (expected_pin s) n (registry s) (stats s)
    (next_auth_allowed_at s).
Definition set_registry (s : Session) (r : StreamRegistry) : Session :=
  mkSession (state s) (config s) (expected_pin s) (auth_attempts s) r (stats s)
    (next_auth_allowed_at s).
Definition set_stats (s : Session) (st : SessionStats) : Session :=
  mkSession (state s) (config s) (expected_pin s) (auth_attempts s) (registry s) st
    (next_auth_allowed_at s).
Definition set_next_auth (s : Session) (t : option Z) : Session :=
  mkSession (state s) (config s) (expected_pin s) (auth_attempts s) (registry s) (stats s) t.

Definition session_new (config : SessionConfig) (expected_pin : option string)
    : BResult Session :=
  let? _ := session_config_validate config in
  let? _ :=
    if pin_required config then
      let pin := default EmptyString expected_pin in
      if trim_is_empty pin
      then Err (ErrSession "expected PIN is required when PIN auth is enabled")
      else if negb (str_len pin =? PIN_LEN)
      then Err (ErrSession ("expected PIN must be exactly " +:+ dec PIN_LEN +:+ " bytes"))
      else Ok tt
    else Ok tt in
  Ok (mkSession Connecting config expected_pin 0 registry_new stats_default None).

(** ** Operations *)

Definition begin_authentication (s : Session) : Session * BResult (option AuthRequiredMessage) :=
  if negb (bool_decide (state s = Connecting))
  then (s, Err (ErrSession ("cannot begin authentication from " +:+ state_debug (state s))))
  else if pin_required (config s)
  then (set_state s Authenticating, Ok (Some auth_required_default))
  else (set_state s Ready, Ok None).

Definition accept_auth_required (s : Session) : Session * BResult unit :=
  match state s with
  | Connecting | Authenticating => (set_state s Authenticating, Ok tt)
  | st => (s, Err (ErrSession ("cannot accept auth_required from " +:+ state_debug st)))
  end.

Definition accept_auth_result (s : Session) (success : bool) : Session * BResult unit :=
  if negb (bool_decide (state s = Authenticating))
  then (s, Err (ErrSession ("cannot accept auth_result from " +:+ state_debug (state s))))
  else (if success then set_next_auth s None else s, Ok tt).

Definition mark_ready (s : Session) : Session * BResult unit :=
  match state s with
  | Connecting | Authenticating => (set_next_auth (set_state s Ready) None, Ok tt)
  | st => (s, Err (ErrSession ("cannot mark session ready from " +:+ state_debug st)))
  end.

Definition session_close (s : Session) : Session :=
  set_next_auth (set_state (set_registry s (clear (registry s))) Closed) None.

(** [buf[..n].copy_from_slice(&src[..n])] into a zeroed [PIN_LEN]-byte buffer. *)
Definition fixed_pin (src : list byte) : list byte :=
  let n := Nat.min (length src) (Z.to_nat PIN_LEN) in
  take n src ++ drop n (replicate (Z.to_nat PIN_LEN) x00).

Section session.
Context `{Subtle}.

Definition constant_time_pin_eq (expected provided : list byte) : bool :=
  let expected_fixed := fixed_pin expected in
  let provided_fixed := fixed_pin provided in
  let contents_match := ct_eq expected_fixed provided_fixed in
  let expected_len_match := zlen expected =? PIN_LEN in
  let provided_len_match := zlen provided =? PIN_LEN in
  contents_match && expected_len_match && provided_len_match.

(** Whether the provided PIN is the expected one. *)
Definition pin_matches (s : Session) (pin : string) : bool :=
  match expected_pin s with
  | Some expected => constant_time_pin_eq (as_bytes expected) (as_bytes pin)
  | None => false
  end.

(** Whether a pending retry delay still blocks an attempt at [now]. *)
Definition retry_blocked (s : Session) (now : Z) : bool :=
  match next_auth_allowed_at s with
  | Some next_allowed => now <? next_allowed
  | None => false
  end.

Definition authenticate (s : Session) (pin : string) (now : Z)
    : Session * BResult AuthOutcome :=
  if negb (bool_decide (state s = Authenticating))
  then (s, Err (ErrSession ("cannot authenticate from " +:+ state_debug (state s))))
  else if retry_blocked s now
  then (s, Err (ErrSession "PIN retry delay has not elapsed"))
  else if pin_matches s pin
  then (set_next_auth (set_state s Ready) None, Ok AuthReady)
  else
    let next_attempts := saturating_add U32_MAX (auth_attempts s) 1 in
    if max_auth_fails (config s) <=? next_attempts
    then (session_close (set_attempts s next_attempts), Ok AuthClosed)
    else
      match checked_add INSTANT_MAX now (pin_fail_delay (config s)) with
      | None => (s, Err (ErrSession "PIN retry delay is too large"))
      | Some next =>
          (set_next_auth (set_attempts s next_attempts) (Some next),
           Ok (AuthRejected (max_auth_fails (config s) - next_attempts)))
      end.
End session.

Definition open_stream (s : Session) (kind : StreamKind) (path : string)
    : Session * BResult StreamEntry :=
  if negb (bool_decide (state s = Ready))
  then (s, Err (ErrSession ("cannot open stream from " +:+ state_debug (state s))))
  else let '(r, res) := open (registry s) kind path in (set_registry s r, res).

Definition accept_stream (s : Session) (id : Z) (kind : StreamKind) (path : string)
    : Session * BResult StreamEntry :=
  if negb (bool_decide (state s = Ready))
  then (s, Err (ErrSession ("cannot accept stream from " +:+ state_debug (state s))))
  else let '(r, res) := accept (registry s) id kind path in (set_registry s r, res).

Definition close_stream (s : Session) (id : Z) : Session * BResult StreamEntry :=
  let '(r, res) := close (registry s) id in (set_registry s r, res).

Definition record_received (s : Session) (bytes : Z) : Session :=
  set_stats s (mkStats (saturating_add U64_MAX (bytes_received (stats s)) bytes)
                       (bytes_sent (stats s))
                       (saturating_add U64_MAX (frames_received (stats s)) 1)
                       (frames_sent (stats s))).

Definition record_sent (s : Session) (bytes : Z) : Session :=
  set_stats s (mkStats (bytes_received (stats s))
                       (saturating_add U64_MAX (bytes_sent (stats s)) bytes)
                       (frames_received (stats s))
                       (saturating_add U64_MAX (frames_sent (stats s)) 1)).

Definition stream_entry (s : Session) (id : Z) : option StreamEntry :=
  registry_get (registry s) id.
Definition active_streams (s : Session) : Z := registry_len (registry s).

(** ** The PIN comparison *)

Lemma fixed_pin_exact src : zlen src = PIN_LEN -> fixed_pin src = src.
Proof.
  unfold fixed_pin, zlen, PIN_LEN. intros Hl.
  replace (Nat.min (length src) (Z.to_nat 6)) with (length src) by lia.
  rewrite take_ge, drop_ge, app_nil_r by (rewrite ?length_replicate; lia). done.
Qed.

Lemma pin_eq_spec `{Subtle} `{!SubtleLaws} expected provided :
  constant_time_pin_eq expected provided = true <->
  zlen expected = PIN_LEN /\ expected = provided.
Proof.
  unfold constant_time_pin_eq. rewrite !andb_true_iff, !Z.eqb_eq, ct_eq_spec.
  split.
  - intros [[Hc He] Hp]. rewrite !fixed_pin_exact in Hc by done. done.
  - intros [He ->]. done.
Qed.

(** the constant-time comparison over zero-padded buffers is exact equality
    of six-byte PINs: padding and truncation never make two different inputs
    equal, and no PIN of another length is accepted. *)
Theorem constant_time_pin_eq_spec `{Subtle} `{!SubtleLaws} expected provided :
  constant_time_pin_eq expected provided = true <->
  zlen expected = PIN_LEN /\ zlen provided = PIN_LEN /\ expected = provided.
Proof. rewrite pin_eq_spec. naive_solver congruence. Qed.

Lemma constant_time_pin_eq_spec_witness :
  @constant_time_pin_eq Concrete.subtle (as_bytes "123456") (as_bytes "123456") = true <->
  zlen (as_bytes "123456") = PIN_LEN /\ zlen (as_bytes "123456") = PIN_LEN /\
  as_bytes "123456" = as_bytes "123456".
Proof.
  exact (@constant_time_pin_eq_spec Concrete.subtle Concrete.subtle_laws
           (as_bytes "123456") (as_bytes "123456")).
Defined.

(** ** Invariant of a session's life *)

Inductive SessionOp :=
| OpBeginAuthentication
| OpAcceptAuthRequired
| OpAcceptAuthResult (success : bool)
| OpMarkReady
| OpAuthenticate (pin : string) (now : Z)
| OpOpenStream (kind : StreamKind) (path : string)
| OpAcceptStream (id : Z) (kind : StreamKind) (path : string)
| OpCloseStream (id : Z)
| OpRecordReceived (bytes : Z)
| OpRecordSent (bytes : Z)
| OpSessionClose.

Definition session_step `{Subtle} (s : Session) (op : SessionOp) : Session :=
  match op with
  | OpBeginAuthentication => (begin_authentication s).1
  | OpAcceptAuthRequired => (accept_auth_required s).1
  | OpAcceptAuthResult success => (accept_auth_result s success).1
  | OpMarkReady => (mark_ready s).1
  | OpAuthenticate pin now => (authenticate s pin now).1
  | OpOpenStream kind path => (open_stream s kind path).1
  | OpAcceptStream id kind path => (accept_stream s id kind path).1
  | OpCloseStream id => (close_stream s id).1
  | OpRecordReceived bytes => record_received s bytes
  | OpRecordSent bytes => record_sent s bytes
  | OpSessionClose => session_close s
  end.

Definition session_run `{Subtle} (s : Session) (ops : list SessionOp) : Session :=
  fold_left session_step ops s.

(** The arguments are in the ranges of their Rust types. *)
Definition session_op_wf (op : SessionOp) : Prop :=
  match op with
  | OpAcceptStream id _ _ => in_u32 id
  | OpRecordReceived bytes | OpRecordSent bytes => in_u64 bytes
  | _ => True
  end.

Definition config_wf (c : SessionConfig) : Prop :=
  in_u32 (max_auth_fails c) /\ 0 <= pin_fail_delay c.

Definition stats_wf (st : SessionStats) : Prop :=
  in_u64 (bytes_received st) /\ in_u64 (bytes_sent st) /\
  in_u64 (frames_received st) /\ in_u64 (frames_sent st).

Record session_inv (s : Session) : Prop := mkSessionInv {
  inv_config : config_wf (config s);
  inv_registry : registry_wf (registry s);
  (** streams exist only while the session is ready *)
  inv_streams : state s <> Ready -> active (registry s) = ∅;
  (** a retry delay is pending only while authenticating *)
  inv_delay : state s <> Authenticating -> next_auth_allowed_at s = None;
  inv_attempts : in_u32 (auth_attempts s);
  (** an open PIN session has attempts left *)
  inv_budget : pin_required (config s) = true -> state s <> Closed ->
               auth_attempts s < max_auth_fails (config s);
  inv_bound : pin_required (config s) = true ->
              auth_attempts s <= max_auth_fails (config s);
  inv_pin : pin_required (config s) = true ->
            exists p, expected_pin s = Some p /\ str_len p = PIN_LEN;
  inv_stats : stats_wf (stats s);
}.

Lemma session_new_Ok c pin s : session_new c pin = Ok s ->
  s = mkSession Connecting c pin 0 registry_new stats_default None /\
  (pin_required c = true ->
   max_auth_fails c <> 0 /\ exists p, pin = Some p /\ str_len p = PIN_LEN).
Proof.
  unfold session_new, session_config_validate. intros H.
  destruct (pin_required c) eqn:Hp; [|by simplify_eq/=].
  destruct pin as [p|]; [|by run_cases]. cbn in H. run_cases. eauto.
Qed.

Lemma session_new_inv c pin s : config_wf c -> session_new c pin = Ok s -> session_inv s.
Proof.
  intros [Hm Hd] [-> Hp]%session_new_Ok.
  constructor; cbn; try done; auto with blnk; try (unfold in_u32, U32_MAX in *; lia).
  - intros Hr _. destruct (Hp Hr). unfold in_u32 in Hm. lia.
  - intros Hr. by apply Hp.
Qed.

Section invariant_steps.
Context `{Subtle}.

Lemma session_close_inv s : session_inv s -> session_inv (session_close s).
Proof using Type.
  intros []. constructor; cbn; auto with blnk; congruence.
Qed.

(** A change of state alone, towards a state that is neither final nor closed. *)
Lemma set_state_inv s st :
  session_inv s -> state s <> Closed -> state s <> Ready -> st <> Closed ->
  session_inv (set_next_auth (set_state s st) None).
Proof using Type.
  intros [] Hc Hr Hst. constructor; cbn; auto with blnk.
Qed.

Lemma set_registry_inv s r :
  session_inv s -> registry_wf r -> (state s <> Ready -> active r = ∅) ->
  session_inv (set_registry s r).
Proof using Type. intros [] Hr Ha. constructor; cbn; auto. Qed.

Lemma authenticate_inv s pin now :
  session_inv s -> session_inv (authenticate s pin now).1.
Proof using Type.
  intros Hs. unfold authenticate.
  case_match eqn:Est; [done|]. bool_to_prop.
  case_match; [done|]. case_match; cbn.
  { apply set_state_inv; congruence. }
  destruct Hs as [Hcw Hr Hst Hd Ha Hb Hbd Hp Hstats].
  destruct Hcw as [Hm Hdel]. unfold in_u32 in Hm, Ha.
  assert (Hsat : in_u32 (saturating_add U32_MAX (auth_attempts s) 1)).
  { unfold in_u32. apply saturating_add_range; unfold U32_MAX in *; lia. }
  assert (Hsat_le : pin_required (config s) = true ->
            saturating_add U32_MAX (auth_attempts s) 1 <= max_auth_fails (config s)).
  { intros Hpr. specialize (Hb Hpr ltac:(congruence)). rewrite saturating_add_exact; lia. }
  case_match; bool_to_prop; cbn.
  - constructor; cbn; auto with blnk; try done; split; done.
  - case_match; cbn; constructor; cbn; auto; try done; try congruence; split; done.
Qed.

Lemma session_step_inv s op :
  session_op_wf op -> session_inv s -> session_inv (session_step s op).
Proof using Type.
  intros Hop Hs. destruct op; cbn in *.
  - unfold begin_authentication. case_match; [done|]. bool_to_prop.
    destruct Hs. case_match; cbn; constructor; cbn; auto; try congruence;
      intros; match goal with
              | Hx : state _ <> Authenticating -> _ |- _ => apply Hx; congruence
              | Hx : state _ <> Ready -> _ |- _ => apply Hx; congruence
              | Hx : _ -> state _ <> Closed -> _ |- _ => apply Hx; congruence
              end.
  - unfold accept_auth_required. destruct (state s) eqn:E; cbn; try done.
    all: destruct Hs; constructor; cbn; auto; try congruence; intros;
      match goal with
      | Hx : state _ <> Ready -> _ |- active _ = _ => apply Hx; congruence
      | Hx : _ -> state _ <> Closed -> _ |- _ => apply Hx; congruence
      end.
  - unfold accept_auth_result. case_match; [done|]. case_match; cbn; [|done].
    destruct Hs; constructor; cbn; auto.
  - unfold mark_ready. destruct (state s) eqn:E; cbn; try done;
      apply set_state_inv; congruence.
  - by apply authenticate_inv.
  - unfold open_stream. case_match; [done|]. bool_to_prop.
    destruct (open _ _ _) as [r res] eqn:E. cbn.
    apply set_registry_inv; [done| |congruence].
    replace r with (open (registry s) kind path).1 by (by rewrite E).
    apply open_wf, Hs.
  - unfold accept_stream. case_match; [done|]. bool_to_prop.
    destruct (accept _ _ _ _) as [r res] eqn:E. cbn.
    apply set_registry_inv; [done| |congruence].
    replace r with (accept (registry s) id kind path).1 by (by rewrite E).
    apply accept_wf; [done|apply Hs].
  - unfold close_stream. destruct (close _ _) as [r res] eqn:E. cbn.
    assert (r = (close (registry s) id).1) as -> by (by rewrite E).
    apply set_registry_inv; [done|apply close_wf, Hs|].
    intros Hr. pose proof (inv_streams _ Hs Hr) as Ha. unfold close. rewrite Ha.
    by rewrite lookup_empty.
  - destruct Hs as [??????? ? (?&?&?&?)]; constructor; cbn; auto.
    unfold stats_wf; cbn. split_and!; try done; apply saturating_add_u64; try done;
      unfold in_u64 in Hop; lia.
  - destruct Hs as [??????? ? (?&?&?&?)]; constructor; cbn; auto.
    unfold stats_wf; cbn. split_and!; try done; apply saturating_add_u64; try done;
      unfold in_u64 in Hop; lia.
  - by apply session_close_inv.
Qed.

Lemma session_run_inv ops s :
  Forall session_op_wf ops -> session_inv s -> session_inv (session_run s ops).
Proof using Type.
  intros Hops. revert s. induction Hops as [|op ops Hop Hops IH]; intros s Hs; [done|].
  apply (IH (session_step s op)). by apply session_step_inv.
Qed.
End invariant_steps.

(** C13: the session invariant. However the operations are interleaved, a session
    that was created successfully keeps: no streams outside [Ready], no pending
    retry delay outside [Authenticating], fewer failed attempts than allowed
    while it is open, a six-byte expected PIN when one is required, a
    well-formed registry and counters within [u64]. *)
Theorem session_invariant `{Subtle} c pin s ops :
  config_wf c -> session_new c pin = Ok s -> Forall session_op_wf ops ->
  session_inv (session_run s ops).
Proof. eauto using session_run_inv, session_new_inv. Qed.

Definition fresh_session : Session :=
  mkSession Connecting session_config_default (Some "123456") 0 registry_new stats_default None.

Definition sample_run : list SessionOp :=
  [OpBeginAuthentication; OpAuthenticate "000000" 5; OpAuthenticate "123456" 7;
   OpAuthenticate "123456" 2000000005; OpOpenStream File "/x"; OpRecordSent 12;
   OpCloseStream 1; OpSessionClose].

Lemma session_invariant_witness :
  session_inv (@session_run Concrete.subtle fresh_session sample_run).
Proof.
  apply (@session_invariant Concrete.subtle session_config_default (Some "123456")).
  - split; [split; by vm_compute|by vm_compute].
  - by vm_compute.
  - unfold sample_run. repeat constructor; by vm_compute.
Defined.

(** ** Transitions *)

Section transitions.
Context `{Subtle}.

Lemma session_step_const s op :
  config (session_step s op) = config s /\ expected_pin (session_step s op) = expected_pin s.
Proof using Type.
  destruct op; cbn; try done.
  all: unfold begin_authentication, accept_auth_required, accept_auth_result, mark_ready,
    authenticate, open_stream, accept_stream, close_stream;
    repeat case_match; simplify_eq/=; done.
Qed.

(** Which states a call can lead to. *)
Lemma session_step_state s op :
  match state s with
  | Connecting => True
  | Authenticating => state (session_step s op) <> Connecting
  | Ready => state (session_step s op) = Ready \/ op = OpSessionClose
  | Closed => state (session_step s op) = Closed
  end.
Proof using Type.
  destruct (state s) eqn:E; [done|..]; destruct op; cbn;
    unfold begin_authentication, accept_auth_required, accept_auth_result, mark_ready,
      authenticate, open_stream, accept_stream, close_stream;
    rewrite ?E; cbn; repeat case_match; simplify_eq/=; auto; congruence.
Qed.

Definition is_final (s : Session) : bool :=
  match state s with Ready | Closed => true | _ => false end.

Lemma session_step_final s op : is_final s = true -> is_final (session_step s op) = true.
Proof using Type.
  unfold is_final. pose proof (session_step_state s op) as Hs.
  destruct (state s); try done; [|by rewrite Hs].
  destruct Hs as [->| ->]; done.
Qed.

Lemma authenticate_Ok s pin now s' o : authenticate s pin now = (s', Ok o) ->
  state s = Authenticating /\ retry_blocked s now = false /\
  match o with
  | AuthReady => pin_matches s pin = true /\ s' = set_next_auth (set_state s Ready) None
  | AuthClosed => pin_matches s pin = false /\
      max_auth_fails (config s) <= saturating_add U32_MAX (auth_attempts s) 1 /\
      s' = session_close (set_attempts s (saturating_add U32_MAX (auth_attempts s) 1))
  | AuthRejected n => pin_matches s pin = false /\
      saturating_add U32_MAX (auth_attempts s) 1 < max_auth_fails (config s) /\
      n = max_auth_fails (config s) - saturating_add U32_MAX (auth_attempts s) 1 /\
      now + pin_fail_delay (config s) <= INSTANT_MAX /\
      s' = set_next_auth (set_attempts s (saturating_add U32_MAX (auth_attempts s) 1))
             (Some (now + pin_fail_delay (config s)))
  end.
Proof using Type.
  unfold authenticate. intros Ha. repeat case_match; simplify_eq/=; bool_to_prop;
    repeat match goal with Hc : checked_add _ _ _ = Some _ |- _ =>
             apply checked_add_Some in Hc as [-> ?] end;
    split_and!; done || lia.
Qed.

Lemma authenticate_Err s pin now s' e : authenticate s pin now = (s', Err e) -> s' = s.
Proof using Type. unfold authenticate. intros Ha. repeat case_match; simplify_eq/=; done. Qed.
End transitions.

(** [Closed] is absorbing. No sequence of calls reopens a closed session,
    and none gives it a stream. *)
Theorem closed_is_final `{Subtle} s ops :
  session_inv s -> Forall session_op_wf ops -> state s = Closed ->
  state (session_run s ops) = Closed /\ active (registry (session_run s ops)) = ∅.
Proof.
  intros Hs Hops Hc.
  enough (Hst : state (session_run s ops) = Closed).
  { split; [done|]. apply (inv_streams _ (session_run_inv ops s Hops Hs)). congruence. }
  clear Hs Hops. revert s Hc. induction ops as [|op ops IH]; intros s Hc; [done|].
  apply IH. pose proof (session_step_state s op) as Hst. by rewrite Hc in Hst.
Qed.

Lemma closed_is_final_witness :
  state (@session_run Concrete.subtle (session_close fresh_session) sample_run) = Closed /\
  active (registry (@session_run Concrete.subtle (session_close fresh_session) sample_run)) = ∅.
Proof.
  apply (@closed_is_final Concrete.subtle (session_close fresh_session) sample_run).
  - apply session_close_inv, (session_new_inv session_config_default (Some "123456")).
    + split; [split; by vm_compute|by vm_compute].
    + by vm_compute.
  - unfold sample_run. repeat constructor; by vm_compute.
  - by vm_compute.
Defined.

(** The operations a server performs: the client-side transitions that follow
    the peer's messages are excluded. *)
Definition server_op (op : SessionOp) : Prop :=
  match op with
  | OpAcceptAuthRequired | OpAcceptAuthResult _ | OpMarkReady => False
  | _ => True
  end.

Lemma server_step_ready `{Subtle} s op :
  server_op op -> pin_required (config s) = true -> state s <> Ready ->
  state (session_step s op) = Ready ->
  exists pin now, op = OpAuthenticate pin now /\ pin_matches s pin = true.
Proof.
  intros Hop Hp Hs Hr. destruct op; cbn in *; try done.
  - unfold begin_authentication in Hr. rewrite Hp in Hr. by run_cases.
  - destruct (authenticate s pin now) as [s' [o|e]] eqn:E; cbn in *.
    + apply authenticate_Ok in E as (? & ? & Ho). destruct o; naive_solver.
    + apply authenticate_Err in E. congruence.
  - unfold open_stream in Hr. by run_cases.
  - unfold accept_stream in Hr. by run_cases.
  - unfold close_stream in Hr. by run_cases.
Qed.

(** the PIN gate. A server session that requires a PIN is [Ready] only if
    one of the calls was [authenticate] with exactly the expected PIN. *)
Theorem ready_requires_pin `{Subtle} `{!SubtleLaws} c pin s ops :
  session_new c pin = Ok s -> pin_required c = true -> Forall server_op ops ->
  state (session_run s ops) = Ready ->
  exists p now, pin = Some p /\ OpAuthenticate p now ∈ ops.
Proof.
  intros [-> _]%session_new_Ok Hp Hops.
  set (s0 := mkSession _ _ _ _ _ _ _).
  assert (Hgen : forall s, config s = c -> expected_pin s = pin -> state s <> Ready ->
            state (session_run s ops) = Ready ->
            exists p now, pin = Some p /\ OpAuthenticate p now ∈ ops); [|by apply Hgen].
  clear s0. induction Hops as [|op ops Hop Hops IH]; intros s Hc He Hs Hr; [done|].
  destruct (session_step_const s op) as [Hc' He'].
  destruct (decide (state (session_step s op) = Ready)) as [Hr1|Hr1].
  - destruct (server_step_ready s op Hop ltac:(by rewrite Hc) Hs Hr1) as (p & now & -> & Hm).
    exists p, now. split; [|left]. unfold pin_matches in Hm. rewrite He in Hm.
    destruct pin as [q|]; [|done]. apply pin_eq_spec in Hm as [_ Hq].
    by apply as_bytes_inj in Hq as ->.
  - destruct (IH (session_step s op)) as (p & now & ? & ?); [congruence|congruence|done|exact Hr|].
    exists p, now. split; [done|by right].
Qed.

Lemma ready_requires_pin_witness :
  exists p now, Some "123456" = Some p /\
    OpAuthenticate p now ∈ [OpBeginAuthentication; OpAuthenticate "123456" 7].
Proof.
  apply (@ready_requires_pin Concrete.subtle Concrete.subtle_laws session_config_default
           (Some "123456") fresh_session).
  - by vm_compute.
  - done.
  - repeat constructor.
  - by vm_compute.
Defined.

(** ** Guessing the PIN *)

(** Attempts whose PIN is compared: [authenticate] calls that come while the
    session authenticates and no retry delay blocks them, whatever they return. *)
Definition evaluated (s : Session) (op : SessionOp) : Z :=
  match op with
  | OpAuthenticate _ now =>
      if bool_decide (state s = Authenticating) && negb (retry_blocked s now) then 1 else 0
  | _ => 0
  end.

Fixpoint evaluated_attempts `{Subtle} (s : Session) (ops : list SessionOp) : Z :=
  match ops with
  | [] => 0
  | op :: ops => evaluated s op + evaluated_attempts (session_step s op) ops
  end.

(** The retry delay can be added to the clock of every attempt. *)
Definition delay_fits (c : SessionConfig) (op : SessionOp) : Prop :=
  match op with
  | OpAuthenticate _ now => now + pin_fail_delay c <= INSTANT_MAX
  | _ => True
  end.

(** Attempts a session still grants. *)
Definition budget (s : Session) : Z :=
  if is_final s then 0 else max_auth_fails (config s) - auth_attempts s.

Lemma budget_nonneg s : session_inv s -> pin_required (config s) = true -> 0 <= budget s.
Proof.
  intros Hs Hp. unfold budget, is_final. pose proof (inv_bound s Hs Hp).
  destruct (state s); lia.
Qed.

Lemma session_step_attempts `{Subtle} s op :
  (forall pin now, op <> OpAuthenticate pin now) ->
  auth_attempts (session_step s op) = auth_attempts s.
Proof.
  intros Hop. destruct op; cbn; try done; try (by edestruct Hop).
  all: unfold begin_authentication, accept_auth_required, accept_auth_result, mark_ready,
    open_stream, accept_stream, close_stream; repeat case_match; simplify_eq/=; done.
Qed.

Lemma budget_step `{Subtle} s op :
  session_inv s -> delay_fits (config s) op -> pin_required (config s) = true ->
  evaluated s op + budget (session_step s op) <= budget s.
Proof.
  intros Hs Hfit Hp.
  assert (Hother : (forall pin now, op <> OpAuthenticate pin now) ->
    budget (session_step s op) <= budget s).
  { intros Hop. unfold budget.
    destruct (session_step_const s op) as [-> _]. rewrite session_step_attempts by done.
    destruct (is_final s) eqn:E; [by rewrite session_step_final|].
    pose proof (inv_bound s Hs Hp). destruct (is_final (session_step s op)); lia. }
  destruct op; try (apply Hother; done). clear Hother. cbn [evaluated session_step].
  destruct (authenticate s pin now) as [s' [o|e]] eqn:E; cbn.
  2: { assert (Hn : bool_decide (state s = Authenticating) && negb (retry_blocked s now) = false).
       { unfold authenticate in E. destruct (bool_decide (state s = Authenticating)); [|done].
         destruct (retry_blocked s now); [done|]. exfalso. revert E. cbn [negb].
         rewrite (proj2 (checked_add_Some _ _ _ _) (conj eq_refl Hfit)). by repeat case_match. }
       rewrite Hn. apply authenticate_Err in E as ->. lia. }
  assert (Hle : (if bool_decide (state s = Authenticating) && negb (retry_blocked s now) then 1 else 0) <= 1)
    by (by case_match).
  set (x := if bool_decide _ && _ then 1 else 0) in *. clearbody x.
  apply authenticate_Ok in E as (Hst & _ & Ho).
  pose proof (inv_budget s Hs Hp ltac:(congruence)) as Hb.
  pose proof (proj1 (inv_config s Hs)) as Hm. unfold in_u32 in Hm.
  unfold budget, is_final. rewrite Hst.
  destruct o as [|n|].
  - destruct Ho as (_ & ->). cbn. lia.
  - destruct Ho as (_ & _ & _ & _ & ->). cbn. rewrite Hst, saturating_add_exact by lia. lia.
  - destruct Ho as (_ & _ & ->). cbn. lia.
Qed.

(** C12: the guessing bound. Over any interleaving of calls at times to which the
    retry delay can be added, the number of PINs a session compares with the
    expected one, whatever the call then returns, never exceeds
    [max_auth_fails]. *)
Theorem guess_budget `{Subtle} c pin s ops :
  config_wf c -> session_new c pin = Ok s -> pin_required c = true ->
  Forall session_op_wf ops -> Forall (delay_fits c) ops ->
  evaluated_attempts s ops <= max_auth_fails c.
Proof.
  intros Hc Hn Hp Hops Hfit. pose proof (session_new_inv c pin s Hc Hn) as Hs.
  apply session_new_Ok in Hn as [Es _].
  assert (Hb : budget s = max_auth_fails c) by (rewrite Es; unfold budget; cbn; lia).
  assert (Hcs : pin_required (config s) = true) by (by rewrite Es).
  assert (Hcc : config s = c) by (by rewrite Es). rewrite <- Hb.
  clear Es Hb Hp Hc. revert s Hs Hcs Hcc.
  induction Hops as [|op ops Hop Hops IH]; intros s Hs Hcs Hcc; cbn.
  - by apply budget_nonneg.
  - apply Forall_cons in Hfit as [Hf Hfit]. destruct (session_step_const s op) as [Hc' _].
    specialize (IH Hfit (session_step s op) (session_step_inv s op Hop Hs) ltac:(by rewrite Hc')
                  ltac:(by rewrite Hc')).
    pose proof (budget_step s op Hs ltac:(by rewrite Hcc) Hcs). lia.
Qed.

(** With a retry delay that no clock can hold nothing bounds the guesses: a
    wrong PIN is compared, the call fails for the delay, and the session is as
    it was. *)
Theorem oversized_delay_uncounted `{Subtle} s wrong now :
  state s = Authenticating -> next_auth_allowed_at s = None -> pin_matches s wrong = false ->
  saturating_add U32_MAX (auth_attempts s) 1 < max_auth_fails (config s) ->
  INSTANT_MAX < now + pin_fail_delay (config s) ->
  forall n, evaluated_attempts s (repeat (OpAuthenticate wrong now) n) = Z.of_nat n.
Proof.
  intros Hst Hnext Hpin Hm Hd n.
  assert (Hstep : session_step s (OpAuthenticate wrong now) = s).
  { cbn. unfold authenticate, retry_blocked. rewrite bool_decide_eq_true_2, Hnext, Hpin by done. cbn [negb].
    rewrite (proj2 (Z.leb_gt _ _)) by lia. unfold checked_add. by rewrite (proj2 (Z.leb_gt _ _)) by lia. }
  induction n as [|n IH]; [done|]. cbn [repeat evaluated_attempts]. rewrite Hstep, IH.
  cbn. unfold retry_blocked. rewrite bool_decide_eq_true_2, Hnext by done. cbn. lia.
Qed.

Lemma guess_budget_witness :
  @evaluated_attempts Concrete.subtle fresh_session
    [OpBeginAuthentication; OpAuthenticate "000000" 5; OpAuthenticate "000001" 9;
     OpAuthenticate "000002" 2000000005; OpAuthenticate "000003" 4000000005;
     OpAuthenticate "123456" 6000000005] <= 3.
Proof.
  apply (@guess_budget Concrete.subtle session_config_default (Some "123456") fresh_session).
  - split; [split; by vm_compute|by vm_compute].
  - by vm_compute.
  - done.
  - repeat constructor.
  - repeat constructor; by vm_compute.
Defined.

(** The delay set at [t1] still holds: the session has left [Connecting], and
    while it authenticates nothing before [t1 + d] is admitted. *)
Definition paced (t : Z) (s : Session) : Prop :=
  state s <> Connecting /\
  (state s = Authenticating -> exists u, next_auth_allowed_at s = Some u /\ t <= u).

Lemma paced_step `{Subtle} t s op :
  server_op op -> 0 <= pin_fail_delay (config s) -> paced t s -> paced t (session_step s op).
Proof.
  intros Hop Hd [Hc Ha]. unfold paced.
  pose proof (session_step_state s op) as Hst.
  split.
  { destruct (state s); try done; [|by rewrite Hst]. destruct Hst as [->| ->]; done. }
  destruct op; cbn in *; try done.
  - unfold begin_authentication. repeat case_match; simplify_eq/=; bool_to_prop; auto; congruence.
  - destruct (authenticate s pin now) as [s' [o|e]] eqn:E; cbn in *.
    2: { apply authenticate_Err in E as ->. done. }
    apply authenticate_Ok in E as (Hs & Hb & Ho). destruct (Ha Hs) as (u & Hu & Htu).
    unfold retry_blocked in Hb. rewrite Hu in Hb. bool_to_prop.
    destruct o; [destruct Ho as (_ & ->)|destruct Ho as (_ & _ & _ & _ & ->)|
                 destruct Ho as (_ & _ & ->)]; cbn; try done.
    intros _. eexists. split; [done|lia].
  - unfold open_stream. repeat case_match; simplify_eq/=; bool_to_prop; auto; congruence.
  - unfold accept_stream. repeat case_match; simplify_eq/=; bool_to_prop; auto; congruence.
  - unfold close_stream. repeat case_match; simplify_eq/=; bool_to_prop; auto; congruence.
Qed.

(** the retry delay is enforced. After a rejected attempt at time [t1], no
    later attempt is compared before [t1 + pin_fail_delay], whatever server
    operations happen in between. *)
Theorem retry_delay_enforced `{Subtle} s p1 t1 n s1 ops p2 t2 s2 o :
  0 <= pin_fail_delay (config s) ->
  authenticate s p1 t1 = (s1, Ok (AuthRejected n)) ->
  Forall server_op ops ->
  authenticate (session_run s1 ops) p2 t2 = (s2, Ok o) ->
  t1 + pin_fail_delay (config s) <= t2.
Proof.
  intros Hd Ha Hops Hb.
  apply authenticate_Ok in Ha as (Hst & _ & _ & _ & _ & _ & Es1).
  assert (Hp : paced (t1 + pin_fail_delay (config s)) (session_run s1 ops)).
  { assert (H1 : paced (t1 + pin_fail_delay (config s)) s1).
    { subst s1. split; cbn; [congruence|]. eauto with lia. }
    assert (Hc1 : config s1 = config s) by (by subst s1).
    clear Es1 Hb. revert s1 H1 Hc1. induction Hops as [|op ops Hop Hops IH]; intros s1 H1 Hc1.
    - done.
    - apply (IH (session_step s1 op)).
      + apply paced_step; [done|by rewrite Hc1|done].
      + by destruct (session_step_const s1 op) as [-> _]. }
  apply authenticate_Ok in Hb as (Hs & Hblk & _).
  destruct Hp as [_ Hp]. destruct (Hp Hs) as (u & Hu & Htu).
  unfold retry_blocked in Hblk. rewrite Hu in Hblk. bool_to_prop. lia.
Qed.

Definition authenticating_session : Session := set_state fresh_session Authenticating.

Lemma retry_delay_enforced_witness : 5 + 2000000000 <= 2000000005.
Proof.
  apply (@retry_delay_enforced Concrete.subtle authenticating_session "000000" 5 2
           (@authenticate Concrete.subtle authenticating_session "000000" 5).1
           [OpRecordSent 3] "123456" 2000000005
           (@authenticate Concrete.subtle
              (@session_run Concrete.subtle
                 (@authenticate Concrete.subtle authenticating_session "000000" 5).1
                 [OpRecordSent 3]) "123456" 2000000005).1 AuthReady).
  - by vm_compute.
  - by vm_compute.
  - repeat constructor.
  - by vm_compute.
Defined.

(** [authenticate] on every branch, for a session that is waiting for a PIN
    and whose delay has elapsed: the right PIN makes it ready; a wrong one is
    counted, and closes the session and its streams when it uses up the last
    attempt, or else sets the retry delay and reports the attempts left. *)
Theorem authenticate_spec `{Subtle} `{!SubtleLaws} s p pin now :
  session_inv s -> pin_required (config s) = true -> expected_pin s = Some p ->
  state s = Authenticating -> retry_blocked s now = false ->
  now + pin_fail_delay (config s) <= INSTANT_MAX ->
  authenticate s pin now =
  if decide (p = pin) then (set_next_auth (set_state s Ready) None, Ok AuthReady)
  else if decide (auth_attempts s + 1 = max_auth_fails (config s))
  then (session_close (set_attempts s (max_auth_fails (config s))), Ok AuthClosed)
  else (set_next_auth (set_attempts s (auth_attempts s + 1))
          (Some (now + pin_fail_delay (config s))),
        Ok (AuthRejected (max_auth_fails (config s) - (auth_attempts s + 1)))).
Proof.
  intros Hs Hp He Hst Hb Hi. pose proof (inv_budget s Hs Hp ltac:(congruence)) as Hlt.
  pose proof (proj1 (inv_config s Hs)) as Hm. unfold in_u32 in Hm.
  unfold authenticate. rewrite bool_decide_eq_true_2, Hb by done. cbn [negb].
  assert (Hpin : pin_matches s pin = bool_decide (p = pin)).
  { unfold pin_matches. rewrite He. destruct (inv_pin s Hs Hp) as (q & Hq & Hl).
    apply eq_true_iff_eq. rewrite pin_eq_spec, bool_decide_eq_true.
    assert (p = q) as -> by congruence. unfold str_len in Hl.
    split; [intros [_ ?]; by apply as_bytes_inj|by intros ->]. }
  rewrite Hpin, saturating_add_exact by lia.
  destruct (decide (p = pin)) as [->|Hne]; [by rewrite bool_decide_eq_true_2|].
  rewrite bool_decide_eq_false_2 by done.
  unfold checked_add. rewrite (proj2 (Z.leb_le (now + _) INSTANT_MAX)) by done.
  destruct (decide (_ = _)) as [Hd|Hd].
  - rewrite (proj2 (Z.leb_le _ _)) by lia. by rewrite Hd.
  - rewrite (proj2 (Z.leb_gt _ _)) by lia. done.
Qed.

Lemma authenticate_spec_witness :
  @authenticate Concrete.subtle authenticating_session "000000" 5 =
  (set_next_auth (set_attempts authenticating_session 1) (Some 2000000005),
   Ok (AuthRejected 2)).
Proof.
  rewrite (@authenticate_spec Concrete.subtle Concrete.subtle_laws
             authenticating_session "123456" "000000" 5).
  - by vm_compute.
  - change authenticating_session with
      (@session_step Concrete.subtle fresh_session OpBeginAuthentication).
    apply session_step_inv; [done|].
    apply (session_new_inv session_config_default (Some "123456")); [|by vm_compute].
    split; [split; by vm_compute|by vm_compute].
  - done.
  - done.
  - done.
  - by vm_compute.
  - by vm_compute.
Defined.
