(* ===== verification/Peer.v ===== *)
(** * The WebRTC peer

    [src/src/peer/mod.rs]: the flags the WebRTC callbacks set ([PeerEvents]),
    the data-channel event pump, the waiting functions, and the conversion
    between data-channel messages and SWSP frames. The [webrtc] crate is not
    part of the repository: the callbacks it will make while a function waits,
    and the results of its [send] and [close] calls, are the scripts of
    [WebRtc], so that an execution is a function of them. *)
From S2P Require Import Prelude Errors Swsp.

(** ** Events *)

Inductive IceConnectionState := IceFailed | IceOther.
Inductive PeerConnectionState := PcConnected | PcFailed | PcClosed | PcOther.

Inductive DataChannelEvent :=
| OnOpen
| OnMessage (is_string : bool) (data : list byte)
| OnError
| OnClose
| OnOther.

Inductive WebRtcEvent :=
| IceConnectionStateChange (s : IceConnectionState)
| IceGatheringStateChange (complete : bool)
| ConnectionStateChange (s : PeerConnectionState)
| OnDataChannel
| ChannelEvent (e : DataChannelEvent).

Record PeerEvents := mkPeerEvents {
  channel : bool;                       (* the slot holds a channel *)
  channel_opened : bool;
  channel_closed : bool;
  channel_error : option string;
  connected_state : bool;
  connection_failure : option string;
  gathering_done : bool;
}.

Definition peer_events_new : PeerEvents := mkPeerEvents false false false None false None false.

(** What the [webrtc] crate does next: the callbacks in the order they arrive,
    and the error texts of the coming [send] calls ([None] for success; success
    once the list is used up) and of [close]. *)
Record WebRtc := mkWebRtc {
  upcoming : list WebRtcEvent;
  send_results : list (option string);
  close_result : option string;
}.

Record PeerHandle := mkPeer {
  events : PeerEvents;
  inbound : list (list byte);           (* messages queued by the pump *)
  inbound_closed : bool;
  outbox : list (list byte);            (* messages the channel accepted *)
  webrtc : WebRtc;
}.

Definition set_events (p : PeerHandle) (e : PeerEvents) : PeerHandle :=
  mkPeer e (inbound p) (inbound_closed p) (outbox p) (webrtc p).

Definition pc_state_debug (s : PeerConnectionState) : string :=
  match s with
  | PcConnected => "Connected"
  | PcFailed => "Failed"
  | PcClosed => "Closed"
  | PcOther => "Other"
  end.

Definition peer_error (operation error : string) : BlnkError :=
  ErrPeer (operation +:+ ": " +:+ error).

(** ** Callbacks *)

Definition on_ice_connection_state_change (e : PeerEvents) (s : IceConnectionState) : PeerEvents :=
  match s with
  | IceFailed =>
      mkPeerEvents (channel e) (channel_opened e) (channel_closed e) (channel_error e)
        (connected_state e) (Some "ICE connection entered Failed state") (gathering_done e)
  | IceOther => e
  end.

Definition on_ice_gathering_state_change (e : PeerEvents) (complete : bool) : PeerEvents :=
  if complete
  then mkPeerEvents (channel e) (channel_opened e) (channel_closed e) (channel_error e)
         (connected_state e) (connection_failure e) true
  else e.

Definition on_connection_state_change (e : PeerEvents) (s : PeerConnectionState) : PeerEvents :=
  match s with
  | PcConnected =>
      mkPeerEvents (channel e) (channel_opened e) (channel_closed e) (channel_error e)
        true (connection_failure e) (gathering_done e)
  | PcFailed | PcClosed =>
      mkPeerEvents (channel e) (channel_opened e) (channel_closed e) (channel_error e)
        (connected_state e)
        (Some ("peer connection entered " +:+ pc_state_debug s +:+ " state"))
        (gathering_done e)
  | PcOther => e
  end.

(** A second channel is ignored: the pump of the first one keeps running. *)
Definition install_channel (e : PeerEvents) : PeerEvents :=
  if channel e then e
  else mkPeerEvents true (channel_opened e) (channel_closed e) (channel_error e)
         (connected_state e) (connection_failure e) (gathering_done e).

(** One turn of the event pump. Messages after the inbound queue was closed
    are dropped, text messages are ignored. *)
Definition pump (p : PeerHandle) (ev : DataChannelEvent) : PeerHandle :=
  let e := events p in
  match ev with
  | OnOpen =>
      set_events p (mkPeerEvents (channel e) true (channel_closed e) (channel_error e)
                      (connected_state e) (connection_failure e) (gathering_done e))
  | OnMessage is_string data =>
      if is_string || inbound_closed p then p
      else mkPeer e (inbound p ++ [data]) (inbound_closed p) (outbox p) (webrtc p)
  | OnError =>
      set_events p (mkPeerEvents (channel e) (channel_opened e) (channel_closed e)
                      (Some "data channel reported an error")
                      (connected_state e) (connection_failure e) (gathering_done e))
  | OnClose =>
      mkPeer (mkPeerEvents (channel e) (channel_opened e) true (channel_error e)
                (connected_state e) (connection_failure e) (gathering_done e))
        (inbound p) true (outbox p) (webrtc p)
  | OnOther => p
  end.

Definition deliver (p : PeerHandle) (ev : WebRtcEvent) : PeerHandle :=
  match ev with
  | IceConnectionStateChange s => set_events p (on_ice_connection_state_change (events p) s)
  | IceGatheringStateChange c => set_events p (on_ice_gathering_state_change (events p) c)
  | ConnectionStateChange s => set_events p (on_connection_state_change (events p) s)
  | OnDataChannel => set_events p (install_channel (events p))
  | ChannelEvent ev => pump p ev
  end.

(** The next callback happens, if there is one. *)
Definition advance (p : PeerHandle) : option PeerHandle :=
  match upcoming (webrtc p) with
  | [] => None
  | ev :: rest =>
      Some (deliver (mkPeer (events p) (inbound p) (inbound_closed p) (outbox p)
                       (mkWebRtc rest (send_results (webrtc p)) (close_result (webrtc p)))) ev)
  end.

(** ** Waiting

    Every [wait_*] function polls some flags and sleeps until a callback
    changes them, for at most [DEFAULT_WAIT_TIMEOUT]. [wait poll] runs the poll,
    and after each callback again, until it decides; it times out when no
    callback is left. *)
Fixpoint wait_fuel (fuel : nat) (poll : PeerHandle -> option (BResult unit))
    (timeout : BlnkError) (p : PeerHandle) : PeerHandle * BResult unit :=
  match poll p with
  | Some r => (p, r)
  | None =>
      match fuel, advance p with
      | S fuel, Some p' => wait_fuel fuel poll timeout p'
      | _, _ => (p, Err timeout)
      end
  end.

Definition wait poll timeout (p : PeerHandle) : PeerHandle * BResult unit :=
  wait_fuel (length (upcoming (webrtc p))) poll timeout p.

Definition poll_connected (p : PeerHandle) : option (BResult unit) :=
  if connected_state (events p) then Some (Ok tt)
  else match connection_failure (events p) with
       | Some failure => Some (Err (ErrPeer failure))
       | None => None
       end.

Definition wait_connected : PeerHandle -> PeerHandle * BResult unit :=
  wait poll_connected (ErrPeer "timed out waiting for peer connection").

Definition poll_channel_open (p : PeerHandle) : option (BResult unit) :=
  if channel_opened (events p) then Some (Ok tt)
  else match channel_error (events p) with
       | Some error => Some (Err (ErrPeer error))
       | None =>
           if channel_closed (events p)
           then Some (Err (ErrPeer "data channel closed before opening"))
           else None
       end.

Definition wait_channel_open : PeerHandle -> PeerHandle * BResult unit :=
  wait poll_channel_open (ErrPeer "timed out waiting for data channel").

Definition poll_disconnected (p : PeerHandle) : option (BResult unit) :=
  match connection_failure (events p) with Some _ => Some (Ok tt) | None => None end.

Definition wait_disconnected : PeerHandle -> PeerHandle * BResult unit :=
  wait poll_disconnected (ErrPeer "timed out waiting for peer disconnect").

Definition poll_gathering (p : PeerHandle) : option (BResult unit) :=
  if gathering_done (events p) then Some (Ok tt) else None.

Definition wait_for_gathering : PeerHandle -> PeerHandle * BResult unit :=
  wait poll_gathering (ErrPeer "timed out waiting for ICE gathering").

(** ** Frames over the channel *)

Definition get_channel (p : PeerHandle) : PeerHandle * BResult unit :=
  match wait_channel_open p with
  | (p, Ok _) =>
      if channel (events p) then (p, Ok tt)
      else (p, Err (ErrPeer "data channel is unavailable"))
  | (p, Err e) => (p, Err e)
  end.

(** [DataChannel::send]: the next result of the script. *)
Definition channel_send (p : PeerHandle) (data : list byte) : PeerHandle * BResult unit :=
  let w := webrtc p in
  let w' := mkWebRtc (upcoming w) (tail (send_results w)) (close_result w) in
  match head (send_results w) with
  | Some (Some error) =>
      (mkPeer (events p) (inbound p) (inbound_closed p) (outbox p) w',
       Err (peer_error "send SWSP frame" error))
  | _ => (mkPeer (events p) (inbound p) (inbound_closed p) (outbox p ++ [data]) w', Ok tt)
  end.

Definition send_frame (frame : Frame) (p : PeerHandle) : PeerHandle * BResult unit :=
  match get_channel p with
  | (p, Err e) => (p, Err e)
  | (p, Ok _) =>
      match encode frame with
      | Err error => (p, Err (ErrProtocol (frame_error_display error)))
      | Ok payload => channel_send p payload
      end
  end.

(** A data-channel message as a frame. *)
Definition decode_message (payload : list byte) : BResult Frame :=
  match decode payload with
  | Err error => Err (ErrProtocol (frame_error_display error))
  | Ok (frame, consumed) =>
      if negb (consumed =? zlen payload)
      then Err (ErrProtocol "data channel message contains trailing bytes")
      else Ok frame
  end.

(** [recv_frame]: the oldest queued message, after waiting for one; [None] when
    no callback ever queues or closes. *)
Fixpoint recv_fuel (fuel : nat) (p : PeerHandle) : PeerHandle * option (BResult Frame) :=
  match inbound p with
  | payload :: rest =>
      (mkPeer (events p) rest (inbound_closed p) (outbox p) (webrtc p),
       Some (decode_message payload))
  | [] =>
      if inbound_closed p
      then (p, Some (Err (ErrPeer "data channel receive loop closed")))
      else match fuel, advance p with
           | S fuel, Some p' => recv_fuel fuel p'
           | _, _ => (p, None)
           end
  end.

Definition recv_frame (p : PeerHandle) : PeerHandle * option (BResult Frame) :=
  recv_fuel (length (upcoming (webrtc p))) p.

Definition peer_close (p : PeerHandle) : PeerHandle * BResult unit :=
  let e := events p in
  let p' := set_events p (mkPeerEvents false (channel_opened e) (channel_closed e)
                            (channel_error e) (connected_state e) (connection_failure e)
                            (gathering_done e)) in
  match close_result (webrtc p) with
  | None => (p', Ok tt)
  | Some error =>
      if channel_closed e then (p', Ok tt)
      else (p', Err (peer_error "close peer connection" error))
  end.

(** ** Correctness *)

(** The peer after its next [n] callbacks. *)
Fixpoint after (n : nat) (p : PeerHandle) : option PeerHandle :=
  match n with
  | O => Some p
  | S n => match advance p with Some p' => after n p' | None => None end
  end.

Lemma deliver_webrtc p ev : webrtc (deliver p ev) = webrtc p.
Proof.
  destruct ev as [| | | |ev]; cbn; try done. destruct ev; cbn; try done. by case_match.
Qed.

Lemma advance_upcoming p p' : advance p = Some p' ->
  length (upcoming (webrtc p)) = S (length (upcoming (webrtc p'))).
Proof.
  unfold advance. case_match eqn:E; [done|]. intros; simplify_eq. by rewrite deliver_webrtc.
Qed.

Lemma advance_None p : advance p = None <-> upcoming (webrtc p) = [].
Proof. unfold advance. by destruct (upcoming (webrtc p)). Qed.

Lemma wait_fuel_spec fuel poll timeout p p' r :
  (length (upcoming (webrtc p)) <= fuel)%nat ->
  wait_fuel fuel poll timeout p = (p', r) ->
  exists n, after n p = Some p' /\
    (forall m q, (m < n)%nat -> after m p = Some q -> poll q = None) /\
    (poll p' = Some r \/ (poll p' = None /\ advance p' = None /\ r = Err timeout)).
Proof.
  revert p. induction fuel as [|fuel IH]; intros p Hf Hw; cbn in Hw.
  - exists 0%nat. destruct (poll p) eqn:E; simplify_eq/=.
    + split_and!; auto. lia.
    + split_and!; [done|lia|]. right. split_and!; auto.
      apply advance_None, nil_length_inv. lia.
  - destruct (poll p) eqn:E; simplify_eq/=.
    { exists 0%nat. split_and!; auto. lia. }
    destruct (advance p) as [p1|] eqn:Ea; simplify_eq/=.
    2: { exists 0%nat. split_and!; auto; lia. }
    apply advance_upcoming in Ea as Hl.
    destruct (IH p1 ltac:(lia) Hw) as (n & Hn & Hm & Hd).
    exists (S n). split_and!; [by cbn; rewrite Ea| |done].
    intros [|m] q Hlt Hq; cbn in Hq; [by simplify_eq|].
    rewrite Ea in Hq. apply (Hm m); [lia|done].
Qed.

(** waiting reports the first decisive state. A [wait_*] function returns
    the verdict of its check in the first state, over the callbacks in the order
    they arrive, in which the check decides, and its timeout error only when it
    decides in none of them. *)
Theorem wait_first_verdict poll timeout p p' r :
  wait poll timeout p = (p', r) ->
  exists n, after n p = Some p' /\
    (forall m q, (m < n)%nat -> after m p = Some q -> poll q = None) /\
    (poll p' = Some r \/ (poll p' = None /\ advance p' = None /\ r = Err timeout)).
Proof. by apply wait_fuel_spec. Qed.

Definition opening_peer : PeerHandle :=
  mkPeer peer_events_new [] false []
    (mkWebRtc [OnDataChannel; ConnectionStateChange PcConnected; ChannelEvent OnOpen;
               ChannelEvent (OnMessage false [x01])] [] None).

Lemma wait_first_verdict_witness :
  exists n, after n opening_peer = Some (wait_channel_open opening_peer).1 /\
    (forall m q, (m < n)%nat -> after m opening_peer = Some q -> poll_channel_open q = None) /\
    (poll_channel_open (wait_channel_open opening_peer).1 = Some (Ok tt) \/
     (poll_channel_open (wait_channel_open opening_peer).1 = None /\
      advance (wait_channel_open opening_peer).1 = None /\
      Ok tt = Err (ErrPeer "timed out waiting for data channel"))).
Proof.
  apply (wait_first_verdict poll_channel_open (ErrPeer "timed out waiting for data channel")
           opening_peer). by vm_compute.
Defined.

(** The channel is open and its slot filled: nothing to wait for. *)
Definition channel_ready (p : PeerHandle) : Prop :=
  channel (events p) = true /\ channel_opened (events p) = true.

Lemma get_channel_ready p : channel_ready p -> get_channel p = (p, Ok tt).
Proof.
  intros [Hc Ho]. unfold get_channel, wait_channel_open, wait.
  assert (Hp : poll_channel_open p = Some (Ok tt)) by (unfold poll_channel_open; by rewrite Ho).
  destruct (length _); cbn; rewrite Hp, Hc; done.
Qed.

Lemma decode_message_encode f bs :
  frame_wf f -> encode f = Ok bs -> decode_message bs = Ok f.
Proof.
  intros Hwf He. unfold decode_message, decode.
  pose proof He as (Hm & Hl & ->)%encode_with_limit_Ok.
  replace (header f ++ payload f) with (header f ++ payload f) by done.
  rewrite decode_header by done. rewrite Z.ltb_irrefl, zlen_frame_bytes, Z.eqb_refl.
  rewrite take_ge by done. by destruct f.
Qed.

(** a frame crosses the channel unchanged. Sending a frame whose payload is
    within the default limit over an open channel that accepts it hands one
    message to the channel, and a peer that receives that message returns the
    same frame. *)
Theorem frame_transfer f p q rest :
  frame_wf f -> zlen (payload f) <= DEFAULT_MAX_PAYLOAD_LEN -> channel_ready p ->
  send_results (webrtc p) = [] ->
  exists p' bs,
    send_frame f p = (p', Ok tt) /\ outbox p' = outbox p ++ [bs] /\
    (inbound q = bs :: rest ->
     exists q', recv_frame q = (q', Some (Ok f)) /\ inbound q' = rest).
Proof.
  intros Hwf Hl Hr Hs. pose proof (encode_default_Ok f Hl) as He.
  unfold send_frame. rewrite get_channel_ready, He by done.
  unfold channel_send. rewrite Hs. cbn [head tail].
  eexists _, (header f ++ payload f). split; [done|]. split; [done|]. intros Hq.
  eexists. unfold recv_frame. destruct (length _); cbn [recv_fuel]; rewrite Hq;
    rewrite (decode_message_encode f _ Hwf He); done.
Qed.

Definition ready_peer : PeerHandle :=
  mkPeer (mkPeerEvents true true false None true None true) [] false []
    (mkWebRtc [] [] None).

Lemma frame_transfer_witness :
  exists p' bs,
    send_frame sample_frame ready_peer = (p', Ok tt) /\
    outbox p' = outbox ready_peer ++ [bs] /\
    (inbound (mkPeer peer_events_new [[x07; x00; x00; x00; x09; x00; x02; x00; x7b; x7d]]
                false [] (mkWebRtc [] [] None)) = [bs] ->
     exists q', recv_frame (mkPeer peer_events_new
                  [[x07; x00; x00; x00; x09; x00; x02; x00; x7b; x7d]]
                  false [] (mkWebRtc [] [] None)) = (q', Some (Ok sample_frame)) /\
                inbound q' = []).
Proof.
  apply (frame_transfer sample_frame ready_peer).
  - split; [unfold in_u32, U32_MAX; simpl; lia|apply bitor_wf; by vm_compute].
  - by vm_compute.
  - done.
  - done.
Defined.

(** ** The interface the session runtime uses

    What [SessionRuntime] needs of its surroundings: the peer's frame
    operations, [tokio]'s timeout and [select!] around them, and the clock.
    The runtime's theorems are proved for every implementation. *)
Inductive Selected :=
| Disconnected (r : BResult unit)
| Received (r : BResult Frame).

Class World (W : Type) := {
  (** [peer.send_frame] *)
  w_send : Frame -> SM W BlnkError unit;
  (** [peer.recv_frame] *)
  w_recv : SM W BlnkError Frame;
  (** [timeout(d, peer.recv_frame())]; [None] when the time has elapsed *)
  w_recv_within : Z -> W -> W * option (BResult Frame);
  (** [select!] between [peer.wait_disconnected] and [peer.recv_frame] *)
  w_select : W -> W * Selected;
  (** [timeout(d, peer.wait_send_buffer_empty())], its result discarded *)
  w_drain : Z -> W -> W;
  (** [peer.close] *)
  w_close : SM W BlnkError unit;
  (** [Instant::now()] *)
  w_now : W -> W * Z;
}.

(** The peer of this file with a clock that advances by [tick] at every
    reading. A receive that would wait forever ends with the closed queue's
    error. *)
Record Surroundings := mkSurroundings {
  peer : PeerHandle;
  clock : Z;
  tick : Z;
}.

Definition set_peer (s : Surroundings) (p : PeerHandle) : Surroundings :=
  mkSurroundings p (clock s) (tick s).

#[export] Instance surroundings_world : World Surroundings := {|
  w_send f s := let '(p, r) := send_frame f (peer s) in (set_peer s p, r);
  w_recv s :=
    match recv_frame (peer s) with
    | (p, Some r) => (set_peer s p, r)
    | (p, None) => (set_peer s p, Err (ErrPeer "data channel receive loop closed"))
    end;
  w_recv_within _ s := let '(p, r) := recv_frame (peer s) in (set_peer s p, r);
  w_select s :=
    match recv_frame (peer s) with
    | (p, Some r) => (set_peer s p, Received r)
    | (p, None) => let '(p, r) := wait_disconnected p in (set_peer s p, Disconnected r)
    end;
  w_drain _ s := s;
  w_close s := let '(p, r) := peer_close (peer s) in (set_peer s p, r);
  w_now s := (mkSurroundings (peer s) (clock s + tick s) (tick s), clock s);
|}.
