(* ===== verification/Waiting.v ===== *)
(** * The peer's waits, one atomic step at a time

    [Peer] runs a callback of the WebRTC crate to its end before a waiting
    function looks at the flags again. Here the two run concurrently: the
    [wait_*] loops of [src/src/peer/mod.rs] are sequences of atomic loads around
    the creation of a [Notified] future, a callback is a sequence of stores and
    [notify_waiters] calls, and the two interleave in any order. A future that
    exists receives every later [notify_waiters], also before it is first
    awaited, and none of the earlier ones. *)
From S2P Require Import Prelude Errors Swsp Peer.

(** ** Callbacks as atomic actions *)

Inductive Notifier := ConnectionChanged | ChannelChanged | GatheringComplete.

#[export] Instance Notifier_eq_dec : EqDecision Notifier.
Proof. solve_decision. Defined.

Inductive Action :=
| Store (f : PeerEvents -> PeerEvents)
| NotifyWaiters (n : Notifier).

Definition set_channel_opened (e : PeerEvents) : PeerEvents :=
  mkPeerEvents (channel e) true (channel_closed e) (channel_error e) (connected_state e)
    (connection_failure e) (gathering_done e).
Definition set_channel_error (e : PeerEvents) : PeerEvents :=
  mkPeerEvents (channel e) (channel_opened e) (channel_closed e)
    (Some "data channel reported an error") (connected_state e) (connection_failure e)
    (gathering_done e).
Definition set_channel_closed (e : PeerEvents) : PeerEvents :=
  mkPeerEvents (channel e) (channel_opened e) true (channel_error e) (connected_state e)
    (connection_failure e) (gathering_done e).

(** The stores and notifications of one callback, in program order. The
    notifiers [connected] and [channel_open] have no waiter. *)
Definition callback (ev : WebRtcEvent) : list Action :=
  match ev with
  | IceConnectionStateChange IceFailed =>
      [Store (fun e => on_ice_connection_state_change e IceFailed); NotifyWaiters ConnectionChanged]
  | IceConnectionStateChange IceOther => []
  | IceGatheringStateChange true =>
      [Store (fun e => on_ice_gathering_state_change e true); NotifyWaiters GatheringComplete]
  | IceGatheringStateChange false => []
  | ConnectionStateChange s =>
      [Store (fun e => on_connection_state_change e s); NotifyWaiters ConnectionChanged]
  | OnDataChannel => [Store install_channel]
  | ChannelEvent OnOpen => [Store set_channel_opened; NotifyWaiters ChannelChanged]
  | ChannelEvent OnError => [Store set_channel_error; NotifyWaiters ChannelChanged]
  | ChannelEvent OnClose => [Store set_channel_closed; NotifyWaiters ChannelChanged]
  | ChannelEvent (OnMessage _ _) | ChannelEvent OnOther => []
  end.

Definition store (e : PeerEvents) (a : Action) : PeerEvents :=
  match a with Store f => f e | NotifyWaiters _ => e end.

(** ** The loops *)

(** One load of a flag and what the loop returns on it. *)
Definition Load := PeerEvents -> option (BResult unit).

Definition load_connected : Load := fun e => if connected_state e then Some (Ok tt) else None.
Definition load_failure : Load := fun e =>
  match connection_failure e with Some failure => Some (Err (ErrPeer failure)) | None => None end.
Definition load_disconnected : Load := fun e =>
  match connection_failure e with Some _ => Some (Ok tt) | None => None end.
Definition load_opened : Load := fun e => if channel_opened e then Some (Ok tt) else None.
Definition load_error : Load := fun e =>
  match channel_error e with Some error => Some (Err (ErrPeer error)) | None => None end.
Definition load_closed : Load := fun e =>
  if channel_closed e then Some (Err (ErrPeer "data channel closed before opening")) else None.
Definition load_gathered : Load := fun e => if gathering_done e then Some (Ok tt) else None.

(** A loop: the loads before [notified()], the loads between it and the await,
    and the notifier. *)
Record Loop := mkLoop { loads : list Load; reloads : list Load; notifier : Notifier }.

Definition connected_loop : Loop :=
  mkLoop [load_connected; load_failure] [load_connected] ConnectionChanged.
Definition channel_open_loop : Loop :=
  mkLoop [load_opened; load_error; load_closed] [load_opened] ChannelChanged.
Definition disconnected_loop : Loop :=
  mkLoop [load_disconnected] [load_disconnected] ConnectionChanged.
Definition gathering_loop : Loop := mkLoop [load_gathered] [load_gathered] GatheringComplete.

(** ** Interleaving *)

Inductive Pc :=
| Loading (todo : list Load)
| Reloading (todo : list Load) (woken : bool)   (* the future exists *)
| Awaiting (woken : bool)
| Returned (r : BResult unit).

Record Conf := mkConf { flags : PeerEvents; pc : Pc; pending : list Action }.

Section loop.
Context (l : Loop).

(** A step of the waiter, when it can make one. *)
Definition waiter (e : PeerEvents) (p : Pc) : option Pc :=
  match p with
  | Loading (c :: todo) => Some match c e with Some r => Returned r | None => Loading todo end
  | Loading [] => Some (Reloading (reloads l) false)
  | Reloading (c :: todo) woken =>
      Some match c e with Some r => Returned r | None => Reloading todo woken end
  | Reloading [] woken => Some (Awaiting woken)
  | Awaiting true => Some (Loading (loads l))
  | Awaiting false | Returned _ => None
  end.

Definition wake (p : Pc) : Pc :=
  match p with
  | Reloading todo _ => Reloading todo true
  | Awaiting _ => Awaiting true
  | Loading _ | Returned _ => p
  end.

Inductive step : Conf -> Conf -> Prop :=
| step_waiter e p p' acts : waiter e p = Some p' -> step (mkConf e p acts) (mkConf e p' acts)
| step_store e p f acts : step (mkConf e p (Store f :: acts)) (mkConf (f e) p acts)
| step_notify e p n acts :
    step (mkConf e p (NotifyWaiters n :: acts))
         (mkConf e (if bool_decide (n = notifier l) then wake p else p) acts).

Definition start (e : PeerEvents) (evs : list WebRtcEvent) : Conf :=
  mkConf e (Loading (loads l)) (evs ≫= callback).

(** Nothing can happen any more and the loop has not returned: what is left is
    its timeout. *)
Definition asleep (c : Conf) : Prop := pc c = Awaiting false /\ pending c = [].

(** ** Termination *)

Definition round : nat := length (loads l) + length (reloads l) + 3.
Definition pc_weight (p : Pc) : nat :=
  match p with
  | Returned _ | Awaiting false => 0
  | Reloading todo woken => length todo + 1 + (if woken then round else 0)
  | Loading todo => length todo + length (reloads l) + 2
  | Awaiting true => round
  end.
Definition weight (c : Conf) : nat := length (pending c) * (round + 1) + pc_weight (pc c).

Lemma waiter_weight e p p' : waiter e p = Some p' -> (pc_weight p' < pc_weight p)%nat.
Proof.
  unfold waiter, round. intros Hw.
  destruct p as [[|c todo]|[|c todo] w|[]|]; simplify_eq/=; unfold round; try lia;
    try (case_match; cbn; unfold round; lia); destruct w; unfold round; lia.
Qed.

Lemma wake_weight p : (pc_weight (wake p) <= pc_weight p + round)%nat.
Proof. destruct p as [|? []|[]|]; cbn; lia. Qed.

Lemma step_weight c c' : step c c' -> (weight c' < weight c)%nat.
Proof.
  destruct 1 as [e p p' acts Hw%waiter_weight|e p f acts|e p n acts]; unfold weight; cbn; [lia|lia|].
  case_bool_decide; [|lia]. pose proof (wake_weight p). lia.
Qed.

(** ** No wake-up is lost for a flag that is loaded again *)

(** Every store that may make [c] decide is followed by a notification. *)
Definition harmless (c : Load) (f : PeerEvents -> PeerEvents) : Prop :=
  forall e, c e = None -> c (f e) = None.
Fixpoint notified (c : Load) (acts : list Action) : Prop :=
  match acts with
  | [] => True
  | Store f :: acts => (harmless c f \/ NotifyWaiters (notifier l) ∈ acts) /\ notified c acts
  | NotifyWaiters _ :: acts => notified c acts
  end.

(** Whether [c] was loaded, without deciding, since the future exists. *)
Definition reloaded (c : Load) (p : Pc) : Prop :=
  match p with
  | Reloading todo _ => exists done, reloads l = done ++ todo /\ c ∈ done
  | Awaiting _ => True
  | _ => False
  end.
Definition woken (p : Pc) : bool :=
  match p with Reloading _ w | Awaiting w => w | _ => false end.

Definition owed (c : Load) (s : Conf) : Prop :=
  notified c (pending s) /\
  (match pc s with Reloading todo _ => exists done, reloads l = done ++ todo | _ => True end) /\
  (reloaded c (pc s) -> woken (pc s) = true \/ c (flags s) = None
                        \/ NotifyWaiters (notifier l) ∈ pending s).

Lemma owed_waiter c e p p' acts :
  c ∈ reloads l -> waiter e p = Some p' -> owed c (mkConf e p acts) -> owed c (mkConf e p' acts).
Proof.
  intros Hc Hw (Hn & Hd & Ho). split; [done|]. cbn in *.
  destruct p as [[|d todo]|[|d todo] w|[]|]; simplify_eq/=; try done.
  - split; [by exists []|]. intros (done_ & Hr & Hin).
    apply (f_equal length) in Hr. rewrite length_app in Hr. destruct done_; [set_solver|cbn in Hr; lia].
  - by destruct (d e).
  - split; [done|]. intros _. apply Ho. destruct Hd as [done_ Hd]. exists done_. split; [done|].
    by rewrite Hd, app_nil_r in Hc.
  - destruct (d e) eqn:E; [done|]. destruct Hd as [done_ Hd]. split.
    { exists (done_ ++ [d]). by rewrite <- app_assoc. }
    intros (done' & Hr & Hin). assert (done' = done_ ++ [d]) as ->.
    { rewrite Hd, cons_middle, app_assoc in Hr. by apply app_inv_tail in Hr. }
    apply elem_of_app in Hin as [Hin|Hin]; [|apply list_elem_of_singleton in Hin; subst; by right; left].
    apply Ho. by exists done_.
Qed.

Lemma owed_step c s s' : c ∈ reloads l -> step s s' -> owed c s -> owed c s'.
Proof.
  intros Hc Hs. destruct Hs as [e p p' acts Hw|e p f acts|e p n acts].
  - by apply owed_waiter.
  - intros ((Hf & Hn) & Hd & Ho). split; [done|]. split; [done|]. cbn in *. intros Hr.
    destruct (Ho Hr) as [?|[He|Hin]]; [by left| |].
    + destruct Hf as [Hf|?]; [right; left; by apply Hf|by right; right].
    + right; right. by apply elem_of_cons in Hin as [|].
  - intros (Hn & Hd & Ho). split; [done|]. cbn in *. case_bool_decide as E.
    + subst n. split; [by destruct p|]. destruct p; cbn; try done; by left.
    + split; [done|]. intros Hr. destruct (Ho Hr) as [?|[?|Hin]]; auto.
      apply elem_of_cons in Hin as [[=]|]; [congruence|auto].
Qed.

Lemma owed_steps c s s' : c ∈ reloads l -> rtc step s s' -> owed c s -> owed c s'.
Proof. intros Hc. induction 1 as [|s1 s2 s3 Hs _ IH]; [done|]. intros. by apply IH, (owed_step c s1). Qed.

Lemma not_lost c e evs s :
  c ∈ reloads l -> notified c (evs ≫= callback) ->
  rtc step (start e evs) s -> asleep s -> c (flags s) = None.
Proof.
  intros Hc Hn Hr [Hp Ha].
  assert (Ho : owed c s) by (eapply owed_steps; [done..|]; repeat split; cbn; done).
  destruct Ho as (_ & _ & Ho). rewrite Hp, Ha in Ho. cbn in Ho.
  destruct (Ho I) as [?|[?|?%elem_of_nil]]; done.
Qed.
End loop.

(** ** The four waits *)

Lemma notified_app l c a b : notified l c a -> notified l c b -> notified l c (a ++ b).
Proof.
  intros Ha Hb. induction a as [|[f|n] a IH]; [done| |by apply IH].
  destruct Ha as [[?|?] Ha]; cbn; (split; [|by apply IH]); [by left|]. right. set_solver.
Qed.

(** Every callback notifies the waiters of the flags it stores. *)
Lemma callbacks_notified l c evs :
  (forall ev, notified l c (callback ev)) -> notified l c (evs ≫= callback).
Proof. intros Hc. induction evs as [|ev evs IH]; [done|]. by apply notified_app. Qed.

Ltac notified_cases :=
  apply callbacks_notified; intros [[]|[]|[]| |[]]; cbn; repeat split; try done;
  first [left; intros e; by cbn | right; set_solver | left; intros e; unfold install_channel; by case_match].

Lemma connected_notified evs : notified connected_loop load_connected (evs ≫= callback).
Proof. notified_cases. Qed.
Lemma opened_notified evs : notified channel_open_loop load_opened (evs ≫= callback).
Proof. notified_cases. Qed.
Lemma disconnected_notified evs : notified disconnected_loop load_disconnected (evs ≫= callback).
Proof. notified_cases. Qed.
Lemma gathered_notified evs : notified gathering_loop load_gathered (evs ≫= callback).
Proof. notified_cases. Qed.

(** The actions of a callback, run to the end, are the callback of [Peer]. *)
Lemma callback_deliver p ev : foldl store (events p) (callback ev) = events (deliver p ev).
Proof. destruct ev as [[]|[]|[]| |[|b d| | |]]; cbn; try done. by case_match. Qed.

(** The loads of an iteration decide what the polls of [Peer] decide. *)
Definition first_load (cs : list Load) (e : PeerEvents) : option (BResult unit) :=
  head (omap (fun c => c e) cs).
Lemma loads_poll p :
  first_load (loads connected_loop) (events p) = poll_connected p /\
  first_load (loads channel_open_loop) (events p) = poll_channel_open p /\
  first_load (loads disconnected_loop) (events p) = poll_disconnected p /\
  first_load (loads gathering_loop) (events p) = poll_gathering p.
Proof.
  unfold first_load, poll_connected, poll_channel_open, poll_disconnected, poll_gathering; cbn.
  unfold load_connected, load_failure, load_opened, load_error, load_closed, load_disconnected,
    load_gathered.
  split_and!; repeat (case_match; simplify_eq/=); done.
Qed.


(** No step is possible only when the loop has returned, or sleeps with nothing
    left to come. *)
Lemma stuck_ended l s :
  (forall s', ~ step l s s') -> pending s = [] /\ ((exists r, pc s = Returned r) \/ asleep s).
Proof.
  intros Hstuck. destruct s as [f p acts]. unfold asleep. cbn.
  destruct acts as [|[g|m] acts]; [|by destruct (Hstuck _ (step_store l f p g acts))
    |by destruct (Hstuck _ (step_notify l f p m acts))].
  destruct (waiter l f p) as [p'|] eqn:Hw; [by destruct (Hstuck _ (step_waiter l f p p' [] Hw))|].
  destruct p as [[]|[] ?|[]|r]; simplify_eq/=; eauto.
Qed.

Lemma run_bounded l n s s' : nsteps (step l) n s s' -> (n + weight l s' <= weight l s)%nat.
Proof. induction 1 as [s|n a b c Hs _ IH]; [lia|]. apply step_weight in Hs. lia. Qed.

(** ** Returned verdicts *)

Lemma waiter_returns l e p p' r :
  waiter l e p = Some p' -> p' = Returned r ->
  exists c todo, c e = Some r /\ (p = Loading (c :: todo) \/ exists w, p = Reloading (c :: todo) w).
Proof.
  intros Hw ->. destruct p as [[|c todo]|[|c todo] w|[]|]; simplify_eq/=;
    destruct (c e) eqn:E; simplify_eq; eauto 6.
Qed.

(** The loads still to make are loads of the loop. *)
Definition todo_ok (l : Loop) (p : Pc) : Prop :=
  match p with
  | Loading todo => todo ⊆ loads l
  | Reloading todo _ => todo ⊆ reloads l
  | _ => True
  end.

Lemma todo_ok_step l s s' : step l s s' -> todo_ok l (pc s) -> todo_ok l (pc s').
Proof.
  destruct 1 as [e p p' acts Hw|e p f acts|e p n acts]; cbn; intros Hp; [|done|].
  - destruct p as [[|c todo]|[|c todo] w|[]|]; simplify_eq/=; try done; case_match; cbn; set_solver.
  - case_bool_decide; [|done]. by destruct p.
Qed.

(** What a loop returns is what one of its loads saw at some moment. *)
Lemma returned_seen l e evs s r :
  rtc (step l) (start l e evs) s -> pc s = Returned r ->
  exists c s0, c ∈ loads l ++ reloads l /\ rtc (step l) (start l e evs) s0 /\ c (flags s0) = Some r.
Proof.
  intros Hr. assert (H : todo_ok l (pc s) /\ (pc s = Returned r -> exists c s0,
    c ∈ loads l ++ reloads l /\ rtc (step l) (start l e evs) s0 /\ c (flags s0) = Some r)).
  { revert s Hr. apply rtc_ind_r; [split; cbn; [set_solver|done]|]. intros s1 s2 H1 H2 [Ht IH].
    split; [by eapply todo_ok_step|]. intros Hp.
    destruct H2 as [f p p' acts Hw|f p g acts|f p n acts]; cbn in *.
    - destruct (waiter_returns _ _ _ _ _ Hw Hp) as (c & todo & Hc & Hcase).
      exists c, (mkConf f p acts). split_and!; [|done..]. apply elem_of_app.
      destruct Hcase as [->|[w ->]]; cbn in Ht; set_solver.
    - by apply IH.
    - case_bool_decide; [|by apply IH]. apply IH. by destruct p. }
  by apply H.
Qed.

(** ** What every run comes to *)

(** The flags once every callback has run are those [Peer] has after the same
    callbacks, one whole callback after the other. *)
Lemma callbacks_deliver p evs :
  foldl store (events p) (evs ≫= callback) = events (foldl deliver p evs).
Proof.
  revert p. induction evs as [|ev evs IH]; intros p; [done|]. cbn [foldl].
  rewrite <- IH, <- callback_deliver. apply foldl_app.
Qed.

Lemma flags_final l s s' :
  rtc (step l) s s' -> foldl store (flags s') (pending s') = foldl store (flags s) (pending s).
Proof. induction 1 as [|s1 s2 s3 Hs _ ->]; [done|]. by destruct Hs. Qed.

(** What a load of the four loops saw it would still see at the end: no callback
    takes a flag back. *)
Definition kept (c : Load) (a : Action) : Prop :=
  forall e, is_Some (c e) -> is_Some (c (store e a)).

Lemma pending_kept c l s s' :
  rtc (step l) s s' -> Forall (kept c) (pending s) -> Forall (kept c) (pending s').
Proof.
  induction 1 as [|s1 s2 s3 Hs _ IH]; [done|]. intros Hk. apply IH.
  destruct Hs; cbn in *; [done|by inversion Hk..].
Qed.

Lemma foldl_kept c acts e :
  Forall (kept c) acts -> is_Some (c e) -> is_Some (c (foldl store e acts)).
Proof. intros Hk. revert e. induction Hk as [|a acts Ha _ IH]; intros e He; [done|]. by apply IH, Ha. Qed.

Lemma kept_callbacks evs :
  Forall (fun c => Forall (kept c) (evs ≫= callback))
    [load_connected; load_failure; load_disconnected; load_opened; load_error; load_closed; load_gathered].
Proof.
  repeat constructor; (induction evs as [|ev evs IH]; [constructor|]; apply Forall_app; split; [|done]);
    destruct ev as [[]|[]|[]| |[]]; repeat constructor; intros e;
    unfold load_connected, load_failure, load_disconnected, load_opened, load_error, load_closed,
      load_gathered, install_channel; cbn; try done; repeat case_match; first [done|congruence].
Qed.

(** A load of a loop that has seen something sees it in the final flags. *)
Lemma seen_final l p evs c s r :
  c ∈ [load_connected; load_failure; load_disconnected; load_opened; load_error; load_closed; load_gathered] ->
  rtc (step l) (start l (events p) evs) s -> c (flags s) = Some r -> is_Some (c (events (foldl deliver p evs))).
Proof.
  intros Hin Hr Hc. pose proof (proj1 (Forall_forall _ _) (kept_callbacks evs) c Hin) as Hk.
  apply (pending_kept c l _ s Hr) in Hk. apply flags_final in Hr. cbn in Hr.
  rewrite <- callbacks_deliver, <- Hr. apply foldl_kept; [done|by eexists].
Qed.

(** How a wait for [success], which gives up on [failure], has to end. *)
Definition verdict (success failure : bool) (p : Pc) : Prop :=
  match p with
  | Returned (Ok _) => success = true
  | Returned (Err _) => failure = true
  | Awaiting false => success = false
  | _ => False
  end.

(** Every run of [l] beside the callbacks [evs] has a bounded number of steps and
    comes to that end. *)
Definition settles (l : Loop) (p : PeerHandle) (evs : list WebRtcEvent) (success failure : bool) : Prop :=
  forall n s, nsteps (step l) n (start l (events p) evs) s ->
    (n <= weight l (start l (events p) evs))%nat /\
    ((forall s', ~ step l s s') -> verdict success failure (pc s)).

Lemma settles_intro l p evs (success failure : bool) :
  (forall s, rtc (step l) (start l (events p) evs) s -> asleep s -> success = false) ->
  (forall c s r, c ∈ loads l ++ reloads l -> rtc (step l) (start l (events p) evs) s ->
     c (flags s) = Some r -> if is_ok r then success = true else failure = true) ->
  settles l p evs success failure.
Proof.
  intros Hasleep Hseen n s Hn. assert (Hr := rtc_nsteps_2 _ _ _ Hn). apply run_bounded in Hn.
  split; [lia|]. intros Hstuck. apply stuck_ended in Hstuck as [_ [[r Hp]|Ha]].
  - destruct (returned_seen _ _ _ _ _ Hr Hp) as (c & s0 & Hc & Hr0 & Hs0). rewrite Hp.
    by destruct r; apply (Hseen c s0 _ Hc Hr0 Hs0).
  - pose proof (Hasleep s Hr Ha) as ->. destruct Ha as [-> _]. done.
Qed.

Lemma not_asleep {l p evs s} (c : Load) :
  c ∈ reloads l -> notified l c (evs ≫= callback) ->
  rtc (step l) (start l (events p) evs) s -> asleep s -> c (events (foldl deliver p evs)) = None.
Proof.
  intros Hc Hn Hr Ha. pose proof (flags_final l _ s Hr) as Hf. rewrite (proj2 Ha) in Hf. cbn in Hf.
  rewrite <- callbacks_deliver, <- Hf. by eapply not_lost.
Qed.

(** C23: The waits decide rightly. However the callbacks of the WebRTC crate interleave
    with the loads of a waiting loop, every run has at most [weight] steps, and
    where it ends the loop has returned success only if what it waits for is so
    once all the callbacks have run one after the other, has returned an error
    only if the connection failed or the channel had an error or was closed, and
    sleeps on, towards its timeout, only if what it waits for is not so. The
    waits for a disconnect and for the candidates never return an error. *)
Theorem waits_decide p evs :
  let e := events (foldl deliver p evs) in
  settles connected_loop p evs (connected_state e) (is_some (connection_failure e)) /\
  settles channel_open_loop p evs (channel_opened e) (is_some (channel_error e) || channel_closed e) /\
  settles disconnected_loop p evs (is_some (connection_failure e)) false /\
  settles gathering_loop p evs (gathering_done e) false.
Proof.
  cbv zeta. split_and!; apply settles_intro.
  1: intros s Hr Ha;
       pose proof (not_asleep (l := connected_loop) load_connected ltac:(cbn; set_solver) (connected_notified evs) Hr Ha) as H.
  3: intros s Hr Ha;
       pose proof (not_asleep (l := channel_open_loop) load_opened ltac:(cbn; set_solver) (opened_notified evs) Hr Ha) as H.
  5: intros s Hr Ha;
       pose proof (not_asleep (l := disconnected_loop) load_disconnected ltac:(cbn; set_solver) (disconnected_notified evs) Hr Ha) as H.
  7: intros s Hr Ha;
       pose proof (not_asleep (l := gathering_loop) load_gathered ltac:(cbn; set_solver) (gathered_notified evs) Hr Ha) as H.
  1,3,5,7: unfold load_connected, load_opened, load_disconnected, load_gathered in H; by case_match.
  all: intros c s r Hin Hr Hc; assert (Hf := fun H => seen_final _ p evs c s r H Hr Hc);
    cbn in Hin; repeat (apply elem_of_cons in Hin as [->|Hin]); try by apply elem_of_nil in Hin.
  all: specialize (Hf ltac:(set_solver)); revert Hc Hf;
    unfold load_connected, load_failure, load_disconnected, load_opened, load_error, load_closed,
      load_gathered; repeat case_match; intros [=] [? [=]]; subst; cbn; try done; by rewrite ?orb_true_r.
Qed.

(** The waiter makes [k] steps, the callback runs, the waiter goes on. *)
Tactic Notation "schedule" integer(k) :=
  do k (eapply rtc_l; [by apply step_waiter|cbn]);
  eapply rtc_l; [apply step_store|]; eapply rtc_l; [apply step_notify|cbn];
  do 3 (eapply rtc_l; [by apply step_waiter|cbn]); reflexivity.

(** A failure can be lost: it is loaded only before the future exists, so a
    callback between that load and [notified()] is noticed by nobody, and the
    wait ends in its timeout although the failure is recorded. *)
Theorem failure_can_be_lost :
  (exists s, rtc (step connected_loop)
      (start connected_loop peer_events_new [ConnectionStateChange PcFailed]) s
    /\ asleep s /\ connection_failure (flags s) = Some "peer connection entered Failed state") /\
  (exists s, rtc (step channel_open_loop)
      (start channel_open_loop peer_events_new [ChannelEvent OnError]) s
    /\ asleep s /\ channel_error (flags s) = Some "data channel reported an error").
Proof.
  split.
  - eexists. split; [schedule 2|by split].
  - eexists. split; [schedule 3|by split].
Qed.

(** A run in which the candidates are gathered while the loop is about to sleep. *)
Lemma waits_decide_witness :
  let p := mkPeer peer_events_new [] false [] (mkWebRtc [] [] None) in
  let evs := [IceGatheringStateChange true] in
  exists s, nsteps (step gathering_loop) 5 (start gathering_loop (events p) evs) s /\
    (forall s', ~ step gathering_loop s s') /\ verdict (gathering_done (flags s)) false (pc s).
Proof.
  cbv zeta.
  assert (Hn : nsteps (step gathering_loop) 5
    (start gathering_loop peer_events_new [IceGatheringStateChange true])
    (mkConf (on_ice_gathering_state_change peer_events_new true) (Returned (Ok tt)) [])).
  { do 2 (eapply nsteps_l; [by apply step_waiter|cbn]). eapply nsteps_l; [apply step_store|].
    eapply nsteps_l; [apply step_notify|cbn]. eapply nsteps_l; [by apply step_waiter|apply nsteps_O]. }
  eexists. split; [exact Hn|].
  assert (Hs : forall s', ~ step gathering_loop
    (mkConf (on_ice_gathering_state_change peer_events_new true) (Returned (Ok tt)) []) s').
  { intros s'. inversion 1. done. }
  split; [exact Hs|].
  destruct (waits_decide (mkPeer peer_events_new [] false [] (mkWebRtc [] [] None))
    [IceGatheringStateChange true]) as (_ & _ & _ & Hg).
  exact (proj2 (Hg _ _ Hn) Hs).
Defined.

