(* ===== verification/Wire.v ===== *)
(** * The protobuf messages

    The messages of [src/proto/control.proto] and [src/proto/stream.proto] as
    the generated bindings declare them ([src/src/proto_generated.rs] includes
    those bindings; they are built, not part of the sources). The codec is
    [prost]'s, the class [External.Prost]. The module [Proto3] is the proto3
    wire format for these messages, an executable instance of that class used
    to evaluate the model. *)
From S2P Require Import Prelude Errors External.

Module control.
Record ConnectMessage := mkConnect {
  connect_type : string; connect_path : string; connect_version : Z }.
Record AuthRequiredMessage := mkAuthRequired { auth_required_type : string }.
Record AuthMessage := mkAuth { auth_type : string; pin : string }.
Record AuthResultMessage := mkAuthResult { auth_result_type : string; success : bool }.
Record ReadyMessage := mkReady {
  ready_type : string; server_version : Z; caps : list string; routing : string }.
Record ErrorMessage := mkError { error_type : string; message : string }.
End control.

Module stream.
Inductive FileOpType :=
| FileOpUnspecified | FileOpGet | FileOpPut | FileOpList | FileOpStat | FileOpDelete.
Record FileOp := mkFileOp {
  fileop_type : string; op : Z; fileop_path : string; fileop_size : Z;
  overwrite : bool; range : list Z }.
Record FileInfo := mkFileInfo {
  info_name : string; info_size : Z; is_dir : bool; modified : string; mode : string }.
Record FileList := mkFileList { list_path : string; files : list FileInfo }.
Record ShellOpen := mkShellOpen {
  open_type : string; program : string; args : list string; cwd : string }.
Record ShellInput := mkShellInput { input_data : list byte }.
Record ShellOutput := mkShellOutput { output_data : list byte }.
Record TerminalResize := mkTerminalResize { cols : Z; rows : Z }.
Record ShellExit := mkShellExit { code : Z; signaled : bool }.
Record ShellError := mkShellError { shell_error_message : string }.
Record ShellCancel := mkShellCancel { requested : bool }.
Record TcpOpen := mkTcpOpen { tcp_type : string; tcp_host : string; tcp_port : Z }.
Record TcpData := mkTcpData { tcp_data : list byte }.
Record HttpRequest := mkHttpRequest {
  http_type : string; method : string; pathname : string; content_type : string;
  content_length : Z; headers : list (string * string) }.
Record HttpResponse := mkHttpResponse { status : Z; response_headers : list (string * string) }.
Record HttpData := mkHttpData { http_data : list byte }.
Record WebSocketOpen := mkWebSocketOpen {
  ws_type : string; ws_target : string; ws_headers : list (string * string) }.
Record WebSocketMessage := mkWebSocketMessage { message_type : Z; ws_data : list byte }.

(** [value as i32] and [FileOpType::try_from]. *)
Definition file_op_value (t : FileOpType) : Z :=
  match t with
  | FileOpUnspecified => 0 | FileOpGet => 1 | FileOpPut => 2
  | FileOpList => 3 | FileOpStat => 4 | FileOpDelete => 5
  end.
Definition file_op_try_from (v : Z) : option FileOpType :=
  match v with
  | 0 => Some FileOpUnspecified | 1 => Some FileOpGet | 2 => Some FileOpPut
  | 3 => Some FileOpList | 4 => Some FileOpStat | 5 => Some FileOpDelete
  | _ => None
  end.
End stream.

Module Proto3.
(** Field values on the wire: varints and length-delimited bytes. *)
Inductive value := Varint (z : Z) | Len (bs : list byte).

Fixpoint put_varint (fuel : nat) (z : Z) : list byte :=
  match fuel with
  | O => []
  | S fuel =>
      if z <? 128 then [byte_of z]
      else byte_of (z mod 128 + 128) :: put_varint fuel (z / 128)
  end.
Definition varint (z : Z) : list byte := put_varint 10 (z mod 2 ^ 64).

Fixpoint get_varint (fuel : nat) (bs : list byte) : option (Z * list byte) :=
  match fuel, bs with
  | S fuel, b :: bs =>
      if byte_val b <? 128 then Some (byte_val b, bs)
      else match get_varint fuel bs with
           | Some (z, rest) => Some (byte_val b - 128 + 128 * z, rest)
           | None => None
           end
  | _, _ => None
  end.

Definition put_field (n : Z) (v : value) : list byte :=
  match v with
  | Varint z => varint (n * 8) ++ varint z
  | Len bs => varint (n * 8 + 2) ++ varint (zlen bs) ++ bs
  end.

(** proto3 leaves out fields that hold the default value. *)
Definition put_str (n : Z) (s : string) : list byte :=
  if str_is_empty s then [] else put_field n (Len (as_bytes s)).
Definition put_bytes (n : Z) (bs : list byte) : list byte :=
  if is_nil bs then [] else put_field n (Len bs).
Definition put_int (n : Z) (z : Z) : list byte :=
  if z =? 0 then [] else put_field n (Varint z).
Definition put_bool (n : Z) (b : bool) : list byte := put_int n (if b then 1 else 0).
Definition put_strs (n : Z) (l : list string) : list byte :=
  concat ((fun s => put_field n (Len (as_bytes s))) <$> l).
Definition put_packed (n : Z) (l : list Z) : list byte :=
  put_bytes n (concat (varint <$> l)).

Fixpoint get_fields (fuel : nat) (bs : list byte) : option (list (Z * value)) :=
  match fuel, bs with
  | _, [] => Some []
  | O, _ => None
  | S fuel, _ =>
      match get_varint 10 bs with
      | None => None
      | Some (tag, rest) =>
          if tag mod 8 =? 0 then
            match get_varint 10 rest with
            | Some (z, rest) =>
                match get_fields fuel rest with
                | Some l => Some ((tag / 8, Varint z) :: l)
                | None => None
                end
            | None => None
            end
          else if tag mod 8 =? 2 then
            match get_varint 10 rest with
            | Some (n, rest) =>
                if zlen rest <? n then None else
                match get_fields fuel (drop (Z.to_nat n) rest) with
                | Some l => Some ((tag / 8, Len (take (Z.to_nat n) rest)) :: l)
                | None => None
                end
            | None => None
            end
          else None
      end
  end.

Definition fields (bs : list byte) : option (list (Z * value)) := get_fields (length bs) bs.

(** A field of a decoded message: the last value wins, a value of the wrong
    wire type is an error, an absent field is the default. *)
Fixpoint get_len (n : Z) (acc : list byte) (l : list (Z * value)) : option (list byte) :=
  match l with
  | [] => Some acc
  | (m, v) :: l =>
      if m =? n then match v with Len bs => get_len n bs l | Varint _ => None end
      else get_len n acc l
  end.
Fixpoint get_num (n acc : Z) (l : list (Z * value)) : option Z :=
  match l with
  | [] => Some acc
  | (m, v) :: l =>
      if m =? n then match v with Varint z => get_num n z l | Len _ => None end
      else get_num n acc l
  end.
Definition get_str (n : Z) (l : list (Z * value)) : option string :=
  String.string_of_list_byte <$> get_len n [] l.
Definition signed (w z : Z) : Z :=
  let z := z mod 2 ^ w in if z <? 2 ^ (w - 1) then z else z - 2 ^ w.
Definition get_i32 (n : Z) (l : list (Z * value)) : option Z := signed 32 <$> get_num n 0 l.
Definition get_bool (n : Z) (l : list (Z * value)) : option bool :=
  (fun z => negb (z =? 0)) <$> get_num n 0 l.
Fixpoint get_strs (n : Z) (l : list (Z * value)) : option (list string) :=
  match l with
  | [] => Some []
  | (m, v) :: l =>
      if m =? n then
        match v, get_strs n l with
        | Len bs, Some r => Some (String.string_of_list_byte bs :: r)
        | _, _ => None
        end
      else get_strs n l
  end.

Definition decoded {M} (o : option M) : Result string M :=
  match o with Some m => Ok m | None => Err "failed to decode Protobuf message" end.

Definition connect : Prost control.ConnectMessage := {|
  encode_to_vec m := put_str 1 (control.connect_type m) ++ put_str 2 (control.connect_path m)
                     ++ put_int 3 (control.connect_version m);
  prost_decode bs := decoded (l ← fields bs; t ← get_str 1 l; p ← get_str 2 l; v ← get_i32 3 l;
                              Some (control.mkConnect t p v));
|}.
Definition auth_required : Prost control.AuthRequiredMessage := {|
  encode_to_vec m := put_str 1 (control.auth_required_type m);
  prost_decode bs := decoded (l ← fields bs; t ← get_str 1 l; Some (control.mkAuthRequired t));
|}.
Definition auth : Prost control.AuthMessage := {|
  encode_to_vec m := put_str 1 (control.auth_type m) ++ put_str 2 (control.pin m);
  prost_decode bs := decoded (l ← fields bs; t ← get_str 1 l; p ← get_str 2 l;
                              Some (control.mkAuth t p));
|}.
Definition auth_result : Prost control.AuthResultMessage := {|
  encode_to_vec m := put_str 1 (control.auth_result_type m) ++ put_bool 2 (control.success m);
  prost_decode bs := decoded (l ← fields bs; t ← get_str 1 l; b ← get_bool 2 l;
                              Some (control.mkAuthResult t b));
|}.
Definition ready : Prost control.ReadyMessage := {|
  encode_to_vec m := put_str 1 (control.ready_type m) ++ put_int 2 (control.server_version m)
                     ++ put_strs 3 (control.caps m) ++ put_str 4 (control.routing m);
  prost_decode bs := decoded (l ← fields bs; t ← get_str 1 l; v ← get_i32 2 l;
                              c ← get_strs 3 l; r ← get_str 4 l;
                              Some (control.mkReady t v c r));
|}.
Definition error : Prost control.ErrorMessage := {|
  encode_to_vec m := put_str 1 (control.error_type m) ++ put_str 2 (control.message m);
  prost_decode bs := decoded (l ← fields bs; t ← get_str 1 l; p ← get_str 2 l;
                              Some (control.mkError t p));
|}.
Definition shell_open : Prost stream.ShellOpen := {|
  encode_to_vec m := put_str 1 (stream.open_type m) ++ put_str 2 (stream.program m)
                     ++ put_strs 3 (stream.args m) ++ put_str 4 (stream.cwd m);
  prost_decode bs := decoded (l ← fields bs; t ← get_str 1 l; p ← get_str 2 l;
                              a ← get_strs 3 l; c ← get_str 4 l;
                              Some (stream.mkShellOpen t p a c));
|}.
Definition resize : Prost stream.TerminalResize := {|
  encode_to_vec m := put_int 1 (stream.cols m) ++ put_int 2 (stream.rows m);
  prost_decode bs := decoded (l ← fields bs; c ← get_i32 1 l; r ← get_i32 2 l;
                              Some (stream.mkTerminalResize c r));
|}.
Definition shell_input : Prost stream.ShellInput := {|
  encode_to_vec m := put_bytes 1 (stream.input_data m);
  prost_decode bs := decoded (l ← fields bs; d ← get_len 1 [] l; Some (stream.mkShellInput d));
|}.
Definition shell_cancel : Prost stream.ShellCancel := {|
  encode_to_vec m := put_bool 1 (stream.requested m);
  prost_decode bs := decoded (l ← fields bs; b ← get_bool 1 l; Some (stream.mkShellCancel b));
|}.
Definition tcp_data : Prost stream.TcpData := {|
  encode_to_vec m := put_bytes 1 (stream.tcp_data m);
  prost_decode bs := decoded (l ← fields bs; d ← get_len 1 [] l; Some (stream.mkTcpData d));
|}.
End Proto3.
