(* ===== verification/Paths.v ===== *)
(** * Paths and the filesystem

    [std::path] on the Unix targets, for the sandbox checks of the file and
    shell services: components, joining, component-wise prefixes and parents.
    The filesystem itself is the class [Filesystem] of the system calls the
    services make. *)
From S2P Require Import Prelude Errors.

Inductive Component := RootDir | CurDir | ParentDir | Normal (s : list byte).

#[export] Instance Component_eq_dec : EqDecision Component.
Proof. solve_decision. Defined.

Definition SLASH : byte := x2f.
Definition is_slash (b : byte) : bool := byte_val b =? byte_val SLASH.

(** The pieces of a path between separators. *)
Fixpoint split_slash (acc : list byte) (l : list byte) : list (list byte) :=
  match l with
  | [] => [acc]
  | b :: l => if is_slash b then acc :: split_slash [] l else split_slash (acc ++ [b]) l
  end.

Definition DOT : list byte := [x2e].
Definition DOTDOT : list byte := [x2e; x2e].

(** Empty pieces and inner [.] pieces vanish. *)
Definition piece (s : list byte) : list Component :=
  if bool_decide (s = []) || bool_decide (s = DOT) then []
  else if bool_decide (s = DOTDOT) then [ParentDir] else [Normal s].

Definition is_absolute (p : string) : bool := starts_with_byte SLASH p.

(** [Path::components]: a leading [.] is kept on a relative path. *)
Definition components (p : string) : list Component :=
  match split_slash [] (as_bytes p) with
  | [] => []
  | first :: rest =>
      (if is_absolute p then [RootDir]
       else if bool_decide (first = DOT) then [CurDir] else piece first)
      ++ concat (piece <$> rest)
  end.

(** [Path::starts_with]: component-wise prefix. *)
Fixpoint comp_prefix (p q : list Component) : bool :=
  match p, q with
  | [], _ => true
  | a :: p, b :: q => bool_decide (a = b) && comp_prefix p q
  | _ :: _, [] => false
  end.
Definition path_starts_with (p base : string) : bool :=
  comp_prefix (components base) (components p).

(** [Path::eq]: component-wise equality. *)
Definition path_eqb (p q : string) : bool := bool_decide (components p = components q).

(** [PathBuf::push], [Path::join]. *)
Definition ends_with_slash (p : string) : bool :=
  match last (as_bytes p) with Some b => is_slash b | None => false end.
Definition path_join (base arg : string) : string :=
  if is_absolute arg then arg
  else if str_is_empty base || ends_with_slash base then base +:+ arg
  else base +:+ "/" +:+ arg.

(** Whether [Path::parent] exists: the path is neither empty nor just the
    root. *)
Definition has_parent (p : string) : bool :=
  match last (components p) with
  | Some RootDir | None => false
  | _ => true
  end.

Lemma path_eqb_eq p q : path_eqb p q = true <-> components p = components q.
Proof. apply bool_decide_eq_true. Qed.

Lemma path_eqb_refl p : path_eqb p p = true.
Proof. unfold path_eqb. by rewrite bool_decide_eq_true. Qed.

Lemma path_eqb_sym p q : path_eqb p q = path_eqb q p.
Proof. unfold path_eqb. apply bool_decide_ext. split; congruence. Qed.

Lemma path_eqb_trans p q r : path_eqb p q = true -> path_eqb p r = path_eqb q r.
Proof. unfold path_eqb. intros H. bool_to_prop. by rewrite H. Qed.

Lemma comp_prefix_spec p q : comp_prefix p q = true <-> exists r, q = p ++ r.
Proof.
  revert q; induction p as [|a p IH]; intros q; cbn.
  - split; [intros _; by exists q|done].
  - destruct q as [|b q]; [naive_solver|].
    rewrite andb_true_iff, bool_decide_eq_true, IH. naive_solver.
Qed.

(** ** System calls *)

Record Metadata := mkMetadata {
  md_is_dir : bool;
  md_is_symlink : bool;
  md_len : Z;
  md_modified_secs : option Z;   (* seconds since the epoch, when available *)
  md_mode : Z;
}.

(** What the operating system answers at one moment. *)
Class Filesystem := {
  fs_canonicalize : string -> Result IoError string;
  fs_symlink_metadata : string -> Result IoError Metadata;
  fs_metadata : string -> Result IoError Metadata;
}.

(** [Path::is_dir]. *)
Definition fs_is_dir `{Filesystem} (p : string) : bool :=
  match fs_metadata p with Ok m => md_is_dir m | Err _ => false end.

(** ** Joining stays below the base *)

Lemma split_slash_app acc a b :
  split_slash acc (a ++ SLASH :: b) = split_slash acc a ++ split_slash [] b.
Proof.
  revert acc; induction a as [|x a IH]; intros acc; [done|].
  cbn. destruct (is_slash x); cbn; by rewrite IH.
Qed.

Lemma split_slash_no_slash acc l :
  Forall (fun b => is_slash b = false) l -> split_slash acc l = [acc ++ l].
Proof.
  intros Hl. revert acc. induction Hl as [|b l Hb Hl IH]; intros acc; cbn.
  - by rewrite app_nil_r.
  - by rewrite Hb, IH, <- app_assoc.
Qed.

Lemma split_slash_cons acc l : exists p r, split_slash acc l = p :: r.
Proof. revert acc; induction l; intros acc; cbn; [eauto|]. case_match; eauto. Qed.

Lemma is_absolute_append s t : str_is_empty s = false -> is_absolute (s +:+ t) = is_absolute s.
Proof.
  unfold is_absolute, starts_with_byte, str_is_empty. rewrite as_bytes_append.
  by destruct (as_bytes s).
Qed.

Definition pieces (rel : string) : list Component :=
  concat (piece <$> split_slash [] (as_bytes rel)).

(** The pieces of a relative path are appended to the base's components. *)
Lemma components_join base rel :
  str_is_empty base = false -> is_absolute rel = false ->
  components (path_join base rel) = components base ++ pieces rel.
Proof.
  intros Hb Hr. unfold path_join. rewrite Hr, Hb. cbn [orb].
  assert (Hsl : forall d e, as_bytes d = as_bytes base \/ as_bytes base = as_bytes d ++ [SLASH] ->
            as_bytes e = as_bytes d ++ SLASH :: as_bytes rel -> str_is_empty e = false ->
            is_absolute e = is_absolute base -> (as_bytes d = [] -> is_absolute base = true) ->
            components e = components base ++ pieces rel).
  { intros d e Hd He Hne Habs Hdn. unfold components. rewrite He, split_slash_app, Habs.
    unfold pieces. destruct (split_slash_cons [] (as_bytes d)) as (p & r & Hp). rewrite Hp.
    assert (Hbp : exists r', split_slash [] (as_bytes base) = p :: r' /\
                    concat (piece <$> r') = concat (piece <$> r)).
    { destruct Hd as [<-| ->]; [eauto|]. change [SLASH] with (SLASH :: []).
      rewrite split_slash_app, Hp. exists (r ++ [[]]). split; [done|].
      rewrite fmap_app, concat_app. cbn. by rewrite !app_nil_r. }
    destruct Hbp as (r' & -> & Hr'). rewrite Hr'. cbn [app].
    rewrite fmap_app, concat_app, <- app_assoc. done. }
  destruct (ends_with_slash base) eqn:Ee.
  - unfold ends_with_slash in Ee. destruct (last (as_bytes base)) as [b|] eqn:El; [|done].
    apply last_Some in El as [d El]. unfold is_slash in Ee. apply Z.eqb_eq, byte_val_inj in Ee.
    subst b. apply (Hsl (String.string_of_list_byte d)); rewrite ?as_bytes_string_of.
    + by right.
    + by rewrite as_bytes_append, El, <- app_assoc.
    + unfold str_is_empty in *. rewrite as_bytes_append. by destruct (as_bytes base).
    + by apply is_absolute_append.
    + intros ->. unfold is_absolute, starts_with_byte. by rewrite El.
  - apply (Hsl base).
    + by left.
    + rewrite !as_bytes_append. done.
    + unfold str_is_empty in *. rewrite as_bytes_append. by destruct (as_bytes base).
    + by apply is_absolute_append.
    + unfold str_is_empty in Hb. by destruct (as_bytes base).
Qed.

(** Names that occur as normal components. *)
Definition good_name (s : list byte) : Prop :=
  s <> [] /\ s <> DOT /\ s <> DOTDOT /\ Forall (fun b => is_slash b = false) s.

Lemma piece_good s : good_name s -> piece s = [Normal s].
Proof.
  intros (H1 & H2 & H3 & _). unfold piece. rewrite !bool_decide_eq_false_2 by done. done.
Qed.

Lemma split_slash_pieces acc l :
  Forall (fun b => is_slash b = false) acc ->
  Forall (Forall (fun b => is_slash b = false)) (split_slash acc l).
Proof.
  revert acc; induction l as [|b l IH]; intros acc Ha; cbn; [by constructor|].
  destruct (is_slash b) eqn:E; [constructor; auto|]. apply IH.
  apply Forall_app. split; [done|by repeat constructor].
Qed.

Lemma components_normal p s : Normal s ∈ components p -> good_name s.
Proof.
  assert (Hpiece : forall q, Forall (fun b => is_slash b = false) q ->
            Normal s ∈ piece q -> good_name s).
  { intros q Hq. unfold piece. destruct (bool_decide _ || _) eqn:E; [by intros ?%not_elem_of_nil|].
    destruct (bool_decide (q = DOTDOT)) eqn:E2; bool_to_prop.
    - by intros ?%list_elem_of_singleton.
    - intros ?%list_elem_of_singleton. simplify_eq. done. }
  unfold components.
  pose proof (split_slash_pieces [] (as_bytes p) ltac:(constructor)) as Hall.
  destruct (split_slash [] (as_bytes p)) as [|f r]; [by intros ?%not_elem_of_nil|].
  inversion Hall as [|? ? Hf Hr]; subst. intros [Hin|Hin]%elem_of_app.
  - destruct (is_absolute p); [by apply list_elem_of_singleton in Hin|].
    destruct (bool_decide (f = DOT)); [by apply list_elem_of_singleton in Hin|].
    by apply (Hpiece f).
  - apply list_elem_of_In, in_concat in Hin as (l & Hl & Hin).
    apply list_elem_of_In, list_elem_of_fmap in Hl as (q & -> & Hq).
    apply (Hpiece q); [|by apply list_elem_of_In].
    rewrite Forall_forall in Hr. by apply Hr.
Qed.

(** [Path::parent], rendered from the components. *)
Definition render (cs : list Component) : string :=
  let name c := match c with
                | RootDir => EmptyString
                | CurDir => "."
                | ParentDir => ".."
                | Normal s => String.string_of_list_byte s
                end in
  match cs with
  | RootDir :: [] => "/"
  | _ => foldl (fun acc c => match c with
                             | RootDir => "/"
                             | _ => path_join acc (name c)
                             end) EmptyString cs
  end.
Definition path_parent (p : string) : option string :=
  if has_parent p then Some (render (removelast (components p))) else None.
