(* ===== verification/Shell.v ===== *)
(** * The shell stream

    [src/src/stream/shell.rs]: the command and its local policy, the check that
    confines a command to the policy's root, the shared output budget of the
    two pipe readers, the run of one command over the outcomes of the child
    process, and the codec between shell messages and SWSP frames. *)
From S2P Require Import Prelude Errors External Swsp Streams Wire Paths.

Definition DEFAULT_MAX_OUTPUT_BYTES : Z := 1024 * 1024.
Definition DEFAULT_MAX_ARGUMENTS : Z := 32.
Definition DEFAULT_MAX_ARGUMENT_BYTES : Z := 4096.
Definition DEFAULT_TIMEOUT : Z := from_secs 30.

(** ** Commands *)

Record ShellCommand := mkShellCommand {
  program : string;
  args : list string;
  cwd : string;
}.

#[export] Instance ShellCommand_eq_dec : EqDecision ShellCommand.
Proof. solve_decision. Defined.

Definition shell_command_new (program : string) : ShellCommand :=
  mkShellCommand program [] EmptyString.
Definition with_arg (c : ShellCommand) (arg : string) : ShellCommand :=
  mkShellCommand (program c) (args c ++ [arg]) (cwd c).
Definition with_args (c : ShellCommand) (l : list string) : ShellCommand :=
  mkShellCommand (program c) (args c ++ l) (cwd c).
Definition with_cwd (c : ShellCommand) (d : string) : ShellCommand :=
  mkShellCommand (program c) (args c) d.

(** ** Policy *)

Record ShellPolicy := mkShellPolicy {
  root_dir : string;
  allowed_programs : gset string;
  environment : gmap string string;
  max_output_bytes : Z;
  max_arguments : Z;
  max_argument_bytes : Z;
  policy_timeout : Z;
}.

Definition shell_policy_new (root : string) : BResult ShellPolicy :=
  if negb (is_absolute root)
  then Err (ErrStream "shell policy root must be an absolute path")
  else Ok (mkShellPolicy root ∅ ∅ DEFAULT_MAX_OUTPUT_BYTES DEFAULT_MAX_ARGUMENTS
             DEFAULT_MAX_ARGUMENT_BYTES DEFAULT_TIMEOUT).

Definition allow_program (p : ShellPolicy) (prog : string) : ShellPolicy :=
  mkShellPolicy (root_dir p) ({[prog]} ∪ allowed_programs p) (environment p)
    (max_output_bytes p) (max_arguments p) (max_argument_bytes p) (policy_timeout p).

Definition with_environment (p : ShellPolicy) (name value : string) : ShellPolicy :=
  mkShellPolicy (root_dir p) (allowed_programs p) (<[name := value]> (environment p))
    (max_output_bytes p) (max_arguments p) (max_argument_bytes p) (policy_timeout p).

Definition with_max_output_bytes (p : ShellPolicy) (limit : Z) : BResult ShellPolicy :=
  if limit =? 0 then Err (ErrStream "shell output limit must be greater than zero")
  else Ok (mkShellPolicy (root_dir p) (allowed_programs p) (environment p)
             limit (max_arguments p) (max_argument_bytes p) (policy_timeout p)).

Definition with_max_arguments (p : ShellPolicy) (limit : Z) : BResult ShellPolicy :=
  if limit =? 0 then Err (ErrStream "shell argument limit must be greater than zero")
  else Ok (mkShellPolicy (root_dir p) (allowed_programs p) (environment p)
             (max_output_bytes p) limit (max_argument_bytes p) (policy_timeout p)).

Definition with_timeout (p : ShellPolicy) (duration : Z) : BResult ShellPolicy :=
  if duration =? 0 then Err (ErrStream "shell timeout must be greater than zero")
  else Ok (mkShellPolicy (root_dir p) (allowed_programs p) (environment p)
             (max_output_bytes p) (max_arguments p) (max_argument_bytes p) duration).

(** The working directory asked for is relative and never climbs. *)
Definition escapes (c : Component) : bool :=
  match c with ParentDir | RootDir => true | _ => false end.

Definition policy_validate `{Filesystem} (p : ShellPolicy) (c : ShellCommand) : BResult string :=
  if trim_is_empty (program c) || contains_byte x00 (program c)
  then Err (ErrStream "shell program must not be empty") else
  if negb (bool_decide (allowed_programs p = ∅))
     && negb (bool_decide (program c ∈ allowed_programs p))
  then Err (ErrStream ("shell program is not allowed by policy: " +:+ program c)) else
  if zlen (args c) >? max_arguments p
  then Err (ErrStream "shell argument count exceeds policy") else
  if existsb (fun arg => contains_byte x00 arg || (str_len arg >? max_argument_bytes p)) (args c)
  then Err (ErrStream "shell argument exceeds policy") else
  let? dir :=
    if str_is_empty (cwd c) then Ok (root_dir p)
    else if is_absolute (cwd c) || existsb escapes (components (cwd c))
    then Err (ErrStream "shell working directory must stay relative to policy root")
    else Ok (path_join (root_dir p) (cwd c)) in
  let? canonical_root := map_err ErrIo (fs_canonicalize (root_dir p)) in
  let? canonical_cwd := map_err ErrIo (fs_canonicalize dir) in
  if negb (path_starts_with canonical_cwd canonical_root) || negb (fs_is_dir canonical_cwd)
  then Err (ErrStream "shell working directory escapes policy root")
  else Ok canonical_cwd.

(** ** The output budget

    Both pipe readers add to one atomic counter. *)

(** A reservation that nobody interferes with. *)
Definition reserve_once (total amount limit : Z) : Z * BResult unit :=
  match checked_add USIZE_MAX total amount with
  | None => (total, Err (ErrStream "shell output accounting overflow"))
  | Some next =>
      if next >? limit
      then (total, Err (ErrStream "shell output exceeds configured limit"))
      else (next, Ok tt)
  end.

(** [reserve_output]: the compare-exchange loop from the loaded value
    [current]. [exchanges] are the coming [compare_exchange_weak] calls: the
    counter each one finds, and whether it fails spuriously. The result is the
    counter after the exchange that succeeded, with the value it replaced; or
    the error; or [None] while every exchange so far failed. *)
Fixpoint reserve_output (current : Z) (exchanges : list (Z * bool)) (amount limit : Z)
    : option (BResult (Z * Z)) :=
  match checked_add USIZE_MAX current amount with
  | None => Some (Err (ErrStream "shell output accounting overflow"))
  | Some next =>
      if next >? limit
      then Some (Err (ErrStream "shell output exceeds configured limit"))
      else
        match exchanges with
        | [] => None
        | (actual, spurious) :: rest =>
            if (actual =? current) && negb spurious then Some (Ok (actual, next))
            else reserve_output actual rest amount limit
        end
  end.

(** One reader: what it has collected, or the error it stopped with. *)
Record Reader := mkReader {
  collected : list byte;
  outcome : option (BResult unit);   (* [None] while it is reading *)
}.

(** A chunk arrives at a reader ([[]] is end of file, [Err] a read error); its
    reservation takes effect at the successful exchange. *)
Definition reader_step (limit : Z) (total : Z) (r : Reader) (chunk : Result IoError (list byte))
    : Z * Reader :=
  match outcome r with
  | Some _ => (total, r)
  | None =>
      match chunk with
      | Err e => (total, mkReader (collected r) (Some (Err (ErrIo e))))
      | Ok [] => (total, mkReader (collected r) (Some (Ok tt)))
      | Ok data =>
          match reserve_once total (zlen data) limit with
          | (total, Ok _) => (total, mkReader (collected r ++ data) None)
          | (total, Err e) => (total, mkReader (collected r) (Some (Err e)))
          end
      end
  end.

Inductive Pipe := Stdout | Stderr.

#[export] Instance Pipe_eq_dec : EqDecision Pipe.
Proof. solve_decision. Defined.

(** The two readers of [run], interleaved in the order the chunks arrive. *)
Fixpoint read_pipes (limit total : Z) (out err : Reader)
    (chunks : list (Pipe * Result IoError (list byte))) : Z * Reader * Reader :=
  match chunks with
  | [] => (total, out, err)
  | (Stdout, c) :: rest =>
      let '(total, out) := reader_step limit total out c in read_pipes limit total out err rest
  | (Stderr, c) :: rest =>
      let '(total, err) := reader_step limit total err c in read_pipes limit total out err rest
  end.

(** ** Running a command *)

(** How the wait for the child ends. *)
Inductive ChildEnd :=
| Exited (code : option Z) (signal : bool)
| WaitFailed (e : IoError)
| TimedOut
| Cancelled.

Record ShellRunResult := mkShellRunResult {
  stdout : list byte;
  stderr : list byte;
  exit_code : option Z;
  signaled : bool;
}.

Definition reader_result (label : string) (r : Reader) : BResult (list byte) :=
  match outcome r with
  | Some (Ok _) => Ok (collected r)
  | Some (Err e) => Err e
  | None => Err (ErrStream (label +:+ " task failed: task was cancelled"))
  end.

(** [ShellStreamHandler::run] on a spawned child: [spawn] is the result of
    starting it, [chunks] what its pipes deliver, [ending] how the wait ends. *)
Definition shell_run `{Filesystem} (p : ShellPolicy) (c : ShellCommand)
    (spawn : Result IoError unit) (chunks : list (Pipe * Result IoError (list byte)))
    (ending : ChildEnd) : BResult ShellRunResult :=
  let? _ := policy_validate p c in
  let? _ := map_err ErrIo spawn in
  let '(_, out, err) :=
    read_pipes (max_output_bytes p) 0 (mkReader [] None) (mkReader [] None) chunks in
  match ending with
  | WaitFailed e => Err (ErrIo e)
  | TimedOut => Err (ErrStream "shell command timed out")
  | Cancelled => Err (ErrStream "shell command cancelled")
  | Exited code signal =>
      let? stdout := reader_result "stdout" out in
      let? stderr := reader_result "stderr" err in
      Ok (mkShellRunResult stdout stderr code signal)
  end.

(** ** Shell frames *)

Section codec.
Context `{Prost stream.ShellOpen, Prost stream.ShellInput, Prost stream.ShellOutput,
          Prost stream.TerminalResize, Prost stream.ShellExit, Prost stream.ShellError,
          Prost stream.ShellCancel}.

Definition require_shell_frame (f : Frame) (syn fin : bool) : BResult unit :=
  if (stream_id f =? 0) || negb (is_dat (flags f)) || negb (Bool.eqb (is_syn (flags f)) syn)
  then Err (ErrProtocol "shell frame must be a non-control DAT frame with the expected SYN flag")
  else if negb (Bool.eqb (is_fin (flags f)) fin)
  then Err (ErrProtocol "shell frame has an invalid FIN flag")
  else Ok tt.

Definition encode_data_message {M} `{Prost M} (id : Z) (message : M) (final_chunk : bool)
    : BResult Frame :=
  if id =? 0 then Err (ErrStream "shell stream id must be non-zero") else
  Ok (mkFrame id (if final_chunk then DAT |: FIN else DAT |: MORE) (encode_to_vec message)).

Definition encode_terminal_message {M} `{Prost M} (id : Z) (message : M) : BResult Frame :=
  if id =? 0 then Err (ErrStream "shell stream id must be non-zero") else
  Ok (mkFrame id (DAT |: FIN) (encode_to_vec message)).

Definition decode_payload {M} `{Prost M} (f : Frame) (label : string) : BResult M :=
  map_err (fun error => ErrProtocol ("invalid " +:+ label +:+ " protobuf: " +:+ error))
    (prost_decode (payload f)).

Definition decode_data_message {M} `{Prost M} (f : Frame) (label : string) : BResult M :=
  let? _ := require_shell_frame f false false in decode_payload f label.

Definition decode_terminal_message {M} `{Prost M} (f : Frame) (label : string) : BResult M :=
  let? _ := require_shell_frame f false true in decode_payload f label.

Definition encode_open_frame (id : Z) (c : ShellCommand) : BResult Frame :=
  if id =? 0 then Err (ErrStream "shell stream id must be non-zero") else
  Ok (mkFrame id (SYN |: DAT)
        (encode_to_vec (stream.mkShellOpen "shell" (program c) (args c) (cwd c)))).

Definition decode_open_frame (f : Frame) : BResult ShellCommand :=
  let? _ := require_shell_frame f true false in
  let? message := decode_payload (M := stream.ShellOpen) f "shell open" in
  if negb (str_eqb (stream.open_type message) "shell")
     || trim_is_empty (stream.program message)
  then Err (ErrProtocol "invalid shell open message")
  else Ok (with_cwd (with_args (shell_command_new (stream.program message))
                       (stream.args message)) (stream.cwd message)).

Definition encode_input_frame (id : Z) (data : list byte) (final_chunk : bool) : BResult Frame :=
  encode_data_message id (stream.mkShellInput data) final_chunk.
Definition decode_input_frame (f : Frame) : BResult stream.ShellInput :=
  decode_data_message f "shell input".

Definition encode_resize_frame (id cols rows : Z) : BResult Frame :=
  if (cols <=? 0) || (rows <=? 0)
  then Err (ErrStream "terminal dimensions must be positive")
  else encode_data_message id (stream.mkTerminalResize cols rows) false.
Definition decode_resize_frame (f : Frame) : BResult stream.TerminalResize :=
  let? resize := decode_data_message (M := stream.TerminalResize) f "terminal resize" in
  if (stream.cols resize <=? 0) || (stream.rows resize <=? 0)
  then Err (ErrProtocol "terminal dimensions must be positive")
  else Ok resize.

Definition encode_output_frame (id : Z) (data : list byte) (final_chunk : bool) : BResult Frame :=
  encode_data_message id (stream.mkShellOutput data) final_chunk.
Definition decode_output_frame (f : Frame) : BResult stream.ShellOutput :=
  decode_data_message f "shell output".

Definition encode_exit_frame (id code : Z) (signaled : bool) : BResult Frame :=
  encode_terminal_message id (stream.mkShellExit code signaled).
Definition decode_exit_frame (f : Frame) : BResult stream.ShellExit :=
  decode_terminal_message f "shell exit".

Definition encode_error_frame (id : Z) (message : string) : BResult Frame :=
  if trim_is_empty message then Err (ErrStream "shell error message must not be empty")
  else encode_terminal_message id (stream.mkShellError message).
Definition decode_error_frame (f : Frame) : BResult stream.ShellError :=
  decode_terminal_message f "shell error".

Definition encode_cancel_frame (id : Z) : BResult Frame :=
  encode_terminal_message id (stream.mkShellCancel true).
Definition decode_cancel_frame (f : Frame) : BResult stream.ShellCancel :=
  let? cancel := decode_terminal_message (M := stream.ShellCancel) f "shell cancellation" in
  if negb (stream.requested cancel)
  then Err (ErrProtocol "shell cancellation must set requested=true")
  else Ok cancel.
End codec.

(** ** The output budget holds under every interleaving *)

(** the compare-exchange loop is one atomic reservation. When it succeeds,
    however often it was overtaken before, the counter value it replaced is the
    one an uninterrupted reservation would have started from, and the new value
    is that reservation's result, within the limit. *)
Theorem reserve_linearizes current exchanges amount limit old new :
  reserve_output current exchanges amount limit = Some (Ok (old, new)) ->
  reserve_once old amount limit = (new, Ok tt) /\ new = old + amount /\ new <= limit.
Proof.
  revert current. induction exchanges as [|[actual spurious] rest IH]; intros current; cbn;
    unfold checked_add; intros Hr; repeat case_match; simplify_eq; bool_to_prop.
  - subst. unfold reserve_once, checked_add.
    rewrite (proj2 (Z.leb_le _ _)), Z.gtb_ltb, (proj2 (Z.ltb_ge _ _)) by lia.
    split_and!; [done|lia|lia].
  - by apply (IH actual).
Qed.

Lemma reserve_linearizes_witness :
  reserve_once 20 5 100 = (25, Ok tt) /\ 25 = 20 + 5 /\ 25 <= 100.
Proof.
  apply (reserve_linearizes 10 [(20, false); (20, true); (20, false)] 5 100 20 25).
  by vm_compute.
Defined.

(** Counter and collected bytes agree, and stay within the limit. *)
Definition budget_ok (limit total : Z) (out err : Reader) : Prop :=
  total = zlen (collected out) + zlen (collected err) /\ total <= limit.

Lemma reader_step_total limit total r chunk :
  total <= limit ->
  let '(total', r') := reader_step limit total r chunk in
  total' - total = zlen (collected r') - zlen (collected r) /\ total' <= limit.
Proof.
  intros Hl. unfold reader_step, reserve_once, checked_add.
  repeat case_match; simplify_eq/=; bool_to_prop; rewrite ?zlen_app; lia.
Qed.

Lemma read_pipes_ok limit chunks total out err :
  budget_ok limit total out err ->
  let '(total', out', err') := read_pipes limit total out err chunks in
  budget_ok limit total' out' err'.
Proof.
  revert total out err. induction chunks as [|[[] c] rest IH]; intros total out err Hb;
    [done| |]; cbn; destruct Hb as [He Hl].
  - pose proof (reader_step_total limit total out c Hl) as Hs.
    destruct (reader_step limit total out c) as [total' out'].
    apply IH. split; lia.
  - pose proof (reader_step_total limit total err c Hl) as Hs.
    destruct (reader_step limit total err c) as [total' err'].
    apply IH. split; lia.
Qed.

(** What one pipe delivered: the bytes up to its end of file, [None] when it
    failed or was still open. *)
Definition of_pipe (which : Pipe) (chunks : list (Pipe * Result IoError (list byte)))
    : list (Result IoError (list byte)) :=
  omap (fun '(pipe, chunk) => if bool_decide (pipe = which) then Some chunk else None) chunks.
Fixpoint delivered (chunks : list (Result IoError (list byte))) : option (list byte) :=
  match chunks with
  | [] | Err _ :: _ => None
  | Ok [] :: _ => Some []
  | Ok data :: chunks => app data <$> delivered chunks
  end.

(** What a reader will have collected when it ends well. *)
Definition will_collect (r : Reader) (chunks : list (Result IoError (list byte)))
    : option (list byte) :=
  match outcome r with
  | None => app (collected r) <$> delivered chunks
  | Some (Ok _) => Some (collected r)
  | Some (Err _) => None
  end.

Lemma will_collect_more r chunks s : will_collect r chunks = Some s -> zlen (collected r) <= zlen s.
Proof.
  unfold will_collect, zlen. intros Hs. repeat case_match; simplify_eq; [done|].
  apply fmap_Some in Hs as (d & _ & ->). rewrite length_app. lia.
Qed.

(** One chunk: the reader goes on to the same bytes, unless the budget is
    exceeded by what it has so far. *)
Lemma reader_step_spec limit total r chunk chunks :
  limit <= USIZE_MAX ->
  let '(_, r') := reader_step limit total r chunk in
  will_collect r' chunks = will_collect r (chunk :: chunks) \/
  (will_collect r' chunks = None /\ forall s, will_collect r (chunk :: chunks) = Some s ->
     limit - total < zlen s - zlen (collected r)).
Proof.
  intros Hl. unfold reader_step, reserve_once, checked_add, will_collect.
  destruct (outcome r) as [o|] eqn:Ho; [rewrite Ho; by left|].
  destruct chunk as [[|b data]|e]; cbn [outcome collected delivered fmap option_fmap option_map];
    [left; by rewrite app_nil_r| |by left].
  set (d := b :: data).
  assert (Hbig : limit < total + zlen d -> forall s,
            app (collected r) <$> (app d <$> delivered chunks) = Some s ->
            limit - total < zlen s - zlen (collected r)).
  { intros Hb s Hs. apply fmap_Some in Hs as (x & Hx & ->). apply fmap_Some in Hx as (y & _ & ->).
    rewrite !zlen_app. pose proof (zlen_nonneg y). lia. }
  destruct (total + zlen d <=? USIZE_MAX) eqn:E1; [|right; split; [done|apply Hbig; bool_to_prop; lia]].
  destruct (total + zlen d >? limit) eqn:E2; [right; split; [done|apply Hbig; bool_to_prop; lia]|].
  left. cbn. destruct (delivered chunks); [cbn; by rewrite <- app_assoc|done].
Qed.

Definition ended_well (r : Reader) (s : list byte) : Prop :=
  outcome r = Some (Ok tt) /\ collected r = s.

Lemma read_pipes_spec limit chunks total out err so se :
  limit <= USIZE_MAX -> budget_ok limit total out err ->
  let '(_, out', err') := read_pipes limit total out err chunks in
  ended_well out' so /\ ended_well err' se <->
  will_collect out (of_pipe Stdout chunks) = Some so /\
  will_collect err (of_pipe Stderr chunks) = Some se /\ zlen so + zlen se <= limit.
Proof.
  intros Hl. revert total out err. induction chunks as [|[[] c] rest IH]; intros total out err [He Hb].
  - cbn. unfold ended_well, will_collect. cbn. split.
    + intros [[-> <-] [-> <-]]. split_and!; [done|done|lia].
    + intros (Ho & Hr & _). repeat case_match; simplify_eq/=; by repeat match goal with x : unit |- _ => destruct x end.
  - cbn. pose proof (reader_step_total limit total out c Hb) as Ht.
    pose proof (reader_step_spec limit total out c (of_pipe Stdout rest) Hl) as Hs.
    destruct (reader_step limit total out c) as [total' out']. destruct Ht as [Ht Hb'].
    specialize (IH total' out' err ltac:(split; lia)).
    destruct (read_pipes limit total' out' err rest) as [[t o] e]. rewrite IH.
    destruct Hs as [->|[Hn Hbig]]; [done|]. rewrite Hn. split; [by intros (? & _)|].
    intros (Ho & Hr & Hle). apply Hbig in Ho. apply will_collect_more in Hr. lia.
  - cbn. pose proof (reader_step_total limit total err c Hb) as Ht.
    pose proof (reader_step_spec limit total err c (of_pipe Stderr rest) Hl) as Hs.
    destruct (reader_step limit total err c) as [total' err']. destruct Ht as [Ht Hb'].
    specialize (IH total' out err' ltac:(split; lia)).
    destruct (read_pipes limit total' out err' rest) as [[t o] e]. rewrite IH.
    destruct Hs as [->|[Hn Hbig]]; [done|]. rewrite Hn. split; [by intros (_ & ? & _)|].
    intros (Ho & Hr & Hle). apply Hbig in Hr. apply will_collect_more in Ho. lia.
Qed.

(** C33: a command's output is returned whole and within the limit, or not at
    all. A run returns a result exactly when the policy let the command run, it
    was started and exited, both pipes were read to their end, and the bytes of
    the two together are within [max_output_bytes], however their chunks were
    interleaved; the result is then everything each pipe delivered and the exit
    status. *)
Theorem shell_output_whole `{Filesystem} p c spawn chunks ending r :
  0 <= max_output_bytes p <= USIZE_MAX ->
  shell_run p c spawn chunks ending = Ok r <->
  is_ok (policy_validate p c) = true /\ spawn = Ok tt /\
  ending = Exited (exit_code r) (signaled r) /\
  delivered (of_pipe Stdout chunks) = Some (stdout r) /\
  delivered (of_pipe Stderr chunks) = Some (stderr r) /\
  zlen (stdout r) + zlen (stderr r) <= max_output_bytes p.
Proof.
  intros [Hm Hl]. unfold shell_run. destruct (policy_validate p c) as [dir|]; cbn; [|naive_solver].
  destruct spawn as [[]|]; cbn; [|naive_solver].
  pose proof (read_pipes_spec (max_output_bytes p) chunks 0 (mkReader [] None) (mkReader [] None)
                (stdout r) (stderr r) Hl ltac:(by split)) as Hp.
  destruct (read_pipes _ _ _ _ _) as [[total out] err].
  unfold will_collect in Hp. cbn in Hp. rewrite !option_fmap_id in Hp.
  unfold ended_well, reader_result in *.
  destruct ending as [code signal| | |]; [|naive_solver..]. destruct r as [so se k g]. cbn in *.
  destruct (outcome out) as [[[]|]|], (outcome err) as [[[]|]|]; cbn; naive_solver.
Qed.

Definition sample_fs : Filesystem := {|
  fs_canonicalize p := Ok p;
  fs_symlink_metadata _ := Ok (mkMetadata true false 0 None 493);
  fs_metadata _ := Ok (mkMetadata true false 0 None 493);
|}.
Definition sample_policy : ShellPolicy := mkShellPolicy "/srv" ∅ ∅ 8 32 4096 1.

Lemma shell_output_whole_witness :
  zlen [x61; x62] + zlen [x63] <= max_output_bytes sample_policy.
Proof.
  apply (proj1 (@shell_output_whole sample_fs sample_policy (shell_command_new "ls") (Ok tt)
           [(Stdout, Ok [x61]); (Stderr, Ok [x63]); (Stdout, Ok [x62]);
            (Stdout, Ok []); (Stderr, Ok [])] (Exited (Some 0) false)
           (mkShellRunResult [x61; x62] [x63] (Some 0) false) ltac:(vm_compute; split; congruence)));
    by vm_compute.
Defined.

(** The directory a command asks for: the policy's root, or below it along
    genuine names. *)
Definition asked_dir (p : ShellPolicy) (c : ShellCommand) (dir : string) : Prop :=
  (cwd c = EmptyString /\ dir = root_dir p) \/
  (cwd c <> EmptyString /\ is_absolute (cwd c) = false /\
   Forall (fun x => x <> ParentDir /\ x <> RootDir) (components (cwd c)) /\
   dir = path_join (root_dir p) (cwd c)).

(** What the policy demands of a command and the directory it runs in. *)
Record confined `{Filesystem} (p : ShellPolicy) (c : ShellCommand) (dir : string) : Prop := {
  confined_program : trim_is_empty (program c) = false /\ contains_byte x00 (program c) = false;
  confined_allowed : allowed_programs p = ∅ \/ program c ∈ allowed_programs p;
  confined_count : zlen (args c) <= max_arguments p;
  confined_args : Forall (fun arg => contains_byte x00 arg = false /\
                                     str_len arg <= max_argument_bytes p) (args c);
  confined_dir : exists asked root, asked_dir p c asked /\ fs_canonicalize asked = Ok dir /\
    fs_canonicalize (root_dir p) = Ok root /\ path_starts_with dir root = true;
  confined_is_dir : fs_is_dir dir = true;
}.

(** the policy lets a command run in a directory exactly when it is confined:
    a program of the allow-list, if there is one, arguments within the limits, and
    the canonical form of the directory asked for, which lies below the canonical
    root. *)
Theorem policy_confines `{Filesystem} p c dir :
  policy_validate p c = Ok dir <-> confined p c dir.
Proof.
  assert (Hargs : forall l, existsb (fun arg => contains_byte x00 arg ||
                      (str_len arg >? max_argument_bytes p)) l = false <->
            Forall (fun arg => contains_byte x00 arg = false /\ str_len arg <= max_argument_bytes p) l).
  { induction l as [|arg l IH]; cbn; [by split|]. rewrite orb_false_iff, IH, Forall_cons.
    rewrite orb_false_iff, Z.gtb_ltb, Z.ltb_ge. tauto. }
  assert (Hesc : forall l, existsb escapes l = false <->
            Forall (fun x => x <> ParentDir /\ x <> RootDir) l).
  { induction l as [|x l IH]; cbn; [by split|]. rewrite orb_false_iff, IH, Forall_cons.
    destruct x; cbn; naive_solver. }
  unfold policy_validate, map_err. split.
  - intros Hv.
    destruct (trim_is_empty _ || _) eqn:E1; [done|]. apply orb_false_iff in E1.
    destruct (negb (bool_decide (_ = ∅)) && _) eqn:E2; [done|].
    destruct (zlen _ >? _) eqn:E3; [done|]. destruct (existsb _ (args c)) eqn:E4; [done|].
    destruct (if str_is_empty _ then _ else _) as [d|] eqn:Ed; [|done].
    destruct (fs_canonicalize (root_dir p)) as [root|] eqn:Er; [|done].
    destruct (fs_canonicalize d) as [cd|] eqn:Ec; [|done].
    destruct (negb _ || _) eqn:E5; [done|]. bool_to_prop. simplify_eq.
    split; try done; [|by apply Hargs|].
    + apply andb_false_iff in E2 as [E2|E2]; bool_to_prop; tauto.
    + exists d, root. split_and!; try done. unfold asked_dir.
      destruct (str_is_empty (cwd c)) eqn:Es; simplify_eq.
      * left. split; [|done]. by destruct (cwd c).
      * right. destruct (is_absolute (cwd c) || existsb escapes (components (cwd c))) eqn:Ee;
          simplify_eq. apply orb_false_iff in Ee as [? ?%Hesc]. split_and!; try done.
        intros Hz. by rewrite Hz in Es.
  - intros [[-> ->] Ha Hc%Z.leb_le Hl%Hargs (asked & root & Hd & Hk & Hr & Hs) Hi]. cbn.
    rewrite Z.gtb_ltb, Z.ltb_antisym, Hc, Hl. cbn.
    replace (negb _ && negb _) with false.
    2: { destruct Ha as [->|Ha]; [by rewrite bool_decide_true|].
         rewrite (bool_decide_true (_ ∈ _)) by done. by rewrite andb_false_r. }
    destruct Hd as [[Hcwd ->]|(Hne & Hab & Hp%Hesc & ->)].
    + rewrite Hcwd. cbn. rewrite Hr; cbn. rewrite Hr in Hk; simplify_eq. cbn. by rewrite Hs, Hi.
    + assert (Hempty : str_is_empty (cwd c) = false) by by destruct (cwd c).
      rewrite Hempty, Hab, Hp. cbn. by rewrite Hr; cbn; rewrite Hk; cbn; rewrite Hs, Hi.
Qed.

(** A policy with an allow-list: a listed program in a directory below the root,
    and one that is not listed. *)
Lemma policy_confines_example :
  let p := allow_program sample_policy "ls" in
  @confined sample_fs p (mkShellCommand "ls" ["-l"] "sub") "/srv/sub" /\
  ~ @confined sample_fs p (mkShellCommand "rm" ["-l"] "sub") "/srv/sub".
Proof.
  cbv zeta. rewrite <- !(@policy_confines sample_fs). split; by vm_compute.
Qed.

(** ** Shell frames *)

Section codec_correct.
Context `{Prost stream.ShellOpen, Prost stream.ShellInput, Prost stream.ShellOutput,
          Prost stream.TerminalResize, Prost stream.ShellExit, Prost stream.ShellError,
          Prost stream.ShellCancel}.

Lemma encode_data_message_Ok {M} `{Prost M} id (m : M) fin f :
  encode_data_message id m fin = Ok f ->
  id <> 0 /\ f = mkFrame id (if fin then DAT |: FIN else DAT |: MORE) (encode_to_vec m).
Proof using Type. unfold encode_data_message. intros He. run_cases; done. Qed.

Lemma decode_encode_data {M} `{Prost M} id (m : M) fin label f :
  encode_data_message id m fin = Ok f -> prost_roundtrips m ->
  decode_data_message f label =
  if fin then Err (ErrProtocol "shell frame has an invalid FIN flag") else Ok m.
Proof using Type.
  intros [Hid ->]%encode_data_message_Ok Hrt.
  unfold decode_data_message, require_shell_frame. cbn [stream_id flags].
  rewrite (proj2 (Z.eqb_neq id 0)) by done.
  destruct fin; cbn; [done|]. unfold decode_payload. cbn [payload]. by rewrite Hrt.
Qed.

Lemma decode_encode_terminal {M} `{Prost M} id (m : M) label f :
  encode_terminal_message id m = Ok f -> prost_roundtrips m ->
  decode_terminal_message f label = Ok m.
Proof using Type.
  unfold encode_terminal_message. intros He Hrt. run_cases.
  unfold decode_terminal_message, require_shell_frame. cbn [stream_id flags].
  rewrite (proj2 (Z.eqb_neq id 0)) by done. cbn. unfold decode_payload. cbn [payload].
  by rewrite Hrt.
Qed.
End codec_correct.

(** a shell command survives the wire. The frame built for a command with a
    non-blank program on a non-control stream decodes to the same program,
    arguments and working directory. *)
Theorem shell_open_roundtrip `{Prost stream.ShellOpen} id c :
  id <> 0 -> trim_is_empty (program c) = false ->
  prost_roundtrips (stream.mkShellOpen "shell" (program c) (args c) (cwd c)) ->
  exists f, encode_open_frame id c = Ok f /\ stream_id f = id /\
            is_syn (flags f) = true /\ decode_open_frame f = Ok c.
Proof.
  intros Hid Hp Hrt. unfold encode_open_frame. rewrite (proj2 (Z.eqb_neq id 0)) by done.
  eexists. split; [done|]. split; [done|]. split; [done|].
  unfold decode_open_frame, require_shell_frame. cbn [stream_id flags].
  rewrite (proj2 (Z.eqb_neq id 0)) by done. cbn.
  unfold decode_payload. cbn [payload]. rewrite Hrt. cbn. rewrite Hp. by destruct c.
Qed.

Lemma shell_open_roundtrip_witness :
  let c := mkShellCommand "ls" ["-l"; "-a"] "sub/dir" in
  exists f, @encode_open_frame Proto3.shell_open 7 c = Ok f /\ stream_id f = 7 /\
            is_syn (flags f) = true /\ @decode_open_frame Proto3.shell_open f = Ok c.
Proof.
  apply (@shell_open_roundtrip Proto3.shell_open 7
           (mkShellCommand "ls" ["-l"; "-a"] "sub/dir")); by vm_compute.
Defined.

(** exactly the non-final input frames decode. A chunk sent with
    [final_chunk = false] decodes to the same bytes; one sent with
    [final_chunk = true], which carries FIN as the encoder documents, is
    rejected by the input decoder on every stream. *)
Theorem shell_input_decodes_iff_not_final `{Prost stream.ShellInput} id data fin f :
  encode_input_frame id data fin = Ok f -> prost_roundtrips (stream.mkShellInput data) ->
  decode_input_frame f =
  if fin then Err (ErrProtocol "shell frame has an invalid FIN flag")
  else Ok (stream.mkShellInput data).
Proof. unfold encode_input_frame, decode_input_frame. apply decode_encode_data. Qed.

Lemma shell_input_decodes_iff_not_final_witness :
  exists f, @encode_input_frame Proto3.shell_input 7 [x61] true = Ok f /\
    @decode_input_frame Proto3.shell_input f
    = Err (ErrProtocol "shell frame has an invalid FIN flag").
Proof.
  exists (mkFrame 7 (DAT |: FIN) (@encode_to_vec _ Proto3.shell_input (stream.mkShellInput [x61]))).
  split; [by vm_compute|].
  apply (@shell_input_decodes_iff_not_final Proto3.shell_input 7 [x61] true); by vm_compute.
Defined.
