(* ===== verification/FileTransfer.v ===== *)
(** * The file-transfer stream

    [src/src/stream/file.rs]: requests and their protobuf form, the frames of
    uploads and responses, the sandbox checks on paths, and the five operations
    of the service over a filesystem. *)
From S2P Require Import Prelude Errors External Swsp Wire Paths.

Definition DEFAULT_MAX_FILE_SIZE : Z := 64 * 1024 * 1024.
Definition DEFAULT_MAX_LIST_ENTRIES : Z := 10000.
Definition DEFAULT_OPERATION_TIMEOUT : Z := from_secs 10.
Definition FILE_TYPE : string := "file".

Inductive FileOperation := Get | Put | List | Stat | Delete.

#[export] Instance FileOperation_eq_dec : EqDecision FileOperation.
Proof. solve_decision. Defined.

Definition as_wire (o : FileOperation) : stream.FileOpType :=
  match o with
  | Get => stream.FileOpGet
  | Put => stream.FileOpPut
  | List => stream.FileOpList
  | Stat => stream.FileOpStat
  | Delete => stream.FileOpDelete
  end.

Definition operation_from_wire (value : Z) : BResult FileOperation :=
  match stream.file_op_try_from value with
  | Some stream.FileOpGet => Ok Get
  | Some stream.FileOpPut => Ok Put
  | Some stream.FileOpList => Ok List
  | Some stream.FileOpStat => Ok Stat
  | Some stream.FileOpDelete => Ok Delete
  | Some stream.FileOpUnspecified | None => Err (ErrStream "unsupported file operation")
  end.

Record FileTransferRequest := mkRequest {
  operation : FileOperation;
  path : string;
  size : Z;
  overwrite : bool;
  range : option (Z * Z);
}.

#[export] Instance FileTransferRequest_eq_dec : EqDecision FileTransferRequest.
Proof. solve_decision. Defined.

Definition validate_range (range : option (Z * Z)) : BResult unit :=
  match range with
  | Some (start, end_) =>
      if start >? end_ then Err (ErrStream "file range start exceeds end") else Ok tt
  | None => Ok tt
  end.

Definition request_get (path : string) (range : option (Z * Z)) : BResult FileTransferRequest :=
  let? _ := validate_range range in Ok (mkRequest Get path 0 false range).
Definition request_put (path : string) (size : Z) (overwrite : bool) : FileTransferRequest :=
  mkRequest Put path size overwrite None.
Definition request_list (path : string) : FileTransferRequest := mkRequest List path 0 false None.
Definition request_stat (path : string) : FileTransferRequest := mkRequest Stat path 0 false None.
Definition request_delete (path : string) : FileTransferRequest :=
  mkRequest Delete path 0 false None.

Definition is_put (o : FileOperation) : bool := bool_decide (o = Put).
Definition is_get (o : FileOperation) : bool := bool_decide (o = Get).

Definition validate_shape (r : FileTransferRequest) : BResult unit :=
  if trim_is_empty (path r) then Err (ErrStream "file path must not be empty") else
  let? _ := validate_range (range r) in
  if negb (is_put (operation r)) && negb (size r =? 0)
  then Err (ErrProtocol "file request size is only valid for PUT") else
  if negb (is_put (operation r)) && overwrite r
  then Err (ErrProtocol "file request overwrite is only valid for PUT") else
  if negb (is_get (operation r)) && is_some (range r)
  then Err (ErrProtocol "file request range is only valid for GET") else
  Ok tt.

(** [z as u64] for an [i64], and [z as i64] for a [u64]. *)
Definition as_u64 (z : Z) : Z := z mod (U64_MAX + 1).
Definition as_i64 (z : Z) : Z := if z <=? I64_MAX then z else z - (U64_MAX + 1).

Definition to_wire (r : FileTransferRequest) : stream.FileOp :=
  stream.mkFileOp FILE_TYPE (stream.file_op_value (as_wire (operation r))) (path r)
    (if size r <=? I64_MAX then size r else I64_MAX) (overwrite r)
    (match range r with Some (s, e) => [as_i64 s; as_i64 e] | None => [] end).

Definition from_wire (m : stream.FileOp) : BResult FileTransferRequest :=
  if negb (str_eqb (stream.fileop_type m) FILE_TYPE)
  then Err (ErrProtocol "file request has an invalid type discriminator") else
  let? range :=
    match stream.range m with
    | [] => Ok None
    | [start; end_] => Ok (Some (as_u64 start, as_u64 end_))
    | _ => Err (ErrProtocol "file request range must contain zero or two values")
    end in
  if existsb (fun v => v <? 0) (stream.range m)
  then Err (ErrProtocol "file request range values must be non-negative") else
  let? operation := operation_from_wire (stream.op m) in
  let? size :=
    if stream.fileop_size m <? 0
    then Err (ErrProtocol "file request size must be non-negative")
    else Ok (stream.fileop_size m) in
  let request := mkRequest operation (stream.fileop_path m) size (stream.overwrite m) range in
  let? _ := validate_shape request in
  Ok request.

Inductive FileTransferResponse :=
| Download (info : stream.FileInfo) (data : list byte)
| Upload (info : stream.FileInfo)
| ListResponse (l : stream.FileList)
| StatResponse (info : stream.FileInfo)
| DeleteResponse (path : string).

(** ** Frames *)

Section frames.
Context `{Prost stream.FileOp, Prost stream.FileInfo, Prost stream.FileList}.

Definition request_encode (r : FileTransferRequest) : BResult (list byte) :=
  let? _ := validate_shape r in Ok (encode_to_vec (to_wire r)).

Definition encode_request_frame (id : Z) (r : FileTransferRequest) : BResult Frame :=
  if id =? 0 then Err (ErrStream "file stream id must be non-zero") else
  let? bytes := request_encode r in
  Ok (mkFrame id (SYN |: DAT) bytes).

Definition encode_data_frame (id : Z) (data : list byte) (final_chunk : bool) : BResult Frame :=
  if id =? 0 then Err (ErrStream "file stream id must be non-zero") else
  let frame := mkFrame id (if final_chunk then DAT |: FIN else DAT |: MORE) data in
  let? _ := map_err (fun e => ErrProtocol (frame_error_display e)) (encode frame) in
  Ok frame.

Definition decode_request_frame (f : Frame) : BResult FileTransferRequest :=
  if (stream_id f =? 0) || negb (is_syn (flags f)) || negb (is_dat (flags f))
  then Err (ErrProtocol "file request must be a non-control SYN|DAT frame") else
  let? m := map_err (fun e => ErrProtocol ("invalid file request protobuf: " +:+ e))
              (prost_decode (payload f)) in
  from_wire m.

(** The cooperative cancellation flag as the successive values its checks see
    (not cancelled once the list is used up). *)
Definition cancelled : BlnkError := ErrStream "file operation cancelled".
Definition check_cancelled (checks : list bool) : BResult unit * list bool :=
  match checks with
  | true :: rest => (Err cancelled, rest)
  | false :: rest => (Ok tt, rest)
  | [] => (Ok tt, [])
  end.

(** The [for] loop of [collect_data_frames]: the collected bytes and whether FIN
    was seen. The loop leaves at the first FIN, so its check for data after FIN
    never applies. *)
Fixpoint collect_loop (expected_size : Z) (checks : list bool) (data : list byte)
    (frames : list Frame) : BResult (list byte * bool) :=
  match frames with
  | [] => Ok (data, false)
  | f :: rest =>
      let '(c, checks) := check_cancelled checks in
      let? _ := c in
      if (stream_id f =? 0) || negb (is_dat (flags f)) || is_syn (flags f)
      then Err (ErrProtocol "file data must be a non-control DAT frame") else
      if zlen data + zlen (payload f) >? expected_size
      then Err (ErrStream "file upload contains too many bytes") else
      let data := data ++ payload f in
      if is_fin (flags f) then Ok (data, true)
      else collect_loop expected_size checks data rest
  end.

Definition collect_data_frames (frames : list Frame) (expected_size max_file_size : Z)
    (checks : list bool) : BResult (list byte) :=
  if expected_size >? max_file_size
  then Err (ErrStream "upload exceeds configured maximum size") else
  let? (data, finished) := collect_loop expected_size checks [] frames in
  if negb finished then Err (ErrStream "file upload did not receive FIN") else
  if negb (zlen data =? expected_size)
  then Err (ErrStream "file upload size does not match request") else
  Ok data.

(** Chunks numbered from [index]; the last of [count] carries FIN. *)
Fixpoint data_frames (id : Z) (count index : nat) (cs : list (list byte)) : list Frame :=
  match cs with
  | [] => []
  | c :: rest =>
      mkFrame id (if bool_decide (S index = count) then DAT |: FIN else DAT |: MORE) c
      :: data_frames id count (S index) rest
  end.

(** [DEFAULT_MAX_PAYLOAD_LEN] as a chunk length. *)
Definition FRAME_DATA : nat := Z.to_nat DEFAULT_MAX_PAYLOAD_LEN.

Definition encode_response_frames (id : Z) (r : FileTransferResponse) : BResult (list Frame) :=
  if id =? 0 then Err (ErrStream "file stream id must be non-zero") else
  match r with
  | Download info data =>
      let metadata_flags := if is_nil data then DAT |: FIN else DAT |: MORE in
      let meta := mkFrame id metadata_flags (encode_to_vec info) in
      let cs := chunks FRAME_DATA data in
      Ok (meta :: (if is_nil data then [] else data_frames id (length cs) 0 cs))
  | Upload info | StatResponse info => Ok [mkFrame id (DAT |: FIN) (encode_to_vec info)]
  | ListResponse l => Ok [mkFrame id (DAT |: FIN) (encode_to_vec l)]
  | DeleteResponse path =>
      Ok [mkFrame id (DAT |: FIN)
            (encode_to_vec (stream.mkFileInfo path 0 false EmptyString EmptyString))]
  end.

Definition decode_response_metadata (req : FileTransferRequest) (f : Frame)
    : BResult FileTransferResponse :=
  if (stream_id f =? 0) || negb (is_dat (flags f)) || is_syn (flags f)
  then Err (ErrProtocol "file response metadata must be a non-control DAT frame") else
  match operation req with
  | List =>
      map_err (fun e => ErrProtocol ("invalid file list protobuf: " +:+ e))
        (map_ok ListResponse (prost_decode (payload f)))
  | o =>
      map_err (fun e => ErrProtocol ("invalid file info protobuf: " +:+ e))
        (map_ok (fun info =>
           match o with
           | Get => Download info []
           | Put => Upload info
           | Delete => DeleteResponse (stream.info_name info)
           | Stat | List => StatResponse info
           end) (prost_decode (payload f)))
  end.
End frames.

(** ** Requests on the wire *)

Definition request_in_range (r : FileTransferRequest) : Prop :=
  0 <= size r <= I64_MAX /\
  match range r with Some (s, e) => 0 <= s <= I64_MAX /\ 0 <= e <= I64_MAX | None => True end.

Lemma as_i64_small z : 0 <= z <= I64_MAX -> as_i64 z = z.
Proof. unfold as_i64. intros Hz. rewrite (proj2 (Z.leb_le _ _)); lia. Qed.

Lemma as_u64_small z : 0 <= z <= I64_MAX -> as_u64 z = z.
Proof. unfold as_u64, I64_MAX, U64_MAX. intros Hz. apply Z.mod_small. lia. Qed.

Lemma operation_roundtrip o :
  operation_from_wire (stream.file_op_value (as_wire o)) = Ok o.
Proof. by destruct o. Qed.

Lemma from_to_wire r :
  validate_shape r = Ok tt -> request_in_range r -> from_wire (to_wire r) = Ok r.
Proof.
  intros Hs [Hz Hr]. destruct r as [o p z w rg]. cbn [range size] in *.
  unfold from_wire, to_wire. cbn -[validate_shape operation_from_wire I64_MAX].
  rewrite (proj2 (Z.leb_le z I64_MAX)), operation_roundtrip by lia.
  rewrite (proj2 (Z.ltb_ge z 0)) by lia.
  destruct rg as [[s e]|]; cbn -[validate_shape I64_MAX as_u64 as_i64].
  - destruct Hr as [H1 H2]. rewrite !as_i64_small, !as_u64_small by done.
    rewrite !(proj2 (Z.ltb_ge _ 0)) by lia. cbn -[validate_shape I64_MAX]. by rewrite Hs.
  - by rewrite Hs.
Qed.

(** a file request survives the wire. A well-shaped request whose sizes fit
    the signed wire fields, sent on a non-control stream, is decoded by the
    receiver to the same request. *)
Theorem file_request_roundtrip `{Prost stream.FileOp} id r :
  id <> 0 -> validate_shape r = Ok tt -> request_in_range r ->
  prost_roundtrips (to_wire r) ->
  exists f, encode_request_frame id r = Ok f /\ decode_request_frame f = Ok r.
Proof.
  intros Hid Hs Hr Hrt. unfold encode_request_frame, request_encode.
  rewrite (proj2 (Z.eqb_neq id 0)), Hs by done. eexists. split; [done|].
  unfold decode_request_frame. cbn [stream_id flags payload].
  rewrite (proj2 (Z.eqb_neq id 0)), Hrt by done. cbn -[from_wire to_wire].
  by apply from_to_wire.
Qed.

(** The [FileOp] message in the proto3 wire format. *)
Definition proto3_file_op : Prost stream.FileOp := {|
  encode_to_vec m :=
    Proto3.put_str 1 (stream.fileop_type m) ++ Proto3.put_int 2 (stream.op m)
    ++ Proto3.put_str 3 (stream.fileop_path m) ++ Proto3.put_int 4 (stream.fileop_size m)
    ++ Proto3.put_bool 5 (stream.overwrite m) ++ Proto3.put_packed 6 (stream.range m);
  prost_decode bs :=
    Proto3.decoded (l ← Proto3.fields bs; t ← Proto3.get_str 1 l; o ← Proto3.get_i32 2 l;
      p ← Proto3.get_str 3 l; z ← Proto3.get_num 4 0 l; w ← Proto3.get_bool 5 l;
      r ← Proto3.get_len 6 [] l;
      Some (stream.mkFileOp t o p (Proto3.signed 64 z) w
              ((fun b => byte_val b) <$> r)));
|}.

Lemma file_request_roundtrip_witness :
  exists f, @encode_request_frame proto3_file_op 9 (mkRequest Get "a/b.txt" 0 false (Some (3, 70)))
            = Ok f /\
    @decode_request_frame proto3_file_op f = Ok (mkRequest Get "a/b.txt" 0 false (Some (3, 70))).
Proof.
  apply (@file_request_roundtrip proto3_file_op 9 (mkRequest Get "a/b.txt" 0 false (Some (3, 70)))).
  - done.
  - by vm_compute.
  - unfold request_in_range, I64_MAX. cbn. lia.
  - by vm_compute.
Defined.

(** ** Uploads *)

(** A frame the collector takes as data. *)
Definition is_data_frame (f : Frame) : bool :=
  negb (stream_id f =? 0) && is_dat (flags f) && negb (is_syn (flags f)).

Lemma collect_loop_Ok expected checks acc frames d fin :
  collect_loop expected checks acc frames = Ok (d, fin) -> zlen acc <= expected ->
  zlen d <= expected /\
  exists taken rest, frames = taken ++ rest /\ d = acc ++ concat (payload <$> taken) /\
    Forall (fun f => is_data_frame f = true) taken /\
    (fin = true -> exists t l, taken = t ++ [l] /\ is_fin (flags l) = true /\
                   Forall (fun f => is_fin (flags f) = false) t) /\
    (fin = false -> rest = [] /\ Forall (fun f => is_fin (flags f) = false) taken).
Proof.
  revert checks acc. induction frames as [|f frames IH]; intros checks acc Hc Ha; cbn in Hc.
  - simplify_eq. split; [done|]. exists [], [].
    split_and!; try done. cbn. by rewrite app_nil_r.
  - destruct (check_cancelled checks) as [[[]|] checks'] eqn:Ec; [|done].
    destruct ((stream_id f =? 0) || _ || _) eqn:Ef; [done|].
    destruct (_ >? expected) eqn:El; [done|]. bool_to_prop.
    assert (Hd : is_data_frame f = true).
    { unfold is_data_frame. rewrite (proj2 (Z.eqb_neq _ 0)) by done.
      destruct (is_dat _), (is_syn _); done. }
    assert (Hl : zlen (acc ++ payload f) <= expected) by (rewrite zlen_app; lia).
    destruct (is_fin (flags f)) eqn:Efin; simplify_eq.
    + split; [done|]. exists [f], frames. cbn. rewrite app_nil_r.
      split_and!; try done; [by repeat constructor|].
      intros _. exists [], f. done.
    + destruct (IH checks' (acc ++ payload f) Hc Hl) as (Hz & t & r & -> & -> & Hdt & Ht & Hf).
      split; [done|]. exists (f :: t), r. cbn. rewrite <- app_assoc.
      split_and!; [done..|by constructor| |].
      * intros Hfin. destruct (Ht Hfin) as (t' & l & -> & ? & ?).
        exists (f :: t'), l. split_and!; [done..|by constructor].
      * intros Hfin. destruct (Hf Hfin) as [-> ?]. split; [done|by constructor].
Qed.

(** what the upload collector accepts. On success the body is the
    concatenated payload of the frames up to the first FIN, all of them data
    frames of a non-control stream, and its length is exactly the announced
    size, which is within the configured maximum. *)
Theorem collect_sound frames expected max checks d :
  0 <= expected ->
  collect_data_frames frames expected max checks = Ok d ->
  zlen d = expected /\ expected <= max /\
  exists t l rest, frames = t ++ l :: rest /\ d = concat (payload <$> (t ++ [l])) /\
    is_fin (flags l) = true /\ Forall (fun f => is_fin (flags f) = false) t /\
    Forall (fun f => is_data_frame f = true) (t ++ [l]).
Proof.
  intros H0. unfold collect_data_frames. destruct (expected >? max) eqn:Em; [done|].
  destruct (collect_loop _ _ _ _) as [[data fin]|] eqn:Ec; [|done].
  apply collect_loop_Ok in Ec as (Hz & taken & rest & -> & -> & Hd & Ht & _); [|done].
  intros Hc. run_cases. destruct (Ht eq_refl) as (t & l & -> & Hl & Hn).
  split_and!; [done|lia|]. exists t, l, rest. rewrite <- app_assoc. done.
Qed.

Lemma collect_sound_witness :
  let a := mkFrame 3 (DAT |: MORE) [x01; x02] in
  let b := mkFrame 3 (DAT |: FIN) [x03] in
  zlen [x01; x02; x03] = 3 /\ 3 <= 10 /\
  exists t l rest, [a; b; a] = t ++ l :: rest /\ [x01; x02; x03] = concat (payload <$> (t ++ [l])) /\
    is_fin (flags l) = true /\ Forall (fun f => is_fin (flags f) = false) t /\
    Forall (fun f => is_data_frame f = true) (t ++ [l]).
Proof.
  apply (collect_sound _ 3 10 []); [lia|by vm_compute].
Defined.

Lemma collect_loop_chunks id expected count index cs acc rest :
  id <> 0 -> cs <> [] -> (index + length cs = count)%nat ->
  zlen acc + zlen (concat cs) <= expected ->
  collect_loop expected [] acc (data_frames id count index cs ++ rest)
  = Ok (acc ++ concat cs, true).
Proof.
  intros Hid. revert index acc. induction cs as [|c cs IH]; intros index acc Hne Hc Hl; [done|].
  cbn [data_frames collect_loop app check_cancelled]. cbn [stream_id flags payload].
  rewrite (proj2 (Z.eqb_neq id 0)) by done. cbn [concat] in Hl. rewrite zlen_app in Hl.
  pose proof (zlen_nonneg (concat cs)).
  rewrite Z.gtb_ltb, (proj2 (Z.ltb_ge _ _)) by lia.
  destruct cs as [|c' cs].
  - rewrite bool_decide_eq_true_2 by (cbn in Hc; lia). cbn. by rewrite app_nil_r.
  - rewrite bool_decide_eq_false_2 by (cbn in Hc; lia).
    cbn -[data_frames collect_loop concat]. rewrite (IH (S index)).
    + by rewrite <- app_assoc.
    + done.
    + cbn in *. lia.
    + rewrite zlen_app. lia.
Qed.

(** a download arrives whole. The data frames the server builds for a
    non-empty file, each within the frame limit, collect on the other side to
    exactly the file's bytes. *)
Theorem download_roundtrip `{Prost stream.FileInfo, Prost stream.FileList}
    id info data max rest :
  id <> 0 -> data <> [] -> zlen data <= max ->
  exists meta ds,
    encode_response_frames id (Download info data) = Ok (meta :: ds) /\
    Forall (fun f => zlen (payload f) <= DEFAULT_MAX_PAYLOAD_LEN) ds /\
    collect_data_frames (ds ++ rest) (zlen data) max [] = Ok data.
Proof.
  intros Hid Hne Hmax. unfold encode_response_frames.
  rewrite (proj2 (Z.eqb_neq id 0)) by done.
  assert (Hn : is_nil data = false) by (by destruct data). rewrite Hn.
  assert (Hfd : (0 < FRAME_DATA)%nat) by (unfold FRAME_DATA, DEFAULT_MAX_PAYLOAD_LEN; lia).
  pose proof (chunks_concat FRAME_DATA Hfd data) as Hcc.
  pose proof (chunks_bounds FRAME_DATA Hfd data) as Hcb.
  assert (Hcn : chunks FRAME_DATA data <> []) by (by rewrite chunks_nil_iff).
  set (cs := chunks FRAME_DATA data) in *.
  eexists _, _. split; [done|]. split.
  - clear Hcc Hcn. generalize 0%nat. generalize (length cs). revert Hcb.
    induction 1 as [|c cs' Hc Hcs IH]; intros n i; cbn [data_frames]; constructor; [|apply IH].
    cbn [payload]. unfold zlen, FRAME_DATA, DEFAULT_MAX_PAYLOAD_LEN in *. lia.
  - unfold collect_data_frames. rewrite Z.gtb_ltb, (proj2 (Z.ltb_ge _ _)) by lia.
    rewrite collect_loop_chunks; [|done|done|lia|rewrite Hcc, zlen_nil; lia].
    rewrite app_nil_l, Hcc. cbn [negb]. by rewrite Z.eqb_refl.
Qed.

Definition toy_info : Prost stream.FileInfo := {|
  encode_to_vec m := as_bytes (stream.info_name m);
  prost_decode bs := Ok (stream.mkFileInfo (String.string_of_list_byte bs) 0 false "" "");
|}.
Definition toy_list : Prost stream.FileList := {|
  encode_to_vec m := as_bytes (stream.list_path m);
  prost_decode bs := Ok (stream.mkFileList (String.string_of_list_byte bs) []);
|}.

Lemma download_roundtrip_witness :
  exists meta ds,
    @encode_response_frames toy_info toy_list 5
      (Download (stream.mkFileInfo "a" 3 false "" "") [x01; x02; x03]) = Ok (meta :: ds) /\
    Forall (fun f => zlen (payload f) <= DEFAULT_MAX_PAYLOAD_LEN) ds /\
    collect_data_frames (ds ++ []) 3 10 [] = Ok [x01; x02; x03].
Proof.
  apply (@download_roundtrip toy_info toy_list 5 (stream.mkFileInfo "a" 3 false "" "")
           [x01; x02; x03] 10 []); by vm_compute.
Defined.
