(* ===== verification/FileService.v ===== *)
(** * The sandboxed file service

    [src/src/stream/file.rs], the service part: path resolution under a
    canonical root and the download, upload, list, stat and delete operations.
    The filesystem is a state with the system calls of [FileSys]; each operation
    is a computation on that state and on the coming values of the cancellation
    flag. A Rust panic is the result [None]. *)
From Stdlib Require Import Sorting.Sorted.
From S2P Require Import Prelude Errors External Swsp Wire Paths FileTransfer.

Record FileTransferConfig := mkFileConfig {
  root : string;
  max_file_size : Z;
  max_list_entries : Z;
  operation_timeout : Z;
}.

Definition io_error (operation : string) (e : IoError) : BlnkError :=
  ErrIo (mkIoError (io_kind e) (operation +:+ ": " +:+ io_message e)).

Definition io_context {T} (operation : string) (r : Result IoError T) : BResult T :=
  map_err (io_error operation) r.

Definition file_config_new `{Filesystem} (root : string) : BResult FileTransferConfig :=
  let? root := io_context "canonicalize file-transfer root" (fs_canonicalize root) in
  if negb (fs_is_dir root) then Err (ErrStream "file-transfer root must be a directory")
  else Ok (mkFileConfig root DEFAULT_MAX_FILE_SIZE DEFAULT_MAX_LIST_ENTRIES
             DEFAULT_OPERATION_TIMEOUT).

Definition with_max_file_size (c : FileTransferConfig) (n : Z) : BResult FileTransferConfig :=
  if n =? 0 then Err (ErrStream "max file size must be greater than zero")
  else Ok (mkFileConfig (root c) n (max_list_entries c) (operation_timeout c)).

Definition with_max_list_entries (c : FileTransferConfig) (n : Z) : BResult FileTransferConfig :=
  if n =? 0 then Err (ErrStream "max list entries must be greater than zero")
  else Ok (mkFileConfig (root c) (max_file_size c) n (operation_timeout c)).

Definition with_operation_timeout (c : FileTransferConfig) (d : Z) : BResult FileTransferConfig :=
  if d =? 0 then Err (ErrStream "file operation timeout must be greater than zero")
  else Ok (mkFileConfig (root c) (max_file_size c) (max_list_entries c) d).

(** ** Path resolution *)

(** The loop over the components of the request path. *)
Fixpoint relative_of (acc : string) (cs : list Component) : BResult string :=
  match cs with
  | [] => Ok acc
  | CurDir :: cs => relative_of acc cs
  | Normal v :: cs => relative_of (path_join acc (String.string_of_list_byte v)) cs
  | ParentDir :: _ | RootDir :: _ => Err (ErrStream "file path traversal is not allowed")
  end.

Definition safe_relative_path (request_path : string) : BResult string :=
  if contains_byte x00 request_path
  then Err (ErrStream "null bytes in file path are not allowed") else
  if is_absolute request_path
  then Err (ErrStream "absolute file paths are not allowed") else
  relative_of EmptyString (components request_path).

Section resolve.
Context `{Filesystem}.

Definition resolve_candidate (c : FileTransferConfig) (request_path : string) : BResult string :=
  let? relative := safe_relative_path request_path in
  let candidate := path_join (root c) relative in
  if negb (path_eqb candidate (root c)) then
    let? parent := ok_or (path_parent candidate) (ErrStream "file path has no parent") in
    let? canonical_parent := io_context "canonicalize file parent" (fs_canonicalize parent) in
    if negb (path_starts_with canonical_parent (root c))
    then Err (ErrStream "file path escapes configured root")
    else Ok candidate
  else Ok candidate.

Definition resolve_existing (c : FileTransferConfig) (request_path : string) : BResult string :=
  let? candidate := resolve_candidate c request_path in
  let? metadata := io_context "inspect file path" (fs_symlink_metadata candidate) in
  if md_is_symlink metadata then Err (ErrStream "symlink paths are not allowed") else
  let? resolved := io_context "canonicalize file path" (fs_canonicalize candidate) in
  if negb (path_starts_with resolved (root c))
  then Err (ErrStream "file path escapes configured root")
  else Ok resolved.

Definition resolve_for_write (c : FileTransferConfig) (request_path : string) (overwrite : bool)
    : BResult string :=
  let? candidate := resolve_candidate c request_path in
  match fs_symlink_metadata candidate with
  | Err _ => Ok candidate
  | Ok metadata =>
      if md_is_symlink metadata then Err (ErrStream "symlink paths are not allowed") else
      if md_is_dir metadata then Err (ErrStream "cannot upload over a directory") else
      if negb overwrite
      then Err (ErrStream "destination exists and overwrite is disabled")
      else Ok candidate
  end.
End resolve.

(** ** Metadata *)

(** [{:o}] of the nine permission bits. *)
Definition octal3 (z : Z) : string :=
  let d x := hex_digit (x mod 8) in
  if z <? 8 then d z
  else if z <? 64 then d (z / 8) +:+ d z
  else d (z / 64) +:+ d (z / 8) +:+ d z.
Definition mode_string (m : Metadata) : string := octal3 (Z.land (md_mode m) 0x1ff).
Definition modified_string (m : Metadata) : string :=
  match md_modified_secs m with Some s => dec s | None => EmptyString end.
Definition file_info (name : string) (m : Metadata) : stream.FileInfo :=
  stream.mkFileInfo name (Z.min (md_len m) I64_MAX) (md_is_dir m) (modified_string m)
    (mode_string m).

(** ** The operations *)

(** The system calls: [view] answers the path and metadata queries in a state,
    [read_file] gives the successive reads of an opened file up to the end,
    [read_dir] the successive entries (path and name); the others change the
    state. *)
Class FileSys (F : Type) := {
  view : F -> Filesystem;
  open_file : F -> string -> Result IoError (list (Result IoError (list byte)));
  read_dir : F -> string -> Result IoError (list (Result IoError (string * string)));
  create_file : string -> F -> F * Result IoError unit;
  write_all : string -> list byte -> F -> F * Result IoError unit;
  flush_file : string -> F -> F * Result IoError unit;
  try_exists : F -> string -> Result IoError bool;
  remove_file : string -> F -> F * Result IoError unit;
  rename_file : string -> string -> F -> F * Result IoError unit;
}.

(** [data[start..=end]]: [None] when the range leaves the buffer. *)
Definition slice_inclusive (data : list byte) (start end_ : Z) : option (list byte) :=
  if (end_ <? zlen data) && (start <=? end_ + 1)
  then Some (take (Z.to_nat (end_ + 1 - start)) (drop (Z.to_nat start) data)) else None.

(** The read loop of [download]: a cancellation check before every read. *)
Fixpoint read_loop (checks : list bool) (data : list byte)
    (reads : list (Result IoError (list byte))) : BResult (list byte) :=
  let '(c, checks) := check_cancelled checks in
  let? _ := c in
  match reads with
  | [] => Ok data
  | r :: rest =>
      let? chunk := io_context "read file for download" r in
      if is_nil chunk then Ok data else read_loop checks (data ++ chunk) rest
  end.

Section service.
Context {F : Type} `{FileSys F}.

Definition download (c : FileTransferConfig) (req : FileTransferRequest) (checks : list bool)
    (fs : F) : option (BResult FileTransferResponse) :=
  match
    (let? p := @resolve_existing (view fs) c (path req) in
     let? metadata := io_context "stat file for download" (@fs_metadata (view fs) p) in
     if md_is_dir metadata then Err (ErrStream "cannot download a directory") else
     let size := md_len metadata in
     if size >? max_file_size c
     then Err (ErrStream "file exceeds configured maximum size") else
     let? reads := io_context "open file for download" (open_file fs p) in
     let? data := read_loop checks [] reads in
     let '(start, end_) := default (0, Z.max 0 (size - 1)) (range req) in
     if size =? 0 then
       if is_some (range req)
       then Err (ErrStream "range cannot be requested from an empty file")
       else Ok (metadata, Some [])
     else if (start >? end_) || (size <=? end_)
     then Err (ErrStream "file range is outside file bounds")
     else Ok (metadata, slice_inclusive data start end_))
  with
  | Err e => Some (Err e)
  | Ok (metadata, None) => None
  | Ok (metadata, Some selected) => Some (Ok (Download (file_info (path req) metadata) selected))
  end.

Definition temp_name (pid counter : Z) : string :=
  ".blnk-upload-" +:+ dec pid +:+ "-" +:+ dec counter.

(** The chunks of an upload written to the temporary file. *)
Fixpoint write_chunks (temp : string) (checks : list bool) (cs : list (list byte)) (fs : F)
    : F * BResult unit :=
  match cs with
  | [] => (fs, Ok tt)
  | chunk :: rest =>
      let '(c, checks) := check_cancelled checks in
      match c with
      | Err e => (fs, Err e)
      | Ok _ =>
          match write_all temp chunk fs with
          | (fs, Err e) => (fs, Err (io_error "write temporary upload" e))
          | (fs, Ok _) => write_chunks temp checks rest fs
          end
      end
  end.

(** The [async] block of [upload]: write, flush, replace, rename, stat. *)
Definition commit_upload (c : FileTransferConfig) (req : FileTransferRequest)
    (data : list byte) (checks : list bool) (target temp : string)
    : SM F BlnkError FileTransferResponse :=
  do* write_chunks temp checks (chunks FRAME_DATA data) in
  do* (fun fs => let '(fs, r) := flush_file temp fs in
                 (fs, io_context "flush temporary upload" r)) in
  do* (fun fs =>
         if overwrite req && match try_exists fs target with Ok b => b | Err _ => false end
         then let '(fs, r) := remove_file target fs in
              (fs, io_context "replace existing upload" r)
         else (fs, Ok tt)) in
  do* (fun fs => let '(fs, r) := rename_file temp target fs in
                 (fs, io_context "commit upload" r)) in
  fun fs =>
    (fs, map_ok (fun m => Upload (file_info (path req) m))
           (io_context "stat uploaded file" (@fs_metadata (view fs) target))).

(** [pid] is the process id, [counter] the value [TEMP_FILE_COUNTER] had. *)
Definition upload (c : FileTransferConfig) (req : FileTransferRequest) (data : list byte)
    (checks : list bool) (pid counter : Z) : SM F BlnkError FileTransferResponse :=
  fun fs =>
  if size req >? max_file_size c
  then (fs, Err (ErrStream "upload exceeds configured maximum size")) else
  if negb (size req =? zlen data)
  then (fs, Err (ErrStream "upload size does not match request")) else
  match @resolve_for_write (view fs) c (path req) (overwrite req) with
  | Err e => (fs, Err e)
  | Ok target =>
      match path_parent target with
      | None => (fs, Err (ErrStream "upload path has no parent"))
      | Some parent =>
          let temp := path_join parent (temp_name pid counter) in
          match create_file temp fs with
          | (fs, Err e) => (fs, Err (io_error "create temporary upload" e))
          | (fs, Ok _) =>
              match commit_upload c req data checks target temp fs with
              | (fs, Ok r) => (fs, Ok r)
              | (fs, Err e) => ((remove_file temp fs).1, Err e)
              end
          end
      end
  end.

(** The entry loop of [list]. *)
Fixpoint list_loop (c : FileTransferConfig) (fs : F) (checks : list bool)
    (acc : list stream.FileInfo) (entries : list (Result IoError (string * string)))
    : BResult (list stream.FileInfo) :=
  match entries with
  | [] => Ok acc
  | e :: rest =>
      let? (entry_path, name) := io_context "read directory" e in
      let '(ck, checks) := check_cancelled checks in
      let? _ := ck in
      if zlen acc >=? max_list_entries c
      then Err (ErrStream "directory exceeds configured entry limit") else
      let? metadata := io_context "stat directory entry"
                         (@fs_symlink_metadata (view fs) entry_path) in
      list_loop c fs checks (acc ++ [file_info name metadata]) rest
  end.

(** [sort_by(name.cmp)]. *)
Definition sort_infos (l : list stream.FileInfo) : list stream.FileInfo :=
  sort_by stream.info_name l.

Definition list_dir (c : FileTransferConfig) (req : FileTransferRequest) (checks : list bool)
    (fs : F) : BResult FileTransferResponse :=
  let? p := @resolve_existing (view fs) c (path req) in
  let? metadata := io_context "stat directory" (@fs_metadata (view fs) p) in
  if negb (md_is_dir metadata) then Err (ErrStream "list path is not a directory") else
  let? entries := io_context "open directory" (read_dir fs p) in
  let? files := list_loop c fs checks [] entries in
  Ok (ListResponse (stream.mkFileList (path req) (sort_infos files))).

Definition stat (c : FileTransferConfig) (req : FileTransferRequest) (checks : list bool)
    (fs : F) : BResult FileTransferResponse :=
  let? _ := (check_cancelled checks).1 in
  let? p := @resolve_existing (view fs) c (path req) in
  let? metadata := io_context "stat file" (@fs_metadata (view fs) p) in
  Ok (StatResponse (file_info (path req) metadata)).

Definition delete (c : FileTransferConfig) (req : FileTransferRequest) (checks : list bool)
    : SM F BlnkError FileTransferResponse :=
  fun fs =>
  match
    (let? _ := (check_cancelled checks).1 in
     let? p := @resolve_existing (view fs) c (path req) in
     let? metadata := io_context "stat file for deletion" (@fs_metadata (view fs) p) in
     if md_is_dir metadata then Err (ErrStream "delete only supports files") else Ok p)
  with
  | Err e => (fs, Err e)
  | Ok p =>
      match remove_file p fs with
      | (fs, Err e) => (fs, Err (io_error "delete file" e))
      | (fs, Ok _) => (fs, Ok (DeleteResponse (path req)))
      end
  end.

Definition execute_inner (c : FileTransferConfig) (req : FileTransferRequest) (data : list byte)
    (checks : list bool) (pid counter : Z) (fs : F)
    : F * option (BResult FileTransferResponse) :=
  let '(ck, checks) := check_cancelled checks in
  match ck with
  | Err e => (fs, Some (Err e))
  | Ok _ =>
      match operation req with
      | Get => (fs, download c req checks fs)
      | Put => let '(fs, r) := upload c req data checks pid counter fs in (fs, Some r)
      | List => (fs, Some (list_dir c req checks fs))
      | Stat => (fs, Some (stat c req checks fs))
      | Delete => let '(fs, r) := delete c req checks fs in (fs, Some r)
      end
  end.
End service.

(** ** The operation timeout *)

(** [tokio::time::timeout] drops the operation at an await point: the system
    calls made so far stay done (the one in flight is finished by the blocking
    pool) and nothing after them runs, clean-up included. A filesystem that
    carries out a given number of changing calls and none after them leaves what
    the dropped operation leaves. *)
Section timeout.
Context {F : Type} `{FileSys F}.

Definition dropped : IoError := mkIoError "dropped" "the operation was dropped".
Definition until {A} (call : F -> F * Result IoError A) (s : F * nat)
    : (F * nat) * Result IoError A :=
  match s with
  | (f, O) => ((f, O), Err dropped)
  | (f, S n) => let '(f, r) := call f in ((f, n), r)
  end.

#[local] Instance interrupted : FileSys (F * nat) := {
  view s := view s.1;
  open_file s := open_file s.1;
  read_dir s := read_dir s.1;
  create_file p := until (create_file p);
  write_all p d := until (write_all p d);
  flush_file p := until (flush_file p);
  try_exists s := try_exists s.1;
  remove_file p := until (remove_file p);
  rename_file p q := until (rename_file p q);
}.

(** [timer] is [None] when the operation ends before its timeout, and [Some n]
    when the timeout comes first, after [n] calls that change the filesystem. *)
Definition execute (timer : option nat) (c : FileTransferConfig) (req : FileTransferRequest)
    (data : list byte) (checks : list bool) (pid counter : Z) (fs : F)
    : F * option (BResult FileTransferResponse) :=
  match validate_shape req with
  | Err e => (fs, Some (Err e))
  | Ok _ =>
      match timer with
      | None => execute_inner c req data checks pid counter fs
      | Some n => ((execute_inner c req data checks pid counter (fs, n)).1.1,
                   Some (Err (ErrStream "file operation timed out")))
      end
  end.
End timeout.

(** ** Confinement to the root *)

Definition is_normal (c : Component) : bool := match c with Normal _ => true | _ => false end.

Lemma pieces_join acc rel :
  is_absolute rel = false -> pieces (path_join acc rel) = pieces acc ++ pieces rel.
Proof.
  intros Hr. unfold path_join. rewrite Hr.
  destruct (str_is_empty acc) eqn:Ea; cbn [orb].
  - unfold pieces. rewrite as_bytes_append. unfold str_is_empty in Ea.
    by destruct (as_bytes acc).
  - unfold pieces. destruct (ends_with_slash acc) eqn:Es.
    + unfold ends_with_slash in Es. destruct (last (as_bytes acc)) as [b|] eqn:El; [|done].
      apply last_Some in El as [d El]. unfold is_slash in Es. apply Z.eqb_eq, byte_val_inj in Es.
      subst b. rewrite as_bytes_append, El, <- app_assoc. cbn [app].
      change [SLASH] with (SLASH :: @nil byte).
      rewrite !split_slash_app, !fmap_app, !concat_app. cbn. by rewrite !app_nil_r.
    + rewrite !as_bytes_append. change (as_bytes "/" ++ as_bytes rel) with (SLASH :: as_bytes rel).
      by rewrite split_slash_app, fmap_app, concat_app.
Qed.

Lemma good_name_relative s : good_name s -> is_absolute (String.string_of_list_byte s) = false.
Proof.
  intros (Hn & _ & _ & Hs). unfold is_absolute, starts_with_byte. rewrite as_bytes_string_of.
  destruct Hs as [|b l Hb _]; [done|]. done.
Qed.

Lemma pieces_good s : good_name s -> pieces (String.string_of_list_byte s) = [Normal s].
Proof.
  intros Hs. unfold pieces. rewrite as_bytes_string_of, split_slash_no_slash by apply Hs.
  cbn. by rewrite app_nil_r, piece_good.
Qed.

Lemma is_absolute_join acc rel :
  is_absolute acc = false -> is_absolute rel = false -> is_absolute (path_join acc rel) = false.
Proof.
  intros Ha Hr. unfold path_join. rewrite Hr. destruct (str_is_empty acc) eqn:E; cbn [orb].
  - unfold is_absolute, starts_with_byte in *. rewrite as_bytes_append. unfold str_is_empty in E.
    destruct (as_bytes acc); [|done]. done.
  - destruct (ends_with_slash acc); by rewrite is_absolute_append.
Qed.

(** The loop keeps exactly the normal components, and fails on [..] and [/]. *)
Lemma relative_of_spec cs acc :
  (forall s, Normal s ∈ cs -> good_name s) -> is_absolute acc = false ->
  match relative_of acc cs with
  | Ok rel => is_absolute rel = false /\ pieces rel = pieces acc ++ filter (fun c => is_normal c) cs
              /\ ParentDir ∉ cs
  | Err e => e = ErrStream "file path traversal is not allowed" /\ (ParentDir ∈ cs \/ RootDir ∈ cs)
  end.
Proof.
  revert acc; induction cs as [|[| | |v] cs IH]; intros acc Hg Ha; cbn [relative_of].
  - cbn. rewrite app_nil_r. set_solver.
  - set_solver.
  - specialize (IH acc). destruct (relative_of acc cs); cbn; set_solver.
  - set_solver.
  - assert (Hv : good_name v) by (apply Hg; set_solver).
    specialize (IH (path_join acc (String.string_of_list_byte v))).
    destruct (relative_of _ cs).
    + destruct IH as (? & Hp & ?); [set_solver|by apply is_absolute_join, good_name_relative|].
      split; [done|]. split; [|set_solver].
      rewrite Hp, pieces_join by by apply good_name_relative.
      rewrite pieces_good, <- app_assoc by done. done.
    + destruct IH; [set_solver|by apply is_absolute_join, good_name_relative|set_solver].
Qed.

Lemma components_no_root p : is_absolute p = false -> RootDir ∉ components p.
Proof.
  intros Ha. unfold components. rewrite Ha.
  assert (Hpc : forall q, RootDir ∉ piece q).
  { intros q. unfold piece. repeat case_match; set_solver. }
  destruct (split_slash [] (as_bytes p)) as [|f r]; [set_solver|].
  rewrite elem_of_app. intros [Hin|Hin].
  - destruct (bool_decide (f = DOT)); [set_solver|]. by apply Hpc in Hin.
  - apply list_elem_of_In, in_concat in Hin as (l & Hl & Hin).
    apply list_elem_of_In, list_elem_of_fmap in Hl as (q & -> & Hq).
    apply list_elem_of_In in Hin. by apply Hpc in Hin.
Qed.

Lemma safe_relative_pieces p rel :
  safe_relative_path p = Ok rel ->
  is_absolute rel = false /\ pieces rel = filter (fun c => is_normal c) (components p)
  /\ ParentDir ∉ components p.
Proof.
  unfold safe_relative_path. intros Hs. run_cases.
  pose proof (relative_of_spec (components p) EmptyString) as Hr. rewrite Hs in Hr.
  apply Hr; [|done]. intros s. apply components_normal.
Qed.

Lemma normal_names cs :
  (forall s, Normal s ∈ cs -> good_name s) ->
  exists names, filter (fun c => is_normal c) cs = Normal <$> names /\ Forall good_name names.
Proof.
  induction cs as [|[| | |v] cs IH]; intros Hg; [by exists []|..].
  1-3: apply IH; set_solver.
  destruct IH as (names & Hn & Hf); [set_solver|]. exists (v :: names).
  split; [by cbn; rewrite <- Hn|]. constructor; [apply Hg; set_solver|done].
Qed.

(** C36: request paths are sanitised exactly: a path is accepted if and only if
    it has no NUL byte, is relative and has no [..] component; then joining the
    result to any root appends the path's normal components, in order and each a
    genuine name, to the root's components, so the candidate lies below the
    root; every rejection is one of the three documented errors. *)
Theorem safe_relative_path_spec (base p : string) :
  str_is_empty base = false ->
  match safe_relative_path p with
  | Ok rel =>
      contains_byte x00 p = false /\ is_absolute p = false /\ (ParentDir ∉ components p) /\
      exists names, Forall good_name names /\
        components (path_join base rel) = components base ++ (Normal <$> names) /\
        (Normal <$> names) = filter (fun c => is_normal c) (components p) /\
        path_starts_with (path_join base rel) base = true
  | Err e =>
      (contains_byte x00 p = true /\ e = ErrStream "null bytes in file path are not allowed") \/
      (is_absolute p = true /\ e = ErrStream "absolute file paths are not allowed") \/
      (ParentDir ∈ components p /\ e = ErrStream "file path traversal is not allowed")
  end.
Proof.
  intros Hb. destruct (safe_relative_path p) as [rel|e] eqn:Hs.
  - destruct (safe_relative_pieces p rel Hs) as (Hrel & Hp & Hno).
    unfold safe_relative_path in Hs. run_cases. split_and!; [done..|].
    destruct (normal_names (components p)) as (names & Hn & Hg); [apply components_normal|].
    exists names. rewrite components_join, Hp, Hn by done. split_and!; [done..|].
    unfold path_starts_with. apply comp_prefix_spec. rewrite components_join by done. eauto.
  - unfold safe_relative_path in Hs. run_cases; [by left|by right; left|].
    right; right. pose proof (relative_of_spec (components p) EmptyString) as Hr.
    rewrite Hs in Hr. destruct Hr as [-> [Hr|Hr]]; [apply components_normal|done|done|].
    by apply components_no_root in Hr.
Qed.

Lemma safe_relative_path_spec_witness :
  match safe_relative_path "a/./b" with
  | Ok rel => path_starts_with (path_join "/srv" rel) "/srv" = true
  | Err _ => False
  end.
Proof.
  pose proof (safe_relative_path_spec "/srv" "a/./b" eq_refl) as H.
  destruct (safe_relative_path "a/./b") eqn:E.
  - destruct H as (_ & _ & _ & names & _ & _ & _ & H). exact H.
  - vm_compute in E. discriminate E.
Defined.

(** A path as [canonicalize] returns it: absolute, made of genuine names. *)
Definition canonical (p : string) : Prop :=
  exists names, components p = RootDir :: (Normal <$> names) /\ Forall good_name names.

(** The paths reached from [base] through genuine names. *)
Definition below (base p : string) : Prop :=
  exists names, components p = components base ++ (Normal <$> names) /\ Forall good_name names.

Lemma canonical_nonempty p : canonical p -> str_is_empty p = false.
Proof.
  intros (names & Hc & _). unfold str_is_empty, components, is_absolute, starts_with_byte in *.
  by destruct (as_bytes p).
Qed.

Lemma render_canonical names :
  Forall good_name names ->
  components (render (RootDir :: (Normal <$> names))) = RootDir :: (Normal <$> names).
Proof.
  intros Hg.
  assert (Hfold : forall f : string -> Component -> string,
    (forall acc n, f acc (Normal n) = path_join acc (String.string_of_list_byte n)) ->
    forall acc, str_is_empty acc = false ->
    components (foldl f acc (Normal <$> names)) = components acc ++ (Normal <$> names)).
  { intros f Hf. induction Hg as [|n names Hn Hg IH]; intros acc Ha; cbn; [by rewrite app_nil_r|].
    assert (Hne : str_is_empty (path_join acc (String.string_of_list_byte n)) = false).
    { unfold path_join. rewrite good_name_relative, Ha by done. cbn [orb].
      unfold str_is_empty in *. destruct (ends_with_slash acc); rewrite as_bytes_append;
      by destruct (as_bytes acc). }
    rewrite Hf, IH by done. rewrite components_join by (done || by apply good_name_relative).
    by rewrite pieces_good, <- app_assoc. }
  destruct names as [|n names]; [reflexivity|]. unfold render.
  change (RootDir :: (Normal <$> n :: names)) with (components "/" ++ (Normal <$> n :: names)) at 2.
  rewrite <- (Hfold (fun acc c => match c with
                                  | RootDir => "/"
                                  | _ => path_join acc
                                      match c with
                                      | RootDir => EmptyString | CurDir => "." | ParentDir => ".."
                                      | Normal s => String.string_of_list_byte s
                                      end
                                  end)); done.
Qed.

Lemma path_parent_below base p names :
  canonical base -> Forall good_name names -> names <> [] ->
  components p = components base ++ (Normal <$> names) ->
  exists parent, path_parent p = Some parent /\ str_is_empty parent = false /\
    below base parent.
Proof.
  intros (bs & Hb & Hbs) Hg Hne Hc. rewrite Hb in Hc.
  destruct (exists_last Hne) as (ns & n & ->).
  rewrite fmap_app in Hc. cbn in Hc. rewrite app_assoc, <- fmap_app in Hc.
  apply Forall_app in Hg as [Hg _].
  unfold path_parent, has_parent. rewrite Hc, app_comm_cons, last_snoc, removelast_last.
  eexists. split; [done|].
  assert (Hr : components (render (RootDir :: (Normal <$> bs ++ ns))) =
               RootDir :: (Normal <$> bs ++ ns)).
  { apply render_canonical. by apply Forall_app. }
  split; [apply canonical_nonempty; exists (bs ++ ns); split; [done|by apply Forall_app]|].
  exists ns. rewrite Hr, Hb, fmap_app. split; done.
Qed.

Lemma pretty_N_go_no_slash x s :
  Forall (fun b => is_slash b = false) (as_bytes s) ->
  Forall (fun b => is_slash b = false) (as_bytes (pretty_N_go x s)).
Proof.
  revert s. induction (N.lt_wf_0 x) as [x _ IH]. intros s Hs.
  destruct (decide (0 < x)%N) as [Hx|Hx].
  - rewrite pretty_N_go_step by done. apply IH; [apply N.div_lt; lia|].
    unfold as_bytes, String.list_byte_of_string in *. cbn. constructor; [|done].
    unfold pretty_N_char. by repeat case_match.
  - replace x with 0%N by lia. by rewrite pretty_N_go_0.
Qed.

Lemma dec_no_slash z : Forall (fun b => is_slash b = false) (as_bytes (dec z)).
Proof.
  assert (Hn : forall n : N, Forall (fun b => is_slash b = false) (as_bytes (pretty n))).
  { intros n. unfold pretty, pretty_N. case_decide; [by repeat constructor|].
    by apply pretty_N_go_no_slash. }
  unfold dec, pretty, pretty_Z. destruct z; [by repeat constructor|apply Hn|].
  rewrite as_bytes_append. apply Forall_app. split; [by repeat constructor|apply Hn].
Qed.

Lemma temp_name_good pid n : good_name (as_bytes (temp_name pid n)).
Proof.
  unfold temp_name. split_and!; [by rewrite as_bytes_append..|].
  rewrite !as_bytes_append, !Forall_app. split_and!; try apply dec_no_slash.
  all: by repeat constructor.
Qed.

Lemma below_join base parent s :
  str_is_empty parent = false -> good_name (as_bytes s) ->
  below base parent -> below base (path_join parent s).
Proof.
  intros Hne Hs (names & Hp & Hg). exists (names ++ [as_bytes s]).
  rewrite <- (String.string_of_list_byte_of_string s) at 1. change String.list_byte_of_string with as_bytes.
  rewrite components_join, pieces_good, Hp, fmap_app, app_assoc by (done || by apply good_name_relative).
  split; [done|]. apply Forall_app. split; [done|]. by apply Forall_singleton.
Qed.

Lemma canonical_below base p :
  canonical base -> canonical p -> path_starts_with p base = true -> below base p.
Proof.
  intros (bs & Hb & _) (ps & Hp & Hg) [r Hr]%comp_prefix_spec. unfold below.
  rewrite Hb, Hp in *. cbn in Hr. injection Hr as Hr.
  exists (drop (length bs) ps).
  assert (Hps : ps = bs ++ drop (length bs) ps).
  { clear Hp Hb Hg. revert ps Hr. induction bs as [|b bs IH]; intros [|q ps] Hr; cbn in *; try done.
    injection Hr as -> Hr. f_equal. by apply IH. }
  split; [rewrite Hps at 1; by rewrite fmap_app|]. by apply Forall_drop.
Qed.

Lemma resolve_candidate_below `{Filesystem} c p q :
  canonical (root c) -> resolve_candidate c p = Ok q -> below (root c) q.
Proof.
  intros Hr%canonical_nonempty Hq. unfold resolve_candidate in Hq.
  destruct (safe_relative_path p) as [rel|] eqn:Hs; [|done].
  destruct (safe_relative_pieces p rel Hs) as (Hrel & Hp & _).
  destruct (normal_names (components p)) as (names & Hn & Hg); [apply components_normal|].
  assert (q = path_join (root c) rel) as -> by (unfold ok_or, io_context in Hq; by run_cases).
  exists names. by rewrite components_join, Hp, Hn.
Qed.

Lemma resolve_existing_ok `{Filesystem} c p r :
  resolve_existing c p = Ok r ->
  exists q, fs_canonicalize q = Ok r /\ path_starts_with r (root c) = true.
Proof.
  unfold resolve_existing, io_context, map_err. intros Hr. run_cases. eauto.
Qed.

(** A write target is below the root and so is its parent, while the root is a
    directory. *)
Lemma upload_target `{Filesystem} c p ow target :
  canonical (root c) ->
  (forall q, components q = components (root c) ->
     exists m, fs_symlink_metadata q = Ok m /\ md_is_dir m = true) ->
  resolve_for_write c p ow = Ok target ->
  below (root c) target /\
  exists parent, path_parent target = Some parent /\ str_is_empty parent = false /\
    below (root c) parent.
Proof.
  intros Hr Hdir Hw. unfold resolve_for_write in Hw.
  destruct (resolve_candidate c p) as [q|] eqn:Hq; [|done].
  apply resolve_candidate_below in Hq as (names & Hc & Hg); [|done].
  destruct names as [|n names].
  - destruct (Hdir q) as (m & Hm & Hd); [by rewrite Hc, app_nil_r|].
    rewrite Hm, Hd in Hw. by destruct (md_is_symlink m).
  - assert (q = target) as -> by (by run_cases). split; [by eexists|].
    by eapply path_parent_below.
Qed.

(** What holds of the filesystem and survives every changing call on a path
    with [P] survives the operations that only use such paths. *)
Section kept.
Context {F : Type} `{FileSys F}.

Record kept (P : string -> Prop) (I : F -> Prop) : Prop := {
  kept_create : forall p fs, P p -> I fs -> I (create_file p fs).1;
  kept_write : forall p d fs, P p -> I fs -> I (write_all p d fs).1;
  kept_flush : forall p fs, P p -> I fs -> I (flush_file p fs).1;
  kept_remove : forall p fs, P p -> I fs -> I (remove_file p fs).1;
  kept_rename : forall p q fs, P p -> P q -> I fs -> I (rename_file p q fs).1;
}.

Context {P : string -> Prop} {I : F -> Prop}.
Hypothesis K : kept P I.

Definition keeps {A} (call : F -> F * A) := forall fs, I fs -> I (call fs).1.

Lemma keeps_write temp cs checks : P temp -> keeps (write_chunks temp checks cs).
Proof using K.
  intros Ht. revert checks; induction cs as [|d cs IH]; intros checks fs Hi; cbn [write_chunks]; [done|].
  destruct (check_cancelled checks) as [[] checks']; [|done].
  pose proof (kept_write _ _ K temp d fs Ht Hi) as Hw.
  destruct (write_all temp d fs) as [fs' [|]]; [by apply IH|done].
Qed.

Lemma kept_bind {A B} (m : SM F BlnkError A) (k : A -> SM F BlnkError B) :
  keeps m -> (forall a, keeps (k a)) -> keeps (bindS m k).
Proof using Type.
  intros Hm Hk fs Hi. unfold bindS. specialize (Hm fs Hi). destruct (m fs) as [fs' [a|e]]; [|done].
  by apply Hk.
Qed.

Lemma keeps_context {A} op (call : F -> F * Result IoError A) :
  keeps call -> keeps (fun fs => let '(fs, r) := call fs in (fs, io_context op r)).
Proof using Type. intros Hc fs Hi. specialize (Hc fs Hi). by destruct (call fs). Qed.

Lemma keeps_commit c req data checks target temp :
  P target -> P temp -> keeps (commit_upload c req data checks target temp).
Proof using K.
  intros Ht Hp. unfold commit_upload. repeat (apply kept_bind; [|intros _]).
  - by apply keeps_write.
  - apply keeps_context. intros fs. by apply K.
  - intros fs Hi. destruct (overwrite req && _); [|done].
    apply (keeps_context _ (remove_file target)); [|done]. intros fs'. by apply K.
  - apply keeps_context. intros fs. by apply K.
  - by intros fs.
Qed.

Lemma keeps_upload c req data checks pid counter fs :
  (forall target, @resolve_for_write (view fs) c (path req) (overwrite req) = Ok target ->
     P target /\ exists parent, path_parent target = Some parent /\
                   P (path_join parent (temp_name pid counter))) ->
  I fs -> I (upload c req data checks pid counter fs).1.
Proof using K.
  intros Hw Hi. unfold upload. do 2 (case_match; [done|]).
  destruct (resolve_for_write _ _ _) as [target|]; [|done].
  destruct (Hw target eq_refl) as (Hb & parent & -> & Htemp).
  set (temp := path_join parent _) in *.
  pose proof (kept_create _ _ K temp fs Htemp Hi) as H1'.
  destruct (create_file temp fs) as [f1 [|]]; [|done].
  pose proof (keeps_commit c req data checks target temp Hb Htemp f1 H1') as H2'.
  destruct (commit_upload _ _ _ _ _ _ f1) as [f2 [|]]; [done|]. by apply K.
Qed.

Lemma keeps_delete c req checks fs :
  (forall p, @resolve_existing (view fs) c (path req) = Ok p -> P p) ->
  I fs -> I (delete c req checks fs).1.
Proof using K.
  intros He Hi. unfold delete. destruct (check_cancelled checks).1; [|done].
  destruct (resolve_existing _ _) as [p|]; [|done].
  destruct (io_context _ _) as [m|]; [|done]. destruct (md_is_dir m); [done|].
  pose proof (kept_remove _ _ K p fs (He p eq_refl) Hi) as H1'.
  by destruct (remove_file p fs) as [f1 [|]].
Qed.

Lemma keeps_execute c req data checks pid counter fs :
  (forall target, @resolve_for_write (view fs) c (path req) (overwrite req) = Ok target ->
     P target /\ exists parent, path_parent target = Some parent /\
                   P (path_join parent (temp_name pid counter))) ->
  (forall p, @resolve_existing (view fs) c (path req) = Ok p -> P p) ->
  I fs -> I (execute_inner c req data checks pid counter fs).1.
Proof using K.
  intros Hw He Hi. unfold execute_inner. destruct (check_cancelled checks) as [[] ck]; [|done].
  destruct (operation req); try done.
  - pose proof (keeps_upload c req data ck pid counter fs Hw Hi) as Hu.
    by destruct (upload _ _ _ _ _ _ _).
  - pose proof (keeps_delete c req ck fs He Hi) as Hu. by destruct (delete _ _ _ _).
Qed.
End kept.

(** A dropped operation keeps what the whole one keeps. *)
Lemma until_keeps {F A} (I : F -> Prop) (call : F -> F * Result IoError A) s :
  (forall fs, I fs -> I (call fs).1) -> I s.1 -> I (until call s).1.1.
Proof.
  intros Hc Hi. destruct s as [f [|n]]; [done|]. specialize (Hc f Hi). cbn. by destruct (call f).
Qed.
Lemma kept_until {F} `{FileSys F} (P : string -> Prop) (I : F -> Prop) :
  kept P I -> @kept _ interrupted P (fun s => I s.1).
Proof. intros []. split; intros; apply (until_keeps I); auto. Qed.

(** The system calls, recording the path of every call that changes the
    filesystem. *)
Section logging.
Context {F : Type} `{FileSys F}.

Definition log {A} (ps : list string) (call : F -> F * A) (s : F * list string)
    : (F * list string) * A :=
  let '(f, r) := call s.1 in ((f, s.2 ++ ps), r).

#[local] Instance logged : FileSys (F * list string) := {
  view s := view s.1;
  open_file s := open_file s.1;
  read_dir s := read_dir s.1;
  create_file p := log [p] (create_file p);
  write_all p d := log [p] (write_all p d);
  flush_file p := log [p] (flush_file p);
  try_exists s := try_exists s.1;
  remove_file p := log [p] (remove_file p);
  rename_file p q := log [p; q] (rename_file p q);
}.

Lemma log_forall (P : string -> Prop) {A} ps (call : F -> F * A) s :
  Forall P ps -> Forall P s.2 -> Forall P (log ps call s).1.2.
Proof. intros Hp Hs. unfold log. destruct (call s.1). by apply Forall_app. Qed.

Lemma kept_logged (P : string -> Prop) : kept P (fun s : F * list string => Forall P s.2).
Proof. split; intros; apply log_forall; try done; by repeat constructor. Qed.

(** C2: confinement: with a canonical root that is a directory, whatever the
    request, the data, the cancellations, the answers of the system calls and the
    moment its timeout drops it, every path [execute] creates, writes, removes or
    renames consists of the root's components followed by genuine names, with no
    [..]: nothing outside the root is changed. *)
Theorem mutations_confined timer (c : FileTransferConfig) req data checks pid counter (fs : F) :
  canonical (root c) ->
  (forall p q, @fs_canonicalize (view fs) p = Ok q -> canonical q) ->
  (forall p, components p = components (root c) ->
     exists m, @fs_symlink_metadata (view fs) p = Ok m /\ md_is_dir m = true) ->
  Forall (below (root c)) (execute timer c req data checks pid counter (fs, [])).1.2.
Proof.
  intros Hroot Hcan Hdir.
  assert (Hw : forall target, @resolve_for_write (view fs) c (path req) (overwrite req) = Ok target ->
     below (root c) target /\ exists parent, path_parent target = Some parent /\
       below (root c) (path_join parent (temp_name pid counter))).
  { intros target Ht.
    destruct (upload_target c (path req) (overwrite req) target Hroot Hdir Ht)
      as (Hb & parent & Hp & Hne & Hpar).
    split; [done|]. exists parent. split; [done|]. apply below_join; [done|apply temp_name_good|done]. }
  assert (He : forall p, @resolve_existing (view fs) c (path req) = Ok p -> below (root c) p).
  { intros p Hp. destruct (resolve_existing_ok c _ p Hp) as (q & Hq & Hst).
    eapply canonical_below; eauto. }
  unfold execute. destruct (validate_shape req); [|done].
  destruct timer as [n|].
  - by apply (keeps_execute (kept_until _ _ (kept_logged (below (root c))))).
  - by apply (keeps_execute (kept_logged (below (root c)))).
Qed.
End logging.

(** ** What an upload leaves behind *)

(** File contents by path and how the calls change them, for paths that are
    not aliases of each other (no hard links and no linked directories between
    the paths involved). *)
Class FileLaws (F : Type) `{FileSys F} := {
  content : F -> string -> option (list byte);
  create_ok : forall p fs fs' u, create_file p fs = (fs', Ok u) ->
    forall q, content fs' q = if path_eqb q p then Some [] else content fs q;
  create_err : forall p fs fs' e, create_file p fs = (fs', Err e) ->
    forall q, path_eqb q p = false -> content fs' q = content fs q;
  write_ok : forall p d d0 fs fs' u, write_all p d fs = (fs', Ok u) -> content fs p = Some d0 ->
    forall q, content fs' q = if path_eqb q p then Some (d0 ++ d) else content fs q;
  write_err : forall p d fs fs' e, write_all p d fs = (fs', Err e) ->
    forall q, path_eqb q p = false -> content fs' q = content fs q;
  flush_ok : forall p fs fs' u, flush_file p fs = (fs', Ok u) ->
    forall q, content fs' q = content fs q;
  flush_err : forall p fs fs' e, flush_file p fs = (fs', Err e) ->
    forall q, path_eqb q p = false -> content fs' q = content fs q;
  remove_ok : forall p fs fs' u, remove_file p fs = (fs', Ok u) ->
    forall q, content fs' q = if path_eqb q p then None else content fs q;
  remove_err : forall p fs fs' e, remove_file p fs = (fs', Err e) ->
    forall q, content fs' q = content fs q;
  rename_ok : forall p r d fs fs' u, rename_file p r fs = (fs', Ok u) -> content fs p = Some d ->
    forall q, content fs' q = if path_eqb q r then Some d
                              else if path_eqb q p then None else content fs q;
  rename_err : forall p r fs fs' e, rename_file p r fs = (fs', Err e) ->
    forall q, content fs' q = content fs q;
}.

Section upload_steps.
Context {F : Type} {FS : FileSys F} {FL : FileLaws F}.

Lemma write_chunks_effect temp checks cs d0 fs fs' r :
  content fs temp = Some d0 -> write_chunks temp checks cs fs = (fs', r) ->
  (forall q, path_eqb q temp = false -> content fs' q = content fs q) /\
  (r = Ok tt -> content fs' temp = Some (d0 ++ concat cs)).
Proof.
  revert checks d0 fs. induction cs as [|d cs IH]; intros checks d0 fs Hd Hw; cbn in Hw.
  - simplify_eq. rewrite app_nil_r. done.
  - destruct (check_cancelled checks) as [[u|e] ck]; [|by simplify_eq].
    destruct (write_all temp d fs) as [fs1 [v|e]] eqn:E.
    + pose proof (write_ok _ _ _ _ _ _ E Hd) as Hq.
      apply (IH _ (d0 ++ d)) in Hw as [H1 H2]; [|by rewrite Hq, path_eqb_refl].
      cbn. rewrite app_assoc. split; [|done].
      intros q Hn. rewrite H1, Hq, Hn by done. done.
    + simplify_eq. split; [|done]. by eapply write_err.
Qed.

(** The states a commit can end in, relative to the state with the empty
    temporary file. *)
Lemma commit_effect c req data checks target temp fs fs' r :
  path_eqb target temp = false -> content fs temp = Some [] ->
  commit_upload c req data checks target temp fs = (fs', r) ->
  (forall q, path_eqb q temp = false -> path_eqb q target = false -> content fs' q = content fs q) /\
  (is_ok r = true -> content fs' target = Some data /\ content fs' temp = None) /\
  (content fs' target = content fs target \/ content fs' target = Some data \/
   (overwrite req = true /\ content fs' target = None)).
Proof.
  intros Hne H0 Hc. unfold commit_upload in Hc. unfold bindS at 1 in Hc.
  assert (Hne' : path_eqb temp target = false).
  { unfold path_eqb in *. bool_to_prop. apply bool_decide_eq_false. congruence. }
  destruct (write_chunks _ _ _ fs) as [f1 r1] eqn:E1.
  apply (write_chunks_effect _ _ _ []) in E1 as [Hq1 Hd1]; [|done].
  destruct r1 as [[]|e]; [|simplify_eq; split_and!; [auto|done|auto]].
  specialize (Hd1 eq_refl). rewrite chunks_concat in Hd1 by (unfold FRAME_DATA, DEFAULT_MAX_PAYLOAD_LEN; lia). cbn [app] in Hd1.
  unfold bindS at 1 in Hc. destruct (flush_file temp f1) as [f2 [u2|e2]] eqn:E2; cbn in Hc.
  2: { simplify_eq. pose proof (flush_err _ _ _ _ E2) as Hq2.
       split_and!; [|done|]; intros; rewrite ?Hq2, ?Hq1 by done; auto. }
  pose proof (flush_ok _ _ _ _ E2) as Hq2. unfold bindS at 1 in Hc.
  match type of Hc with (let '(_, _) := ?m in _) = _ => destruct m as [f3 [u3|e3]] eqn:E3 end.
  2: { injection Hc as <- <-. destruct (overwrite req); [|done]. cbn in E3.
       destruct (match try_exists f2 target with Ok b => b | Err _ => false end); [|done].
       destruct (remove_file target f2) as [f3' [|]] eqn:E4; cbn in E3; simplify_eq.
       pose proof (remove_err _ _ _ _ E4) as Hq3.
       split_and!; [|done|left; by rewrite Hq3, Hq2, Hq1]. intros q ??. by rewrite Hq3, Hq2, Hq1. }
  assert (Hq3 : content f3 temp = Some data /\
            (forall q, path_eqb q target = false -> content f3 q = content f2 q) /\
            (content f3 target = content fs target \/ (overwrite req = true /\ content f3 target = None))).
  { destruct (overwrite req); cbn in E3;
      [|simplify_eq; split_and!; [by rewrite Hq2|done|left; by rewrite Hq2, Hq1]].
    destruct (match try_exists f2 target with Ok b => b | Err _ => false end);
      [|simplify_eq; split_and!; [by rewrite Hq2|done|left; by rewrite Hq2, Hq1]].
    destruct (remove_file target f2) as [f3' [|]] eqn:E4; cbn in E3; simplify_eq.
    pose proof (remove_ok _ _ _ _ E4) as Hq3.
    split_and!; [by rewrite Hq3, Hne', Hq2| |right; by rewrite Hq3, path_eqb_refl].
    intros q Hn. by rewrite Hq3, Hn. }
  destruct Hq3 as (Ht3 & Hq3 & Hw3). unfold bindS in Hc.
  destruct (rename_file temp target f3) as [f4 [u4|e4]] eqn:E4; cbn in Hc; injection Hc as <- <-.
  - pose proof (rename_ok _ _ _ _ _ _ E4 Ht3) as Hq4.
    assert (content f4 target = Some data /\ content f4 temp = None) as [? ?].
    { rewrite !Hq4, path_eqb_refl, Hne', path_eqb_refl. done. }
    split_and!; auto. intros q Hqt Hqr. by rewrite Hq4, Hqr, Hqt, Hq3, Hq2, Hq1.
  - pose proof (rename_err _ _ _ _ _ E4) as Hq4. split_and!; [|done|].
    + intros q Hqt Hqr. by rewrite Hq4, Hq3, Hq2, Hq1.
    + rewrite Hq4. destruct Hw3; auto.
Qed.

(** What [upload] can leave at the target, at its temporary file and elsewhere. *)
Definition upload_leaves (c : FileTransferConfig) (req : FileTransferRequest) (data : list byte)
    (target temp : string) (fs fs' : F) (ok : bool) : Prop :=
  (forall q, path_eqb q temp = false -> path_eqb q target = false -> content fs' q = content fs q) /\
  (ok = true ->
     zlen data = size req /\ size req <= max_file_size c /\
     content fs' target = Some data /\ content fs' temp = None) /\
  (content fs' target = content fs target \/ content fs' target = Some data \/
   (overwrite req = true /\ content fs' target = None)).

Lemma upload_outcome (c : FileTransferConfig) req data checks pid counter (fs fs' : F) r target parent :
  @resolve_for_write (view fs) c (path req) (overwrite req) = Ok target ->
  path_parent target = Some parent ->
  let temp := path_join parent (temp_name pid counter) in
  path_eqb target temp = false ->
  upload c req data checks pid counter fs = (fs', r) ->
  upload_leaves c req data target temp fs fs' (is_ok r).
Proof.
  intros Hw Hp temp Hne Hu. unfold upload in Hu.
  destruct (size req >? max_file_size c) eqn:Hmax; [simplify_eq; split_and!; auto; done|].
  destruct (negb (size req =? zlen data)) eqn:Hsz; [simplify_eq; split_and!; auto; done|].
  rewrite Hw, Hp in Hu. fold temp in Hu.
  destruct (create_file temp fs) as [f1 [u|e]] eqn:E1.
  2: { simplify_eq. pose proof (create_err _ _ _ _ E1) as Hq1. split_and!; [auto|done|auto]. }
  pose proof (create_ok _ _ _ _ E1) as Hq1.
  destruct (commit_upload c req data checks target temp f1) as [f2 r2] eqn:E2.
  apply commit_effect in E2 as (Hq2 & Hok & Hkeep); [|done|by rewrite Hq1, path_eqb_refl].
  rewrite (Hq1 target), Hne in Hkeep.
  destruct r2 as [resp|e]; simplify_eq.
  - split_and!; [|intros _; bool_to_prop; destruct Hok; [done|]; split_and!; [lia|lia|done|done]|done].
    intros q Hqt Hqr. by rewrite Hq2, Hq1, Hqt.
  - destruct (remove_file temp f2) as [f3 [u3|e3]] eqn:E3; cbn [fst] in *.
    + pose proof (remove_ok _ _ _ _ E3) as Hq3. split_and!; [|done|by rewrite Hq3, Hne].
      intros q Hqt Hqr. by rewrite Hq3, Hqt, Hq2, Hq1, Hqt.
    + pose proof (remove_err _ _ _ _ E3) as Hq3. split_and!; [|done|by rewrite Hq3].
      intros q Hqt Hqr. by rewrite Hq3, Hq2, Hq1, Hqt.
Qed.
End upload_steps.

(** The calls of a dropped operation obey the same laws. *)
#[local] Existing Instance interrupted.
Lemma until_ok {F A} (call : F -> F * Result IoError A) s s' a :
  until call s = (s', Ok a) -> call s.1 = (s'.1, Ok a).
Proof. destruct s as [f [|n]]; [done|]. cbn. destruct (call f). by intros [= <- ->]. Qed.
Lemma until_err {F A} (call : F -> F * Result IoError A) s s' e :
  until call s = (s', Err e) -> s'.1 = s.1 \/ call s.1 = (s'.1, Err e).
Proof.
  destruct s as [f [|n]]; cbn; [intros [= <- _]; by left|].
  destruct (call f). intros [= <- ->]. by right.
Qed.

#[local] Instance interrupted_laws {F} `{FL : FileLaws F} : FileLaws (F * nat).
Proof.
  refine {| content s := content s.1 |};
    intros *; first [intros Hc%until_ok | intros [Hc|Hc]%until_err]; try (intros; by rewrite Hc); revert Hc.
  - apply create_ok.
  - apply create_err.
  - apply write_ok.
  - apply write_err.
  - apply flush_ok.
  - apply flush_err.
  - apply remove_ok.
  - apply remove_err.
  - apply rename_ok.
  - apply rename_err.
Defined.

Section upload_effect.
Context {F : Type} {FS : FileSys F} {FL : FileLaws F}.

(** C34: uploads never leave a part of a file at their target: whatever fails and
    whenever the timeout drops the operation, the target keeps its old contents,
    has exactly the sent bytes, or, only when replacing was asked for, is gone; a
    successful upload has the sent bytes at the target and no temporary file; no
    other file ever changes. *)
Theorem upload_effect timer (c : FileTransferConfig) req data checks pid counter (fs fs' : F) r
    target parent :
  operation req = Put ->
  @resolve_for_write (view fs) c (path req) (overwrite req) = Ok target ->
  path_parent target = Some parent ->
  let temp := path_join parent (temp_name pid counter) in
  path_eqb target temp = false ->
  execute timer c req data checks pid counter fs = (fs', Some r) ->
  upload_leaves c req data target temp fs fs' (is_ok r).
Proof.
  intros Hput Hw Hp temp Hne. unfold execute. intros He.
  destruct (validate_shape req); [|simplify_eq; split_and!; [done|done|auto]].
  destruct timer as [n|]; unfold execute_inner in He.
  - destruct (check_cancelled checks) as [[] ck]; [|simplify_eq; split_and!; [done|done|auto]].
    rewrite Hput in He.
    destruct (upload c req data ck pid counter (fs, n)) as [s' r'] eqn:Hu. simplify_eq.
    apply (upload_outcome (FS := interrupted) c req data ck pid counter (fs, n) s' r' target parent Hw Hp Hne) in Hu
      as (Hq & _ & Ht). by split_and!.
  - destruct (check_cancelled checks) as [[] ck]; [|simplify_eq; split_and!; [done|done|auto]].
    rewrite Hput in He.
    destruct (upload c req data ck pid counter fs) as [s' r'] eqn:Hu. simplify_eq.
    by apply (upload_outcome c req data ck pid counter fs fs' r target parent Hw Hp Hne).
Qed.
End upload_effect.

(** ** Downloads and listings *)

Lemma read_loop_all chs data :
  Forall (fun ch => ch <> []) chs -> read_loop [] data (Ok <$> chs) = Ok (data ++ concat chs).
Proof.
  intros Hc. revert data. induction Hc as [|ch chs Hne Hc IH]; intros data; cbn.
  - by rewrite app_nil_r.
  - destruct ch as [|b ch]; [done|]. cbn. rewrite IH, <- app_assoc. done.
Qed.

(** a download answers exactly the requested inclusive byte range: when the
    file resolves, fits the size limit and its reads deliver as many bytes as
    its length (in whatever pieces), a range inside the file, or the whole
    non-empty file by default, returns precisely those bytes with the file's
    metadata, and the buffer slice cannot panic; an empty file downloads as
    empty; a range that leaves the file is the range error. *)
Theorem download_exact {F} `{FileSys F} (c : FileTransferConfig) req (fs : F) p m chs :
  @resolve_existing (view fs) c (path req) = Ok p ->
  @fs_metadata (view fs) p = Ok m -> md_is_dir m = false -> md_len m <= max_file_size c ->
  open_file fs p = Ok (Ok <$> chs) -> Forall (fun ch => ch <> []) chs ->
  zlen (concat chs) = md_len m ->
  match range req with Some (s, e) => 0 <= s /\ 0 <= e | None => True end ->
  download c req [] fs = Some
    (if md_len m =? 0 then
       if is_some (range req)
       then Err (ErrStream "range cannot be requested from an empty file")
       else Ok (Download (file_info (path req) m) [])
     else let '(s, e) := default (0, md_len m - 1) (range req) in
       if (s >? e) || (md_len m <=? e)
       then Err (ErrStream "file range is outside file bounds")
       else Ok (Download (file_info (path req) m)
                  (take (Z.to_nat (e + 1 - s)) (drop (Z.to_nat s) (concat chs))))).
Proof.
  intros Hp Hm Hd Hmax Ho Hne Hlen Hr. unfold download. rewrite Hp, Hm, Ho. cbn. rewrite Hd.
  replace (md_len m >? max_file_size c) with false by (symmetry; rewrite Z.gtb_ltb; lia).
  rewrite read_loop_all by done. cbn [app]. pose proof (zlen_nonneg (concat chs)).
  destruct (md_len m =? 0) eqn:E0; bool_to_prop.
  - destruct (range req) as [[]|]; done.
  - replace (Z.max 0 (md_len m - 1)) with (md_len m - 1) by lia.
    destruct (default _ _) as [s e] eqn:Ed.
    destruct ((s >? e) || (md_len m <=? e)) eqn:Er; [done|].
    apply orb_false_iff in Er as [H1 H2]. rewrite Z.gtb_ltb in H1. bool_to_prop.
    unfold slice_inclusive. by rewrite (proj2 (Z.ltb_lt _ _)), (proj2 (Z.leb_le _ _)) by lia.
Qed.

(** the buffer slice of a download trusts the size read before the file: if
    the file shrinks between the stat and the reads so that the requested end is
    no longer there, the operation panics instead of failing. *)
Theorem download_panics_when_shrunk {F} `{FileSys F} (c : FileTransferConfig) req (fs : F) p m chs s e :
  @resolve_existing (view fs) c (path req) = Ok p ->
  @fs_metadata (view fs) p = Ok m -> md_is_dir m = false -> md_len m <= max_file_size c ->
  open_file fs p = Ok (Ok <$> chs) -> Forall (fun ch => ch <> []) chs ->
  range req = Some (s, e) -> 0 <= s <= e -> zlen (concat chs) <= e < md_len m ->
  download c req [] fs = None.
Proof.
  intros Hp Hm Hd Hmax Ho Hne Hr Hse Hlen. unfold download. rewrite Hp, Hm, Ho. cbn. rewrite Hd, Hr.
  pose proof (zlen_nonneg (concat chs)).
  replace (md_len m >? max_file_size c) with false by (symmetry; rewrite Z.gtb_ltb; lia).
  rewrite read_loop_all by done. cbn [from_option app]. unfold id. cbv beta iota.
  replace (md_len m =? 0) with false by lia.
  replace (s >? e) with false by (symmetry; rewrite Z.gtb_ltb; lia).
  replace (md_len m <=? e) with false by lia. cbn [orb].
  unfold slice_inclusive. replace (e <? zlen (concat chs)) with false by lia. done.
Qed.

Definition name_le (a b : stream.FileInfo) : Prop :=
  str_leb (stream.info_name a) (stream.info_name b) = true.

Lemma sort_infos_spec l : sort_infos l ≡ₚ l /\ Sorted name_le (sort_infos l).
Proof. split; [apply sort_by_perm|apply (sort_by_sorted stream.info_name)]. Qed.

Lemma list_loop_spec {F} `{FileSys F} c (fs : F) checks acc entries files :
  list_loop c fs checks acc entries = Ok files -> zlen acc <= max_list_entries c ->
  zlen files <= max_list_entries c /\
  exists ents, entries = Ok <$> ents /\
    exists infos, files = acc ++ infos /\
      Forall2 (fun '(p, name) i => exists m, @fs_symlink_metadata (view fs) p = Ok m /\
                                             i = file_info name m) ents infos.
Proof.
  revert checks acc. induction entries as [|e rest IH]; intros checks acc Hl Ha; cbn in Hl.
  - simplify_eq. split; [done|]. exists []. split; [done|]. exists []. by rewrite app_nil_r.
  - destruct e as [[p name]|]; [|done]. cbn in Hl.
    destruct (check_cancelled checks) as [[] ck]; [|done].
    destruct (zlen acc >=? _) eqn:Hz; [done|]. rewrite Z.geb_leb in Hz. bool_to_prop.
    destruct (fs_symlink_metadata p) as [m|] eqn:Hm; cbn in Hl; [|done].
    apply IH in Hl as (Hn & ents & -> & infos & -> & Hf); [|autorewrite with blnk_rw; lia].
    split; [done|]. exists ((p, name) :: ents). split; [done|].
    exists (file_info name m :: infos). rewrite <- app_assoc. split; [done|].
    constructor; eauto.
Qed.

(** a successful listing is complete, sorted and bounded: it reports every
    entry of the directory exactly once with the metadata of the entry itself
    (links are not followed), in the byte order of the names, and never more
    than the configured number of entries. *)
Theorem list_dir_spec {F} `{FileSys F} (c : FileTransferConfig) req checks (fs : F) l :
  0 <= max_list_entries c ->
  list_dir c req checks fs = Ok (ListResponse l) ->
  exists p ents infos,
    @resolve_existing (view fs) c (path req) = Ok p /\
    read_dir fs p = Ok (Ok <$> ents) /\
    Forall2 (fun '(p, name) i => exists m, @fs_symlink_metadata (view fs) p = Ok m /\
                                           i = file_info name m) ents infos /\
    stream.files l ≡ₚ infos /\ Sorted name_le (stream.files l) /\
    zlen (stream.files l) <= max_list_entries c.
Proof.
  intros Hm Hl. unfold list_dir in Hl.
  destruct (resolve_existing c (path req)) as [p|]; [|done].
  destruct (io_context _ (fs_metadata p)) as [m|]; [|done].
  destruct (negb (md_is_dir m)); [done|].
  destruct (read_dir fs p) as [entries|] eqn:He; cbn in Hl; [|done].
  destruct (list_loop c fs checks [] entries) as [files|] eqn:Hf; [|done].
  apply list_loop_spec in Hf as (Hn & ents & -> & infos & -> & Hall); [|done].
  simplify_eq. destruct (sort_infos_spec infos) as [Hp Hs]. cbn [stream.files] in *.
  exists p, ents, infos. split_and!; try done.
  unfold zlen in *. by rewrite Hp.
Qed.

(** ** A filesystem in memory, for the witnesses *)
Module Mem.

(** Files (with their bytes) and directories by path; [rename] may be made to
    fail. *)
Record Mem := mkMem { nodes : list (string * option (list byte)); rename_works : bool }.

Fixpoint lookup_path (l : list (string * option (list byte))) (p : string)
    : option (string * option (list byte)) :=
  match l with
  | [] => None
  | (q, v) :: l => if path_eqb p q then Some (q, v) else lookup_path l p
  end.
Fixpoint remove_path (l : list (string * option (list byte))) (p : string) :=
  match l with
  | [] => []
  | (q, v) :: l => if path_eqb p q then remove_path l p else (q, v) :: remove_path l p
  end.
Definition set_path l p v := (p, v) :: remove_path l p.

Definition not_found : IoError := mkIoError "not found" "no such file or directory".

Definition metadata_of (v : option (list byte)) : Metadata :=
  match v with
  | Some d => mkMetadata false false (zlen d) (Some 0) 0x1a4
  | None => mkMetadata true false 0 (Some 0) 0x1ed
  end.
Definition stat_path (m : Mem) (p : string) : Result IoError Metadata :=
  match lookup_path (nodes m) p with
  | Some (_, v) => Ok (metadata_of v)
  | None => Err not_found
  end.
Definition file_at (m : Mem) (p : string) : option (list byte) :=
  match lookup_path (nodes m) p with Some (_, v) => v | None => None end.

#[export] Instance mem_sys : FileSys Mem := {
  view m := {| fs_canonicalize p :=
                 match lookup_path (nodes m) p with Some (q, _) => Ok q | None => Err not_found end;
               fs_symlink_metadata := stat_path m;
               fs_metadata := stat_path m |};
  open_file m p := match file_at m p with
                   | Some [] => Ok []
                   | Some d => Ok [Ok d]
                   | None => Err not_found
                   end;
  read_dir m p := Ok (omap (fun '(q, _) =>
                    match path_parent q with
                    | Some d => if path_eqb d p then Some (Ok (q, q)) else None
                    | None => None
                    end) (nodes m));
  create_file p m := (mkMem (set_path (nodes m) p (Some [])) (rename_works m), Ok tt);
  write_all p d m := match file_at m p with
                     | Some d0 => (mkMem (set_path (nodes m) p (Some (d0 ++ d))) (rename_works m), Ok tt)
                     | None => (m, Err not_found)
                     end;
  flush_file p m := (m, Ok tt);
  try_exists m p := Ok (is_some (lookup_path (nodes m) p));
  remove_file p m := match file_at m p with
                     | Some _ => (mkMem (remove_path (nodes m) p) (rename_works m), Ok tt)
                     | None => (m, Err not_found)
                     end;
  rename_file p q m := match file_at m p with
                       | Some d => if rename_works m
                           then (mkMem (set_path (remove_path (nodes m) p) q (Some d)) true, Ok tt)
                           else (m, Err not_found)
                       | None => (m, Err not_found)
                       end;
}.

Lemma lookup_remove l p q :
  lookup_path (remove_path l p) q = if path_eqb q p then None else lookup_path l q.
Proof.
  induction l as [|[r v] l IH]; cbn; [by case_match|].
  destruct (path_eqb p r) eqn:E1; cbn; rewrite IH.
  - destruct (path_eqb q p) eqn:E2; [done|].
    rewrite (path_eqb_sym q r), <- (path_eqb_trans _ _ q E1), (path_eqb_sym p q), E2. done.
  - destruct (path_eqb q r) eqn:E2; [|done].
    destruct (path_eqb q p) eqn:E3; [|done].
    rewrite (path_eqb_trans _ _ r E3) in E2. congruence.
Qed.

Lemma lookup_set l p v q :
  lookup_path (set_path l p v) q = if path_eqb q p then Some (p, v) else lookup_path l q.
Proof. unfold set_path. cbn. rewrite lookup_remove. by case_match. Qed.

#[export] Instance mem_laws : FileLaws Mem.
Proof.
  refine {| content := file_at |}; intros *; cbn.
  all: intros; repeat (case_match; simplify_eq/=); try done.
  all: unfold file_at in *; cbn; rewrite ?lookup_set, ?lookup_remove; by repeat case_match; simplify_eq/=.
Defined.

Definition config : FileTransferConfig := mkFileConfig "/srv" 1000 10 1000.
Definition disk (rename_works : bool) : Mem :=
  mkMem [("/srv", None); ("/srv/a", Some [x01; x02; x03])] rename_works.
Definition put (p : string) (n : Z) (ow : bool) : FileTransferRequest :=
  mkRequest Put p n ow None.
End Mem.

Import Mem.

Lemma mem_canonical works p q :
  @fs_canonicalize (view (Mem.disk works)) p = Ok q -> canonical q.
Proof.
  cbn. intros. run_cases.
  - exists [[x73; x72; x76]]. split; [done|]. apply Forall_singleton. by split_and!; repeat constructor.
  - exists [[x73; x72; x76]; [x61]]. split; [done|]. repeat apply Forall_cons_2; try done.
    all: by split_and!; repeat constructor.
Qed.

Lemma mutations_confined_witness :
  Forall (below "/srv")
    (@execute _ (@logged Mem.Mem _) (Some 2%nat) Mem.config (Mem.put "b" 1 false) [x07] [] 1 0
       (Mem.disk true, [])).1.2.
Proof.
  apply (mutations_confined (Some 2%nat) Mem.config (Mem.put "b" 1 false) [x07] [] 1 0 (Mem.disk true)).
  - apply (mem_canonical true "/srv"). reflexivity.
  - apply mem_canonical.
  - intros p Hp. exists (Mem.metadata_of None). split; [|reflexivity].
    unfold view, fs_symlink_metadata. cbn. unfold Mem.stat_path. cbn.
    unfold path_eqb. rewrite Hp. reflexivity.
Defined.

Lemma upload_effect_witness :
  content (execute None Mem.config (Mem.put "b" 1 false) [x07] [] 1 0 (Mem.disk true)).1 "/srv/b"
  = Some [x07].
Proof.
  destruct (upload_effect (FS := mem_sys) (FL := mem_laws) None Mem.config (Mem.put "b" 1 false) [x07] []
              1 0 (Mem.disk true)
              (execute None Mem.config (Mem.put "b" 1 false) [x07] [] 1 0 (Mem.disk true)).1
              (Ok (Upload (file_info "b" (Mem.metadata_of (Some [x07]))))) "/srv/b" "/srv"
              ltac:(reflexivity) ltac:(vm_compute; reflexivity) ltac:(vm_compute; reflexivity)
              ltac:(vm_compute; reflexivity) ltac:(vm_compute; reflexivity)) as (_ & H & _).
  destruct H as (_ & _ & H & _); [reflexivity|]. exact H.
Defined.

(** The timeout drops the clean-up too: an upload dropped after the temporary
    file was created leaves it in the served directory for good. *)
Theorem timeout_leaves_temporary :
  let '(after, r) := execute (Some 2%nat) Mem.config (Mem.put "b" 1 false) [x07] [] 1 0 (Mem.disk true) in
  r = Some (Err (ErrStream "file operation timed out")) /\
  Mem.file_at after "/srv/b" = None /\
  Mem.file_at after ("/srv/" +:+ temp_name 1 0) = Some [x07].
Proof. vm_compute. done. Qed.

(** replacing a file is not atomic: with [overwrite] set the old file is
    removed before the rename, so an upload whose rename fails reports the
    error and leaves neither the old contents nor the new ones. *)
Theorem overwrite_can_lose_file :
  let '(after, r) := upload Mem.config (Mem.put "a" 1 true) [x07] [] 1 0 (Mem.disk false) in
  content (Mem.disk false) "/srv/a" = Some [x01; x02; x03] /\
  is_ok r = false /\ content after "/srv/a" = None /\ Mem.nodes after = [("/srv", None)].
Proof. vm_compute. done. Qed.

Lemma download_exact_witness :
  download Mem.config (mkRequest Get "a" 0 false (Some (1, 2))) [] (Mem.disk true)
  = Some (Ok (Download (file_info "a" (Mem.metadata_of (Some [x01; x02; x03]))) [x02; x03])).
Proof.
  apply (download_exact Mem.config (mkRequest Get "a" 0 false (Some (1, 2))) (Mem.disk true)
           "/srv/a" (Mem.metadata_of (Some [x01; x02; x03])) [[x01; x02; x03]]).
  all: try (vm_compute; reflexivity).
  - vm_compute. congruence.
  - by apply Forall_singleton.
  - cbn. lia.
Defined.

(** The in-memory filesystem with a stale length for every file. *)
Definition stale_sys : FileSys Mem.Mem :=
  {| view m := {| fs_canonicalize := @fs_canonicalize (view m);
                  fs_symlink_metadata := @fs_symlink_metadata (view m);
                  fs_metadata _ := Ok (mkMetadata false false 100 None 0) |};
     open_file := open_file; read_dir := read_dir; create_file := create_file;
     write_all := write_all; flush_file := flush_file; try_exists := try_exists;
     remove_file := remove_file; rename_file := rename_file |}.

Lemma download_panics_when_shrunk_witness :
  @download _ stale_sys Mem.config (mkRequest Get "a" 0 false (Some (0, 50))) [] (Mem.disk true)
  = None.
Proof.
  apply (@download_panics_when_shrunk _ stale_sys Mem.config
           (mkRequest Get "a" 0 false (Some (0, 50))) (Mem.disk true) "/srv/a"
           (mkMetadata false false 100 None 0) [[x01; x02; x03]] 0 50).
  all: try (vm_compute; reflexivity).
  - vm_compute. congruence.
  - by apply Forall_singleton.
  - lia.
  - vm_compute. split; congruence.
Defined.

Lemma list_dir_spec_witness :
  exists p ents (infos : list stream.FileInfo),
    @resolve_existing (view (Mem.disk true)) Mem.config "." = Ok p /\
    read_dir (Mem.disk true) p = Ok (Ok <$> ents) /\ length ents = length infos.
Proof.
  destruct (list_dir_spec Mem.config (mkRequest List "." 0 false None) [] (Mem.disk true)
    (stream.mkFileList "." [file_info "/srv/a" (Mem.metadata_of (Some [x01; x02; x03]))]))
    as (p & ents & infos & H1 & H2 & H3 & _).
  - vm_compute. congruence.
  - vm_compute. reflexivity.
  - exists p, ents, infos. split; [exact H1|]. split; [exact H2|].
    exact (Forall2_length _ _ _ H3).
Defined.
