(* ===== verification/Runtime.v ===== *)
(** * The session runtime

    [src/src/session/runtime.rs]: control messages on stream 0, the handshake of
    both roles, the stream operations of an authenticated session and its
    teardown. The runtime is a state over any [World] (its peer and clock); its
    methods are state-passing computations that keep the changes made before an
    error. *)
From S2P Require Import Prelude Errors External Swsp Streams Session Peer Wire Shell FileTransfer.

Definition CONTROL_STREAM_ID : Z := 0.
Definition DEFAULT_CONTROL_TIMEOUT : Z := from_secs 5.
Definition DEFAULT_CONNECT_PATH : string := "/".
Definition DEFAULT_ROUTING : string := "direct".
(** [crate::signaling::PROTOCOL_VERSION]. *)
Definition PROTOCOL_VERSION : Z := 3.

Inductive SessionRole := Server | Client.

#[export] Instance SessionRole_eq_dec : EqDecision SessionRole.
Proof. solve_decision. Defined.

Inductive ControlMessage :=
| CtlConnect (m : control.ConnectMessage)
| CtlAuthRequired (m : control.AuthRequiredMessage)
| CtlAuth (m : control.AuthMessage)
| CtlAuthResult (m : control.AuthResultMessage)
| CtlReady (m : control.ReadyMessage)
| CtlError (m : control.ErrorMessage).

(** The generated bindings' [Debug] text of a message. *)
Class WireDebug := {
  connect_debug : control.ConnectMessage -> string;
  auth_required_debug : control.AuthRequiredMessage -> string;
  auth_result_debug : control.AuthResultMessage -> string;
  ready_debug : control.ReadyMessage -> string;
  error_debug : control.ErrorMessage -> string;
}.

Definition control_message_debug `{WireDebug, RustFmt} (m : ControlMessage) : string :=
  let tuple name body := name +:+ "(" +:+ body +:+ ")" in
  match m with
  | CtlConnect m => tuple "Connect" (connect_debug m)
  | CtlAuthRequired m => tuple "AuthRequired" (auth_required_debug m)
  | CtlAuth _ => tuple "Auth" (str_debug "<redacted PIN>")
  | CtlAuthResult m => tuple "AuthResult" (auth_result_debug m)
  | CtlReady m => tuple "Ready" (ready_debug m)
  | CtlError m => tuple "Error" (error_debug m)
  end.

Definition ctl_connect (path : string) (version : option Z) : BResult ControlMessage :=
  if trim_is_empty path then Err (ErrSession "connect path must not be empty")
  else Ok (CtlConnect (control.mkConnect "connect" path (default 0 version))).
Definition ctl_auth_required : ControlMessage :=
  CtlAuthRequired (control.mkAuthRequired "auth_required").
Definition ctl_auth (pin : string) : BResult ControlMessage :=
  if trim_is_empty pin then Err (ErrSession "PIN must not be empty")
  else Ok (CtlAuth (control.mkAuth "auth" pin)).
Definition ctl_auth_result (success : bool) : ControlMessage :=
  CtlAuthResult (control.mkAuthResult "auth_result" success).
Definition ctl_ready (server_version : Z) (capabilities : list string) (routing : string)
    : ControlMessage :=
  CtlReady (control.mkReady "ready" server_version capabilities routing).
Definition ctl_error (message : string) : BResult ControlMessage :=
  if trim_is_empty message then Err (ErrSession "control error message must not be empty")
  else Ok (CtlError (control.mkError "error" message)).

(** [prost]'s codecs of the generated messages. *)
Class ControlCodec := {
  codec_connect :: Prost control.ConnectMessage;
  codec_auth_required :: Prost control.AuthRequiredMessage;
  codec_auth :: Prost control.AuthMessage;
  codec_auth_result :: Prost control.AuthResultMessage;
  codec_ready :: Prost control.ReadyMessage;
  codec_error :: Prost control.ErrorMessage;
}.
Class StreamCodec := {
  codec_file_op :: Prost stream.FileOp;
  codec_shell_open :: Prost stream.ShellOpen;
  codec_shell_input :: Prost stream.ShellInput;
  codec_shell_output :: Prost stream.ShellOutput;
  codec_resize :: Prost stream.TerminalResize;
  codec_exit :: Prost stream.ShellExit;
  codec_shell_error :: Prost stream.ShellError;
  codec_cancel :: Prost stream.ShellCancel;
}.

Section messages.
Context `{ControlCodec}.

Definition control_encode (m : ControlMessage) : list byte :=
  match m with
  | CtlConnect m => encode_to_vec m
  | CtlAuthRequired m => encode_to_vec m
  | CtlAuth m => encode_to_vec m
  | CtlAuthResult m => encode_to_vec m
  | CtlReady m => encode_to_vec m
  | CtlError m => encode_to_vec m
  end.

(** [if let Ok(message) = M::decode(payload) && message.type == tag]. *)
Definition try_decode {M} `{Prost M} (type_of : M -> string) (tag : string)
    (wrap : M -> ControlMessage) (payload : list byte) (next : BResult ControlMessage)
    : BResult ControlMessage :=
  match prost_decode payload with
  | Ok m => if str_eqb (type_of m) tag then Ok (wrap m) else next
  | Err _ => next
  end.

Definition control_decode (payload : list byte) : BResult ControlMessage :=
  try_decode control.connect_type "connect" CtlConnect payload
  (try_decode control.auth_required_type "auth_required" CtlAuthRequired payload
  (try_decode control.auth_type "auth" CtlAuth payload
  (try_decode control.auth_result_type "auth_result" CtlAuthResult payload
  (try_decode control.ready_type "ready" CtlReady payload
  (try_decode control.error_type "error" CtlError payload
  (Err (ErrProtocol "invalid or unknown control message discriminator"))))))).

Definition decode_control_frame (f : Frame) : BResult ControlMessage :=
  if negb (stream_id f =? CONTROL_STREAM_ID)
  then Err (ErrProtocol ("session runtime received non-control stream " +:+ dec (stream_id f)))
  else control_decode (payload f).
End messages.

(** [crate::utils::constant_time_string_eq]. *)
Definition constant_time_string_eq `{Sha2, Subtle} (expected provided : string) : bool :=
  let expected_digest := sha256 (as_bytes expected) in
  let provided_digest := sha256 (as_bytes provided) in
  ct_eq expected_digest provided_digest.

(** ** Configuration *)

Record SessionRuntimeConfig := mkRuntimeConfig {
  role : SessionRole;
  session_config : SessionConfig;
  cfg_expected_pin : option string;
  cfg_auth_pins : list string;
  cfg_connect_path : string;
  cfg_server_version : Z;
  cfg_capabilities : list string;
  cfg_routing : string;
  control_timeout : Z;
}.

Definition runtime_config_server (expected_pin : string) : SessionRuntimeConfig :=
  mkRuntimeConfig Server session_config_default (Some expected_pin) [] DEFAULT_CONNECT_PATH
    PROTOCOL_VERSION [] DEFAULT_ROUTING DEFAULT_CONTROL_TIMEOUT.
Definition runtime_config_client (auth_pin : string) : SessionRuntimeConfig :=
  mkRuntimeConfig Client
    (mkSessionConfig false (max_auth_fails session_config_default)
       (pin_fail_delay session_config_default))
    None [auth_pin] DEFAULT_CONNECT_PATH PROTOCOL_VERSION [] DEFAULT_ROUTING
    DEFAULT_CONTROL_TIMEOUT.

Definition with_session_config (c : SessionRuntimeConfig) (s : SessionConfig) :=
  mkRuntimeConfig (role c) s (cfg_expected_pin c) (cfg_auth_pins c) (cfg_connect_path c)
    (cfg_server_version c) (cfg_capabilities c) (cfg_routing c) (control_timeout c).
Definition with_auth_pins (c : SessionRuntimeConfig) (pins : list string) :=
  mkRuntimeConfig (role c) (session_config c) (cfg_expected_pin c) pins (cfg_connect_path c)
    (cfg_server_version c) (cfg_capabilities c) (cfg_routing c) (control_timeout c).
Definition with_connect_path (c : SessionRuntimeConfig) (path : string) :=
  mkRuntimeConfig (role c) (session_config c) (cfg_expected_pin c) (cfg_auth_pins c) path
    (cfg_server_version c) (cfg_capabilities c) (cfg_routing c) (control_timeout c).
Definition with_capabilities (c : SessionRuntimeConfig) (caps : list string) :=
  mkRuntimeConfig (role c) (session_config c) (cfg_expected_pin c) (cfg_auth_pins c)
    (cfg_connect_path c) (cfg_server_version c) caps (cfg_routing c) (control_timeout c).
Definition with_routing (c : SessionRuntimeConfig) (routing : string) :=
  mkRuntimeConfig (role c) (session_config c) (cfg_expected_pin c) (cfg_auth_pins c)
    (cfg_connect_path c) (cfg_server_version c) (cfg_capabilities c) routing (control_timeout c).
Definition with_control_timeout (c : SessionRuntimeConfig) (d : Z) :=
  mkRuntimeConfig (role c) (session_config c) (cfg_expected_pin c) (cfg_auth_pins c)
    (cfg_connect_path c) (cfg_server_version c) (cfg_capabilities c) (cfg_routing c) d.

Definition runtime_config_validate (c : SessionRuntimeConfig) : BResult unit :=
  if control_timeout c =? 0
  then Err (ErrSession "control timeout must be greater than zero") else
  if trim_is_empty (cfg_connect_path c)
  then Err (ErrSession "connect path must not be empty") else
  if bool_decide (role c = Server) && pin_required (session_config c)
     && negb (is_some (cfg_expected_pin c))
  then Err (ErrSession "server expected PIN is required when PIN auth is enabled") else
  if bool_decide (role c = Client) && is_nil (cfg_auth_pins c)
  then Err (ErrSession "client must have at least one authentication PIN") else
  let? _ := ready_message_new (cfg_server_version c) (cfg_capabilities c) (cfg_routing c) in
  Ok tt.

(** ** The runtime *)

Record SessionRuntime (W : Type) := mkRuntime {
  world : W;
  session : Session;
  rt_config : SessionRuntimeConfig;
  auth_pins : list string;
  handshake_started : bool;
  connect_seen : bool;
  auth_pending : bool;
  last_auth_pin : option string;
  ready_seen : bool;
}.
Arguments mkRuntime {W}.
Arguments world {W}.
Arguments session {W}.
Arguments rt_config {W}.
Arguments auth_pins {W}.
Arguments handshake_started {W}.
Arguments connect_seen {W}.
Arguments auth_pending {W}.
Arguments last_auth_pin {W}.
Arguments ready_seen {W}.

Section fields.
Context {W : Type}.
Implicit Types rt : SessionRuntime W.

Definition set_world rt (w : W) :=
  mkRuntime w (session rt) (rt_config rt) (auth_pins rt) (handshake_started rt) (connect_seen rt)
    (auth_pending rt) (last_auth_pin rt) (ready_seen rt).
Definition set_session rt s :=
  mkRuntime (world rt) s (rt_config rt) (auth_pins rt) (handshake_started rt) (connect_seen rt)
    (auth_pending rt) (last_auth_pin rt) (ready_seen rt).
Definition set_auth_pins rt l :=
  mkRuntime (world rt) (session rt) (rt_config rt) l (handshake_started rt) (connect_seen rt)
    (auth_pending rt) (last_auth_pin rt) (ready_seen rt).
Definition set_handshake_started rt b :=
  mkRuntime (world rt) (session rt) (rt_config rt) (auth_pins rt) b (connect_seen rt)
    (auth_pending rt) (last_auth_pin rt) (ready_seen rt).
Definition set_connect_seen rt b :=
  mkRuntime (world rt) (session rt) (rt_config rt) (auth_pins rt) (handshake_started rt) b
    (auth_pending rt) (last_auth_pin rt) (ready_seen rt).
Definition set_auth_pending rt b :=
  mkRuntime (world rt) (session rt) (rt_config rt) (auth_pins rt) (handshake_started rt)
    (connect_seen rt) b (last_auth_pin rt) (ready_seen rt).
Definition set_last_auth_pin rt p :=
  mkRuntime (world rt) (session rt) (rt_config rt) (auth_pins rt) (handshake_started rt)
    (connect_seen rt) (auth_pending rt) p (ready_seen rt).
Definition set_ready_seen rt b :=
  mkRuntime (world rt) (session rt) (rt_config rt) (auth_pins rt) (handshake_started rt)
    (connect_seen rt) (auth_pending rt) (last_auth_pin rt) b.

(** A method of the peer and a method of the session, run on the runtime. *)
Definition on_world {A} (c : SM W BlnkError A) : SM (SessionRuntime W) BlnkError A :=
  fun rt => let '(w, r) := c (world rt) in (set_world rt w, r).
Definition on_session {A} (c : SM Session BlnkError A) : SM (SessionRuntime W) BlnkError A :=
  fun rt => let '(s, r) := c (session rt) in (set_session rt s, r).
Definition on_session_close : SessionRuntime W -> SessionRuntime W :=
  fun rt => set_session rt (session_close (session rt)).

Definition rt_state rt : SessionState := state (session rt).
Definition snapshot rt : SessionState * SessionStats * Z :=
  (state (session rt), stats (session rt), active_streams (session rt)).

Definition runtime_new (w : W) (c : SessionRuntimeConfig) : BResult (SessionRuntime W) :=
  let? _ := runtime_config_validate c in
  let? s := session_new (session_config c) (cfg_expected_pin c) in
  Ok (mkRuntime w s c (cfg_auth_pins c) false false false None false).
End fields.

Section runtime.
Context {W : Type} `{World W} `{ControlCodec} `{StreamCodec}.
Context `{Sha2} `{Subtle} `{WireDebug} `{RustFmt}.
Notation Rt A := (SM (SessionRuntime W) BlnkError A).

(** ** Streams *)

Definition rt_open_stream (kind : StreamKind) (path : string) : Rt StreamEntry :=
  match kind with
  | Tcp | WebSocket | Http => failS (ErrStream "proxy stream dispatch is not implemented")
  | _ => on_session (fun s => open_stream s kind path)
  end.

Definition rt_close_stream (id : Z) : Rt StreamEntry := on_session (fun s => close_stream s id).

Definition ensure_stream (kind : StreamKind) (article : string) (id : Z) : Rt unit :=
  fun rt =>
  (rt,
   if negb (bool_decide (rt_state rt = Ready))
   then Err (ErrSession ("session must be ready before using a " +:+ article +:+ " stream"))
   else match stream_entry (session rt) id with
        | Some entry =>
            if bool_decide (entry_kind entry = kind) then Ok tt
            else Err (ErrStream ("stream " +:+ dec id +:+ " is not a " +:+ article
                                 +:+ " stream (" +:+ kind_debug (entry_kind entry) +:+ ")"))
        | None => Err (ErrStream ("unknown " +:+ article +:+ " stream id: " +:+ dec id))
        end).
Definition ensure_shell_stream : Z -> Rt unit := ensure_stream Shell "shell".
Definition ensure_file_stream : Z -> Rt unit := ensure_stream File "file".

(** [self.peer.send_frame(&frame?).await]. *)
Definition send_built (frame : BResult Frame) : Rt unit :=
  let* f := liftS frame in on_world (w_send f).

Definition open_file_stream (path : string) : Rt StreamEntry := rt_open_stream File path.
Definition accept_file_stream (id : Z) (path : string) : Rt StreamEntry :=
  on_session (fun s => accept_stream s id File path).
Definition send_file_request (id : Z) (r : FileTransferRequest) : Rt unit :=
  do* ensure_file_stream id in send_built (encode_request_frame id r).
Definition send_file_chunk (id : Z) (data : list byte) (final_chunk : bool) : Rt unit :=
  do* ensure_file_stream id in send_built (encode_data_frame id data final_chunk).
Definition recv_file_frame : Rt Frame :=
  let* f := on_world w_recv in
  if negb (stream_id f =? CONTROL_STREAM_ID) || is_fin (flags f) then retS f else
  let* m := liftS (decode_control_frame f) in
  failS (ErrProtocol ("unexpected control message while waiting for file frame: "
                      +:+ control_message_debug m)).
Definition close_file_stream (id : Z) : Rt StreamEntry :=
  do* ensure_file_stream id in
  do* on_world (w_send (mkFrame id FIN [])) in
  on_session (fun s => close_stream s id).

Definition open_shell_stream (path : string) : Rt StreamEntry := rt_open_stream Shell path.
Definition accept_shell_stream (id : Z) (path : string) : Rt StreamEntry :=
  on_session (fun s => accept_stream s id Shell path).
Definition send_shell_open (id : Z) (c : ShellCommand) : Rt unit :=
  do* ensure_shell_stream id in send_built (encode_open_frame id c).
Definition send_shell_input (id : Z) (data : list byte) (final_chunk : bool) : Rt unit :=
  do* ensure_shell_stream id in send_built (encode_input_frame id data final_chunk).
Definition send_shell_resize (id cols rows : Z) : Rt unit :=
  do* ensure_shell_stream id in send_built (encode_resize_frame id cols rows).
Definition send_shell_output (id : Z) (data : list byte) (final_chunk : bool) : Rt unit :=
  do* ensure_shell_stream id in send_built (encode_output_frame id data final_chunk).
Definition send_shell_exit (id code : Z) (signaled : bool) : Rt unit :=
  do* ensure_shell_stream id in send_built (encode_exit_frame id code signaled).
Definition send_shell_error (id : Z) (message : string) : Rt unit :=
  do* ensure_shell_stream id in send_built (encode_error_frame id message).
Definition send_shell_cancel (id : Z) : Rt unit :=
  do* ensure_shell_stream id in send_built (encode_cancel_frame id).
Definition recv_shell_frame : Rt Frame :=
  let* f := on_world w_recv in
  if stream_id f =? CONTROL_STREAM_ID then
    if is_fin (flags f) then retS f else
    let* m := liftS (decode_control_frame f) in
    failS (ErrProtocol ("unexpected control message while waiting for shell frame: "
                        +:+ control_message_debug m))
  else if is_syn (flags f) then
    if negb (is_dat (flags f))
    then failS (ErrProtocol "shell SYN frame must carry DAT payload") else retS f
  else do* ensure_shell_stream (stream_id f) in retS f.
Definition close_shell_stream (id : Z) : Rt StreamEntry :=
  do* ensure_shell_stream id in
  do* on_world (w_send (mkFrame id FIN [])) in
  on_session (fun s => close_stream s id).

Definition rt_send_frame (f : Frame) : Rt unit :=
  fun rt =>
  if negb (bool_decide (rt_state rt = Ready))
  then (rt, Err (ErrSession "session must be ready before sending a data frame"))
  else on_world (w_send f) rt.
Definition rt_recv_frame : Rt Frame := on_world w_recv.
Definition stream_kind (rt : SessionRuntime W) (id : Z) : option StreamKind :=
  entry_kind <$> stream_entry (session rt) id.

(** ** Control messages *)

Definition send_control (m : ControlMessage) : Rt unit :=
  on_world (w_send (mkFrame CONTROL_STREAM_ID DAT (control_encode m))).

Definition fail_session {A} (message : string) : Rt A :=
  fun rt =>
  match ctl_error message with
  | Err e => (rt, Err e)
  | Ok m =>
      let '(rt, _) := send_control m rt in
      let rt := on_session_close rt in
      let '(rt, _) := on_world w_close rt in
      (rt, Err (ErrSession message))
  end.

Definition send_ready : Rt unit :=
  fun rt =>
  if ready_seen rt then fail_session "duplicate ready control message" rt else
  let c := rt_config rt in
  (do* send_control (ctl_ready (cfg_server_version c) (cfg_capabilities c) (cfg_routing c)) in
   modifyS (fun rt => set_ready_seen rt true)) rt.

Definition now : Rt Z :=
  fun rt => let '(w, t) := w_now (world rt) in (set_world rt w, Ok t).

Definition handle_server_message (m : ControlMessage) : Rt bool :=
  match m with
  | CtlConnect m => fun rt =>
      if connect_seen rt then fail_session "duplicate connect control message" rt else
      let rt := set_connect_seen rt true in
      if trim_is_empty (control.connect_path m)
      then fail_session "connect path must not be empty" rt else
      if negb (control.connect_version m =? 0)
         && negb (control.connect_version m =? PROTOCOL_VERSION)
      then fail_session "unsupported session protocol version" rt else
      (let* required := on_session begin_authentication in
       match required with
       | Some _ => do* send_control ctl_auth_required in retS false
       | None => do* send_ready in retS true
       end) rt
  | CtlAuth m => fun rt =>
      if negb (bool_decide (rt_state rt = Authenticating))
      then fail_session "unexpected auth control message" rt else
      if match last_auth_pin rt with
         | Some last_pin => constant_time_string_eq last_pin (control.pin m)
         | None => false
         end
      then fail_session "duplicate auth control message" rt else
      let rt := set_last_auth_pin rt (Some (control.pin m)) in
      (let* t := now in
       let* outcome := on_session (fun s => authenticate s (control.pin m) t) in
       match outcome with
       | AuthReady =>
           do* send_control (ctl_auth_result true) in
           do* send_ready in
           retS true
       | AuthRejected _ =>
           do* send_control (ctl_auth_result false) in
           do* send_control ctl_auth_required in
           retS false
       | AuthClosed =>
           do* send_control (ctl_auth_result false) in
           fail_session "authentication retry limit exhausted"
       end) rt
  | CtlError m => fail_session ("peer reported session error: " +:+ control.message m)
  | _ => fail_session "unexpected control message for session server"
  end.

Definition handle_client_message (m : ControlMessage) : Rt bool :=
  match m with
  | CtlAuthRequired _ => fun rt =>
      if auth_pending rt || ready_seen rt
      then fail_session "duplicate auth_required control message" rt else
      (do* on_session accept_auth_required in
       let* pin := (fun rt =>
         match auth_pins rt with
         | [] => (rt, Err (ErrSession "no authentication PIN remains for retry"))
         | pin :: rest => (set_auth_pins rt rest, Ok pin)
         end) in
       do* modifyS (fun rt => set_auth_pending rt true) in
       let* m := liftS (ctl_auth pin) in
       do* send_control m in
       retS false) rt
  | CtlAuthResult m => fun rt =>
      if negb (auth_pending rt)
      then fail_session "duplicate auth_result control message" rt else
      let rt := set_auth_pending rt false in
      (do* on_session (fun s => accept_auth_result s (control.success m)) in
       retS false) rt
  | CtlReady m => fun rt =>
      if ready_seen rt || auth_pending rt
      then fail_session "duplicate or premature ready control message" rt else
      if negb (str_eqb (control.ready_type m) "ready") || trim_is_empty (control.routing m)
      then fail_session "invalid ready control message" rt else
      (do* on_session mark_ready in
       do* modifyS (fun rt => set_ready_seen rt true) in
       retS true) rt
  | CtlError m => fail_session ("peer reported session error: " +:+ control.message m)
  | _ => fail_session "unexpected control message for session client"
  end.

Definition handle_control (m : ControlMessage) : Rt bool :=
  fun rt => match role (rt_config rt) with
            | Server => handle_server_message m rt
            | Client => handle_client_message m rt
            end.

Definition receive_control : Rt ControlMessage :=
  fun rt =>
  let '(w, r) := w_recv_within (control_timeout (rt_config rt)) (world rt) in
  (set_world rt w,
   match r with
   | Some (Ok f) => decode_control_frame f
   | Some (Err e) => Err e
   | None => Err (ErrSession "timed out waiting for session control message")
   end).

(** The handshake's [loop]; [None] when [fuel] iterations do not end it. *)
Fixpoint handshake_loop (fuel : nat) (rt : SessionRuntime W)
    : SessionRuntime W * option (BResult unit) :=
  match fuel with
  | O => (rt, None)
  | S fuel =>
      match receive_control rt with
      | (rt, Err e) => (on_session_close rt, Some (Err e))
      | (rt, Ok m) =>
          match handle_control m rt with
          | (rt, Err e) => (rt, Some (Err e))
          | (rt, Ok true) => (rt, Some (Ok tt))
          | (rt, Ok false) => handshake_loop fuel rt
          end
      end
  end.

Definition handshake (fuel : nat) (rt : SessionRuntime W)
    : SessionRuntime W * option (BResult unit) :=
  if handshake_started rt
  then (rt, Some (Err (ErrSession "session handshake already started"))) else
  let rt := set_handshake_started rt true in
  match role (rt_config rt) with
  | Client =>
      match (let* m := liftS (ctl_connect (cfg_connect_path (rt_config rt))
                                (Some PROTOCOL_VERSION)) in send_control m) rt with
      | (rt, Err e) => (rt, Some (Err e))
      | (rt, Ok _) => handshake_loop fuel rt
      end
  | Server => handshake_loop fuel rt
  end.

Definition receive_loop_closed (e : BlnkError) : bool :=
  match e with
  | ErrPeer message => str_contains "receive loop closed" message
  | _ => false
  end.

Fixpoint disconnect_loop (fuel : nat) (rt : SessionRuntime W)
    : SessionRuntime W * option (BResult unit) :=
  match fuel with
  | O => (rt, None)
  | S fuel =>
      let '(w, selected) := w_select (world rt) in
      let rt := set_world rt w in
      match selected with
      | Disconnected r => (on_session_close rt, Some r)
      | Received (Ok f) =>
          if is_fin (flags f) then (on_session_close rt, Some (Ok tt)) else
          match (let* m := liftS (decode_control_frame f) in handle_control m) rt with
          | (rt, Err e) => (rt, Some (Err e))
          | (rt, Ok _) => disconnect_loop fuel rt
          end
      | Received (Err e) =>
          (on_session_close rt, Some (if receive_loop_closed e then Ok tt else Err e))
      end
  end.

Definition run_until_disconnect (fuel : nat) (rt : SessionRuntime W)
    : SessionRuntime W * option (BResult unit) :=
  if negb (bool_decide (rt_state rt = Ready))
  then (rt, Some (Err (ErrSession "session must be ready before waiting for disconnect")))
  else disconnect_loop fuel rt.

Definition is_data_channel_closed_send_error (e : BlnkError) : bool :=
  match e with
  | ErrPeer message => str_eqb message "send SWSP frame: data channel closed"
  | _ => false
  end.

Definition rt_close : Rt unit :=
  fun rt =>
  let '(rt, result) :=
    if negb (bool_decide (rt_state rt = Closed)) then
      let '(rt, r) := on_world (w_send (mkFrame CONTROL_STREAM_ID FIN [])) rt in
      (rt, match r with
           | Err e => if is_data_channel_closed_send_error e then Ok tt else Err e
           | Ok u => Ok u
           end)
    else (rt, Ok tt) in
  let rt := if is_ok result then set_world rt (w_drain (from_millis 250) (world rt)) else rt in
  let rt := on_session_close rt in
  let '(rt, close_result) := on_world w_close rt in
  (rt, match result with Ok _ => close_result | Err e => Err e end).
End runtime.

(** ** The runtime only drives the session state machine *)

Section refinement.
Context {W : Type} `{World W} `{ControlCodec} `{StreamCodec}.
Context `{Sha2} `{Subtle} `{WireDebug} `{RustFmt}.
Implicit Types rt : SessionRuntime W.

(** The session after [rt'] is reached from the one of [rt] by session
    operations; the configuration is the same. *)
Definition drives rt rt' : Prop :=
  rt_config rt' = rt_config rt /\
  exists ops, Forall session_op_wf ops /\ session rt' = session_run (session rt) ops.

Definition driven {A} (c : SessionRuntime W -> SessionRuntime W * A) : Prop :=
  forall rt, drives rt (c rt).1.

#[export] Instance drives_preorder : PreOrder drives.
Proof.
  split.
  - intros rt. split; [done|]. exists []. by split.
  - intros r1 r2 r3 [Hc1 (o1 & Ho1 & Hs1)] [Hc2 (o2 & Ho2 & Hs2)]. split; [congruence|].
    exists (o1 ++ o2). split; [by apply Forall_app|].
    unfold session_run in *. by rewrite fold_left_app, <- Hs1.
Qed.

Lemma drives_same rt rt' :
  rt_config rt' = rt_config rt -> session rt' = session rt -> drives rt rt'.
Proof using Type. intros Hc Hs. split; [done|]. exists []. by split. Qed.

Lemma drives_step rt rt' op :
  session_op_wf op -> rt_config rt' = rt_config rt ->
  session rt' = session_step (session rt) op -> drives rt rt'.
Proof using Type. intros Hw Hc Hs. split; [done|]. exists [op]. split; [by constructor|done]. Qed.

Lemma driven_bind {A B} (c : SM (SessionRuntime W) BlnkError A) k :
  driven c -> (forall a, driven (k a)) -> driven (bindS (B := B) c k).
Proof using Type.
  intros Hc Hk rt. unfold bindS. specialize (Hc rt). destruct (c rt) as [rt1 [a|e]]; [|done].
  etrans; [apply Hc|apply Hk].
Qed.

Lemma driven_world {A} (c : SM W BlnkError A) : driven (on_world c).
Proof using Type. intros rt. unfold on_world. destruct (c (world rt)). by apply drives_same. Qed.

Lemma driven_session {A} (c : SM Session BlnkError A) op :
  session_op_wf op -> (forall s, (c s).1 = session_step s op) -> driven (on_session c).
Proof using Type.
  intros Hw Hc rt. unfold on_session. specialize (Hc (session rt)).
  destruct (c (session rt)). by eapply drives_step.
Qed.

Lemma driven_modify (f : SessionRuntime W -> SessionRuntime W) :
  (forall rt, rt_config (f rt) = rt_config rt /\ session (f rt) = session rt) ->
  driven (modifyS (E := BlnkError) f).
Proof using Type. intros Hf rt. by apply drives_same; apply Hf. Qed.

Lemma driven_lift {A} (r : BResult A) : driven (liftS (S := SessionRuntime W) r).
Proof using Type. intros rt. by apply drives_same. Qed.

Lemma driven_close rt : drives rt (on_session_close rt).
Proof using Type. by apply (drives_step _ _ OpSessionClose). Qed.

Lemma driven_ensure k a id : driven (ensure_stream (W := W) k a id).
Proof using Type. intros rt. by apply drives_same. Qed.

Lemma driven_open kind path :
  driven (on_session (W := W) (fun s => open_stream s kind path)).
Proof using Type. by apply (driven_session _ (OpOpenStream kind path)). Qed.
Lemma driven_accept id kind path : in_u32 id ->
  driven (on_session (W := W) (fun s => accept_stream s id kind path)).
Proof using Type. intros Hid. by apply (driven_session _ (OpAcceptStream id kind path)). Qed.
Lemma driven_close_stream id : driven (on_session (W := W) (fun s => close_stream s id)).
Proof using Type. by apply (driven_session _ (OpCloseStream id)). Qed.
Lemma driven_begin : driven (on_session (W := W) begin_authentication).
Proof using Type. by apply (driven_session _ OpBeginAuthentication). Qed.
Lemma driven_auth_required : driven (on_session (W := W) accept_auth_required).
Proof using Type. by apply (driven_session _ OpAcceptAuthRequired). Qed.
Lemma driven_auth_result b : driven (on_session (W := W) (fun s => accept_auth_result s b)).
Proof using Type. by apply (driven_session _ (OpAcceptAuthResult b)). Qed.
Lemma driven_mark_ready : driven (on_session (W := W) mark_ready).
Proof using Type. by apply (driven_session _ OpMarkReady). Qed.
Lemma driven_authenticate pin t : driven (on_session (W := W) (fun s => authenticate s pin t)).
Proof using Type. by apply (driven_session _ (OpAuthenticate pin t)). Qed.
Lemma driven_send_control m : driven (send_control (W := W) m).
Proof using Type. apply driven_world. Qed.

Lemma driven_fail {A} msg : driven (fail_session (W := W) (A := A) msg).
Proof using Type.
  intros rt. unfold fail_session. destruct (ctl_error msg) as [m|e]; [|done].
  pose proof (driven_send_control m rt) as Hs. destruct (send_control m rt) as [rt1 r].
  pose proof (driven_world w_close (on_session_close rt1)) as Hc.
  destruct (on_world w_close (on_session_close rt1)) as [rt2 r2].
  etrans; [apply Hs|]. etrans; [apply driven_close|apply Hc].
Qed.

Lemma driven_now : driven (now (W := W)).
Proof using Type. intros rt. unfold now. destruct (w_now _). by apply drives_same. Qed.
End refinement.

#[export] Hint Resolve driven_world driven_lift driven_ensure driven_open driven_accept
  driven_close_stream driven_begin driven_auth_required driven_auth_result driven_mark_ready
  driven_authenticate driven_send_control driven_fail driven_now : blnk.

(** Prove that a composed method drives the session. *)
Ltac drive :=
  repeat first
    [ apply driven_bind; [|intros ?]
    | match goal with
      | |- driven (retS _) => intros ?; by apply drives_same
      | |- driven (failS _) => intros ?; by apply drives_same
      | |- driven (modifyS _) => apply driven_modify; done
      | |- driven (match ?x with _ => _ end) => destruct x
      end
    | solve [auto with blnk] ].

Section refinement_ops.
Context {W : Type} `{World W} `{ControlCodec} `{StreamCodec}.
Context `{Sha2} `{Subtle} `{WireDebug} `{RustFmt}.
Implicit Types rt : SessionRuntime W.

Lemma driven_at {A} (c : SessionRuntime W -> SessionRuntime W * A) rt rt' :
  drives rt rt' -> driven c -> drives rt (c rt').1.
Proof using Type.
  intros Hr Hc. etrans; [exact Hr|apply Hc].
Qed.

Lemma driven_send_ready : driven (send_ready (W := W)).
Proof using Type.
  intros rt. unfold send_ready. case_match; [apply driven_fail|].
  apply driven_bind; [|intros ?]; drive.
Qed.

Lemma driven_server m : driven (handle_server_message (W := W) m).
Proof using Type.
  pose proof driven_send_ready. destruct m; intros rt; cbn [handle_server_message];
    try apply driven_fail.
  - destruct (connect_seen rt); [apply driven_fail|].
    assert (Hd : drives rt (set_connect_seen rt true)) by by apply drives_same.
    destruct (trim_is_empty _); [by apply driven_at, driven_fail|].
    destruct (_ && _); [by apply driven_at, driven_fail|].
    apply driven_at; [done|]. drive.
  - destruct (negb _); [apply driven_fail|].
    destruct (match last_auth_pin rt with Some _ => _ | None => _ end); [apply driven_fail|].
    apply driven_at; [by apply drives_same|]. drive.
Qed.

Lemma driven_client m : driven (handle_client_message (W := W) m).
Proof using Type.
  destruct m; intros rt; cbn [handle_client_message]; try apply driven_fail.
  - case_match; [apply driven_fail|].
    repeat first [apply driven_bind; [|intros ?] | solve [drive]].
    intros rt'. destruct (auth_pins rt'); by apply drives_same.
  - case_match; [apply driven_fail|]. apply driven_at; [by apply drives_same|]. drive.
  - case_match; [apply driven_fail|]. case_match; [apply driven_fail|].
    apply driven_bind; [|intros ?]; drive.
Qed.

Lemma driven_handle m : driven (handle_control (W := W) m).
Proof using Type.
  intros rt. unfold handle_control. destruct (role _); [apply driven_server|apply driven_client].
Qed.

Lemma driven_receive : driven (receive_control (W := W)).
Proof using Type.
  intros rt. unfold receive_control. destruct (w_recv_within _ _). by apply drives_same.
Qed.

Lemma driven_handshake_loop fuel : driven (handshake_loop (W := W) fuel).
Proof using Type.
  induction fuel as [|fuel IH]; intros rt; cbn; [by apply drives_same|].
  pose proof (driven_receive rt) as Hr. destruct (receive_control rt) as [rt1 [m|e]]; cbn in Hr.
  2: { cbn. etrans; [exact Hr|apply driven_close]. }
  pose proof (driven_handle m rt1) as Hh. destruct (handle_control m rt1) as [rt2 [[]|e]]; cbn in *.
  - by etrans.
  - apply driven_at; [by etrans|apply IH].
  - by etrans.
Qed.

Lemma driven_handshake fuel : driven (handshake (W := W) fuel).
Proof using Type.
  intros rt. unfold handshake. destruct (handshake_started rt); [by apply drives_same|].
  assert (Hd : drives rt (set_handshake_started rt true)) by by apply drives_same.
  destruct (role _); [by apply driven_at, driven_handshake_loop|].
  match goal with |- context [bindS ?c ?k ?r] => assert (Hb : drives r (bindS c k r).1) by (apply driven_bind; [|intros ?]; drive);
    destruct (bindS c k r) as [rt1 [u|e]] end; cbn [fst] in *.
  - apply driven_at; [by etrans|apply driven_handshake_loop].
  - by etrans.
Qed.

Lemma driven_disconnect_loop fuel : driven (disconnect_loop (W := W) fuel).
Proof using Type.
  induction fuel as [|fuel IH]; intros rt; cbn [disconnect_loop]; [by apply drives_same|].
  destruct (w_select (world rt)) as [w sel].
  assert (Hd : drives rt (set_world rt w)) by by apply drives_same.
  destruct sel as [r|[f|e]]; [by etrans; [|apply driven_close]| |by etrans; [|apply driven_close]].
  case_match; [by etrans; [|apply driven_close]|].
  match goal with |- context [bindS ?c ?k ?r] =>
    assert (Hb : drives r (bindS c k r).1) by (apply driven_bind; [drive|intros ?; apply driven_handle]);
    destruct (bindS c k r) as [rt1 [u|e]] end; cbn [fst] in *.
  - apply driven_at; [by etrans|apply IH].
  - by etrans.
Qed.

Lemma driven_run_until_disconnect fuel : driven (run_until_disconnect (W := W) fuel).
Proof using Type.
  intros rt. unfold run_until_disconnect. case_match; [by apply drives_same|].
  apply driven_disconnect_loop.
Qed.

Lemma driven_rt_close : driven (rt_close (W := W)).
Proof using Type.
  intros rt. unfold rt_close.
  match goal with |- context [let '(_, _) := ?x in _] => assert (Hx : drives rt x.1);
    [|destruct x as [rt1 r1]] end.
  { case_match; [|by apply drives_same].
    match goal with |- context [on_world ?c rt] =>
      pose proof (driven_world c rt); by destruct (on_world c rt) end. }
  cbn in Hx.
  assert (H2' : drives rt (if is_ok r1 then set_world rt1 (w_drain (from_millis 250) (world rt1)) else rt1)).
  { etrans; [exact Hx|]. destruct (is_ok r1); by apply drives_same. }
  match goal with |- context [on_world ?c ?r] =>
    pose proof (driven_world c r) as H3'; destruct (on_world c r) end.
  cbn in *. etrans; [exact H2'|]. etrans; [apply driven_close|exact H3'].
Qed.
End refinement_ops.

(** The calls a client of the runtime can make. *)
Inductive RuntimeOp :=
| RtOpenStream (kind : StreamKind) (path : string)
| RtCloseStream (id : Z)
| RtOpenFile (path : string)
| RtAcceptFile (id : Z) (path : string)
| RtSendFileRequest (id : Z) (r : FileTransferRequest)
| RtSendFileChunk (id : Z) (data : list byte) (final_chunk : bool)
| RtRecvFile
| RtCloseFile (id : Z)
| RtOpenShell (path : string)
| RtAcceptShell (id : Z) (path : string)
| RtSendShellOpen (id : Z) (c : ShellCommand)
| RtSendShellInput (id : Z) (data : list byte) (final_chunk : bool)
| RtSendShellResize (id cols rows : Z)
| RtSendShellOutput (id : Z) (data : list byte) (final_chunk : bool)
| RtSendShellExit (id code : Z) (signaled : bool)
| RtSendShellError (id : Z) (message : string)
| RtSendShellCancel (id : Z)
| RtRecvShell
| RtCloseShell (id : Z)
| RtSendFrame (f : Frame)
| RtRecvFrame
| RtSendControl (m : ControlMessage)
| RtHandshake (fuel : nat)
| RtRunUntilDisconnect (fuel : nat)
| RtClose.

Definition runtime_op_wf (op : RuntimeOp) : Prop :=
  match op with
  | RtAcceptFile id _ | RtAcceptShell id _ => in_u32 id
  | _ => True
  end.

(** The calls that put stream data on the wire or change the open streams. *)
Definition needs_ready (op : RuntimeOp) : bool :=
  match op with
  | RtCloseStream _ | RtRecvFile | RtRecvShell | RtRecvFrame | RtSendControl _
  | RtHandshake _ | RtRunUntilDisconnect _ | RtClose => false
  | _ => true
  end.

Section run.
Context {W : Type} `{World W} `{ControlCodec} `{StreamCodec}.
Context `{Sha2} `{Subtle} `{WireDebug} `{RustFmt}.
Implicit Types rt : SessionRuntime W.

(** The state after a call and whether it succeeded. *)
Definition runtime_call (op : RuntimeOp) rt : SessionRuntime W * bool :=
  let done {A} (x : SessionRuntime W * BResult A) := (x.1, is_ok x.2) in
  let ended (x : SessionRuntime W * option (BResult unit)) :=
    (x.1, match x.2 with Some r => is_ok r | None => false end) in
  match op with
  | RtOpenStream kind path => done (rt_open_stream kind path rt)
  | RtCloseStream id => done (rt_close_stream id rt)
  | RtOpenFile path => done (open_file_stream path rt)
  | RtAcceptFile id path => done (accept_file_stream id path rt)
  | RtSendFileRequest id r => done (send_file_request id r rt)
  | RtSendFileChunk id data f => done (send_file_chunk id data f rt)
  | RtRecvFile => done (recv_file_frame rt)
  | RtCloseFile id => done (close_file_stream id rt)
  | RtOpenShell path => done (open_shell_stream path rt)
  | RtAcceptShell id path => done (accept_shell_stream id path rt)
  | RtSendShellOpen id c => done (send_shell_open id c rt)
  | RtSendShellInput id data f => done (send_shell_input id data f rt)
  | RtSendShellResize id cols rows => done (send_shell_resize id cols rows rt)
  | RtSendShellOutput id data f => done (send_shell_output id data f rt)
  | RtSendShellExit id code s => done (send_shell_exit id code s rt)
  | RtSendShellError id message => done (send_shell_error id message rt)
  | RtSendShellCancel id => done (send_shell_cancel id rt)
  | RtRecvShell => done (recv_shell_frame rt)
  | RtCloseShell id => done (close_shell_stream id rt)
  | RtSendFrame f => done (rt_send_frame f rt)
  | RtRecvFrame => done (rt_recv_frame rt)
  | RtSendControl m => done (send_control m rt)
  | RtHandshake fuel => ended (handshake fuel rt)
  | RtRunUntilDisconnect fuel => ended (run_until_disconnect fuel rt)
  | RtClose => done (rt_close rt)
  end.

Definition runtime_run rt (ops : list RuntimeOp) : SessionRuntime W :=
  fold_left (fun rt op => (runtime_call op rt).1) ops rt.

Lemma driven_open_rt kind path : driven (rt_open_stream (W := W) kind path).
Proof using Type. destruct kind; cbn; drive. Qed.

Lemma driven_send_built r : driven (send_built (W := W) r).
Proof using Type. apply driven_bind; [|intros ?]; drive. Qed.

Lemma driven_ensure_shell id : driven (ensure_shell_stream (W := W) id).
Proof using Type. apply driven_ensure. Qed.

Lemma driven_call op rt : runtime_op_wf op -> drives rt (runtime_call op rt).1.
Proof using Type.
  intros Hw. pose proof driven_send_built as Hb. destruct op; cbn [runtime_call fst] in *.
  1,3,9: apply driven_open_rt.
  all: try (apply driven_handshake || apply driven_run_until_disconnect || apply driven_rt_close).
  all: try (apply driven_accept; exact Hw).
  all: try (apply driven_close_stream).
  all: try (apply driven_bind; [apply driven_ensure|intros ?]; apply Hb).
  all: try (apply driven_bind; [apply driven_ensure|intros ?];
            apply driven_bind; [apply driven_world|intros ?]; apply driven_close_stream).
  all: try apply driven_world.
  all: try (pose proof driven_ensure_shell; apply driven_bind; [apply driven_world|intros f]; drive).
  unfold rt_send_frame. case_match; [by apply drives_same|]. apply driven_world.
Qed.

Lemma driven_run ops rt : Forall runtime_op_wf ops -> drives rt (runtime_run rt ops).
Proof using Type.
  intros Hops. revert rt. induction Hops as [|op ops Hop Hops IH]; intros rt; [reflexivity|].
  etrans; [by apply driven_call|apply IH].
Qed.
End run.

(** the runtime is a client of the session state machine: whatever calls are
    made on a runtime, in any order, against any peer and clock, and however
    they fail, its session went through a sequence of session operations; so the
    session invariant holds in every reachable runtime. *)
Theorem runtime_refines_session {W} `{World W} `{ControlCodec} `{StreamCodec} `{Sha2} `{Subtle}
    `{WireDebug} `{RustFmt} (w : W) c rt ops :
  runtime_new w c = Ok rt -> config_wf (session_config c) -> Forall runtime_op_wf ops ->
  exists sops, Forall session_op_wf sops /\
    session (runtime_run rt ops) = session_run (session rt) sops /\
    session_inv (session (runtime_run rt ops)).
Proof.
  intros Hn Hc Hops. destruct (driven_run ops rt Hops) as [_ (sops & Hs & He)].
  exists sops. split_and!; [done..|]. rewrite He. apply session_run_inv; [done|].
  unfold runtime_new in Hn. run_cases. by eapply session_new_inv.
Qed.

(** nothing before authentication: while the session is not ready every call
    that would open or accept a stream, or send stream data, fails without
    touching the peer or the session. *)
Theorem no_data_before_ready {W} `{World W} `{ControlCodec} `{StreamCodec} `{Sha2} `{Subtle}
    `{WireDebug} `{RustFmt} (rt : SessionRuntime W) op :
  rt_state rt <> Ready -> needs_ready op = true -> runtime_call op rt = (rt, false).
Proof.
  intros Hr Hn. unfold rt_state in Hr.
  assert (He : forall k a id, ensure_stream k a id rt =
            (rt, Err (ErrSession ("session must be ready before using a " +:+ a +:+ " stream")))).
  { intros. unfold ensure_stream, rt_state. by rewrite bool_decide_eq_false_2. }
  assert (Hset : set_session rt (session rt) = rt) by (by destruct rt).
  assert (Hopen : forall k p, exists e, on_session (fun s => open_stream s k p) rt = (rt, Err e)).
  { intros. unfold on_session, open_stream. rewrite bool_decide_eq_false_2 by done. cbn.
    rewrite Hset. eauto. }
  assert (Hacc : forall i k p, exists e, on_session (fun s => accept_stream s i k p) rt = (rt, Err e)).
  { intros. unfold on_session, accept_stream. rewrite bool_decide_eq_false_2 by done. cbn.
    rewrite Hset. eauto. }
  destruct op as [kind path| | | | | | | | | | | | | | | | | | | | | | | | ]; try discriminate;
    cbn [runtime_call].
  - destruct kind; cbn [rt_open_stream]; try done; by edestruct Hopen as [e ->].
  - unfold open_file_stream, rt_open_stream. by edestruct Hopen as [e ->].
  - unfold accept_file_stream. by edestruct Hacc as [e ->].
  - unfold send_file_request, bindS, ensure_file_stream. by rewrite He.
  - unfold send_file_chunk, bindS, ensure_file_stream. by rewrite He.
  - unfold close_file_stream, bindS, ensure_file_stream. by rewrite He.
  - unfold open_shell_stream, rt_open_stream. by edestruct Hopen as [e ->].
  - unfold accept_shell_stream. by edestruct Hacc as [e ->].
  - unfold send_shell_open, bindS, ensure_shell_stream. by rewrite He.
  - unfold send_shell_input, bindS, ensure_shell_stream. by rewrite He.
  - unfold send_shell_resize, bindS, ensure_shell_stream. by rewrite He.
  - unfold send_shell_output, bindS, ensure_shell_stream. by rewrite He.
  - unfold send_shell_exit, bindS, ensure_shell_stream. by rewrite He.
  - unfold send_shell_error, bindS, ensure_shell_stream. by rewrite He.
  - unfold send_shell_cancel, bindS, ensure_shell_stream. by rewrite He.
  - unfold close_shell_stream, bindS, ensure_shell_stream. by rewrite He.
  - unfold rt_send_frame, rt_state. by rewrite bool_decide_eq_false_2.
Qed.

(** ** One control message *)

Section message.
Context {W : Type} `{World W} `{ControlCodec} `{Sha2} `{Subtle}.
Implicit Types rt : SessionRuntime W.

Lemma fail_session_err {A} msg rt rt' (a : A) : fail_session msg rt <> (rt', Ok a).
Proof using Type.
  unfold fail_session. destruct (ctl_error msg); [|done].
  destruct (send_control _ _). by destruct (on_world _ _).
Qed.

Lemma send_control_ok m rt rt' r :
  send_control m rt = (rt', r) -> exists w, rt' = set_world rt w.
Proof using Type. unfold send_control, on_world. intros. run_cases. eauto. Qed.

Lemma send_ready_ok rt rt' u :
  send_ready rt = (rt', Ok u) ->
  exists w, rt' = set_ready_seen (set_world rt w) true /\ ready_seen rt = false.
Proof using Type.
  unfold send_ready. destruct (ready_seen rt) eqn:Er; [by intros ?%fail_session_err|].
  intros (rt1 & [] & Hs & Hm)%bindS_Ok. apply send_control_ok in Hs as [w ->].
  unfold modifyS in Hm. simplify_eq. eauto.
Qed.

Lemma on_session_ok {A} (c : SM Session BlnkError A) rt rt' r :
  on_session c rt = (rt', r) -> exists s, c (session rt) = (s, r) /\ rt' = set_session rt s.
Proof using Type. unfold on_session. intros. run_cases. eauto. Qed.

(** What a message the server accepts did. *)
Inductive server_accepts (rt rt' : SessionRuntime W) : ControlMessage -> bool -> Prop :=
| accepts_connect (m : control.ConnectMessage) (b : bool) :
    connect_seen rt = false -> connect_seen rt' = true ->
    begin_authentication (session rt)
      = (session rt', Ok (if b then None else Some auth_required_default)) ->
    last_auth_pin rt' = last_auth_pin rt ->
    server_accepts rt rt' (CtlConnect m) b
| accepts_auth (m : control.AuthMessage) (b : bool) (t : Z) (outcome : AuthOutcome) :
    authenticate (session rt) (control.pin m) t = (session rt', Ok outcome) ->
    match outcome with
    | AuthReady => b = true
    | AuthRejected _ => b = false
    | AuthClosed => False
    end ->
    connect_seen rt' = connect_seen rt -> last_auth_pin rt' = Some (control.pin m) ->
    server_accepts rt rt' (CtlAuth m) b.

Lemma server_ok m rt rt' b :
  handle_server_message m rt = (rt', Ok b) -> server_accepts rt rt' m b /\ (b = true -> ready_seen rt' = true).
Proof using Type.
  intros Hh. destruct m; cbn [handle_server_message] in Hh; try by apply fail_session_err in Hh.
  - destruct (connect_seen rt) eqn:Hc; [by apply fail_session_err in Hh|].
    destruct (trim_is_empty _); [by apply fail_session_err in Hh|].
    destruct (_ && _); [by apply fail_session_err in Hh|].
    apply bindS_Ok in Hh as (rt1 & req & Hs & Hh).
    apply on_session_ok in Hs as (s & Hs & ->). cbn [session set_connect_seen] in Hs.
    destruct req as [q|]; apply bindS_Ok in Hh as (rt2 & u & Hs2 & Hr); unfold retS in Hr; simplify_eq.
    + apply send_control_ok in Hs2 as [w ->]. split; [|done]. econstructor; cbn; try done.
      unfold begin_authentication in *. by run_cases.
    + apply send_ready_ok in Hs2 as (w & -> & _). split; [|done]. by econstructor.
  - destruct (negb _); [by apply fail_session_err in Hh|].
    destruct (match last_auth_pin rt with Some _ => _ | None => _ end);
      [by apply fail_session_err in Hh|].
    apply bindS_Ok in Hh as (rt1 & t & Ht & Hh). unfold now in Ht.
    destruct (w_now _) as [w t']. simplify_eq.
    apply bindS_Ok in Hh as (rt2 & o & Hs & Hh).
    apply on_session_ok in Hs as (s & Hs & ->). cbn [session set_world set_last_auth_pin] in Hs.
    destruct o as [|n|]; apply bindS_Ok in Hh as (rt3 & u & Hs2 & Hh);
      apply send_control_ok in Hs2 as [w2 ->].
    + apply bindS_Ok in Hh as (rt4 & u2 & Hs3 & Hr). unfold retS in Hr. simplify_eq.
      apply send_ready_ok in Hs3 as (w3 & -> & _). split; [|done]. by econstructor.
    + apply bindS_Ok in Hh as (rt4 & u2 & Hs3 & Hr). unfold retS in Hr. simplify_eq.
      apply send_control_ok in Hs3 as [w3 ->]. split; [|done]. by econstructor.
    + by apply fail_session_err in Hh.
Qed.

(** What a message the client accepts did. *)
Inductive client_accepts (rt rt' : SessionRuntime W) : bool -> Prop :=
| accepts_auth_required (pin : string) (rest : list string) :
    auth_pending rt = false -> auth_pins rt = pin :: rest ->
    auth_pending rt' = true -> auth_pins rt' = rest ->
    client_accepts rt rt' false
| accepts_auth_result :
    auth_pending rt = true -> auth_pending rt' = false -> auth_pins rt' = auth_pins rt ->
    client_accepts rt rt' false
| accepts_ready :
    auth_pending rt = false -> auth_pending rt' = false ->
    ready_seen rt' = true -> state (session rt') = Ready ->
    client_accepts rt rt' true.

Lemma client_ok m rt rt' b : handle_client_message m rt = (rt', Ok b) -> client_accepts rt rt' b.
Proof using Type.
  intros Hh. destruct m; cbn [handle_client_message] in Hh; try by apply fail_session_err in Hh.
  - destruct (auth_pending rt || ready_seen rt) eqn:Hp; [by apply fail_session_err in Hh|].
    apply orb_false_iff in Hp as [Hp _].
    apply bindS_Ok in Hh as (rt1 & u & Hs & Hh). apply on_session_ok in Hs as (s & Hs & ->).
    apply bindS_Ok in Hh as (rt2 & pin & Hpin & Hh). cbn [auth_pins set_session] in Hpin.
    destruct (auth_pins rt) as [|p rest] eqn:Hpins; [done|]. simplify_eq.
    apply bindS_Ok in Hh as (rt3 & u3 & Hm & Hh). unfold modifyS in Hm. simplify_eq.
    apply bindS_Ok in Hh as (rt4 & msg & Hl & Hh). unfold liftS in Hl. simplify_eq.
    apply bindS_Ok in Hh as (rt5 & u5 & Hs5 & Hr). unfold retS in Hr. simplify_eq.
    apply send_control_ok in Hs5 as [w ->]. by econstructor.
  - destruct (auth_pending rt) eqn:Hp; cbn [negb] in Hh; [|by apply fail_session_err in Hh].
    apply bindS_Ok in Hh as (rt1 & u & Hs & Hh). apply on_session_ok in Hs as (s & Hs & ->).
    unfold retS in Hh. simplify_eq. by apply accepts_auth_result.
  - destruct (ready_seen rt || auth_pending rt) eqn:Hp; [by apply fail_session_err in Hh|].
    apply orb_false_iff in Hp as [_ Hp].
    destruct (_ || _); [by apply fail_session_err in Hh|].
    apply bindS_Ok in Hh as (rt1 & u & Hs & Hh). apply on_session_ok in Hs as (s & Hs & ->).
    apply bindS_Ok in Hh as (rt3 & u3 & Hm & Hh). unfold modifyS, retS in *. simplify_eq.
    apply accepts_ready; try done. cbn. unfold mark_ready in Hs. by run_cases.
Qed.

(** What is left of a handshake: an upper bound on the messages that can still
    be answered without ending it. *)
Definition handshake_measure rt : nat :=
  match role (rt_config rt) with
  | Server => (if connect_seen rt then 0 else 1) +
              Z.to_nat (max_auth_fails (config (session rt)) - auth_attempts (session rt))
  | Client => 2 * length (auth_pins rt) + (if auth_pending rt then 1 else 0)
  end.

Lemma session_run_const s ops :
  config (session_run s ops) = config s /\ expected_pin (session_run s ops) = expected_pin s.
Proof using Type.
  revert s. induction ops as [|op ops IH]; intros s; [done|].
  destruct (session_step_const s op) as [<- <-]. apply (IH (session_step s op)).
Qed.

Lemma handle_config m rt : rt_config (handle_control m rt).1 = rt_config rt.
Proof using Type. apply (driven_handle m rt). Qed.

Lemma authenticate_rejected s pin t s' n :
  max_auth_fails (config s) <= U32_MAX ->
  authenticate s pin t = (s', Ok (AuthRejected n)) ->
  config s' = config s /\ auth_attempts s' = auth_attempts s + 1 /\
  auth_attempts s + 1 < max_auth_fails (config s).
Proof using Type. unfold authenticate, saturating_add. intros Hm Ha. run_cases. split_and!; [done|lia|lia]. Qed.

Lemma handle_measure m rt rt' :
  max_auth_fails (config (session rt)) <= U32_MAX ->
  handle_control m rt = (rt', Ok false) ->
  (handshake_measure rt' < handshake_measure rt)%nat /\ config (session rt') = config (session rt).
Proof using Type.
  intros Hm Hh. pose proof (handle_config m rt) as Hc. rewrite Hh in Hc. cbn in Hc.
  pose proof (driven_handle m rt) as [_ (ops & _ & Hs)]. rewrite Hh in Hs. cbn in Hs.
  split; [|rewrite Hs; apply session_run_const].
  unfold handshake_measure, handle_control in *. rewrite Hc. destruct (role (rt_config rt)).
  - apply server_ok in Hh as [Hh _]. inversion Hh as [? ? Hc1 Hc2 Hb|? ? t o Ha Ho Hcs _]; subst.
    + rewrite Hc1, Hc2. unfold begin_authentication in Hb. case_match; [done|].
      assert (session rt' = set_state (session rt) Authenticating) as -> by (by run_cases).
      cbn. lia.
    + destruct o; try done. apply authenticate_rejected in Ha as (-> & -> & ?); [|done].
      rewrite Hcs. lia.
  - apply client_ok in Hh. inversion Hh as [? ? Hp Hpins Hp' Hpins'|Hp Hp' Hpins|]; subst.
    + rewrite Hp, Hpins, Hp'. cbn. lia.
    + rewrite Hp, Hp', Hpins. lia.
Qed.
End message.

(** ** The handshake *)

Section handshake_theorems.
Context {W : Type} `{World W} `{ControlCodec} `{Sha2} `{Subtle}.
Implicit Types rt : SessionRuntime W.

Lemma receive_ok rt rt' r : receive_control rt = (rt', r) -> exists w, rt' = set_world rt w.
Proof using Type. unfold receive_control. destruct (w_recv_within _ _). intros. simplify_eq. eauto. Qed.

Lemma handshake_loop_total fuel rt :
  max_auth_fails (config (session rt)) <= U32_MAX -> (handshake_measure rt < fuel)%nat ->
  exists r, (handshake_loop fuel rt).2 = Some r.
Proof using Type.
  revert rt. induction fuel as [|fuel IH]; intros rt Hm Hf; [lia|]. cbn [handshake_loop].
  destruct (receive_control rt) as [rt1 [m|e]] eqn:Hr; [|by eexists].
  apply receive_ok in Hr as [w ->].
  destruct (handle_control m (set_world rt w)) as [rt2 [[]|e]] eqn:Hh; [by eexists| |by eexists].
  apply handle_measure in Hh as [Hlt Hc]; [|done]. apply IH; [by rewrite Hc|].
  change (handshake_measure (set_world rt w)) with (handshake_measure rt) in Hlt. lia.
Qed.

(** The loop ends in success only through a message that the role's handler
    answered with [true]. *)
Lemma handshake_loop_success (P : SessionRuntime W -> Prop) fuel rt rt' u :
  P rt -> (forall r w, P r -> P (set_world r w)) ->
  (forall m r r', P r -> handle_control m r = (r', Ok false) -> P r') ->
  handshake_loop fuel rt = (rt', Some (Ok u)) ->
  exists m r, P r /\ handle_control m r = (rt', Ok true).
Proof using Type.
  intros HP Hw Hs. revert rt HP. induction fuel as [|fuel IH]; intros rt HP Hl; [done|].
  cbn [handshake_loop] in Hl.
  destruct (receive_control rt) as [rt1 [m|e]] eqn:Hr; [|done].
  apply receive_ok in Hr as [w ->].
  destruct (handle_control m (set_world rt w)) as [rt2 [[]|e]] eqn:Hh; [|by eauto|done].
  simplify_eq. eauto.
Qed.

Lemma handshake_ok_loop fuel rt rt' u :
  handshake fuel rt = (rt', Some (Ok u)) ->
  exists w, handshake_loop fuel (set_world (set_handshake_started rt true) w) = (rt', Some (Ok u)).
Proof using Type.
  unfold handshake. destruct (handshake_started rt); [done|].
  set (rt0 := set_handshake_started rt true). destruct (role (rt_config rt0)).
  - intros Hl. exists (world rt0). by destruct rt.
  - unfold bindS, liftS. destruct (ctl_connect _ _); [|done].
    destruct (send_control _ rt0) as [rt1 [|]] eqn:Hs; [|done].
    apply send_control_ok in Hs as [w ->]. eauto.
Qed.

Lemma begin_required s s' r :
  begin_authentication s = (s', Ok r) -> (r = None <-> pin_required (config s) = false).
Proof using Type. unfold begin_authentication. intros. run_cases; split; congruence. Qed.

Lemma authenticate_ready s pin t s' `{!SubtleLaws} :
  authenticate s pin t = (s', Ok AuthReady) -> expected_pin s = Some pin /\ state s' = Ready.
Proof using Type.
  unfold authenticate, pin_matches. intros Ha. run_cases.
  match goal with Hp : constant_time_pin_eq _ _ = true |- _ =>
    apply pin_eq_spec in Hp as [_ Hp%as_bytes_inj] end. by subst.
Qed.
End handshake_theorems.

(** C18: the handshake terminates. With at least [handshake_measure] + 1
    iterations of fuel it always ends with a result, against any peer: a server
    answers at most one connect and as many PINs as it allows failures, a client
    at most two messages per PIN it has. *)
Theorem handshake_terminates {W} `{World W} `{ControlCodec} `{Sha2} `{Subtle}
    (rt : SessionRuntime W) fuel :
  max_auth_fails (config (session rt)) <= U32_MAX -> (handshake_measure rt < fuel)%nat ->
  exists r, (handshake fuel rt).2 = Some r.
Proof.
  intros Hm Hf. unfold handshake. destruct (handshake_started rt); [by eexists|].
  set (rt0 := set_handshake_started rt true).
  destruct (role (rt_config rt0)); [by apply (handshake_loop_total fuel rt0)|].
  unfold bindS, liftS. destruct (ctl_connect _ _); [|by eexists].
  destruct (send_control _ rt0) as [rt1 [|]] eqn:Hs; [|by eexists].
  apply send_control_ok in Hs as [w ->].
  by apply (handshake_loop_total fuel (set_world rt0 w)).
Qed.

(** A server's completed handshake ends with the expected PIN. *)
Lemma server_handshake_pin {W} `{World W} `{ControlCodec} `{Sha2} `{Subtle}
    `{!SubtleLaws} (w : W) c rt fuel rt' :
  runtime_new w c = Ok rt -> role c = Server -> pin_required (session_config c) = true ->
  handshake fuel rt = (rt', Some (Ok tt)) ->
  exists pin, cfg_expected_pin c = Some pin /\ str_len pin = PIN_LEN /\
    last_auth_pin rt' = Some pin /\ rt_state rt' = Ready.
Proof.
  intros Hn Hrole Hreq Hh. unfold runtime_new in Hn.
  destruct (runtime_config_validate c); [|done].
  destruct (session_new _ _) as [s|] eqn:Hs; [|done]. simplify_eq.
  apply session_new_Ok in Hs as [-> Hpin]. specialize (Hpin Hreq) as (_ & pin & Hpin & Hlen).
  apply handshake_ok_loop in Hh as [w' Hl].
  set (P := fun r : SessionRuntime W => rt_config r = c /\
              config (session r) = session_config c /\ expected_pin (session r) = Some pin).
  assert (Hstep : forall m r r', P r -> handle_control m r = (r', Ok false) -> P r').
  { intros m r r' (Hc & Hcf & Hp) Hm. pose proof (driven_handle m r) as [Hc' (ops & _ & Hs)].
    rewrite Hm in Hc', Hs. cbn in *. unfold P. rewrite Hs, Hc'.
    destruct (session_run_const (session r) ops) as [-> ->]. done. }
  pose proof (fun HP => handshake_loop_success P _ _ _ _ HP ltac:(done) Hstep Hl) as Hex.
  destruct Hex as (m & r & (Hc & Hcf & Hp) & Hm); [done|].
  unfold handle_control in Hm. rewrite Hc, Hrole in Hm. apply server_ok in Hm as [Hm _].
  inversion Hm as [? ? _ _ Hb|? ? now_ o Ha Ho _ Hlast]; subst.
  - apply begin_required in Hb. rewrite Hcf in Hb. destruct Hb as [Hb _].
    specialize (Hb eq_refl). congruence.
  - destruct o; try done. apply authenticate_ready in Ha as [Hp2 Hst]; [|done].
    exists pin. rewrite Hlast. rewrite Hp in Hp2. simplify_eq. done.
Qed.

(** C1: authentication: when a server that requires a PIN completes its
    handshake, against any peer, the last PIN it received is exactly the
    expected six-byte PIN, the session is ready, and no proxying of the
    comparison through padding or truncation let another PIN in. *)
Theorem server_handshake_authenticates {W} `{World W} `{ControlCodec} `{Sha2} `{Subtle}
    `{!SubtleLaws} (w : W) c rt fuel rt' :
  runtime_new w c = Ok rt -> role c = Server -> pin_required (session_config c) = true ->
  handshake fuel rt = (rt', Some (Ok tt)) ->
  exists pin, cfg_expected_pin c = Some pin /\ str_len pin = PIN_LEN /\
    last_auth_pin rt' = Some pin /\ rt_state rt' = Ready.
Proof. apply server_handshake_pin. Qed.

(** a client that completes its handshake has seen the server's ready message
    with no PIN outstanding, and its session is ready. *)
Theorem client_handshake_ready {W} `{World W} `{ControlCodec} `{Sha2} `{Subtle}
    (rt : SessionRuntime W) fuel rt' :
  role (rt_config rt) = Client -> handshake fuel rt = (rt', Some (Ok tt)) ->
  rt_state rt' = Ready /\ ready_seen rt' = true /\ auth_pending rt' = false.
Proof.
  intros Hrole [w Hl]%handshake_ok_loop.
  set (P := fun r : SessionRuntime W => role (rt_config r) = Client).
  assert (Hstep : forall m r r', P r -> handle_control m r = (r', Ok false) -> P r').
  { intros m r r' Hr Hm. unfold P in *. pose proof (handle_config m r) as Hc.
    rewrite Hm in Hc. cbn in Hc. by rewrite Hc. }
  pose proof (fun HP => handshake_loop_success P _ _ _ _ HP ltac:(done) Hstep Hl) as Hex.
  destruct Hex as (m & r & Hr & Hm); [done|].
  unfold handle_control in Hm. rewrite Hr in Hm. apply client_ok in Hm. by inversion Hm.
Qed.

(** ** After the handshake *)

Section after.
Context {W : Type} `{World W} `{ControlCodec} `{Sha2} `{Subtle}.

Lemma fail_session_closes {A} msg (rt : SessionRuntime W) :
  trim_is_empty msg = false ->
  (fail_session (A := A) msg rt).2 = Err (ErrSession msg) /\
  session (fail_session (A := A) msg rt).1 = session_close (session rt).
Proof using Type.
  intros Hm. unfold fail_session, ctl_error. rewrite Hm.
  destruct (send_control _ rt) as [rt1 r] eqn:Hs. apply send_control_ok in Hs as [w ->].
  unfold on_world. by destruct (w_close _).
Qed.

(** Established: what a successful handshake leaves behind. *)
Definition established (rt : SessionRuntime W) : Prop :=
  rt_state rt = Ready /\ ready_seen rt = true /\
  match role (rt_config rt) with
  | Server => connect_seen rt = true
  | Client => auth_pending rt = false
  end.

Lemma peer_error_nonempty s : trim_is_empty ("peer reported session error: " +:+ s) = false.
Proof using Type. done. Qed.

Lemma established_rejects m (rt : SessionRuntime W) :
  established rt -> exists msg,
    (handle_control m rt).2 = Err (ErrSession msg) /\
    session (handle_control m rt).1 = session_close (session rt).
Proof using Type.
  intros (Hst & Hrs & Hrole). unfold handle_control.
  destruct (role (rt_config rt)); destruct m; cbn [handle_server_message handle_client_message].
  all: rewrite ?Hrole, ?Hst, ?Hrs, ?orb_true_r; cbn [negb orb].
  all: try (eexists; apply fail_session_closes; first [reflexivity|apply peer_error_nonempty]).
Qed.
End after.

(** after the handshake one event ends the session: [run_until_disconnect]
    on an established runtime returns at the first disconnect, frame or
    receive error. It closes the session in every case but one: a frame that is
    not a valid control message is an error that leaves the session ready. *)
Theorem disconnect_one_event {W} `{World W} `{ControlCodec} `{Sha2} `{Subtle}
    (rt : SessionRuntime W) fuel :
  established rt ->
  exists rt' r, run_until_disconnect (S fuel) rt = (rt', Some r) /\
    match (w_select (world rt)).2 with
    | Received (Ok f) =>
        if is_fin (flags f) then r = Ok tt /\ session rt' = session_close (session rt) else
        match decode_control_frame f with
        | Ok m => is_ok r = false /\ session rt' = session_close (session rt)
        | Err e => r = Err e /\ session rt' = session rt
        end
    | Received (Err e) => session rt' = session_close (session rt) /\
                          r = if receive_loop_closed e then Ok tt else Err e
    | Disconnected r' => r = r' /\ session rt' = session_close (session rt)
    end.
Proof.
  intros He. unfold run_until_disconnect.
  rewrite bool_decide_eq_true_2 by apply He. cbn [negb disconnect_loop].
  destruct (w_select (world rt)) as [w sel]. cbn [snd].
  destruct sel as [r|[f|e]]; [by eauto| |by eauto].
  destruct (is_fin (flags f)); [by eauto|].
  unfold bindS, liftS. destruct (decode_control_frame f) as [m|e]; [|by eauto].
  assert (He' : established (set_world rt w)) by done.
  destruct (established_rejects m _ He') as (msg & Hr & Hs).
  destruct (handle_control m (set_world rt w)) as [rt1 [b|e]]; [done|].
  cbn in Hr, Hs. simplify_eq. eexists _, _. split; [done|]. by rewrite Hs.
Qed.

(** ** Control messages on the wire *)

(** Every control message carries its discriminator as field 1, so all six
    decoders read the same discriminator from the same bytes. *)
Class ControlLaws `{ControlCodec} := {
  discriminator : list byte -> string;
  connect_discriminator : forall bs m, prost_decode bs = Ok m -> control.connect_type m = discriminator bs;
  auth_required_discriminator : forall bs m,
    prost_decode bs = Ok m -> control.auth_required_type m = discriminator bs;
  auth_discriminator : forall bs m, prost_decode bs = Ok m -> control.auth_type m = discriminator bs;
  auth_result_discriminator : forall bs m,
    prost_decode bs = Ok m -> control.auth_result_type m = discriminator bs;
  ready_discriminator : forall bs m, prost_decode bs = Ok m -> control.ready_type m = discriminator bs;
  error_discriminator : forall bs m, prost_decode bs = Ok m -> control.error_type m = discriminator bs;
}.

(** The discriminator the constructors set. *)
Definition well_tagged (m : ControlMessage) : Prop :=
  match m with
  | CtlConnect m => control.connect_type m = "connect"
  | CtlAuthRequired m => control.auth_required_type m = "auth_required"
  | CtlAuth m => control.auth_type m = "auth"
  | CtlAuthResult m => control.auth_result_type m = "auth_result"
  | CtlReady m => control.ready_type m = "ready"
  | CtlError m => control.error_type m = "error"
  end.

Definition message_roundtrips `{ControlCodec} (m : ControlMessage) : Prop :=
  match m with
  | CtlConnect m => prost_roundtrips m
  | CtlAuthRequired m => prost_roundtrips m
  | CtlAuth m => prost_roundtrips m
  | CtlAuthResult m => prost_roundtrips m
  | CtlReady m => prost_roundtrips m
  | CtlError m => prost_roundtrips m
  end.

Section control_codec.
Context `{CL : ControlLaws}.

Lemma try_decode_skip {M} `{Prost M} (type_of : M -> string) tag wrap bs next :
  (forall m, prost_decode bs = Ok m -> type_of m = discriminator bs) ->
  discriminator bs <> tag -> try_decode type_of tag wrap bs next = next.
Proof using Type.
  intros Hd Hne. unfold try_decode. destruct (prost_decode bs) as [m|] eqn:E; [|done].
  destruct (str_eqb _ _) eqn:Et; [|done]. apply str_eqb_eq in Et. rewrite (Hd m) in Et; done.
Qed.

Lemma try_decode_take {M} `{Prost M} (type_of : M -> string) tag wrap (m : M) next :
  prost_roundtrips m -> type_of m = tag ->
  try_decode type_of tag wrap (encode_to_vec m) next = Ok (wrap m).
Proof using Type.
  intros Hr Ht. unfold try_decode. rewrite Hr.
  by rewrite (proj2 (str_eqb_eq _ _) Ht).
Qed.

Lemma decode_encode m :
  well_tagged m -> message_roundtrips m -> control_decode (control_encode m) = Ok m.
Proof using CL.
  intros Ht Hr. destruct m as [m|m|m|m|m|m]; cbn in Ht, Hr; unfold control_decode, control_encode.
  1: by apply try_decode_take.
  1: pose proof (auth_required_discriminator _ _ Hr) as Hd.
  2: pose proof (auth_discriminator _ _ Hr) as Hd.
  3: pose proof (auth_result_discriminator _ _ Hr) as Hd.
  4: pose proof (ready_discriminator _ _ Hr) as Hd.
  5: pose proof (error_discriminator _ _ Hr) as Hd.
  all: rewrite Ht in Hd.
  all: repeat first [by apply try_decode_take
       | rewrite try_decode_skip; [|first [apply connect_discriminator|apply auth_required_discriminator
           |apply auth_discriminator|apply auth_result_discriminator|apply ready_discriminator]
         |by rewrite <- Hd] ].
Qed.

Definition frame_of (m : ControlMessage) : Frame :=
  mkFrame CONTROL_STREAM_ID DAT (control_encode m).

Lemma decode_frame_of m :
  well_tagged m -> message_roundtrips m -> decode_control_frame (frame_of m) = Ok m.
Proof using CL. intros. by apply decode_encode. Qed.
End control_codec.

(** control messages round-trip: although decoding tries the six message
    types in order and their encodings overlap, a message with its constructor's
    discriminator decodes to itself and to no other kind. *)
Theorem control_roundtrip `{ControlLaws} m :
  well_tagged m -> message_roundtrips m -> control_decode (control_encode m) = Ok m.
Proof. apply decode_encode. Qed.

(** ** Two runtimes against each other *)

(** What one side did with frames, in order. *)
Inductive Event := Sent (f : Frame) | Got (f : Frame).

(** A peer that delivers [inbox], encodes what is sent as the data channel does,
    refusing a frame that is too long, and records both in [trace]; reading the
    clock takes the next of [times]. *)
Record Queue := mkQueue { inbox : list Frame; trace : list Event; times : list Z }.

Definition sent_frame (e : Event) : option Frame :=
  match e with Sent f => Some f | Got _ => None end.
Definition sent (q : Queue) : list Frame := omap sent_frame (trace q).
Definition take_frame (f : Frame) (rest : list Frame) (q : Queue) : Queue :=
  mkQueue rest (trace q ++ [Got f]) (times q).

#[export] Instance queue_world : World Queue := {|
  w_send f q := match encode f with
                | Err error => (q, Err (ErrProtocol (frame_error_display error)))
                | Ok _ => (mkQueue (inbox q) (trace q ++ [Sent f]) (times q), Ok tt)
                end;
  w_recv q := match inbox q with
              | f :: rest => (take_frame f rest q, Ok f)
              | [] => (q, Err (ErrPeer "data channel receive loop closed"))
              end;
  w_recv_within _ q := match inbox q with
                       | f :: rest => (take_frame f rest q, Some (Ok f))
                       | [] => (q, None)
                       end;
  w_select q := match inbox q with
                | f :: rest => (take_frame f rest q, Received (Ok f))
                | [] => (q, Disconnected (Ok tt))
                end;
  w_drain _ q := q;
  w_close q := (q, Ok tt);
  w_now q := (mkQueue (inbox q) (trace q) (tail (times q)), default 0 (head (times q)));
|}.

(** A frame the data channel carries. *)
Definition frame_fits (f : Frame) : Prop := zlen (payload f) <= DEFAULT_MAX_PAYLOAD_LEN.

Lemma empty_fits id fl : frame_fits (mkFrame id fl []).
Proof. by vm_compute. Qed.
Lemma send_fits f q :
  frame_fits f -> w_send f q = (mkQueue (inbox q) (trace q ++ [Sent f]) (times q), Ok tt).
Proof. intros Hf. cbn. by rewrite encode_default_Ok. Qed.
Lemma send_too_long f q :
  ~ frame_fits f -> exists e, w_send f q = (q, Err (ErrProtocol e)).
Proof.
  intros Hf. cbn. destruct (encode f) as [bs|e] eqn:He; [|by eexists].
  apply encode_with_limit_Ok in He as (_ & Hl & _). done.
Qed.

(** *** Runs that belong together

    Two traces are those of one run when some order of their events exists in
    which a frame is got only after the other side sent it, and first in, first
    out in each direction. [up] and [down] are the frames under way from the
    client and from the device; what the device sent last may stay under way
    when both have ended. *)
Inductive joint : list Event -> list Event -> list Frame -> list Frame -> Prop :=
| joint_end down : joint [] [] [] down
| joint_client_sends f c d up down : joint c d (up ++ [f]) down -> joint (Sent f :: c) d up down
| joint_client_gets f c d up down : joint c d up down -> joint (Got f :: c) d up (f :: down)
| joint_device_sends f c d up down : joint c d up (down ++ [f]) -> joint c (Sent f :: d) up down
| joint_device_gets f c d up down : joint c d up down -> joint c (Got f :: d) (f :: up) down.

Lemma joint_client_sends_all l c d up down :
  joint c d (up ++ l) down -> joint ((Sent <$> l) ++ c) d up down.
Proof.
  revert up. induction l as [|f l IH]; intros up Hj; cbn; [by rewrite app_nil_r in Hj|].
  apply joint_client_sends, IH. by rewrite <- app_assoc.
Qed.
Lemma joint_device_sends_all l c d up down :
  joint c d up (down ++ l) -> joint c ((Sent <$> l) ++ d) up down.
Proof.
  revert down. induction l as [|f l IH]; intros down Hj; cbn; [by rewrite app_nil_r in Hj|].
  apply joint_device_sends, IH. by rewrite <- app_assoc.
Qed.
Lemma joint_client_gets_all l c d up down :
  joint c d up down -> joint ((Got <$> l) ++ c) d up (l ++ down).
Proof. intros Hj. induction l; cbn; [done|by apply joint_client_gets]. Qed.
Lemma joint_device_gets_all l c d up down :
  joint c d up down -> joint c ((Got <$> l) ++ d) (l ++ up) down.
Proof. intros Hj. induction l; cbn; [done|by apply joint_device_gets]. Qed.

(** A side that gets a frame before the other one sends it has no joint run. *)
Lemma joint_no_deadlock f g c d : ~ joint (Got f :: c) (Got g :: d) [] [].
Proof. by inversion 1. Qed.

Section two_runtimes.
Context `{CL : ControlLaws} `{Sha2} `{Subtle} {SL : SubtleLaws}.
Implicit Types rt : SessionRuntime Queue.

(** One iteration of the loop on a message that is waiting. *)
Lemma handshake_loop_message fuel rt m rest :
  message_roundtrips m -> well_tagged m -> inbox (world rt) = frame_of m :: rest ->
  handshake_loop (S fuel) rt =
  match handle_control m (set_world rt (take_frame (frame_of m) rest (world rt))) with
  | (rt, Err e) => (rt, Some (Err e))
  | (rt, Ok true) => (rt, Some (Ok tt))
  | (rt, Ok false) => handshake_loop fuel rt
  end.
Proof using CL.
  intros Hr Ht Hin. cbn [handshake_loop]. unfold receive_control. cbn [w_recv_within queue_world].
  rewrite Hin. by rewrite decode_frame_of.
Qed.

(** The runtime after sending [m], which fits a frame. *)
Definition push (m : ControlMessage) rt : SessionRuntime Queue :=
  set_world rt (mkQueue (inbox (world rt)) (trace (world rt) ++ [Sent (frame_of m)]) (times (world rt))).
Definition message_fits (m : ControlMessage) : Prop := frame_fits (frame_of m).

Lemma send_control_queue m rt : message_fits m -> send_control m rt = (push m rt, Ok tt).
Proof using Type. intros Hm. unfold send_control, on_world. by rewrite send_fits. Qed.

Lemma bindS_step {S E A B} (c : SM S E A) (k : A -> SM S E B) s s1 a :
  c s = (s1, Ok a) -> bindS c k s = k a s1.
Proof using Type. unfold bindS. by intros ->. Qed.

Lemma send_ready_queue rt :
  ready_seen rt = false ->
  message_fits (ctl_ready (cfg_server_version (rt_config rt)) (cfg_capabilities (rt_config rt))
                  (cfg_routing (rt_config rt))) ->
  send_ready rt = (set_ready_seen (push (ctl_ready (cfg_server_version (rt_config rt))
                     (cfg_capabilities (rt_config rt)) (cfg_routing (rt_config rt))) rt) true, Ok tt).
Proof using Type.
  intros Hr Hm. unfold send_ready. rewrite Hr. by rewrite (bindS_step _ _ _ _ _ (send_control_queue _ rt Hm)).
Qed.

Lemma server_connect_step rt m :
  role (rt_config rt) = Server -> connect_seen rt = false ->
  trim_is_empty (control.connect_path m) = false ->
  control.connect_version m = PROTOCOL_VERSION -> state (session rt) = Connecting ->
  pin_required (config (session rt)) = true -> message_fits ctl_auth_required ->
  handle_control (CtlConnect m) rt =
  (push ctl_auth_required (set_session (set_connect_seen rt true)
     (set_state (session rt) Authenticating)), Ok false).
Proof using Type.
  intros Hro Hc Hp Hv Hst Hreq Hfit. unfold handle_control. rewrite Hro. cbn [handle_server_message].
  rewrite Hc, Hp, Hv, Z.eqb_refl, andb_false_r.
  assert (Hb : on_session begin_authentication (set_connect_seen rt true) =
            (set_session (set_connect_seen rt true) (set_state (session rt) Authenticating),
             Ok (Some auth_required_default))).
  { unfold on_session, begin_authentication. cbn [session set_connect_seen].
    by rewrite Hst, Hreq. }
  rewrite (bindS_step _ _ _ _ _ Hb). by erewrite bindS_step by by apply send_control_queue.
Qed.

(** The runtime at the moment the server compares the PIN. *)
Definition at_auth (pin : string) rt : SessionRuntime Queue :=
  set_world (set_last_auth_pin rt (Some pin))
    (mkQueue (inbox (world rt)) (trace (world rt)) (tail (times (world rt)))).

Lemma server_auth_step rt m :
  role (rt_config rt) = Server -> state (session rt) = Authenticating ->
  (forall last, last_auth_pin rt = Some last ->
     constant_time_string_eq last (control.pin m) = false) ->
  handle_control (CtlAuth m) rt =
  let '(s, r) := authenticate (session rt) (control.pin m) (default 0 (head (times (world rt)))) in
  (let* outcome := liftS r in
   match outcome with
   | AuthReady => do* send_control (ctl_auth_result true) in do* send_ready in retS true
   | AuthRejected _ =>
       do* send_control (ctl_auth_result false) in
       do* send_control ctl_auth_required in
       retS false
   | AuthClosed =>
       do* send_control (ctl_auth_result false) in
       fail_session "authentication retry limit exhausted"
   end) (set_session (at_auth (control.pin m) rt) s).
Proof using Type.
  intros Hro Hst Hlast. unfold handle_control. rewrite Hro. cbn [handle_server_message].
  unfold rt_state. rewrite Hst, bool_decide_eq_true_2 by done. cbn [negb].
  replace (match last_auth_pin rt with Some l => _ | None => _ end) with false.
  2: { destruct (last_auth_pin rt); [|done]. symmetry. by apply Hlast. }
  unfold bindS at 1, now. cbn [w_now queue_world world set_last_auth_pin].
  unfold bindS at 1, on_session. cbn [session set_world set_last_auth_pin].
  destruct (authenticate _ _ _) as [s [o|e]]; done.
Qed.

Lemma authenticate_accepts s pin t :
  state s = Authenticating -> next_auth_allowed_at s = None -> expected_pin s = Some pin ->
  str_len pin = PIN_LEN ->
  authenticate s pin t = (set_next_auth (set_state s Ready) None, Ok AuthReady).
Proof using SL.
  intros Hst Hn Hp Hl. unfold authenticate, retry_blocked, pin_matches.
  rewrite Hst, bool_decide_eq_true_2, Hn, Hp by done. cbn [negb].
  by rewrite (proj2 (pin_eq_spec (as_bytes pin) (as_bytes pin))).
Qed.

(** The messages of an exchange with one PIN, each direction. *)
Definition to_server (path pin : string) : list ControlMessage :=
  [CtlConnect (control.mkConnect "connect" path PROTOCOL_VERSION);
   CtlAuth (control.mkAuth "auth" pin)].
Definition to_client (c : SessionRuntimeConfig) : list ControlMessage :=
  [ctl_auth_required; ctl_auth_result true;
   ctl_ready (cfg_server_version c) (cfg_capabilities c) (cfg_routing c)].

(** What each side does with them. *)
Definition server_trace (c : SessionRuntimeConfig) (path pin : string) : list Event :=
  [Got (frame_of (CtlConnect (control.mkConnect "connect" path PROTOCOL_VERSION)));
   Sent (frame_of ctl_auth_required); Got (frame_of (CtlAuth (control.mkAuth "auth" pin)));
   Sent (frame_of (ctl_auth_result true));
   Sent (frame_of (ctl_ready (cfg_server_version c) (cfg_capabilities c) (cfg_routing c)))].
Definition client_trace (c : SessionRuntimeConfig) (path pin : string) : list Event :=
  [Sent (frame_of (CtlConnect (control.mkConnect "connect" path PROTOCOL_VERSION)));
   Got (frame_of ctl_auth_required); Sent (frame_of (CtlAuth (control.mkAuth "auth" pin)));
   Got (frame_of (ctl_auth_result true));
   Got (frame_of (ctl_ready (cfg_server_version c) (cfg_capabilities c) (cfg_routing c)))].

(** After the exchange of the handshake both sides go on. *)
Lemma joint_handshake cs path pin c d :
  joint c d [] [] -> joint (client_trace cs path pin ++ c) (server_trace cs path pin ++ d) [] [].
Proof using Type.
  intros Hj. unfold client_trace, server_trace. cbn [app].
  apply joint_client_sends. cbn [app]. apply joint_device_gets, joint_device_sends. cbn [app].
  apply joint_client_gets, joint_client_sends. cbn [app]. apply joint_device_gets.
  apply joint_device_sends, joint_device_sends. cbn [app]. by apply joint_client_gets, joint_client_gets.
Qed.

(** A message both ends can handle: it decodes and fits a frame. *)
Definition carried (m : ControlMessage) : Prop := message_roundtrips m /\ message_fits m.

Lemma server_exchange c pin path rt tail :
  rt_config rt = c -> role c = Server -> handshake_started rt = false ->
  connect_seen rt = false -> ready_seen rt = false -> last_auth_pin rt = None ->
  state (session rt) = Connecting -> next_auth_allowed_at (session rt) = None ->
  pin_required (config (session rt)) = true -> expected_pin (session rt) = Some pin ->
  str_len pin = PIN_LEN -> trim_is_empty path = false ->
  Forall carried (to_server path pin) -> Forall carried (to_client c) ->
  inbox (world rt) = (frame_of <$> to_server path pin) ++ tail -> trace (world rt) = [] ->
  exists s1, handshake 2 rt = (s1, Some (Ok tt)) /\
    rt_state s1 = Ready /\ trace (world s1) = server_trace c path pin /\
    inbox (world s1) = tail /\ registry (session s1) = registry (session rt).
Proof using CL SL.
  intros Hcfg Hrole Hhs Hcs Hrs Hlp Hst Hnext Hreq Hpin Hlen Hpath Hrt Hto Hin Hsent.
  apply Forall_cons in Hrt as [[Hr1 _] [[Hr2 _] _]%Forall_cons].
  apply Forall_cons in Hto as [[_ Hf1] [[_ Hf2] [[_ Hf3] _]%Forall_cons]%Forall_cons].
  unfold handshake. rewrite Hhs. cbn [rt_config set_handshake_started]. rewrite Hcfg, Hrole.
  erewrite (fun fuel rt rest => handshake_loop_message fuel rt _ rest Hr1 eq_refl) by exact Hin.
  rewrite server_connect_step; try done; [|by cbn; rewrite Hcfg].
  erewrite (fun fuel rt rest => handshake_loop_message fuel rt _ rest Hr2 eq_refl) by reflexivity.
  rewrite server_auth_step; [|by cbn; rewrite Hcfg|done|by cbn; rewrite Hlp].
  rewrite authenticate_accepts by done.
  erewrite bindS_step; [|reflexivity]. cbv beta iota.
  erewrite bindS_step; [|by apply send_control_queue].
  erewrite bindS_step; [|apply send_ready_queue; [done|by cbn; rewrite Hcfg]].
  eexists. split; [reflexivity|]. cbn. rewrite Hsent, Hcfg. done.
Qed.

Lemma client_auth_required_step rt m pin rest :
  role (rt_config rt) = Client -> auth_pending rt = false -> ready_seen rt = false ->
  state (session rt) = Connecting -> auth_pins rt = pin :: rest -> trim_is_empty pin = false ->
  message_fits (CtlAuth (control.mkAuth "auth" pin)) ->
  handle_control (CtlAuthRequired m) rt =
  (push (CtlAuth (control.mkAuth "auth" pin))
     (set_auth_pending (set_auth_pins (set_session rt (set_state (session rt) Authenticating)) rest)
        true), Ok false).
Proof using Type.
  intros Hro Hp Hr Hst Hpins Htrim Hfit. unfold handle_control. rewrite Hro. cbn [handle_client_message].
  rewrite Hp, Hr. cbn [orb].
  assert (Ha : on_session accept_auth_required rt =
            (set_session rt (set_state (session rt) Authenticating), Ok tt)).
  { unfold on_session, accept_auth_required. by rewrite Hst. }
  rewrite (bindS_step _ _ _ _ _ Ha). unfold bindS at 1. cbn [auth_pins set_session].
  rewrite Hpins. unfold bindS at 1, modifyS, liftS, ctl_auth. unfold bindS at 1. rewrite Htrim.
  by erewrite bindS_step by by apply send_control_queue.
Qed.

Lemma client_auth_result_step rt m :
  role (rt_config rt) = Client -> auth_pending rt = true ->
  state (session rt) = Authenticating -> control.success m = true ->
  handle_control (CtlAuthResult m) rt =
  (set_session (set_auth_pending rt false) (set_next_auth (session rt) None), Ok false).
Proof using Type.
  intros Hro Hp Hst Hs. unfold handle_control. rewrite Hro. cbn [handle_client_message].
  rewrite Hp. cbn [negb]. unfold bindS, on_session, accept_auth_result.
  cbn [session set_auth_pending]. by rewrite Hst, Hs.
Qed.

Lemma client_ready_step rt m :
  role (rt_config rt) = Client -> auth_pending rt = false -> ready_seen rt = false ->
  state (session rt) = Authenticating -> control.ready_type m = "ready" ->
  trim_is_empty (control.routing m) = false ->
  handle_control (CtlReady m) rt =
  (set_ready_seen (set_session rt (set_next_auth (set_state (session rt) Ready) None)) true, Ok true).
Proof using Type.
  intros Hro Hp Hr Hst Ht Hrt. unfold handle_control. rewrite Hro. cbn [handle_client_message].
  rewrite Hp, Hr, Ht, Hrt. cbn [orb]. change (str_eqb "ready" "ready") with true. cbn [negb orb].
  unfold bindS, on_session, mark_ready. by rewrite Hst.
Qed.

Lemma client_exchange cs pin rest rt tail :
  role (rt_config rt) = Client -> handshake_started rt = false -> auth_pending rt = false ->
  ready_seen rt = false -> state (session rt) = Connecting ->
  auth_pins rt = pin :: rest -> trim_is_empty pin = false ->
  trim_is_empty (cfg_connect_path (rt_config rt)) = false ->
  trim_is_empty (cfg_routing cs) = false ->
  Forall carried (to_server (cfg_connect_path (rt_config rt)) pin) -> Forall carried (to_client cs) ->
  inbox (world rt) = (frame_of <$> to_client cs) ++ tail -> trace (world rt) = [] ->
  exists c1, handshake 3 rt = (c1, Some (Ok tt)) /\
    rt_state c1 = Ready /\
    trace (world c1) = client_trace cs (cfg_connect_path (rt_config rt)) pin /\
    inbox (world c1) = tail /\ registry (session c1) = registry (session rt).
Proof using CL SL.
  intros Hrole Hhs Hap Hrs Hst Hpins Hpin Hpath Hrouting Hto Hrt Hin Hsent.
  apply Forall_cons in Hrt as [[Hr1 _] [[Hr2 _] [[Hr3 _] _]%Forall_cons]%Forall_cons].
  apply Forall_cons in Hto as [[_ Hf1] [[_ Hf2] _]%Forall_cons].
  unfold handshake. rewrite Hhs. cbn [rt_config set_handshake_started]. rewrite Hrole.
  unfold ctl_connect. rewrite Hpath.
  erewrite bindS_step; [|reflexivity]. rewrite send_control_queue by done.
  erewrite (fun fuel rt rest => handshake_loop_message fuel rt _ rest Hr1 eq_refl) by exact Hin.
  unfold ctl_auth_required at 1. erewrite client_auth_required_step; [|done..].
  erewrite (fun fuel rt rest => handshake_loop_message fuel rt _ rest Hr2 eq_refl) by reflexivity.
  unfold ctl_auth_result at 1. erewrite client_auth_result_step; [|done..].
  erewrite (fun fuel rt rest => handshake_loop_message fuel rt _ rest Hr3 eq_refl) by reflexivity.
  unfold ctl_ready at 1. erewrite client_ready_step; [|done..].
  eexists. split; [reflexivity|]. cbn. rewrite Hsent. done.
Qed.
End two_runtimes.

Lemma runtime_new_ok {W} (w : W) c rt :
  runtime_new w c = Ok rt ->
  rt = mkRuntime w (mkSession Connecting (session_config c) (cfg_expected_pin c) 0 registry_new
                      stats_default None) c (cfg_auth_pins c) false false false None false /\
  trim_is_empty (cfg_connect_path c) = false /\ trim_is_empty (cfg_routing c) = false /\
  (pin_required (session_config c) = true ->
   exists pin, cfg_expected_pin c = Some pin /\ str_len pin = PIN_LEN).
Proof.
  unfold runtime_new, runtime_config_validate. intros Hn.
  destruct (control_timeout c =? 0); [done|]. destruct (trim_is_empty _) eqn:Hp; [done|].
  destruct (bool_decide (role c = Server) && _ && _); [done|].
  destruct (bool_decide (role c = Client) && _); [done|]. destruct (ready_message_new _ _ _) eqn:Hr; [|done].
  destruct (session_new _ _) as [s|] eqn:Hs; [|done]. simplify_eq.
  apply session_new_Ok in Hs as [-> Hpin]. split_and!; [done..| |naive_solver].
  unfold ready_message_new in Hr. case_match eqn:E; [done|].
  apply andb_false_iff in E as [E|E]; apply negb_false_iff, str_eqb_eq in E; by rewrite E.
Qed.

(** Two runtimes that share the PIN complete their handshakes on the frames the
    other one sends; what follows these frames is left to be received. *)
Lemma handshake_exchange `{ControlLaws} `{Sha2} `{Subtle} `{!SubtleLaws} cs cc pin rest tail_s tail_c ts
    (srv cli : SessionRuntime Queue) :
  role cs = Server -> role cc = Client -> pin_required (session_config cs) = true ->
  cfg_expected_pin cs = Some pin -> cfg_auth_pins cc = pin :: rest -> trim_is_empty pin = false ->
  Forall carried (to_server (cfg_connect_path cc) pin) -> Forall carried (to_client cs) ->
  runtime_new (mkQueue ((frame_of <$> to_server (cfg_connect_path cc) pin) ++ tail_s) [] ts) cs = Ok srv ->
  runtime_new (mkQueue ((frame_of <$> to_client cs) ++ tail_c) [] []) cc = Ok cli ->
  exists srv' cli',
    handshake 2 srv = (srv', Some (Ok tt)) /\ handshake 3 cli = (cli', Some (Ok tt)) /\
    rt_state srv' = Ready /\ rt_state cli' = Ready /\
    trace (world srv') = server_trace cs (cfg_connect_path cc) pin /\
    trace (world cli') = client_trace cs (cfg_connect_path cc) pin /\
    inbox (world srv') = tail_s /\ inbox (world cli') = tail_c /\
    registry (session srv') = registry_new /\ registry (session cli') = registry_new.
Proof.
  intros Hrs Hrc Hreq Hpin Hpins Htrim Hr1 Hr2 Hs Hc.
  apply runtime_new_ok in Hs as (-> & _ & Hrouting & Hp). apply runtime_new_ok in Hc as (-> & Hpath & _).
  destruct (Hp Hreq) as (pin' & ? & Hlen). simplify_eq.
  match goal with |- context [handshake 2 ?r] =>
    destruct (server_exchange cs pin (cfg_connect_path cc) r tail_s) as (s1 & Hs1 & Hst1 & Hsent1 & Hin1 & Hreg1) end;
    [done..|].
  match goal with |- context [handshake 3 ?r] =>
    destruct (client_exchange cs pin rest r tail_c) as (c1 & Hc1 & Hst2 & Hsent2 & Hin2 & Hreg2) end; [done..|].
  exists s1, c1. by split_and!.
Qed.

(** two runtimes that share the PIN authenticate each other: the server,
    given exactly the frames the client sends, completes its handshake and sends
    exactly the frames which, given to the client, make the client complete its
    own and send the former; the two runs are those of one joint run, and both
    sessions end ready. *)
Theorem handshake_succeeds `{ControlLaws} `{Sha2} `{Subtle} `{!SubtleLaws} cs cc pin rest ts
    (srv cli : SessionRuntime Queue) :
  role cs = Server -> role cc = Client -> pin_required (session_config cs) = true ->
  cfg_expected_pin cs = Some pin -> cfg_auth_pins cc = pin :: rest -> trim_is_empty pin = false ->
  Forall carried (to_server (cfg_connect_path cc) pin) -> Forall carried (to_client cs) ->
  runtime_new (mkQueue (frame_of <$> to_server (cfg_connect_path cc) pin) [] ts) cs = Ok srv ->
  runtime_new (mkQueue (frame_of <$> to_client cs) [] []) cc = Ok cli ->
  exists srv' cli',
    handshake 2 srv = (srv', Some (Ok tt)) /\ handshake 3 cli = (cli', Some (Ok tt)) /\
    rt_state srv' = Ready /\ rt_state cli' = Ready /\
    sent (world srv') = inbox (world cli) /\ sent (world cli') = inbox (world srv) /\
    joint (trace (world cli')) (trace (world srv')) [] [].
Proof.
  intros Hrs Hrc Hreq Hpin Hpins Htrim Hr1 Hr2 Hs Hc.
  assert (Hin : inbox (world srv) = frame_of <$> to_server (cfg_connect_path cc) pin /\
                inbox (world cli) = frame_of <$> to_client cs).
  { apply runtime_new_ok in Hs as [-> _]. by apply runtime_new_ok in Hc as [-> _]. }
  rewrite <- (app_nil_r (frame_of <$> to_server _ _)) in Hs.
  rewrite <- (app_nil_r (frame_of <$> to_client _)) in Hc.
  destruct (handshake_exchange cs cc pin rest [] [] ts srv cli) as (s1 & c1 & ? & ? & ? & ? & Hs1 & Hc1 & _);
    [done..|].
  exists s1, c1. destruct Hin as [-> ->]. unfold sent. rewrite Hs1, Hc1. split_and!; try done.
  rewrite <- (app_nil_r (client_trace _ _ _)), <- (app_nil_r (server_trace _ _ _)).
  apply joint_handshake, joint_end.
Qed.

Lemma authenticate_wrong `{Subtle} `{!SubtleLaws} s pin wrong t :
  state s = Authenticating -> next_auth_allowed_at s = None -> expected_pin s = Some pin ->
  wrong <> pin -> auth_attempts s = 0 -> 1 < max_auth_fails (config s) ->
  t + pin_fail_delay (config s) <= INSTANT_MAX ->
  authenticate s wrong t =
  (set_next_auth (set_attempts s 1) (Some (t + pin_fail_delay (config s))),
   Ok (AuthRejected (max_auth_fails (config s) - 1))).
Proof.
  intros Hst Hn Hp Hw Ha Hm Ht. unfold authenticate, retry_blocked, pin_matches.
  rewrite Hst, bool_decide_eq_true_2, Hn, Hp, Ha by done. cbn [negb].
  destruct (constant_time_pin_eq _ _) eqn:E.
  { apply pin_eq_spec in E as [_ E%as_bytes_inj]. by subst. }
  rewrite saturating_add_exact by (unfold U32_MAX; lia).
  replace (max_auth_fails _ <=? 0 + 1) with false by lia.
  by rewrite (proj2 (checked_add_Some INSTANT_MAX t (pin_fail_delay (config s)) _) (conj eq_refl Ht)).
Qed.

Lemma authenticate_early `{Subtle} s pin t next :
  state s = Authenticating -> next_auth_allowed_at s = Some next -> t < next ->
  authenticate s pin t = (s, Err (ErrSession "PIN retry delay has not elapsed")).
Proof.
  intros Hst Hn Ht. unfold authenticate, retry_blocked.
  rewrite Hst, bool_decide_eq_true_2, Hn by done. cbn [negb].
  by replace (t <? next) with true by lia.
Qed.

(** The PIN the server has just seen, sent again. *)
Lemma server_auth_duplicate `{ControlCodec} `{Sha2} `{Subtle} (rt : SessionRuntime Queue) m last :
  let message := CtlError (control.mkError "error" "duplicate auth control message") in
  role (rt_config rt) = Server -> state (session rt) = Authenticating ->
  last_auth_pin rt = Some last -> constant_time_string_eq last (control.pin m) = true ->
  message_fits message ->
  handle_control (CtlAuth m) rt =
  (on_session_close (push message rt), Err (ErrSession "duplicate auth control message")).
Proof.
  intros message Hro Hst Hlast Heq Hfit. unfold handle_control. rewrite Hro. cbn [handle_server_message].
  unfold rt_state. rewrite Hst, bool_decide_eq_true_2 by done. cbn [negb]. rewrite Hlast, Heq.
  unfold fail_session. change (ctl_error _) with (Ok (E := BlnkError) message). cbv iota.
  rewrite send_control_queue by done. done.
Qed.

(** C40: a client that retries at once cannot authenticate, whatever PIN it sends
    the second time: a server that rejected a PIN at [t1] ends its handshake on the
    next one before its retry delay has passed. The same PIN again is a duplicate,
    which is answered with an error and closes the session; any other PIN, the
    right one included, is refused with the delay error, without an answer, and
    leaves the session authenticating. (The client's runtime answers the second
    [auth_required] immediately.) *)
Theorem early_retry_aborts `{ControlLaws} `{Sha2} `{Subtle} `{!SubtleLaws} cs path pin wrong again t1 t2
    (srv : SessionRuntime Queue) :
  let duplicate := constant_time_string_eq wrong again in
  let e := if duplicate then "duplicate auth control message" else "PIN retry delay has not elapsed" in
  let challenged := [ctl_auth_required; ctl_auth_result false; ctl_auth_required] in
  role cs = Server -> pin_required (session_config cs) = true ->
  cfg_expected_pin cs = Some pin -> wrong <> pin -> trim_is_empty path = false ->
  1 < max_auth_fails (session_config cs) ->
  t2 < t1 + pin_fail_delay (session_config cs) <= INSTANT_MAX ->
  Forall message_roundtrips (to_server path wrong ++ [CtlAuth (control.mkAuth "auth" again)]) ->
  Forall message_fits (challenged ++ [CtlError (control.mkError "error" e)]) ->
  runtime_new (mkQueue (frame_of <$> to_server path wrong ++ [CtlAuth (control.mkAuth "auth" again)])
                 [] [t1; t2]) cs = Ok srv ->
  exists srv', handshake 3 srv = (srv', Some (Err (ErrSession e))) /\
    rt_state srv' = (if duplicate then Closed else Authenticating) /\
    sent (world srv') = frame_of <$> challenged ++
      (if duplicate then [CtlError (control.mkError "error" e)] else []).
Proof.
  intros duplicate e challenged Hrole Hreq Hpin Hne Hpath Hmax Ht Hrt Hfit Hn.
  apply runtime_new_ok in Hn as (-> & _ & _ & _).
  apply Forall_cons in Hrt as [Hr1 [Hr2 [Hr3 _]%Forall_cons]%Forall_cons].
  apply Forall_cons in Hfit as [Hf1 [Hf2 [_ [Hf3 _]%Forall_cons]%Forall_cons]%Forall_cons].
  unfold handshake. cbn [handshake_started rt_config set_handshake_started]. rewrite Hrole.
  erewrite (fun fuel rt rest => handshake_loop_message fuel rt _ rest Hr1 eq_refl) by reflexivity.
  rewrite server_connect_step by done.
  erewrite (fun fuel rt rest => handshake_loop_message fuel rt _ rest Hr2 eq_refl) by reflexivity.
  rewrite server_auth_step by done. cbn [control.pin].
  erewrite (authenticate_wrong _ pin); [|done..|cbn; lia].
  erewrite bindS_step; [|reflexivity]. cbv beta iota.
  erewrite bindS_step; [|by apply send_control_queue].
  erewrite bindS_step; [|by apply send_control_queue]. unfold retS at 1. cbv beta iota.
  erewrite (fun fuel rt rest => handshake_loop_message fuel rt _ rest Hr3 eq_refl) by reflexivity.
  unfold e, duplicate in *. destruct (constant_time_string_eq wrong again) eqn:Hdup.
  - erewrite server_auth_duplicate; [|done|done|reflexivity|exact Hdup|exact Hf3].
    eexists. split; [reflexivity|]. done.
  - rewrite server_auth_step; [|done|done|cbn; congruence]. cbn [control.pin].
    erewrite authenticate_early; [|done|reflexivity|cbn; lia].
    eexists. split; [reflexivity|]. done.
Qed.

(** ** Witnesses *)
Module Sample.
#[export] Instance control_codec : ControlCodec := {|
  codec_connect := Proto3.connect;
  codec_auth_required := Proto3.auth_required;
  codec_auth := Proto3.auth;
  codec_auth_result := Proto3.auth_result;
  codec_ready := Proto3.ready;
  codec_error := Proto3.error;
|}.

#[export] Instance control_laws : ControlLaws.
Proof.
  refine {| discriminator bs := match Proto3.fields bs with
                                | Some l => default EmptyString (Proto3.get_str 1 l)
                                | None => EmptyString
                                end |}.
  all: intros bs m; cbn; destruct (Proto3.fields bs) as [l|]; cbn; [|discriminate].
  all: destruct (Proto3.get_str 1 l); cbn; [|discriminate].
  all: unfold Proto3.decoded, mbind, option_bind; intros; repeat (case_match; simplify_eq/=); by simplify_eq/=.
Defined.

#[export] Existing Instance Concrete.subtle.
#[export] Existing Instance Concrete.subtle_laws.
#[export] Existing Instance Concrete.sha2.

#[export] Instance stream_codec : StreamCodec := {|
  codec_file_op := {| encode_to_vec _ := []; prost_decode _ := Err "unused" |};
  codec_shell_open := Proto3.shell_open;
  codec_shell_input := Proto3.shell_input;
  codec_shell_output := {| encode_to_vec m := Proto3.put_bytes 1 (stream.output_data m);
                           prost_decode _ := Err "unused" |};
  codec_resize := Proto3.resize;
  codec_exit := {| encode_to_vec _ := []; prost_decode _ := Err "unused" |};
  codec_shell_error := {| encode_to_vec _ := []; prost_decode _ := Err "unused" |};
  codec_cancel := Proto3.shell_cancel;
|}.
#[export] Instance debug : WireDebug := {|
  connect_debug _ := "ConnectMessage"; auth_required_debug _ := "AuthRequiredMessage";
  auth_result_debug _ := "AuthResultMessage"; ready_debug _ := "ReadyMessage";
  error_debug _ := "ErrorMessage"; |}.
#[export] Existing Instance Concrete.rust_fmt.

Definition pin : string := "123456".
Definition wrong : string := "000000".
Definition server : SessionRuntimeConfig := runtime_config_server pin.
Definition client : SessionRuntimeConfig := runtime_config_client pin.

Definition fresh (q : Queue) (c : SessionRuntimeConfig) : SessionRuntime Queue :=
  mkRuntime q (mkSession Connecting (session_config c) (cfg_expected_pin c) 0 registry_new
                 stats_default None) c (cfg_auth_pins c) false false false None false.
Definition server_queue : Queue := mkQueue (frame_of <$> to_server "/" pin) [] [5].
Definition client_queue : Queue := mkQueue (frame_of <$> to_client server) [] [].

Ltac all_carried := repeat (constructor; [split; [reflexivity|vm_compute; discriminate]|]); constructor.
Lemma server_messages : Forall carried (to_server "/" pin).
Proof. all_carried. Qed.
Lemma client_messages : Forall carried (to_client server).
Proof. all_carried. Qed.
End Sample.
Import Sample.

Lemma runtime_refines_session_witness :
  exists sops, Forall session_op_wf sops /\
    session (runtime_run (fresh server_queue server) [RtHandshake 2; RtOpenFile "/x"; RtClose])
    = session_run (session (fresh server_queue server)) sops /\
    session_inv (session (runtime_run (fresh server_queue server)
                            [RtHandshake 2; RtOpenFile "/x"; RtClose])).
Proof.
  apply (runtime_refines_session server_queue server (fresh server_queue server)).
  - reflexivity.
  - split; [split; by vm_compute|by vm_compute].
  - by repeat constructor.
Defined.

Lemma no_data_before_ready_witness :
  runtime_call (RtSendShellCancel 1) (fresh server_queue server) = (fresh server_queue server, false).
Proof.
  apply (no_data_before_ready (fresh server_queue server) (RtSendShellCancel 1)).
  - vm_compute. congruence.
  - reflexivity.
Defined.

Lemma handshake_terminates_witness :
  exists r, (handshake 5 (fresh server_queue server)).2 = Some r.
Proof.
  apply (handshake_terminates (fresh server_queue server) 5).
  - vm_compute. congruence.
  - vm_compute. lia.
Defined.

Lemma server_handshake_authenticates_witness :
  exists p, cfg_expected_pin server = Some p /\ str_len p = PIN_LEN /\
    last_auth_pin (handshake 2 (fresh server_queue server)).1 = Some p /\
    rt_state (handshake 2 (fresh server_queue server)).1 = Ready.
Proof.
  apply (server_handshake_authenticates server_queue server (fresh server_queue server) 2).
  - reflexivity.
  - reflexivity.
  - reflexivity.
  - vm_compute. reflexivity.
Defined.

Lemma client_handshake_ready_witness :
  rt_state (handshake 3 (fresh client_queue client)).1 = Ready /\
  ready_seen (handshake 3 (fresh client_queue client)).1 = true /\
  auth_pending (handshake 3 (fresh client_queue client)).1 = false.
Proof.
  apply (client_handshake_ready (fresh client_queue client) 3).
  - reflexivity.
  - vm_compute. reflexivity.
Defined.

Lemma disconnect_one_event_witness :
  exists rt' r,
    run_until_disconnect 1 (handshake 2 (fresh server_queue server)).1 = (rt', Some r).
Proof.
  destruct (disconnect_one_event (handshake 2 (fresh server_queue server)).1 0)
    as (rt' & r & H & _).
  - vm_compute. done.
  - exists rt', r. exact H.
Defined.

Lemma control_roundtrip_witness :
  control_decode (control_encode (CtlAuth (control.mkAuth "auth" pin)))
  = Ok (CtlAuth (control.mkAuth "auth" pin)).
Proof. apply control_roundtrip; reflexivity. Defined.

Lemma handshake_succeeds_witness :
  exists srv' cli',
    handshake 2 (fresh server_queue server) = (srv', Some (Ok tt)) /\
    handshake 3 (fresh client_queue client) = (cli', Some (Ok tt)) /\
    rt_state srv' = Ready /\ rt_state cli' = Ready /\
    sent (world srv') = inbox client_queue /\ sent (world cli') = inbox server_queue /\
    joint (trace (world cli')) (trace (world srv')) [] [].
Proof.
  apply (handshake_succeeds server client pin [] [5] (fresh server_queue server)
           (fresh client_queue client)); try reflexivity.
  - apply server_messages.
  - apply client_messages.
Defined.

(** The right PIN too early, and the wrong one again. *)
Lemma early_retry_aborts_witness :
  let run again := handshake 3 (fresh (mkQueue (frame_of <$> to_server "/" wrong ++
      [CtlAuth (control.mkAuth "auth" again)]) [] [5; 6]) server) in
  (exists srv', run pin = (srv', Some (Err (ErrSession "PIN retry delay has not elapsed"))) /\
     rt_state srv' = Authenticating /\
     sent (world srv') = frame_of <$> [ctl_auth_required; ctl_auth_result false; ctl_auth_required]) /\
  (exists srv', run wrong = (srv', Some (Err (ErrSession "duplicate auth control message"))) /\
     rt_state srv' = Closed).
Proof.
  split.
  - destruct (early_retry_aborts server "/" pin wrong pin 5 6
      (fresh (mkQueue (frame_of <$> to_server "/" wrong ++ [CtlAuth (control.mkAuth "auth" pin)])
                [] [5; 6]) server)) as (srv' & H1 & H2 & H3); try reflexivity.
    + discriminate.
    + split; vm_compute; congruence.
    + repeat constructor.
    + repeat (constructor; [vm_compute; discriminate|]). constructor.
    + exists srv'. split; [exact H1|]. split; [exact H2|exact H3].
  - destruct (early_retry_aborts server "/" pin wrong wrong 5 6
      (fresh (mkQueue (frame_of <$> to_server "/" wrong ++ [CtlAuth (control.mkAuth "auth" wrong)])
                [] [5; 6]) server)) as (srv' & H1 & H2 & _); try reflexivity.
    + discriminate.
    + split; vm_compute; congruence.
    + repeat constructor.
    + repeat (constructor; [vm_compute; discriminate|]). constructor.
    + exists srv'. split; [exact H1|exact H2].
Defined.
