(* ===== verification/Net.v ===== *)
(** * Internet addresses

    The part of [std::net] the proxy policy uses: IPv4 and IPv6 addresses,
    socket addresses, the address classes, and [IpAddr::from_str]. *)
From S2P Require Import Prelude.

(** The four octets, and the eight 16-bit segments. *)
Record Ipv4Addr := mkV4 { o1 : Z; o2 : Z; o3 : Z; o4 : Z }.
Record Ipv6Addr := mkV6 { s0 : Z; s1 : Z; s2 : Z; s3 : Z; s4 : Z; s5 : Z; s6 : Z; s7 : Z }.
Inductive IpAddr := V4 (a : Ipv4Addr) | V6 (a : Ipv6Addr).

#[export] Instance Ipv4Addr_eq_dec : EqDecision Ipv4Addr.
Proof. solve_decision. Defined.
#[export] Instance Ipv6Addr_eq_dec : EqDecision Ipv6Addr.
Proof. solve_decision. Defined.
#[export] Instance IpAddr_eq_dec : EqDecision IpAddr.
Proof. solve_decision. Defined.

(** [flowinfo] and [scope_id] are zero for IPv4. *)
Record SocketAddr := mkSocketAddr { ip : IpAddr; sock_port : Z; flowinfo : Z; scope_id : Z }.

#[export] Instance SocketAddr_eq_dec : EqDecision SocketAddr.
Proof. solve_decision. Defined.

Definition in_u8 (z : Z) : Prop := 0 <= z <= U8_MAX.
Definition v4_wf (a : Ipv4Addr) : Prop := in_u8 (o1 a) /\ in_u8 (o2 a) /\ in_u8 (o3 a) /\ in_u8 (o4 a).
Definition v6_wf (a : Ipv6Addr) : Prop :=
  in_u16 (s0 a) /\ in_u16 (s1 a) /\ in_u16 (s2 a) /\ in_u16 (s3 a) /\
  in_u16 (s4 a) /\ in_u16 (s5 a) /\ in_u16 (s6 a) /\ in_u16 (s7 a).
Definition ip_wf (a : IpAddr) : Prop := match a with V4 a => v4_wf a | V6 a => v6_wf a end.

(** ** Address classes *)

Definition v4_is_unspecified (a : Ipv4Addr) : bool :=
  (o1 a =? 0) && (o2 a =? 0) && (o3 a =? 0) && (o4 a =? 0).
Definition v4_is_multicast (a : Ipv4Addr) : bool := (224 <=? o1 a) && (o1 a <=? 239).
Definition v4_is_broadcast (a : Ipv4Addr) : bool :=
  (o1 a =? 255) && (o2 a =? 255) && (o3 a =? 255) && (o4 a =? 255).
Definition v4_is_private (a : Ipv4Addr) : bool :=
  (o1 a =? 10) || ((o1 a =? 172) && (16 <=? o2 a) && (o2 a <=? 31))
  || ((o1 a =? 192) && (o2 a =? 168)).
Definition v4_is_loopback (a : Ipv4Addr) : bool := o1 a =? 127.
Definition v4_is_link_local (a : Ipv4Addr) : bool := (o1 a =? 169) && (o2 a =? 254).

Definition v6_is_unspecified (a : Ipv6Addr) : bool := bool_decide (a = mkV6 0 0 0 0 0 0 0 0).
Definition v6_is_loopback (a : Ipv6Addr) : bool := bool_decide (a = mkV6 0 0 0 0 0 0 0 1).
Definition v6_is_multicast (a : Ipv6Addr) : bool := Z.land (s0 a) 0xff00 =? 0xff00.
Definition to_ipv4_mapped (a : Ipv6Addr) : option Ipv4Addr :=
  if (s0 a =? 0) && (s1 a =? 0) && (s2 a =? 0) && (s3 a =? 0) && (s4 a =? 0) && (s5 a =? 0xffff)
  then Some (mkV4 (s6 a / 256) (s6 a mod 256) (s7 a / 256) (s7 a mod 256)) else None.

Lemma to_ipv4_mapped_wf a b : v6_wf a -> to_ipv4_mapped a = Some b -> v4_wf b.
Proof.
  unfold to_ipv4_mapped, v6_wf, v4_wf, in_u16, in_u8, U16_MAX, U8_MAX. intros Ha Hb.
  case_match; [|done]. simplify_eq. cbn.
  pose proof (Z.mod_pos_bound (s6 a) 256). pose proof (Z.mod_pos_bound (s7 a) 256).
  assert (0 <= s6 a / 256 <= 255) by (split; [apply Z.div_pos|apply Z.lt_succ_r, Z.div_lt_upper_bound]; lia).
  assert (0 <= s7 a / 256 <= 255) by (split; [apply Z.div_pos|apply Z.lt_succ_r, Z.div_lt_upper_bound]; lia).
  lia.
Qed.

(** ** [IpAddr::from_str]

    Each reader returns the value and the rest of the input, or [None] with the
    input unconsumed. *)

Definition digit_of (radix : Z) (b : byte) : option Z :=
  let v := byte_val b in
  let d := if (48 <=? v) && (v <=? 57) then Some (v - 48)
           else if (97 <=? v) && (v <=? 122) then Some (v - 87)
           else if (65 <=? v) && (v <=? 90) then Some (v - 55) else None in
  match d with Some d => if d <? radix then Some d else None | None => None end.

(** [read_number]: at most [max_digits] digits, a value up to [limit]. *)
Fixpoint read_digits (radix : Z) (limit : Z) (max_digits count : nat) (acc : Z) (l : list byte)
    : option (Z * nat * list byte) :=
  match l with
  | [] => Some (acc, count, [])
  | b :: rest =>
      match digit_of radix b with
      | None => Some (acc, count, l)
      | Some d =>
          if acc * radix + d >? limit then None
          else if (max_digits <? S count)%nat then None
          else read_digits radix limit max_digits (S count) (acc * radix + d) rest
      end
  end.
Definition starts_zero (l : list byte) : bool :=
  match l with b :: _ => byte_val b =? 48 | [] => false end.
Definition read_number (radix limit : Z) (max_digits : nat) (allow_zero_prefix : bool)
    (l : list byte) : option (Z * list byte) :=
  match read_digits radix limit max_digits 0 0 l with
  | Some (v, count, rest) =>
      if (count =? 0)%nat then None
      else if negb allow_zero_prefix && starts_zero l && (1 <? count)%nat then None
      else Some (v, rest)
  | None => None
  end.

Definition read_char (c : Z) (l : list byte) : option (list byte) :=
  match l with b :: rest => if byte_val b =? c then Some rest else None | [] => None end.

(** [read_separator]: the separator comes before every element but the first. *)
Definition read_separator {A} (sep : Z) (index : nat) (inner : list byte -> option (A * list byte))
    (l : list byte) : option (A * list byte) :=
  if (0 <? index)%nat
  then match read_char sep l with Some l => inner l | None => None end
  else inner l.

Definition read_octet (index : nat) : list byte -> option (Z * list byte) :=
  read_separator 46 index (read_number 10 U8_MAX 3 false).

Definition read_ipv4_addr (l : list byte) : option (Ipv4Addr * list byte) :=
  a ← read_octet 0 l; b ← read_octet 1 a.2; c ← read_octet 2 b.2; d ← read_octet 3 c.2;
  Some (mkV4 a.1 b.1 c.1 d.1, d.2).

(** [read_groups]: up to [limit] groups, [todo] of them still to read. The
    result is the groups, whether they end in an embedded IPv4 address, and the
    rest of the input. *)
Fixpoint read_groups (todo limit : nat) (l : list byte) : list Z * bool * list byte :=
  match todo with
  | O => ([], false, l)
  | S todo' =>
      let i := (limit - todo)%nat in
      let v4 := if (i <? limit - 1)%nat then read_separator 58 i read_ipv4_addr l else None in
      match v4 with
      | Some (a, rest) => ([o1 a * 256 + o2 a; o3 a * 256 + o4 a], true, rest)
      | None =>
          match read_separator 58 i (read_number 16 U16_MAX 4 true) l with
          | Some (g, rest) =>
              let '(gs, v4, rest) := read_groups todo' limit rest in (g :: gs, v4, rest)
          | None => ([], false, l)
          end
      end
  end.

Definition v6_of (gs : list Z) : Ipv6Addr :=
  let g n := default 0 (gs !! n) in
  mkV6 (g 0%nat) (g 1%nat) (g 2%nat) (g 3%nat) (g 4%nat) (g 5%nat) (g 6%nat) (g 7%nat).

Definition read_ipv6_addr (l : list byte) : option (Ipv6Addr * list byte) :=
  let '(head, head_v4, rest) := read_groups 8 8 l in
  if (length head =? 8)%nat then Some (v6_of head, rest)
  else if head_v4 then None
  else match read_char 58 rest with
       | None => None
       | Some rest =>
           match read_char 58 rest with
           | None => None
           | Some rest =>
               let limit := (8 - (length head + 1))%nat in
               let '(tail, _, rest) := read_groups limit limit rest in
               Some (v6_of (head ++ replicate (8 - length head - length tail) 0 ++ tail), rest)
           end
       end.

Definition parse_ip (s : string) : option IpAddr :=
  let read l := match read_ipv4_addr l with
                | Some (a, rest) => Some (V4 a, rest)
                | None => match read_ipv6_addr l with
                          | Some (a, rest) => Some (V6 a, rest)
                          | None => None
                          end
                end in
  match read (as_bytes s) with
  | Some (a, []) => Some a
  | _ => None
  end.

Lemma parse_examples :
  parse_ip "127.0.0.1" = Some (V4 (mkV4 127 0 0 1)) /\ parse_ip "1.2.3" = None /\
  parse_ip "01.2.3.4" = None /\ parse_ip "256.1.1.1" = None /\ parse_ip "example.com" = None /\
  parse_ip "::1" = Some (V6 (mkV6 0 0 0 0 0 0 0 1)) /\
  parse_ip "2001:db8::ff" = Some (V6 (mkV6 0x2001 0xdb8 0 0 0 0 0 0xff)) /\
  parse_ip "::ffff:10.0.0.1" = Some (V6 (mkV6 0 0 0 0 0 0xffff 0xa00 1)) /\
  parse_ip "1:2:3:4:5:6:7:8" = Some (V6 (mkV6 1 2 3 4 5 6 7 8)) /\
  parse_ip "1:2:3:4:5:6:7:8:9" = None /\ parse_ip "[::1]" = None.
Proof. vm_compute. repeat split. Qed.

(** What is read is in range. *)
Lemma read_digits_range radix limit m c acc l v n rest :
  0 < radix -> 0 <= acc <= limit ->
  read_digits radix limit m c acc l = Some (v, n, rest) -> 0 <= v <= limit.
Proof.
  intros Hr. revert c acc. induction l as [|b l IH]; intros c acc Ha Hd; cbn [read_digits] in Hd.
  - by simplify_eq.
  - destruct (digit_of radix b) as [d|] eqn:Ed; [|by simplify_eq].
    assert (0 <= d).
    { unfold digit_of in Ed. cbv zeta in Ed.
      destruct ((48 <=? byte_val b) && (byte_val b <=? 57)) eqn:?;
        [|destruct ((97 <=? byte_val b) && (byte_val b <=? 122)) eqn:?;
          [|destruct ((65 <=? byte_val b) && (byte_val b <=? 90)) eqn:?; [|done]]];
        (destruct (_ <? radix) in Ed; [|done]); simplify_eq; bool_to_prop; lia. }
    destruct (_ >? limit) eqn:El; [done|]. rewrite Z.gtb_ltb in El. bool_to_prop.
    case_match; [done|]. apply (IH _ _) in Hd; nia.
Qed.
Lemma read_number_range radix limit m z l v rest :
  0 < radix -> 0 <= limit -> read_number radix limit m z l = Some (v, rest) -> 0 <= v <= limit.
Proof.
  intros Hr Hl. unfold read_number. destruct (read_digits _ _ _ _ _ _) as [[[w n] t]|] eqn:E; [|done].
  destruct (n =? 0)%nat; [done|]. destruct (negb z && _ && _); [done|].
  intros. simplify_eq. eapply (read_digits_range radix); [done| |exact E]. lia.
Qed.
Lemma read_separator_inv {A} sep i (inner : list byte -> option (A * list byte)) l a :
  read_separator sep i inner l = Some a -> exists l', inner l' = Some a.
Proof. unfold read_separator. repeat case_match; try done; eauto. Qed.
Lemma read_ipv4_wf l a rest : read_ipv4_addr l = Some (a, rest) -> v4_wf a.
Proof.
  unfold read_ipv4_addr, mbind, option_bind.
  assert (Ho : forall i l x, read_octet i l = Some x -> in_u8 x.1).
  { intros i k [v t] (k' & Hk)%read_separator_inv. apply read_number_range in Hk; unfold in_u8, U8_MAX in *; cbn; lia. }
  intros Hr. destruct (read_octet 0 l) as [x0|] eqn:E0; [|done].
  destruct (read_octet 1 x0.2) as [x1|] eqn:E1; [|done].
  destruct (read_octet 2 x1.2) as [x2|] eqn:E2; [|done].
  destruct (read_octet 3 x2.2) as [x3|] eqn:E3; [|done].
  simplify_eq. unfold v4_wf. cbn. split_and!; by eapply Ho.
Qed.
Lemma read_groups_wf todo limit l gs v rest :
  read_groups todo limit l = (gs, v, rest) -> Forall in_u16 gs.
Proof.
  revert l gs v rest. induction todo as [|todo IH]; intros l gs v rest Hg; cbn [read_groups] in Hg; [by simplify_eq|].
  destruct (if (_ <? _)%nat then _ else None) as [[a t]|] eqn:E4.
  - simplify_eq. case_match; [|done]. apply read_separator_inv in E4 as [l' E4].
    apply read_ipv4_wf in E4. unfold v4_wf, in_u8, in_u16, U8_MAX, U16_MAX in *.
    repeat constructor; lia.
  - destruct (read_separator 58 _ (read_number 16 _ _ _) l) as [[g t]|] eqn:En; [|by simplify_eq].
    destruct (read_groups todo limit t) as [[gs' v'] t'] eqn:Eg. simplify_eq.
    apply read_separator_inv in En as [l' En]. constructor; [|by eapply IH].
    apply read_number_range in En; unfold in_u16, U16_MAX in *; lia.
Qed.
Lemma v6_of_wf gs : Forall in_u16 gs -> v6_wf (v6_of gs).
Proof.
  intros Hg. assert (H : forall n, in_u16 (default 0 (gs !! n))).
  { intros n. destruct (gs !! n) eqn:E; cbn; [by eapply Forall_lookup_1|unfold in_u16, U16_MAX; lia]. }
  unfold v6_wf, v6_of. cbn. split_and!; apply H.
Qed.
Lemma parse_ip_wf s i : parse_ip s = Some i -> ip_wf i.
Proof.
  unfold parse_ip. destruct (read_ipv4_addr (as_bytes s)) as [[a r]|] eqn:E4.
  - intros. run_cases. by eapply read_ipv4_wf.
  - destruct (read_ipv6_addr (as_bytes s)) as [[a r]|] eqn:E6; [|done]. intros. run_cases. cbn.
    unfold read_ipv6_addr in E6. destruct (read_groups 8 8 _) as [[h v] t] eqn:Eh.
    apply read_groups_wf in Eh. repeat case_match; simplify_eq; apply v6_of_wf; [done|].
    match goal with E : read_groups _ _ _ = _ |- _ => apply read_groups_wf in E end.
    apply Forall_app; split; [done|]. apply Forall_app; split; [|done].
    apply Forall_replicate. unfold in_u16, U16_MAX. lia.
Qed.

(** A bracketed host is never an address literal. *)
Lemma parse_bracket s : starts_with_byte x5b s = true -> parse_ip s = None.
Proof.
  unfold starts_with_byte, parse_ip. destruct (as_bytes s) as [|b l]; [done|].
  intros Hb%Z.eqb_eq%byte_val_inj. by subst.
Qed.

(** ** [Display] *)

Definition v4_display (a : Ipv4Addr) : string :=
  dec (o1 a) +:+ "." +:+ dec (o2 a) +:+ "." +:+ dec (o3 a) +:+ "." +:+ dec (o4 a).

(** [{:x}] of a 16-bit segment. *)
Definition hex_segment (z : Z) : string :=
  if z <? 16 then hex_digit z
  else if z <? 256 then hex_digit (z / 16) +:+ hex_digit (z mod 16)
  else if z <? 4096 then hex_digit (z / 256) +:+ hex_digit ((z / 16) mod 16) +:+ hex_digit (z mod 16)
  else hex4 z.

Fixpoint join_segments (l : list Z) : string :=
  match l with
  | [] => ""
  | [z] => hex_segment z
  | z :: l => hex_segment z +:+ ":" +:+ join_segments l
  end.

(** The first longest run of zero segments as (start, length); [i] is the
    current index, [cur] the run that ends there. *)
Fixpoint longest_zeroes (i : nat) (cur best : nat * nat) (l : list Z) : nat * nat :=
  match l with
  | [] => best
  | z :: l =>
      if z =? 0 then
        let cur := ((if (cur.2 =? 0)%nat then i else cur.1), S cur.2) in
        longest_zeroes (S i) cur (if (best.2 <? cur.2)%nat then cur else best) l
      else longest_zeroes (S i) (0%nat, 0%nat) best l
  end.

Definition segments (a : Ipv6Addr) : list Z := [s0 a; s1 a; s2 a; s3 a; s4 a; s5 a; s6 a; s7 a].

Definition v6_display (a : Ipv6Addr) : string :=
  match to_ipv4_mapped a with
  | Some m => "::ffff:" +:+ v4_display m
  | None =>
      let '(start, len) := longest_zeroes 0 (0%nat, 0%nat) (0%nat, 0%nat) (segments a) in
      if (1 <? len)%nat
      then join_segments (take start (segments a)) +:+ "::"
           +:+ join_segments (drop (start + len) (segments a))
      else join_segments (segments a)
  end.

Definition ip_display (i : IpAddr) : string :=
  match i with V4 a => v4_display a | V6 a => v6_display a end.

Definition socket_addr_display (a : SocketAddr) : string :=
  match ip a with
  | V4 b => v4_display b +:+ ":" +:+ dec (sock_port a)
  | V6 b => "[" +:+ v6_display b
            +:+ (if scope_id a =? 0 then "" else "%" +:+ dec (scope_id a)) +:+ "]:"
            +:+ dec (sock_port a)
  end.

Lemma display_examples :
  ip_display (V4 (mkV4 127 0 0 1)) = "127.0.0.1" /\
  ip_display (V6 (mkV6 0 0 0 0 0 0 0 1)) = "::1" /\
  ip_display (V6 (mkV6 0 0 0 0 0 0 0 0)) = "::" /\
  ip_display (V6 (mkV6 0x2001 0xdb8 0 0 1 0 0 0)) = "2001:db8:0:0:1::" /\
  ip_display (V6 (mkV6 0x2001 0 3 0 5 0 7 0xabcd)) = "2001:0:3:0:5:0:7:abcd" /\
  ip_display (V6 (mkV6 0 0 0 0 0 0xffff 0xa00 1)) = "::ffff:10.0.0.1" /\
  parse_ip (ip_display (V6 (mkV6 0xfe80 0 0 0 1 0 0 2))) = Some (V6 (mkV6 0xfe80 0 0 0 1 0 0 2)) /\
  socket_addr_display (mkSocketAddr (V6 (mkV6 0 0 0 0 0 0 0 1)) 80 0 0) = "[::1]:80".
Proof. vm_compute. repeat split. Qed.

(** ** Address blocks *)

(** The 32-bit value of an IPv4 address and membership in [base]/[len]. *)
Definition v4_value (a : Ipv4Addr) : Z := ((o1 a * 256 + o2 a) * 256 + o3 a) * 256 + o4 a.
Definition in_block4 (a : Ipv4Addr) (base : Ipv4Addr) (len : Z) : Prop :=
  v4_value a / 2 ^ (32 - len) = v4_value base / 2 ^ (32 - len).
(** Membership of an IPv6 address in a block determined by its first segment. *)
Definition in_block6 (a : Ipv6Addr) (base len : Z) : Prop :=
  s0 a / 2 ^ (16 - len) = base / 2 ^ (16 - len).

(** Dropping the last octet of a value before a division. *)
Lemma div_digit n x y : 0 < n -> 0 <= y < 256 -> (x * 256 + y) / (256 * n) = x / n.
Proof.
  intros Hn Hy. rewrite <- Z.div_div by lia.
  rewrite Z.div_add_l, (Z.div_small y 256), Z.add_0_r by lia. done.
Qed.

Lemma pair_eq_256 x y x' y' :
  0 <= y < 256 -> 0 <= y' < 256 -> x * 256 + y = x' * 256 + y' <-> x = x' /\ y = y'.
Proof. lia. Qed.

(** A block in terms of the octets, by prefix length. *)
Lemma block4_24 a b : v4_wf a -> v4_wf b ->
  in_block4 a b 24 <-> o1 a = o1 b /\ o2 a = o2 b /\ o3 a = o3 b.
Proof.
  destruct a, b. unfold v4_wf, in_u8, U8_MAX, in_block4, v4_value; cbn. intros.
  change (2 ^ (32 - 24)) with (256 * 1).
  rewrite !div_digit, !Z.div_1_r, !pair_eq_256 by lia. tauto.
Qed.

(** [len] between 8 and 16: [d] is the number of values of the second octet in
    the block. *)
Lemma block4_second a b len d : v4_wf a -> v4_wf b -> 0 < d -> 2 ^ (32 - len) = 256 * (256 * d) ->
  in_block4 a b len <-> (o1 a * 256 + o2 a) / d = (o1 b * 256 + o2 b) / d.
Proof.
  destruct a, b. unfold v4_wf, in_u8, U8_MAX, in_block4, v4_value; cbn. intros Ha Hb Hd Hl.
  rewrite Hl, !div_digit by lia. done.
Qed.

(** [len] up to 8: [d] is the number of values of the first octet. *)
Lemma block4_first a b len d : v4_wf a -> v4_wf b -> 0 < d ->
  2 ^ (32 - len) = 256 * (256 * (256 * d)) ->
  in_block4 a b len <-> o1 a / d = o1 b / d.
Proof.
  destruct a, b. unfold v4_wf, in_u8, U8_MAX, in_block4, v4_value; cbn. intros Ha Hb Hd Hl.
  rewrite Hl, !div_digit by lia. done.
Qed.

(** The mask of the upper bits of a segment is a division. *)
Lemma land_high n s : 0 <= n <= 16 -> in_u16 s ->
  Z.land s (0xffff - Z.ones n) = s / 2 ^ n * 2 ^ n.
Proof.
  intros Hn Hs. unfold in_u16, U16_MAX in Hs.
  rewrite <- Z.shiftr_div_pow2, <- Z.shiftl_mul_pow2, <- Z.ldiff_ones_r by lia.
  replace (0xffff - Z.ones n) with (Z.ldiff (Z.ones 16) (Z.ones n)).
  2: { rewrite Z.ldiff_ones_r, Z.shiftr_div_pow2, Z.shiftl_mul_pow2, !Z.ones_equiv by lia.
       replace (Z.pred (2 ^ 16) / 2 ^ n) with (2 ^ (16 - n) - 1).
       - rewrite Z.mul_sub_distr_r, <- Z.pow_add_r by lia.
         replace (16 - n + n) with 16 by lia. change (2 ^ 16) with 65536. lia.
       - apply Z.div_unique_pos with (r := 2 ^ n - 1).
         + pose proof (Z.pow_pos_nonneg 2 n). lia.
         + rewrite Z.mul_sub_distr_l, <- Z.pow_add_r by lia.
           replace (n + (16 - n)) with 16 by lia. change (2 ^ 16) with 65536. lia. }
  apply Z.bits_inj'. intros k Hk. rewrite Z.land_spec, !Z.ldiff_spec.
  destruct (Z.testbit s k) eqn:E; [|done]. cbn.
  rewrite Z.ones_spec_low; [done|]. split; [done|].
  destruct (Z.lt_ge_cases k 16) as [|Hge]; [done|].
  rewrite <- (Z.mod_small s (2 ^ 16)), Z.mod_pow2_bits_high in E by lia. done.
Qed.

(** The first-segment blocks as the masks of the code. *)
Lemma block6_mask a base len mask : v6_wf a -> 0 <= len <= 16 ->
  mask = 0xffff - Z.ones (16 - len) -> base / 2 ^ (16 - len) * 2 ^ (16 - len) = base ->
  Z.land (s0 a) mask = base <-> in_block6 a base len.
Proof.
  intros Ha Hl -> Hb. unfold in_block6. rewrite land_high by (lia || apply Ha).
  rewrite <- Hb at 1. pose proof (Z.pow_pos_nonneg 2 (16 - len)).
  rewrite Z.mul_cancel_r by lia. done.
Qed.
