(* ===== verification/ProxyPolicy.v ===== *)
(** * The proxy policy

    [src/src/stream/proxy.rs]: which targets, resolved addresses, redirects and
    retries the proxy streams may use, the resource limits, and the redaction of
    targets and headers for logs. A [Url] of the [url] crate is the record of
    what its accessors return. *)
From S2P Require Import Prelude Errors Net.

Definition REDACTED_VALUE : string := "<redacted>".

Inductive ProxyScheme := SHttp | SHttps | STcp | SWs | SWss.

#[export] Instance ProxyScheme_eq_dec : EqDecision ProxyScheme.
Proof. solve_decision. Defined.

Definition scheme_as_str (s : ProxyScheme) : string :=
  match s with
  | SHttp => "http" | SHttps => "https" | STcp => "tcp" | SWs => "ws" | SWss => "wss"
  end.
Definition default_port (s : ProxyScheme) : option Z :=
  match s with
  | SHttp | SWs => Some 80
  | SHttps | SWss => Some 443
  | STcp => None
  end.
Definition is_secure (s : ProxyScheme) : bool :=
  match s with SHttps | SWss => true | _ => false end.

Inductive ProxyAuthorization := NoAuthorization | Allowlisted | UserConfirmed.

Inductive ProxyPolicyError :=
| AuthorizationRequired | TargetNotAllowlisted | UserConfirmationRequired | UnsupportedScheme
| HostRequired | CredentialsNotAllowed | FragmentNotAllowed | InvalidTarget | InvalidPort
| PortNotAllowed | AddressNotAllowed | NoResolvedAddresses | ResolutionFailed
| ResolvedPortMismatch | RedirectLimitExceeded | CrossOriginRedirect | InsecureRedirect
| DnsRebindingDetected | RequestLimitExceeded | ResponseLimitExceeded
| ConcurrencyLimitExceeded | BackpressureLimitExceeded | InvalidLimits.

#[export] Instance ProxyPolicyError_eq_dec : EqDecision ProxyPolicyError.
Proof. solve_decision. Defined.

Definition error_code (e : ProxyPolicyError) : string :=
  match e with
  | AuthorizationRequired => "authorization_required"
  | TargetNotAllowlisted => "target_not_allowlisted"
  | UserConfirmationRequired => "user_confirmation_required"
  | UnsupportedScheme => "unsupported_scheme"
  | HostRequired => "host_required"
  | CredentialsNotAllowed => "credentials_not_allowed"
  | FragmentNotAllowed => "fragment_not_allowed"
  | InvalidTarget => "invalid_target"
  | InvalidPort => "invalid_port"
  | PortNotAllowed => "port_not_allowed"
  | AddressNotAllowed => "address_not_allowed"
  | NoResolvedAddresses => "no_resolved_addresses"
  | ResolutionFailed => "resolution_failed"
  | ResolvedPortMismatch => "resolved_port_mismatch"
  | RedirectLimitExceeded => "redirect_limit_exceeded"
  | CrossOriginRedirect => "cross_origin_redirect"
  | InsecureRedirect => "insecure_redirect"
  | DnsRebindingDetected => "dns_rebinding_detected"
  | RequestLimitExceeded => "request_limit_exceeded"
  | ResponseLimitExceeded => "response_limit_exceeded"
  | ConcurrencyLimitExceeded => "concurrency_limit_exceeded"
  | BackpressureLimitExceeded => "backpressure_limit_exceeded"
  | InvalidLimits => "invalid_limits"
  end.

Definition policy_error_into (e : ProxyPolicyError) : BlnkError :=
  ErrStream ("proxy policy rejected: " +:+ error_code e).

Notation ProxyResult := (Result ProxyPolicyError).

Definition scheme_parse (s : string) : ProxyResult ProxyScheme :=
  if str_eqb s "http" then Ok SHttp
  else if str_eqb s "https" then Ok SHttps
  else if str_eqb s "tcp" then Ok STcp
  else if str_eqb s "ws" then Ok SWs
  else if str_eqb s "wss" then Ok SWss
  else Err UnsupportedScheme.

(** ** Limits *)

Record ProxyResourceLimits := mkLimits {
  max_request_bytes : Z;
  max_response_bytes : Z;
  max_concurrent_streams : Z;
  max_buffered_bytes : Z;
  connect_timeout : Z;
  idle_timeout : Z;
  max_redirects : Z;
}.

Definition limits_default : ProxyResourceLimits :=
  mkLimits (Z.shiftl 1 20) (Z.shiftl 8 20) 16 (Z.shiftl 256 10) (from_secs 10) (from_secs 60) 5.

Definition limits_validate (l : ProxyResourceLimits) : ProxyResult unit :=
  if (max_request_bytes l =? 0) || (max_request_bytes l >? Z.shiftl 64 20)
     || (max_response_bytes l =? 0) || (max_response_bytes l >? Z.shiftl 64 20)
     || (max_concurrent_streams l =? 0) || (max_concurrent_streams l >? 1024)
     || (max_buffered_bytes l =? 0) || (max_buffered_bytes l >? Z.shiftl 16 20)
     || (connect_timeout l =? 0) || (connect_timeout l >? from_secs 300)
     || (idle_timeout l =? 0) || (idle_timeout l >? from_secs 3600)
     || (max_redirects l >? 20)
  then Err InvalidLimits else Ok tt.

Definition limits_check_request_size (l : ProxyResourceLimits) (bytes : Z) : ProxyResult unit :=
  if bytes >? max_request_bytes l then Err RequestLimitExceeded else Ok tt.
Definition limits_check_response_size (l : ProxyResourceLimits) (bytes : Z) : ProxyResult unit :=
  if bytes >? max_response_bytes l then Err ResponseLimitExceeded else Ok tt.
Definition limits_check_buffered_bytes (l : ProxyResourceLimits) (bytes : Z) : ProxyResult unit :=
  if bytes >? max_buffered_bytes l then Err BackpressureLimitExceeded else Ok tt.

(** ** Targets *)

Record Url := mkUrl {
  url_scheme : string;
  url_username : string;
  url_password : option string;
  url_host_str : option string;
  url_port : option Z;
  url_port_or_known_default : option Z;
  url_path : string;
  url_query : option string;
  url_fragment : option string;
}.

Record ProxyTargetKey := mkKey { key_scheme : ProxyScheme; key_host : string; key_port : Z }.

#[export] Instance ProxyTargetKey_eq_dec : EqDecision ProxyTargetKey.
Proof. solve_decision. Defined.

Record ValidatedProxyTarget := mkValidated { target_url : Url; target_key_of : ProxyTargetKey }.
Record ResolvedProxyTarget := mkResolved {
  resolved_target : ValidatedProxyTarget;
  addresses : list SocketAddr;
}.

Definition validated_scheme (t : ValidatedProxyTarget) := key_scheme (target_key_of t).
Definition validated_host (t : ValidatedProxyTarget) := key_host (target_key_of t).
Definition validated_port (t : ValidatedProxyTarget) := key_port (target_key_of t).

Record ProxyPolicy := mkPolicy {
  allowed_schemes : list ProxyScheme;
  allowed_targets : list ProxyTargetKey;
  allowed_ports : option (list Z);
  allow_user_confirmation : bool;
  allow_local_targets : bool;
  allow_cross_origin_redirects : bool;
  allow_insecure_redirects : bool;
  limits : ProxyResourceLimits;
}.

Definition deny_by_default : ProxyPolicy :=
  mkPolicy [SHttp; SHttps; STcp; SWs; SWss] [] None false false false false limits_default.

Definition DOT_BYTE : byte := x2e.

Definition target_key (u : Url) : ProxyResult ProxyTargetKey :=
  let? scheme := scheme_parse (url_scheme u) in
  if negb (str_is_empty (url_username u)) || is_some (url_password u)
  then Err CredentialsNotAllowed else
  if is_some (url_fragment u) then Err FragmentNotAllowed else
  let? host := ok_or (url_host_str u) HostRequired in
  let host := to_ascii_lowercase (trim_end_matches DOT_BYTE host) in
  if str_is_empty host then Err HostRequired else
  let explicit_port := url_port u in
  if bool_decide (explicit_port = Some 0) then Err InvalidPort else
  let? port :=
    match match explicit_port with Some p => Some p | None => default_port scheme end with
    | Some port => if negb (port =? 0) then Ok port else Err InvalidPort
    | None => Err InvalidPort
    end in
  if bool_decide (scheme = STcp)
     && ((negb (str_is_empty (url_path u)) && negb (str_eqb (url_path u) "/"))
         || is_some (url_query u))
  then Err InvalidTarget else
  Ok (mkKey scheme host port).

Definition set_insert {A} `{EqDecision A} (x : A) (l : list A) : list A :=
  if bool_decide (x ∈ l) then l else l ++ [x].

Definition with_allowed_target (p : ProxyPolicy) (target : Url) : ProxyResult ProxyPolicy :=
  let? key := target_key target in
  Ok (mkPolicy (allowed_schemes p) (set_insert key (allowed_targets p)) (allowed_ports p)
        (allow_user_confirmation p) (allow_local_targets p) (allow_cross_origin_redirects p)
        (allow_insecure_redirects p) (limits p)).
Definition with_allowed_ports (p : ProxyPolicy) (ports : list Z) : ProxyResult ProxyPolicy :=
  let ports := foldl (fun acc x => set_insert x acc) [] ports in
  if bool_decide (0 ∈ ports) then Err InvalidPort else
  Ok (mkPolicy (allowed_schemes p) (allowed_targets p) (Some ports)
        (allow_user_confirmation p) (allow_local_targets p) (allow_cross_origin_redirects p)
        (allow_insecure_redirects p) (limits p)).
Definition with_user_confirmation (p : ProxyPolicy) (enabled : bool) : ProxyPolicy :=
  mkPolicy (allowed_schemes p) (allowed_targets p) (allowed_ports p) enabled
    (allow_local_targets p) (allow_cross_origin_redirects p) (allow_insecure_redirects p) (limits p).
Definition with_local_targets (p : ProxyPolicy) (enabled : bool) : ProxyPolicy :=
  mkPolicy (allowed_schemes p) (allowed_targets p) (allowed_ports p) (allow_user_confirmation p)
    enabled (allow_cross_origin_redirects p) (allow_insecure_redirects p) (limits p).
Definition with_redirect_policy (p : ProxyPolicy) (cross_origin insecure : bool) : ProxyPolicy :=
  mkPolicy (allowed_schemes p) (allowed_targets p) (allowed_ports p) (allow_user_confirmation p)
    (allow_local_targets p) cross_origin insecure (limits p).
Definition with_limits (p : ProxyPolicy) (l : ProxyResourceLimits) : ProxyResult ProxyPolicy :=
  let? _ := limits_validate l in
  Ok (mkPolicy (allowed_schemes p) (allowed_targets p) (allowed_ports p)
        (allow_user_confirmation p) (allow_local_targets p) (allow_cross_origin_redirects p)
        (allow_insecure_redirects p) l).

(** ** Addresses *)

Definition is_reserved_ipv4 (a : Ipv4Addr) : bool :=
  (o1 a =? 0)
  || ((o1 a =? 100) && (64 <=? o2 a) && (o2 a <=? 127))
  || ((o1 a =? 192) && (o2 a =? 0) && (o3 a =? 0))
  || ((o1 a =? 192) && (o2 a =? 0) && (o3 a =? 2))
  || ((o1 a =? 192) && (o2 a =? 88) && (o3 a =? 99))
  || ((o1 a =? 198) && (18 <=? o2 a) && (o2 a <=? 19))
  || ((o1 a =? 198) && (o2 a =? 51) && (o3 a =? 100))
  || ((o1 a =? 203) && (o2 a =? 0) && (o3 a =? 113))
  || ((240 <=? o1 a) && (o1 a <=? 255)).
Definition is_reserved_ipv6 (a : Ipv6Addr) : bool := (s0 a =? 0x2001) && (s1 a =? 0x0db8).
Definition is_ipv6_unique_local_or_link_local (a : Ipv6Addr) : bool :=
  (Z.land (s0 a) 0xfe00 =? 0xfc00) || (Z.land (s0 a) 0xffc0 =? 0xfe80).

Definition v4_always_disallowed (a : Ipv4Addr) : bool :=
  v4_is_unspecified a || v4_is_multicast a || v4_is_broadcast a || is_reserved_ipv4 a.
Definition is_always_disallowed (i : IpAddr) : bool :=
  match i with
  | V4 a => v4_always_disallowed a
  | V6 a => v6_is_unspecified a || v6_is_multicast a || is_reserved_ipv6 a
            || match to_ipv4_mapped a with Some m => v4_always_disallowed m | None => false end
  end.

Definition v4_private_or_local (a : Ipv4Addr) : bool :=
  v4_is_private a || v4_is_loopback a || v4_is_link_local a.
Definition is_private_or_local (i : IpAddr) : bool :=
  match i with
  | V4 a => v4_private_or_local a
  | V6 a => v6_is_loopback a || is_ipv6_unique_local_or_link_local a
            || match to_ipv4_mapped a with Some m => v4_private_or_local m | None => false end
  end.

Definition validate_ip (p : ProxyPolicy) (i : IpAddr) : ProxyResult unit :=
  if is_always_disallowed i || (is_private_or_local i && negb (allow_local_targets p))
  then Err AddressNotAllowed else Ok tt.

(** ** Validation *)

Definition validate_target (p : ProxyPolicy) (target : Url) (authorization : ProxyAuthorization)
    : ProxyResult ValidatedProxyTarget :=
  let? key := target_key target in
  if negb (bool_decide (key_scheme key ∈ allowed_schemes p)) then Err UnsupportedScheme else
  if match allowed_ports p with
     | Some ports => negb (bool_decide (key_port key ∈ ports))
     | None => false
     end then Err PortNotAllowed else
  let? _ :=
    match authorization with
    | NoAuthorization => Err AuthorizationRequired
    | Allowlisted =>
        if negb (bool_decide (key ∈ allowed_targets p)) then Err TargetNotAllowlisted else Ok tt
    | UserConfirmed =>
        if negb (allow_user_confirmation p) then Err UserConfirmationRequired else Ok tt
    end in
  let? _ :=
    match parse_ip (key_host key) with
    | Some i => validate_ip p i
    | None => Ok tt
    end in
  Ok (mkValidated target key).

(** The [for] loop over the resolved addresses. *)
Fixpoint check_addresses (p : ProxyPolicy) (port : Z) (l : list SocketAddr) : ProxyResult unit :=
  match l with
  | [] => Ok tt
  | a :: l =>
      if negb (sock_port a =? port) then Err ResolvedPortMismatch else
      let? _ := validate_ip p (ip a) in
      check_addresses p port l
  end.

Definition validate_resolved_target_for (p : ProxyPolicy) (target : ValidatedProxyTarget)
    (l : list SocketAddr) : ProxyResult ResolvedProxyTarget :=
  if is_nil l then Err NoResolvedAddresses else
  let? _ := check_addresses p (validated_port target) l in
  Ok (mkResolved target l).

Definition validate_resolved_target (p : ProxyPolicy) (target : Url)
    (authorization : ProxyAuthorization) (l : list SocketAddr) : ProxyResult ResolvedProxyTarget :=
  let? validated := validate_target p target authorization in
  validate_resolved_target_for p validated l.

(** [lookup] is the system resolver: [tokio::net::lookup_host]. *)
Definition resolve_and_validate (lookup : string * Z -> option (list SocketAddr))
    (p : ProxyPolicy) (target : Url) (authorization : ProxyAuthorization)
    : ProxyResult ResolvedProxyTarget :=
  let? validated := validate_target p target authorization in
  let? resolved := ok_or (lookup (validated_host validated, validated_port validated))
                     ResolutionFailed in
  validate_resolved_target_for p validated resolved.

Definition validate_redirect (p : ProxyPolicy) (original : ValidatedProxyTarget) (next : Url)
    (authorization : ProxyAuthorization) (redirect_count : Z) : ProxyResult ValidatedProxyTarget :=
  if redirect_count >=? max_redirects (limits p) then Err RedirectLimitExceeded else
  let? next := validate_target p next authorization in
  if is_secure (validated_scheme original) && negb (is_secure (validated_scheme next))
     && negb (allow_insecure_redirects p)
  then Err InsecureRedirect else
  if negb (allow_cross_origin_redirects p)
     && negb (bool_decide (target_key_of original = target_key_of next))
  then Err CrossOriginRedirect else
  Ok next.

Definition validate_retry (p : ProxyPolicy) (resolved : ResolvedProxyTarget) (retry : SocketAddr)
    : ProxyResult unit :=
  let? _ := validate_ip p (ip retry) in
  if negb (sock_port retry =? validated_port (resolved_target resolved))
  then Err ResolvedPortMismatch else
  if negb (bool_decide (retry ∈ addresses resolved)) then Err DnsRebindingDetected else
  Ok tt.

Definition check_request_size (p : ProxyPolicy) (bytes : Z) : ProxyResult unit :=
  if bytes >? max_request_bytes (limits p) then Err RequestLimitExceeded else Ok tt.
Definition check_response_size (p : ProxyPolicy) (bytes : Z) : ProxyResult unit :=
  if bytes >? max_response_bytes (limits p) then Err ResponseLimitExceeded else Ok tt.
Definition check_concurrent_streams (p : ProxyPolicy) (active : Z) : ProxyResult unit :=
  if active >=? max_concurrent_streams (limits p) then Err ConcurrencyLimitExceeded else Ok tt.
Definition check_buffered_bytes (p : ProxyPolicy) (bytes : Z) : ProxyResult unit :=
  if bytes >? max_buffered_bytes (limits p) then Err BackpressureLimitExceeded else Ok tt.

(** ** Redaction *)

Definition redact_target_for_log (u : Url) : string :=
  match url_host_str u with
  | None => "<invalid-target>"
  | Some host =>
      let port := match url_port_or_known_default u with Some p => dec p | None => "?" end in
      let authority := if contains_byte x3a host then "[" +:+ host +:+ "]:" +:+ port
                       else host +:+ ":" +:+ port in
      url_scheme u +:+ "://" +:+ authority
  end.

Definition is_sensitive_header (name : string) : bool :=
  let n := to_ascii_lowercase (String.string_of_list_byte (trim name)) in
  existsb (str_eqb n)
    ["authorization"; "proxy-authorization"; "cookie"; "set-cookie"; "www-authenticate";
     "x-api-key"; "x-auth-token"]%string.

Definition redact_header_value (name value : string) : string :=
  if is_sensitive_header name then REDACTED_VALUE else value.

(** ** Which addresses are refused *)

(** The blocks refused always, and those refused without the local-target
    opt-in. *)
Definition reserved_blocks : list (Ipv4Addr * Z) :=
  [(mkV4 0 0 0 0, 8); (mkV4 100 64 0 0, 10); (mkV4 192 0 0 0, 24); (mkV4 192 0 2 0, 24);
   (mkV4 192 88 99 0, 24); (mkV4 198 18 0 0, 15); (mkV4 198 51 100 0, 24);
   (mkV4 203 0 113 0, 24); (mkV4 224 0 0 0, 4); (mkV4 240 0 0 0, 4)].
Definition local_blocks : list (Ipv4Addr * Z) :=
  [(mkV4 10 0 0 0, 8); (mkV4 127 0 0 0, 8); (mkV4 169 254 0 0, 16); (mkV4 172 16 0 0, 12);
   (mkV4 192 168 0 0, 16)].

Definition in_blocks (a : Ipv4Addr) (l : list (Ipv4Addr * Z)) : Prop :=
  Exists (fun b => in_block4 a b.1 b.2) l.

Definition v6_reserved (a : Ipv6Addr) : Prop :=
  a = mkV6 0 0 0 0 0 0 0 0 \/ in_block6 a 0xff00 8 \/ (s0 a = 0x2001 /\ s1 a = 0x0db8) \/
  exists m, to_ipv4_mapped a = Some m /\ in_blocks m reserved_blocks.
Definition v6_local (a : Ipv6Addr) : Prop :=
  a = mkV6 0 0 0 0 0 0 0 1 \/ in_block6 a 0xfc00 7 \/ in_block6 a 0xfe80 10 \/
  exists m, to_ipv4_mapped a = Some m /\ in_blocks m local_blocks.

Definition reserved (i : IpAddr) : Prop :=
  match i with V4 a => in_blocks a reserved_blocks | V6 a => v6_reserved a end.
Definition local (i : IpAddr) : Prop :=
  match i with V4 a => in_blocks a local_blocks | V6 a => v6_local a end.

(** The blocks that do not end at an octet boundary, and those that do. *)
Lemma block_second a b1 b2 len d : v4_wf a -> v4_wf (mkV4 b1 b2 0 0) -> 0 < d ->
  2 ^ (32 - len) = 256 * (256 * d) -> 256 mod d = 0 -> b2 mod d = 0 ->
  in_block4 a (mkV4 b1 b2 0 0) len <-> o1 a = b1 /\ b2 <= o2 a < b2 + d.
Proof.
  intros Ha Hb Hd Hl H1 H2. rewrite (block4_second a _ _ d) by done. cbn [o1 o2].
  unfold v4_wf, in_u8, U8_MAX in *. cbn in Hb.
  apply Z.mod_divide in H1 as [k Hk], H2 as [j Hj]; try lia. subst b2.
  assert (Hjk : j < k) by (apply (Z.mul_lt_mono_pos_r d); lia).
  assert (Htop : j * d + d <= 256).
  { rewrite Hk. replace (j * d + d) with ((j + 1) * d) by lia. apply Z.mul_le_mono_pos_r; lia. }
  replace (b1 * 256 + j * d) with ((b1 * k + j) * d)
    by (rewrite Z.mul_add_distr_r, <- Z.mul_assoc, <- Hk; lia).
  rewrite Z.div_mul by lia.
  assert (Hbase : (b1 * k + j) * d = b1 * 256 + j * d) by (rewrite Hk; ring).
  split.
  - intros Hq. pose proof (Z.div_mod (o1 a * 256 + o2 a) d).
    pose proof (Z.mod_pos_bound (o1 a * 256 + o2 a) d Hd). rewrite Hq in *. lia.
  - intros [-> Hr]. symmetry. apply Z.div_unique with (r := o2 a - j * d); lia.
Qed.

Lemma block_first a b1 len d : v4_wf a -> v4_wf (mkV4 b1 0 0 0) -> 0 < d ->
  2 ^ (32 - len) = 256 * (256 * (256 * d)) -> b1 mod d = 0 ->
  in_block4 a (mkV4 b1 0 0 0) len <-> b1 <= o1 a < b1 + d.
Proof.
  intros Ha Hb Hd Hl H1. rewrite (block4_first a _ _ d) by done. cbn [o1].
  apply Z.mod_divide in H1 as [k Hk]; [|lia]. subst b1. rewrite Z.div_mul by lia.
  split.
  - intros Hq. pose proof (Z.div_mod (o1 a) d). pose proof (Z.mod_pos_bound (o1 a) d). nia.
  - intros Hr. symmetry. apply Z.div_unique with (r := o1 a - k * d); lia.
Qed.

Lemma block_24 a b1 b2 b3 : v4_wf a -> v4_wf (mkV4 b1 b2 b3 0) ->
  in_block4 a (mkV4 b1 b2 b3 0) 24 <-> o1 a = b1 /\ o2 a = b2 /\ o3 a = b3.
Proof. intros Ha Hb. by rewrite block4_24. Qed.

(** Membership of the listed blocks, block by block. *)
Ltac side Ha := first [exact Ha | done | by split_and!].
Ltac block_cases a Ha :=
  repeat first
    [ rewrite block_24 by side Ha
    | rewrite (block_second a _ _ 10 64) by side Ha
    | rewrite (block_second a _ _ 12 16) by side Ha
    | rewrite (block_second a _ _ 15 2) by side Ha
    | rewrite (block_second a _ _ 16 1) by side Ha
    | rewrite (block_first a _ 8 1) by side Ha
    | rewrite (block_first a _ 4 16) by side Ha ].

(** Find the disjunct that the arithmetic context implies. *)
Ltac pick :=
  match goal with
  | |- _ \/ _ => first [left; pick | right; pick]
  | |- _ => lia
  end.

Lemma v4_reserved_iff a : v4_wf a -> v4_always_disallowed a = true <-> in_blocks a reserved_blocks.
Proof.
  intros Ha. unfold in_blocks, reserved_blocks. rewrite !Exists_cons, Exists_nil. cbn [fst snd].
  block_cases a Ha.
  unfold v4_always_disallowed, v4_is_unspecified, v4_is_multicast, v4_is_broadcast, is_reserved_ipv4.
  unfold v4_wf, in_u8, U8_MAX in Ha. destruct Ha as (? & ? & ? & ?).
  rewrite !orb_true_iff, !andb_true_iff, !Z.eqb_eq, !Z.leb_le.
  split; intros Hx; repeat destruct Hx as [Hx|Hx]; try done; pick.
Qed.

Lemma v4_local_iff a : v4_wf a -> v4_private_or_local a = true <-> in_blocks a local_blocks.
Proof.
  intros Ha. unfold in_blocks, local_blocks. rewrite !Exists_cons, Exists_nil. cbn [fst snd].
  block_cases a Ha.
  unfold v4_private_or_local, v4_is_private, v4_is_loopback, v4_is_link_local.
  unfold v4_wf, in_u8, U8_MAX in Ha. destruct Ha as (? & ? & ? & ?).
  rewrite !orb_true_iff, !andb_true_iff, !Z.eqb_eq, !Z.leb_le.
  split; intros Hx; repeat destruct Hx as [Hx|Hx]; try done; pick.
Qed.

Lemma mapped_iff (f : Ipv4Addr -> bool) blocks a :
  v6_wf a -> (forall m, v4_wf m -> f m = true <-> in_blocks m blocks) ->
  match to_ipv4_mapped a with Some m => f m | None => false end = true <->
  exists m, to_ipv4_mapped a = Some m /\ in_blocks m blocks.
Proof.
  intros Ha Hf. destruct (to_ipv4_mapped a) as [m|] eqn:E; [|naive_solver].
  rewrite Hf by (by eapply to_ipv4_mapped_wf). naive_solver.
Qed.

Lemma always_disallowed_iff i : ip_wf i -> is_always_disallowed i = true <-> reserved i.
Proof.
  destruct i as [a|a]; cbn; intros Ha; [by apply v4_reserved_iff|].
  rewrite !orb_true_iff, (mapped_iff _ reserved_blocks) by auto using v4_reserved_iff.
  unfold v6_is_unspecified, v6_is_multicast, is_reserved_ipv6, v6_reserved.
  rewrite bool_decide_eq_true, Z.eqb_eq, andb_true_iff, !Z.eqb_eq.
  rewrite (block6_mask a 0xff00 8) by done. tauto.
Qed.

Lemma private_or_local_iff i : ip_wf i -> is_private_or_local i = true <-> local i.
Proof.
  destruct i as [a|a]; cbn; intros Ha; [by apply v4_local_iff|].
  rewrite !orb_true_iff, (mapped_iff _ local_blocks) by auto using v4_local_iff.
  unfold v6_is_loopback, is_ipv6_unique_local_or_link_local, v6_local.
  rewrite bool_decide_eq_true, orb_true_iff, !Z.eqb_eq.
  rewrite (block6_mask a 0xfc00 7), (block6_mask a 0xfe80 10) by done. tauto.
Qed.

Lemma validate_ip_iff p i :
  ip_wf i -> validate_ip p i = Ok tt <-> ~ reserved i /\ (allow_local_targets p = true \/ ~ local i).
Proof.
  intros Hi. rewrite <- always_disallowed_iff, <- private_or_local_iff by done.
  unfold validate_ip. destruct (is_always_disallowed i), (is_private_or_local i),
    (allow_local_targets p); cbn; naive_solver.
Qed.

(** C24: the octet and segment patterns of the address check are exactly the
    reserved, multicast and documentation blocks, refused always, and the
    private, loopback, link-local and unique-local blocks, refused unless local
    targets are allowed, for IPv4, IPv6 and IPv4-mapped IPv6 addresses. *)
Theorem validate_ip_blocks p i :
  ip_wf i ->
  (validate_ip p i = Ok tt <-> ~ reserved i /\ (allow_local_targets p = true \/ ~ local i)) /\
  (validate_ip p i = Ok tt \/ validate_ip p i = Err AddressNotAllowed).
Proof.
  intros Hi. split; [by apply validate_ip_iff|]. unfold validate_ip. case_match; auto.
Qed.

Lemma validate_ip_blocks_witness :
  (validate_ip deny_by_default (V4 (mkV4 172 31 0 1)) = Ok tt <->
   ~ reserved (V4 (mkV4 172 31 0 1)) /\
   (allow_local_targets deny_by_default = true \/ ~ local (V4 (mkV4 172 31 0 1)))) /\
  (validate_ip deny_by_default (V4 (mkV4 172 31 0 1)) = Ok tt \/
   validate_ip deny_by_default (V4 (mkV4 172 31 0 1)) = Err AddressNotAllowed).
Proof.
  apply (validate_ip_blocks deny_by_default (V4 (mkV4 172 31 0 1))).
  unfold ip_wf, v4_wf, in_u8, U8_MAX. simpl. lia.
Defined.

(** ** Targets *)

(** What [authorization] lets through. *)
Definition authorized (p : ProxyPolicy) (key : ProxyTargetKey) (a : ProxyAuthorization) : Prop :=
  match a with
  | NoAuthorization => False
  | Allowlisted => key ∈ allowed_targets p
  | UserConfirmed => allow_user_confirmation p = true
  end.

Lemma validate_target_ok p u a v :
  validate_target p u a = Ok v ->
  target_url v = u /\ target_key u = Ok (target_key_of v) /\ authorized p (target_key_of v) a /\
  key_scheme (target_key_of v) ∈ allowed_schemes p /\
  (forall ports, allowed_ports p = Some ports -> key_port (target_key_of v) ∈ ports) /\
  (forall i, parse_ip (validated_host v) = Some i -> validate_ip p i = Ok tt).
Proof.
  unfold validate_target, validated_host. intros Hv.
  destruct (target_key u) as [key|] eqn:Hk; [|done].
  destruct (negb (bool_decide (key_scheme key ∈ _))) eqn:Hs; [done|].
  destruct (match allowed_ports p with Some _ => _ | None => _ end) eqn:Hp; [done|].
  destruct (match a with NoAuthorization => _ | Allowlisted => _ | UserConfirmed => _ end) as [[]|] eqn:Ha;
    [|done].
  destruct (match parse_ip (key_host key) with Some _ => _ | None => _ end) as [[]|] eqn:Hi; [|done].
  simplify_eq. cbn. bool_to_prop. split_and!; try done.
  - destruct a; cbn in *; run_cases; done.
  - intros ports Hports. rewrite Hports in Hp. by bool_to_prop.
  - intros i Hpi. by rewrite Hpi in Hi.
Qed.

Lemma target_key_ok u k :
  target_key u = Ok k ->
  url_username u = EmptyString /\ url_password u = None /\ url_fragment u = None /\
  key_host k <> EmptyString /\ key_port k <> 0 /\
  (key_port k = default 0 (match url_port u with Some q => Some q | None => default_port (key_scheme k) end)) /\
  (exists h, url_host_str u = Some h /\ key_host k = to_ascii_lowercase (trim_end_matches DOT_BYTE h)).
Proof.
  unfold target_key. destruct (scheme_parse (url_scheme u)) as [s|]; [|done].
  destruct (negb (str_is_empty (url_username u)) || is_some (url_password u)) eqn:Hc; [done|].
  destruct (is_some (url_fragment u)) eqn:Hf; [done|].
  destruct (url_host_str u) as [h|] eqn:Hh; cbn [ok_or]; [|done].
  set (host := to_ascii_lowercase _). destruct (str_is_empty host) eqn:He; [done|].
  destruct (bool_decide (url_port u = Some 0)); [done|].
  destruct (match url_port u with Some _ => _ | None => _ end) as [port|] eqn:Hp; [|done].
  destruct (port =? 0) eqn:Hz; [done|]. cbn [negb].
  destruct (_ && _); [done|]. intros. simplify_eq. cbn. bool_to_prop.
  rewrite Hp. split_and!; try done.
  - apply as_bytes_inj. unfold str_is_empty in *. by destruct (as_bytes (url_username u)).
  - by destruct (url_password u).
  - by destruct (url_fragment u).
  - intros E. subst host. by rewrite E in He.
  - eauto.
Qed.

(** deny by default: the default policy refuses every target under every
    authorization, and nothing can be resolved through it. *)
Theorem default_denies_all u a l lookup :
  is_ok (validate_target deny_by_default u a) = false /\
  is_ok (validate_resolved_target deny_by_default u a l) = false /\
  is_ok (resolve_and_validate lookup deny_by_default u a) = false.
Proof.
  assert (Hd : exists e, validate_target deny_by_default u a = Err e).
  { destruct (validate_target deny_by_default u a) as [v|e] eqn:E; [|eauto].
    apply validate_target_ok in E as (_ & _ & Ha & _). destruct a; cbn in Ha; [done| |done].
    by apply not_elem_of_nil in Ha. }
  destruct Hd as [e He]. unfold validate_resolved_target, resolve_and_validate. by rewrite He.
Qed.

Lemma check_addresses_ok p port l :
  check_addresses p port l = Ok tt <->
  Forall (fun a => sock_port a = port /\ validate_ip p (ip a) = Ok tt) l.
Proof.
  induction l as [|a l IH]; cbn; [split; [constructor|done]|].
  rewrite Forall_cons, <- IH. destruct (sock_port a =? port) eqn:E; bool_to_prop; cbn.
  - destruct (validate_ip p (ip a)) as [[]|]; naive_solver.
  - naive_solver.
Qed.

Lemma resolved_for_ok p v l r :
  validate_resolved_target_for p v l = Ok r ->
  resolved_target r = v /\ addresses r = l /\ l <> [] /\
  Forall (fun a => sock_port a = validated_port v /\ validate_ip p (ip a) = Ok tt) l.
Proof.
  unfold validate_resolved_target_for. destruct l as [|a l]; cbn [is_nil]; [done|].
  destruct (check_addresses p _ (a :: l)) as [[]|] eqn:E; [|done]. intros. simplify_eq.
  apply check_addresses_ok in E. done.
Qed.

(** no request is steered into the internal network: without the
    local-target opt-in every address pinned by [resolve_and_validate], whatever
    the resolver answers, lies outside all reserved, private, loopback,
    link-local and unique-local blocks, IPv4-mapped ones included, and has the
    target's port; the target itself was authorized and carries no credentials. *)
Theorem resolved_addresses_safe lookup p u a r :
  allow_local_targets p = false ->
  (forall k l, lookup k = Some l -> Forall (fun x => ip_wf (ip x)) l) ->
  resolve_and_validate lookup p u a = Ok r ->
  addresses r <> [] /\
  Forall (fun x => ~ reserved (ip x) /\ ~ local (ip x) /\
                   sock_port x = validated_port (resolved_target r)) (addresses r) /\
  authorized p (target_key_of (resolved_target r)) a /\
  target_key u = Ok (target_key_of (resolved_target r)) /\ url_password u = None.
Proof.
  intros Hl Hw Hr. unfold resolve_and_validate in Hr.
  destruct (validate_target p u a) as [v|] eqn:Hv; [|done].
  destruct (lookup _) as [l|] eqn:Hk; cbn [ok_or] in Hr; [|done].
  apply resolved_for_ok in Hr as (<- & -> & Hne & Hall).
  apply validate_target_ok in Hv as (_ & Hkey & Ha & _).
  split_and!; try done; [|by apply target_key_ok in Hkey as (_ & ? & _)].
  apply Hw in Hk. rewrite Forall_forall in *. intros x Hx.
  destruct (Hall x Hx) as [Hp Hi]. apply validate_ip_iff in Hi as [Hi1 Hi2]; [|by apply Hk].
  rewrite Hl in Hi2. split_and!; [done| |done]. by destruct Hi2.
Qed.

(** redirects keep the boundary: a redirect is followed only below the
    redirect limit, to a target that passes the full target validation, never
    from a secure to an insecure scheme and never to another origin unless the
    policy allows it. *)
Theorem redirect_safe p original next a count v :
  validate_redirect p original next a count = Ok v ->
  count < max_redirects (limits p) /\ validate_target p next a = Ok v /\
  (is_secure (validated_scheme original) = true -> allow_insecure_redirects p = false ->
   is_secure (validated_scheme v) = true) /\
  (allow_cross_origin_redirects p = false -> target_key_of v = target_key_of original).
Proof.
  unfold validate_redirect. intros Hr.
  destruct (count >=? _) eqn:Hc; [done|]. rewrite Z.geb_leb in Hc.
  destruct (validate_target p next a) as [w|] eqn:Hv; [|done].
  destruct (is_secure (validated_scheme original)) eqn:Hs,
    (is_secure (validated_scheme w)) eqn:Hw, (allow_insecure_redirects p) eqn:Hi,
    (allow_cross_origin_redirects p) eqn:Hx; cbn in Hr; run_cases; split_and!; try done; lia.
Qed.

(** retries stay on the pinned answer set: after a successful resolution a
    retry address is accepted exactly when it is one of the addresses the
    resolution returned, so a later DNS answer cannot redirect the connection. *)
Theorem retry_pinned lookup p u a r x :
  resolve_and_validate lookup p u a = Ok r ->
  validate_retry p r x = Ok tt <-> x ∈ addresses r.
Proof.
  intros Hr. unfold resolve_and_validate in Hr.
  destruct (validate_target p u a) as [v|] eqn:Hv; [|done].
  destruct (lookup _) as [l|] eqn:Hk; cbn [ok_or] in Hr; [|done].
  apply resolved_for_ok in Hr as (<- & Haddr & Hne & Hall).
  unfold validate_retry. rewrite Haddr. split.
  - intros Hx. run_cases. done.
  - intros Hx. rewrite Forall_forall in Hall. destruct (Hall x Hx) as [Hp Hi].
    by rewrite Hi, Hp, Z.eqb_refl, bool_decide_eq_true_2.
Qed.

(** ** Witnesses *)
Module Sample.
Definition url (host : string) : Url :=
  mkUrl "https" EmptyString None (Some host) None (Some 443) "/a" None None.
Definition policy : ProxyPolicy := with_user_confirmation deny_by_default true.
Definition address : SocketAddr := mkSocketAddr (V4 (mkV4 93 184 216 34)) 443 0 0.
Definition lookup (k : string * Z) : option (list SocketAddr) := Some [address].
Definition resolved : ResolvedProxyTarget :=
  mkResolved (mkValidated (url "Example.com.") (mkKey SHttps "example.com" 443)) [address].
End Sample.
Import Sample.

Lemma resolved_addresses_safe_witness :
  Forall (fun x => ~ reserved (ip x) /\ ~ local (ip x) /\
                   sock_port x = validated_port (resolved_target resolved)) [address].
Proof.
  destruct (resolved_addresses_safe lookup policy (url "Example.com.") UserConfirmed resolved)
    as (_ & H & _).
  - reflexivity.
  - intros k l H. injection H as <-. apply Forall_singleton. simpl.
    unfold v4_wf, in_u8, U8_MAX. simpl. lia.
  - vm_compute. reflexivity.
  - exact H.
Defined.

Lemma redirect_safe_witness :
  target_key_of (resolved_target resolved) = mkKey SHttps "example.com" 443.
Proof.
  destruct (redirect_safe policy (resolved_target resolved) (url "example.com") UserConfirmed 4
              (mkValidated (url "example.com") (mkKey SHttps "example.com" 443)))
    as (_ & _ & _ & H).
  - vm_compute. reflexivity.
  - symmetry. exact (H eq_refl).
Defined.

Lemma retry_pinned_witness : validate_retry policy resolved address = Ok tt <-> address ∈ [address].
Proof.
  apply (retry_pinned lookup policy (url "Example.com.") UserConfirmed resolved address).
  vm_compute. reflexivity.
Defined.

(** an IPv6 literal escapes the check of literal addresses before
    resolution: the URL's host is bracketed, which never parses as an address, so
    a target on the loopback address is validated although the address itself
    is refused. *)
Theorem ipv6_literal_not_checked host p a v :
  url_host_str (target_url v) = Some host -> starts_with_byte x5b host = true ->
  drop_end_matches DOT_BYTE (as_bytes host) = as_bytes host ->
  target_key (target_url v) = Ok (target_key_of v) ->
  key_scheme (target_key_of v) ∈ allowed_schemes p -> allowed_ports p = None ->
  authorized p (target_key_of v) a ->
  validate_target p (target_url v) a = Ok v.
Proof.
  intros Hh Hb Hd Hk Hs Hp Ha. unfold validate_target. rewrite Hk, bool_decide_eq_true_2, Hp by done.
  cbn [negb].
  assert (Hn : parse_ip (key_host (target_key_of v)) = None).
  { apply parse_bracket. apply target_key_ok in Hk as (_ & _ & _ & _ & _ & _ & h & Hh' & ->).
    rewrite Hh in Hh'. injection Hh' as <-. unfold to_ascii_lowercase, trim_end_matches, starts_with_byte in *.
    rewrite !as_bytes_string_of, Hd. destruct (as_bytes host) as [|b l]; [done|].
    apply Z.eqb_eq, byte_val_inj in Hb. by subst. }
  rewrite Hn. destruct v, a; cbn in *; try done.
  - by rewrite bool_decide_eq_true_2.
  - by rewrite Ha.
Qed.

Lemma ipv6_literal_not_checked_witness :
  validate_target policy (url "[::1]") UserConfirmed
  = Ok (mkValidated (url "[::1]") (mkKey SHttps "[::1]" 443)) /\
  validate_ip policy (V6 (mkV6 0 0 0 0 0 0 0 1)) = Err AddressNotAllowed.
Proof.
  split; [|reflexivity].
  apply (ipv6_literal_not_checked "[::1]" policy UserConfirmed
           (mkValidated (url "[::1]") (mkKey SHttps "[::1]" 443))).
  all: try (vm_compute; reflexivity).
  apply list_elem_of_In. vm_compute. auto.
Defined.

(** log redaction: the label of a target depends only on its scheme, host and
    port, so credentials, path, query and fragment never reach a log; and the
    value of a sensitive header is never shown, whatever its letter case and
    surrounding blanks. *)
Theorem log_redaction u1 u2 name v1 v2 :
  (url_scheme u1 = url_scheme u2 -> url_host_str u1 = url_host_str u2 ->
   url_port_or_known_default u1 = url_port_or_known_default u2 ->
   redact_target_for_log u1 = redact_target_for_log u2) /\
  (to_ascii_lowercase (String.string_of_list_byte (trim name)) = "authorization" \/
   to_ascii_lowercase (String.string_of_list_byte (trim name)) = "cookie" \/
   to_ascii_lowercase (String.string_of_list_byte (trim name)) = "set-cookie" \/
   to_ascii_lowercase (String.string_of_list_byte (trim name)) = "proxy-authorization" ->
   redact_header_value name v1 = redact_header_value name v2).
Proof.
  split.
  - intros Hs Hh Hp. unfold redact_target_for_log. by rewrite Hs, Hh, Hp.
  - intros Hn. unfold redact_header_value, is_sensitive_header.
    by destruct Hn as [->|[->|[->| ->]]].
Qed.
