(* ===== verification/ProxyHandler.v ===== *)
(** * The proxy stream handlers

    [src/src/stream/proxy_handler.rs]: the TCP, WebSocket and HTTP adapters over
    the policy of [ProxyPolicy]. Sockets, the resolver, the URL parser and the
    HTTP client are the class [Network], a state with the calls the handlers
    make; a wait that [tokio::time::timeout] gives up on is [None]. *)
From S2P Require Import Prelude Errors External Swsp Wire Net ProxyPolicy.

Definition SYN_DAT_BITS : Z := Z.lor (bits SYN) (bits DAT).
Definition DAT_MORE_BITS : Z := Z.lor (bits DAT) (bits MORE).
Definition MAX_FRAME_DATA : Z := 16 * 1024.

(** [FrameFlags::from_bits(..).expect(..)] of the two constants. *)
Definition syn_dat_flags : FrameFlags := mkFlags SYN_DAT_BITS.
Definition dat_more_flags : FrameFlags := mkFlags DAT_MORE_BITS.

Lemma constant_flags_valid :
  from_bits SYN_DAT_BITS = Ok syn_dat_flags /\ from_bits DAT_MORE_BITS = Ok dat_more_flags.
Proof. done. Qed.

Definition protocol_error (m : string) : BlnkError := ErrProtocol m.
Definition transport_error (m : string) : BlnkError := ErrStream ("proxy transport error: " +:+ m).
(** [.map_err(policy_error)]. *)
Definition by_policy {T} (r : ProxyResult T) : BResult T := map_err policy_error_into r.

Definition check_stream_id (f : Frame) (id : Z) : BResult unit :=
  if negb (stream_id f =? id)
  then Err (protocol_error ("proxy frame stream id " +:+ dec (stream_id f) +:+ " does not match "
                            +:+ dec id))
  else Ok tt.

Definition check_open_frame (f : Frame) (id : Z) : BResult unit :=
  let? _ := check_stream_id f id in
  if negb (bits (flags f) =? SYN_DAT_BITS)
  then Err (protocol_error "proxy open frame must use SYN|DAT flags") else Ok tt.

Definition check_data_frame (f : Frame) (id : Z) : BResult unit :=
  let? _ := check_stream_id f id in
  if negb (is_dat (flags f)) || is_syn (flags f) || is_fin (flags f)
  then Err (protocol_error "proxy data frame has invalid flags") else Ok tt.

Definition encode_frame {M} `{Prost M} (id : Z) (fl : FrameFlags) (m : M) : Frame :=
  mkFrame id fl (encode_to_vec m).

Definition validate_wire_type (actual expected : string) : BResult unit :=
  if negb (str_is_empty actual) && negb (str_eqb actual expected)
  then Err (protocol_error ("proxy message type must be " +:+ expected)) else Ok tt.

Definition is_hop_by_hop_header (name : string) : bool :=
  let n := to_ascii_lowercase (String.string_of_list_byte (trim name)) in
  existsb (str_eqb n)
    ["connection"; "host"; "upgrade"; "sec-websocket-key"; "sec-websocket-version";
     "sec-websocket-extensions"]%string.

Definition connect_error (last : option string) : BlnkError :=
  transport_error ("all policy-approved addresses failed: "
                   +:+ default "no connection attempt" last).

(** ** The surroundings *)

(** [tungstenite::Message]. *)
Inductive WsMessage :=
| WsText (data : list byte) | WsBinary (data : list byte) | WsPing (data : list byte)
| WsPong (data : list byte) | WsClose | WsFrame.

(** What the HTTP handler reads of a [reqwest] response: the [Location] header is
    [Some None] when it is not valid text; the header values that are not valid
    text are [None]; the body comes in chunks. *)
Record HttpReply := mkReply {
  reply_status : Z;
  reply_location : option (option string);
  reply_content_length : option Z;
  reply_headers : list (string * option string);
  reply_chunks : list (Result string (list byte));
}.

(** What it sends: method, target, headers, body, and the client's entry of
    [resolve_to_addrs], a name with the addresses to use for it. *)
Record HttpSend := mkHttpSend {
  send_method : string;
  send_target : Url;
  send_headers : list (string * string);
  send_body : list byte;
  send_name : string;
  send_addresses : list SocketAddr;
}.

(** Where [reqwest] connects for a request, as it documents it: to the address
    when the URL's host is one, to the given addresses when it is the name they
    were given for (names compare without case), and otherwise to whatever the
    system's resolver answers then ([None]). *)
Definition strip_brackets (host : string) : string :=
  if starts_with_byte x5b host
  then trim_end_matches x5d (String.string_of_list_byte (drop 1 (as_bytes host))) else host.
Definition http_destinations (q : HttpSend) : option (list SocketAddr) :=
  match url_host_str (send_target q) with
  | None => Some []
  | Some host =>
      let name := to_ascii_lowercase host in
      match parse_ip (strip_brackets name) with
      | Some i => Some [mkSocketAddr i (default 0 (url_port_or_known_default (send_target q))) 0 0]
      | None =>
          if str_eqb name (to_ascii_lowercase (send_name q)) then Some (send_addresses q) else None
      end
  end.

Class Network (N S K : Type) := {
  url_parse : string -> option Url;
  url_join : Url -> string -> option Url;
  valid_header_name : string -> bool;
  valid_header_value : string -> bool;
  valid_method : string -> bool;
  (** [tokio::net::lookup_host] *)
  net_lookup : N -> string * Z -> option (list SocketAddr);
  (** [timeout(d, TcpStream::connect(address))] *)
  net_connect : Z -> SocketAddr -> N -> N * option (Result string S);
  sock_shutdown : S -> N -> N * Result IoError unit;
  sock_write_all : Z -> S -> list byte -> N -> N * option (Result IoError unit);
  sock_read : Z -> S -> Z -> N -> N * option (Result IoError (list byte));
  (** [IntoClientRequest] for the target's text *)
  ws_client_request : Url -> Result string unit;
  (** [timeout(d, client_async(request, socket))] *)
  ws_handshake : Z -> Url -> list (string * string) -> S -> N -> N * option (Result string K);
  ws_send : option Z -> K -> WsMessage -> N -> N * option (Result string unit);
  ws_next : Z -> K -> N -> N * option (option (Result string WsMessage));
  (** building the client and sending the request *)
  http_client_build : N -> Result string unit;
  http_send : HttpSend -> N -> N * Result string HttpReply;
}.

(** ** The service *)

Record ProxyStreamService := mkService { svc_policy : ProxyPolicy; available_permits : Z }.

Definition service_new (p : ProxyPolicy) : BResult ProxyStreamService :=
  let? _ := by_policy (limits_validate (limits p)) in
  Ok (mkService p (max_concurrent_streams (limits p))).

(** [try_acquire_owned] and dropping the permit. *)
Definition acquire (s : ProxyStreamService) : ProxyStreamService * BResult unit :=
  if 0 <? available_permits s
  then (mkService (svc_policy s) (available_permits s - 1), Ok tt)
  else (s, Err (policy_error_into ConcurrencyLimitExceeded)).
Definition release (s : ProxyStreamService) : ProxyStreamService :=
  mkService (svc_policy s) (available_permits s + 1).

Record TcpProxyStream (S : Type) := mkTcpStream {
  tcp_id : Z;
  tcp_socket : S;
  tcp_limits : ProxyResourceLimits;
  tcp_request_bytes : Z;
  tcp_response_bytes : Z;
}.
Arguments mkTcpStream {S}.
Arguments tcp_id {S}.
Arguments tcp_socket {S}.
Arguments tcp_limits {S}.
Arguments tcp_request_bytes {S}.
Arguments tcp_response_bytes {S}.

Record WebSocketProxyStream (K : Type) := mkWsStream {
  ws_id : Z;
  ws_socket : K;
  ws_limits : ProxyResourceLimits;
  ws_request_bytes : Z;
  ws_response_bytes : Z;
}.
Arguments mkWsStream {K}.
Arguments ws_id {K}.
Arguments ws_socket {K}.
Arguments ws_limits {K}.
Arguments ws_request_bytes {K}.
Arguments ws_response_bytes {K}.

Record HttpProxyResponse := mkHttpProxyResponse {
  proxy_response : stream.HttpResponse;
  proxy_body : list byte;
  redirects_followed : Z;
}.

Section handlers.
Context {N S K : Type} `{Network N S K}.
Context `{Prost stream.TcpOpen, Prost stream.TcpData, Prost stream.WebSocketOpen,
  Prost stream.WebSocketMessage, Prost stream.HttpRequest, Prost stream.HttpResponse,
  Prost stream.HttpData}.
Notation Net A := (SM N BlnkError A).

Definition tcp_target (open : stream.TcpOpen) : BResult Url :=
  let? _ := validate_wire_type (stream.tcp_type open) "tcp" in
  if (stream.tcp_port open <=? 0) || (stream.tcp_port open >? U16_MAX)
  then Err (policy_error_into InvalidPort) else
  if trim_is_empty (stream.tcp_host open) then Err (policy_error_into HostRequired) else
  let host := if contains_byte x3a (stream.tcp_host open)
                 && negb (starts_with_byte x5b (stream.tcp_host open))
              then "[" +:+ stream.tcp_host open +:+ "]" else stream.tcp_host open in
  ok_or (url_parse ("tcp://" +:+ host +:+ ":" +:+ dec (stream.tcp_port open)))
    (policy_error_into InvalidTarget).

(** The headers that are forwarded, or the first invalid one. *)
Fixpoint forward_headers (skip : string -> bool) (label : string) (l : list (string * string))
    : BResult (list (string * string)) :=
  match l with
  | [] => Ok []
  | (name, value) :: l =>
      if skip name then forward_headers skip label l else
      if negb (valid_header_name name)
      then Err (protocol_error ("invalid " +:+ label +:+ " header name")) else
      if negb (valid_header_value value)
      then Err (protocol_error ("invalid " +:+ label +:+ " header value")) else
      let? rest := forward_headers skip label l in
      Ok ((name, value) :: rest)
  end.

Definition websocket_request (target : Url) (headers : list (string * string))
    : BResult (list (string * string)) :=
  let? _ := map_err (fun e => transport_error ("invalid WebSocket request: " +:+ e))
              (ws_client_request target) in
  forward_headers is_hop_by_hop_header "WebSocket" headers.

(** [self.policy.resolve_and_validate(&target, authorization)]. *)
Definition resolve (p : ProxyPolicy) (target : Url) (a : ProxyAuthorization)
    : Net ResolvedProxyTarget :=
  fun n => (n, by_policy (resolve_and_validate (net_lookup n) p target a)).

(** [connect_pinned_tcp]: the addresses in order, the first that answers. *)
Fixpoint connect_pinned (p : ProxyPolicy) (resolved : ResolvedProxyTarget)
    (last : option string) (l : list SocketAddr) : Net S :=
  match l with
  | [] => failS (connect_error last)
  | address :: l => fun n =>
      match by_policy (validate_retry p resolved address) with
      | Err e => (n, Err e)
      | Ok _ =>
          match net_connect (connect_timeout (limits p)) address n with
          | (n, Some (Ok socket)) => (n, Ok socket)
          | (n, Some (Err e)) => connect_pinned p resolved (Some e) l n
          | (n, None) => connect_pinned p resolved (Some "connect timeout") l n
          end
      end
  end.
Definition connect_pinned_tcp (p : ProxyPolicy) (resolved : ResolvedProxyTarget) : Net S :=
  connect_pinned p resolved None (addresses resolved).

(** Run [body] under a permit. A stream it returns keeps the permit; an error
    drops it. *)
Definition with_permit {A} (body : ProxyPolicy -> Net A)
    : SM (ProxyStreamService * N) BlnkError A :=
  fun '(svc, n) =>
  match acquire svc with
  | (svc, Err e) => ((svc, n), Err e)
  | (svc, Ok _) =>
      match body (svc_policy svc) n with
      | (n, Ok a) => ((svc, n), Ok a)
      | (n, Err e) => ((release svc, n), Err e)
      end
  end.

Definition open_tcp (id : Z) (open : stream.TcpOpen) (a : ProxyAuthorization)
    : SM (ProxyStreamService * N) BlnkError (TcpProxyStream S) :=
  with_permit (fun p =>
    let* target := liftS (tcp_target open) in
    let* resolved := resolve p target a in
    let* socket := connect_pinned_tcp p resolved in
    retS (mkTcpStream id socket (limits p) 0 0)).

(** The address loop of [open_websocket]. *)
Fixpoint connect_websocket (p : ProxyPolicy) (resolved : ResolvedProxyTarget) (target : Url)
    (headers : list (string * string)) (last : option string) (l : list SocketAddr) : Net K :=
  match l with
  | [] => failS (connect_error last)
  | address :: l => fun n =>
      match by_policy (validate_retry p resolved address) with
      | Err e => (n, Err e)
      | Ok _ =>
          match net_connect (connect_timeout (limits p)) address n with
          | (n, Some (Err e)) => connect_websocket p resolved target headers (Some e) l n
          | (n, None) => connect_websocket p resolved target headers (Some "connect timeout") l n
          | (n, Some (Ok socket)) =>
              match websocket_request target headers with
              | Err e => (n, Err e)
              | Ok request =>
                  match ws_handshake (connect_timeout (limits p)) target request socket n with
                  | (n, Some (Ok ws)) => (n, Ok ws)
                  | (n, Some (Err e)) => connect_websocket p resolved target headers (Some e) l n
                  | (n, None) =>
                      connect_websocket p resolved target headers
                        (Some "WebSocket handshake timeout") l n
                  end
              end
          end
      end
  end.

Definition open_websocket (id : Z) (open : stream.WebSocketOpen) (a : ProxyAuthorization)
    : SM (ProxyStreamService * N) BlnkError (WebSocketProxyStream K) :=
  with_permit (fun p =>
    do* liftS (validate_wire_type (stream.ws_type open) "websocket") in
    let* target := liftS (ok_or (url_parse (stream.ws_target open))
                            (policy_error_into InvalidTarget)) in
    let* resolved := resolve p target a in
    if negb (bool_decide (validated_scheme (resolved_target resolved) = SWs))
    then failS (transport_error
                  "wss handler requires an explicit TLS connector; no implicit TLS fallback") else
    let* ws := connect_websocket p resolved target (stream.ws_headers open) None
                 (addresses resolved) in
    retS (mkWsStream id ws (limits p) 0 0)).

(** The body loop of [request_http]. *)
Fixpoint read_body (p : ProxyPolicy) (body : list byte) (l : list (Result string (list byte)))
    : BResult (list byte) :=
  match l with
  | [] => Ok body
  | c :: l =>
      let? chunk := map_err (fun e => transport_error ("HTTP body read failed: " +:+ e)) c in
      let? body_len := ok_or (checked_add USIZE_MAX (zlen body) (zlen chunk))
                         (policy_error_into ResponseLimitExceeded) in
      let? _ := by_policy (check_response_size p body_len) in
      read_body p (body ++ chunk) l
  end.

Definition is_redirection (status : Z) : bool := (300 <=? status) && (status <? 400).

Definition response_headers (l : list (string * option string)) : list (string * string) :=
  omap (fun '(name, value) => match value with Some v => Some (name, v) | None => None end) l.

(** [name.eq_ignore_ascii_case("content-length")]. *)
Definition is_content_length (name : string) : bool :=
  str_eqb (to_ascii_lowercase name) "content-length".

(** The [loop] of [request_http]; [None] when [fuel] iterations do not end it. *)
Fixpoint http_loop (fuel : nat) (p : ProxyPolicy) (method : string)
    (headers : list (string * string)) (body : list byte) (a : ProxyAuthorization)
    (target : Url) (redirects : Z) (n : N) : N * option (BResult HttpProxyResponse) :=
  match fuel with
  | O => (n, None)
  | Datatypes.S fuel =>
      match resolve p target a n with
      | (n, Err e) => (n, Some (Err e))
      | (n, Ok resolved) =>
          match map_err (fun e => transport_error ("HTTP client build failed: " +:+ e))
                  (http_client_build n) with
          | Err e => (n, Some (Err e))
          | Ok _ =>
          match forward_headers (fun name => is_hop_by_hop_header name || is_content_length name)
                  "HTTP" headers with
          | Err e => (n, Some (Err e))
          | Ok hs =>
              match http_send (mkHttpSend method target hs body
                                 (validated_host (resolved_target resolved)) (addresses resolved)) n with
              | (n, Err e) => (n, Some (Err (transport_error ("HTTP request failed: " +:+ e))))
              | (n, Ok reply) =>
                  match is_redirection (reply_status reply), reply_location reply with
                  | true, Some location =>
                      match
                        (let? location := ok_or location
                                            (protocol_error "invalid HTTP redirect location") in
                         let? next := ok_or (url_join target location)
                                        (policy_error_into InvalidTarget) in
                         let? v := by_policy (validate_redirect p (resolved_target resolved) next
                                                a redirects) in
                         Ok (target_url v))
                      with
                      | Err e => (n, Some (Err e))
                      | Ok target =>
                          http_loop fuel p method headers body a target
                            (saturating_add U8_MAX redirects 1) n
                      end
                  | _, _ =>
                      (n, Some (
                         let? _ := match reply_content_length reply with
                                   | Some length => by_policy (check_response_size p length)
                                   | None => Ok tt
                                   end in
                         let? body := read_body p [] (reply_chunks reply) in
                         Ok (mkHttpProxyResponse
                               (stream.mkHttpResponse (reply_status reply)
                                  (response_headers (reply_headers reply)))
                               body redirects)))
                  end
              end
          end
          end
      end
  end.

(** The checks before the loop: the first target and the method. *)
Definition http_prepare (p : ProxyPolicy) (base : Url) (r : stream.HttpRequest) (body : list byte)
    : BResult (Url * string) :=
  let? _ := validate_wire_type (stream.http_type r) "http" in
  let body_len := if zlen body <=? I64_MAX then zlen body else I64_MAX in
  if (stream.content_length r <? 0)
     || (negb (stream.content_length r =? 0) && negb (stream.content_length r =? body_len))
  then Err (protocol_error "HTTP content length does not match body") else
  let? _ := by_policy (check_request_size p (zlen body)) in
  let? target := ok_or (url_join base (if str_is_empty (stream.pathname r) then "/"
                                       else stream.pathname r))
                   (policy_error_into InvalidTarget) in
  let? method := if trim_is_empty (stream.method r) then Ok "GET"
                 else if valid_method (stream.method r) then Ok (stream.method r)
                 else Err (protocol_error "invalid HTTP method") in
  Ok (target, method).

(** The permit is dropped when the request is over. *)
Definition request_http (fuel : nat) (base : Url) (r : stream.HttpRequest) (body : list byte)
    (a : ProxyAuthorization) (s : ProxyStreamService * N)
    : (ProxyStreamService * N) * option (BResult HttpProxyResponse) :=
  let '(svc, n) := s in
  match acquire svc with
  | (svc, Err e) => ((svc, n), Some (Err e))
  | (svc, Ok _) =>
      let p := svc_policy svc in
      match http_prepare p base r body with
      | Err e => ((release svc, n), Some (Err e))
      | Ok (target, method) =>
          let '(n, result) := http_loop fuel p method (stream.headers r) body a target 0 n in
          ((release svc, n), result)
      end
  end.

(** ** TCP streams *)

Definition tcp_set_request (st : TcpProxyStream S) (b : Z) : TcpProxyStream S :=
  mkTcpStream (tcp_id st) (tcp_socket st) (tcp_limits st) b (tcp_response_bytes st).
Definition tcp_set_response (st : TcpProxyStream S) (b : Z) : TcpProxyStream S :=
  mkTcpStream (tcp_id st) (tcp_socket st) (tcp_limits st) (tcp_request_bytes st) b.

Definition tcp_handle_frame (f : Frame) : SM (TcpProxyStream S * N) BlnkError bool :=
  fun '(st, n) =>
  match check_stream_id f (tcp_id st) with
  | Err e => ((st, n), Err e)
  | Ok _ =>
  if is_fin (flags f) then
    match sock_shutdown (tcp_socket st) n with
    | (n, Ok _) => ((st, n), Ok true)
    | (n, Err e) => ((st, n), Err (ErrIo e))
    end
  else
  match
    (let? _ := check_data_frame f (tcp_id st) in
     let? data := map_err (fun e => protocol_error ("invalid TCP data payload: " +:+ e))
                    (prost_decode (payload f)) in
     let? total := ok_or (checked_add U64_MAX (tcp_request_bytes st) (zlen (stream.tcp_data data)))
                     (policy_error_into RequestLimitExceeded) in
     Ok (stream.tcp_data data, total))
  with
  | Err e => ((st, n), Err e)
  | Ok (data, total) =>
      let st := tcp_set_request st total in
      match (let? _ := by_policy (limits_check_request_size (tcp_limits st) total) in
             by_policy (limits_check_buffered_bytes (tcp_limits st) (zlen data))) with
      | Err e => ((st, n), Err e)
      | Ok _ =>
          match sock_write_all (idle_timeout (tcp_limits st)) (tcp_socket st) data n with
          | (n, None) => ((st, n), Err (transport_error "TCP write timeout"))
          | (n, Some (Err e)) => ((st, n), Err (ErrIo e))
          | (n, Some (Ok _)) => ((st, n), Ok false)
          end
      end
  end
  end.

Definition tcp_chunk_size (l : ProxyResourceLimits) : Z :=
  Z.max (Z.min (Z.min (max_buffered_bytes l) MAX_FRAME_DATA) (max_response_bytes l)) 1.

Definition tcp_read_frame : SM (TcpProxyStream S * N) BlnkError Frame :=
  fun '(st, n) =>
  match sock_read (idle_timeout (tcp_limits st)) (tcp_socket st)
          (tcp_chunk_size (tcp_limits st)) n with
  | (n, None) => ((st, n), Err (transport_error "TCP read timeout"))
  | (n, Some (Err e)) => ((st, n), Err (ErrIo e))
  | (n, Some (Ok data)) =>
      if is_nil data then ((st, n), Ok (mkFrame (tcp_id st) FIN [])) else
      match checked_add U64_MAX (tcp_response_bytes st) (zlen data) with
      | None => ((st, n), Err (policy_error_into ResponseLimitExceeded))
      | Some total =>
          let st := tcp_set_response st total in
          match by_policy (limits_check_response_size (tcp_limits st) total) with
          | Err e => ((st, n), Err e)
          | Ok _ => ((st, n), Ok (encode_frame (tcp_id st) dat_more_flags (stream.mkTcpData data)))
          end
      end
  end.

Definition tcp_close : SM (TcpProxyStream S * N) BlnkError unit :=
  fun '(st, n) =>
  let '(n, r) := sock_shutdown (tcp_socket st) n in ((st, n), map_err ErrIo r).

(** ** WebSocket streams *)

Definition ws_set_request (st : WebSocketProxyStream K) (b : Z) : WebSocketProxyStream K :=
  mkWsStream (ws_id st) (ws_socket st) (ws_limits st) b (ws_response_bytes st).
Definition ws_set_response (st : WebSocketProxyStream K) (b : Z) : WebSocketProxyStream K :=
  mkWsStream (ws_id st) (ws_socket st) (ws_limits st) (ws_request_bytes st) b.

Definition ws_message_of (m : stream.WebSocketMessage) : BResult WsMessage :=
  match stream.message_type m with
  | 0 => if utf8_valid (stream.ws_data m) then Ok (WsText (stream.ws_data m))
         else Err (protocol_error "WebSocket text payload is not UTF-8")
  | 1 => Ok (WsBinary (stream.ws_data m))
  | _ => Err (protocol_error "unknown WebSocket message type")
  end.

(** A send that is not under a timeout always ends with a result. *)
Definition ws_sent (label : string) (r : option (Result string unit)) : BResult unit :=
  match r with
  | None => Err (transport_error "WebSocket write timeout")
  | Some (Err e) => Err (transport_error (label +:+ e))
  | Some (Ok _) => Ok tt
  end.

Definition ws_handle_frame (f : Frame) : SM (WebSocketProxyStream K * N) BlnkError bool :=
  fun '(st, n) =>
  match check_stream_id f (ws_id st) with
  | Err e => ((st, n), Err e)
  | Ok _ =>
  if is_fin (flags f) then
    let '(n, r) := ws_send None (ws_socket st) WsClose n in
    ((st, n), map_ok (fun _ => true) (ws_sent "WebSocket close failed: " r))
  else
  match
    (let? _ := check_data_frame f (ws_id st) in
     let? m := map_err (fun e => protocol_error ("invalid WebSocket payload: " +:+ e))
                 (prost_decode (payload f)) in
     let? total := ok_or (checked_add U64_MAX (ws_request_bytes st) (zlen (stream.ws_data m)))
                     (policy_error_into RequestLimitExceeded) in
     Ok (m, total))
  with
  | Err e => ((st, n), Err e)
  | Ok (m, total) =>
      let st := ws_set_request st total in
      match (let? _ := by_policy (limits_check_request_size (ws_limits st) total) in
             let? _ := by_policy (limits_check_buffered_bytes (ws_limits st)
                                    (zlen (stream.ws_data m))) in
             ws_message_of m) with
      | Err e => ((st, n), Err e)
      | Ok message =>
          let '(n, r) := ws_send (Some (idle_timeout (ws_limits st))) (ws_socket st) message n in
          ((st, n), map_ok (fun _ => false) (ws_sent "WebSocket write failed: " r))
      end
  end
  end.

(** The [loop] of [read_frame]: [None] when [fuel] control messages in a row did
    not end it. *)
Fixpoint ws_read_frame (fuel : nat) (s : WebSocketProxyStream K * N)
    : (WebSocketProxyStream K * N) * option (BResult Frame) :=
  match fuel with
  | O => (s, None)
  | Datatypes.S fuel =>
      let '(st, n) := s in
      let data_frame (kind : Z) (data : list byte) (n : N) :=
        match checked_add U64_MAX (ws_response_bytes st) (zlen data) with
        | None => ((st, n), Some (Err (policy_error_into ResponseLimitExceeded)))
        | Some total =>
            let st := ws_set_response st total in
            match (let? _ := by_policy (limits_check_response_size (ws_limits st) total) in
                   by_policy (limits_check_buffered_bytes (ws_limits st) (zlen data))) with
            | Err e => ((st, n), Some (Err e))
            | Ok _ => ((st, n), Some (Ok (encode_frame (ws_id st) dat_more_flags
                                            (stream.mkWebSocketMessage kind data))))
            end
        end in
      match ws_next (idle_timeout (ws_limits st)) (ws_socket st) n with
      | (n, None) => ((st, n), Some (Err (transport_error "WebSocket read timeout")))
      | (n, Some None) => ((st, n), Some (Ok (mkFrame (ws_id st) FIN [])))
      | (n, Some (Some (Err e))) =>
          ((st, n), Some (Err (transport_error ("WebSocket read failed: " +:+ e))))
      | (n, Some (Some (Ok (WsText data)))) => data_frame 0 data n
      | (n, Some (Some (Ok (WsBinary data)))) => data_frame 1 data n
      | (n, Some (Some (Ok (WsPing data)))) =>
          let '(n, r) := ws_send None (ws_socket st) (WsPong data) n in
          match ws_sent "WebSocket pong failed: " r with
          | Err e => ((st, n), Some (Err e))
          | Ok _ => ws_read_frame fuel (st, n)
          end
      | (n, Some (Some (Ok (WsPong _)))) => ws_read_frame fuel (st, n)
      | (n, Some (Some (Ok WsClose))) => ((st, n), Some (Ok (mkFrame (ws_id st) FIN [])))
      | (n, Some (Some (Ok WsFrame))) => ws_read_frame fuel (st, n)
      end
  end.

Definition ws_close : SM (WebSocketProxyStream K * N) BlnkError unit :=
  fun '(st, n) =>
  let '(n, r) := ws_send None (ws_socket st) WsClose n in
  ((st, n), ws_sent "WebSocket close failed: " r).

(** ** Frames *)

Definition into_frames (r : HttpProxyResponse) (id : Z) (max_chunk : nat) : BResult (list Frame) :=
  if (max_chunk =? 0)%nat then Err (policy_error_into InvalidLimits) else
  Ok (encode_frame id syn_dat_flags (proxy_response r)
      :: (map (fun chunk => encode_frame id dat_more_flags (stream.mkHttpData chunk))
            (chunks max_chunk (proxy_body r)))
      ++ [mkFrame id FIN []]).

Definition encode_tcp_open (id : Z) (open : stream.TcpOpen) : Frame :=
  encode_frame id syn_dat_flags open.
Definition encode_websocket_open (id : Z) (open : stream.WebSocketOpen) : Frame :=
  encode_frame id syn_dat_flags open.
Definition encode_http_request (id : Z) (r : stream.HttpRequest) : Frame :=
  encode_frame id syn_dat_flags r.
Definition encode_data (id : Z) (data : list byte) : Frame :=
  encode_frame id dat_more_flags (stream.mkHttpData data).

Definition decode_open {M} `{Prost M} (label : string) (f : Frame) (id : Z) : BResult M :=
  let? _ := check_open_frame f id in
  map_err (fun e => protocol_error ("invalid " +:+ label +:+ " payload: " +:+ e))
    (prost_decode (payload f)).
Definition decode_tcp_open (f : Frame) (id : Z) : BResult stream.TcpOpen :=
  decode_open "TCP open" f id.
Definition decode_websocket_open (f : Frame) (id : Z) : BResult stream.WebSocketOpen :=
  decode_open "WebSocket open" f id.
Definition decode_http_request (f : Frame) (id : Z) : BResult stream.HttpRequest :=
  decode_open "HTTP request" f id.
End handlers.

Lemma by_policy_ok {T} (r : ProxyResult T) t : by_policy r = Ok t -> r = Ok t.
Proof. unfold by_policy. destruct r; cbn; congruence. Qed.

Lemma redirect_below p original next a count v :
  validate_redirect p original next a count = Ok v -> count < max_redirects (limits p).
Proof.
  unfold validate_redirect. destruct (count >=? _) eqn:E; [done|]. rewrite Z.geb_leb in E.
  intros _. lia.
Qed.

(** ** Where connections go *)

Section destinations.
Context {N S K : Type} `{NW : Network N S K}.

(** The network, recording every address that is dialled and every HTTP request
    that is sent. *)
Inductive Dial := DialAddress (x : SocketAddr) | DialHttp (q : HttpSend).
#[local] Instance dialled : Network (N * list Dial) S K := {|
  url_parse := url_parse;
  url_join := url_join;
  valid_header_name := valid_header_name;
  valid_header_value := valid_header_value;
  valid_method := valid_method;
  net_lookup s := net_lookup s.1;
  net_connect d x s := let '(n, r) := net_connect d x s.1 in ((n, s.2 ++ [DialAddress x]), r);
  sock_shutdown k s := let '(n, r) := sock_shutdown k s.1 in ((n, s.2), r);
  sock_write_all d k b s := let '(n, r) := sock_write_all d k b s.1 in ((n, s.2), r);
  sock_read d k z s := let '(n, r) := sock_read d k z s.1 in ((n, s.2), r);
  ws_client_request := ws_client_request;
  ws_handshake d u h k s := let '(n, r) := ws_handshake d u h k s.1 in ((n, s.2), r);
  ws_send d k m s := let '(n, r) := ws_send d k m s.1 in ((n, s.2), r);
  ws_next d k s := let '(n, r) := ws_next d k s.1 in ((n, s.2), r);
  http_client_build s := http_client_build s.1;
  http_send q s := let '(n, r) := http_send q s.1 in ((n, s.2 ++ [DialHttp q]), r);
|}.

Variable p : ProxyPolicy.
Hypothesis no_local : allow_local_targets p = false.
Hypothesis lookup_wf : forall (n : N) k l, net_lookup n k = Some l -> Forall (fun x => ip_wf (ip x)) l.

Hypothesis brackets_unresolved : forall (n : N) h port,
  starts_with_byte x5b h = true -> net_lookup n (h, port) = None.

Definition safe (x : SocketAddr) : Prop := ~ reserved (ip x) /\ ~ local (ip x).

(** An HTTP request is safe when it connects to safe addresses only; requests for
    a name with a trailing dot are left out. *)
Definition dotless (u : Url) : Prop :=
  forall h, url_host_str u = Some h -> trim_end_matches DOT_BYTE h = h.
Definition dial_safe (d : Dial) : Prop :=
  match d with
  | DialAddress x => safe x
  | DialHttp q => dotless (send_target q) -> exists l, http_destinations q = Some l /\ Forall safe l
  end.

Definition dials {A} (c : N * list Dial -> (N * list Dial) * A) : Prop :=
  forall s, Forall dial_safe s.2 -> Forall dial_safe (c s).1.2.

Lemma safe_of_retry r x :
  ip_wf (ip x) -> by_policy (validate_retry p r x) = Ok tt -> safe x.
Proof using no_local.
  intros Hw Hr. unfold validate_retry in Hr. destruct (validate_ip p (ip x)) as [[]|] eqn:Hi; [|done].
  apply validate_ip_iff in Hi as [H1 H2]; [|done]. rewrite no_local in H2.
  split; [done|]. by destruct H2.
Qed.

Lemma resolve_safe target a (s : N * list Dial) s' r :
  resolve p target a s = (s', Ok r) ->
  s' = s /\ Forall safe (addresses r) /\ Forall (fun x => ip_wf (ip x)) (addresses r).
Proof using no_local lookup_wf.
  unfold resolve. intros Hr. injection Hr as <- Hr. unfold by_policy, resolve_and_validate in Hr.
  destruct (validate_target p target a) as [v|]; [|done]. cbn [net_lookup dialled] in Hr.
  destruct (net_lookup s.1 _) as [l|] eqn:Hl; cbn [ok_or] in Hr; [|done].
  destruct (validate_resolved_target_for p v l) as [r'|] eqn:Hv; [|done]. cbn in Hr. simplify_eq.
  apply resolved_for_ok in Hv as (_ & -> & _ & Hall). apply lookup_wf in Hl.
  split_and!; [done| |done]. rewrite Forall_forall in *. intros x Hx.
  destruct (Hall x Hx) as [_ Hi]. apply validate_ip_iff in Hi as [H1 H2]; [|by apply Hl].
  rewrite no_local in H2. split; [done|]. by destruct H2.
Qed.

Lemma lowercase_idem h : to_ascii_lowercase (to_ascii_lowercase h) = to_ascii_lowercase h.
Proof using Type.
  unfold to_ascii_lowercase. rewrite as_bytes_string_of, <- list_fmap_compose. f_equal.
  apply list_fmap_ext. intros _ b _. cbn. by destruct b.
Qed.
Lemma lowercase_bracket h :
  starts_with_byte x5b (to_ascii_lowercase h) = starts_with_byte x5b h.
Proof using Type.
  unfold starts_with_byte, to_ascii_lowercase. rewrite as_bytes_string_of.
  destruct (as_bytes h) as [|b l]; [done|]. by destruct b.
Qed.

(** A request pinned to what its target resolved to is safe. *)
Lemma pinned_safe target a (s : N * list Dial) s' r method hs body :
  resolve p target a s = (s', Ok r) ->
  dial_safe (DialHttp (mkHttpSend method target hs body (validated_host (resolved_target r)) (addresses r))).
Proof using no_local lookup_wf brackets_unresolved.
  intros Hr. pose proof (resolve_safe _ _ _ _ _ Hr) as (_ & Hsafe & _). revert Hr.
  unfold resolve. intros Hr. injection Hr as _ Hr. unfold by_policy, resolve_and_validate in Hr.
  destruct (validate_target p target a) as [v|] eqn:Hv; [|done]. cbn [net_lookup dialled] in Hr.
  destruct (net_lookup s.1 _) as [l|] eqn:Hl; cbn [ok_or] in Hr; [|done].
  destruct (validate_resolved_target_for p v l) as [r'|] eqn:Hres; [|done]. cbn in Hr. simplify_eq.
  apply resolved_for_ok in Hres as (-> & _).
  apply validate_target_ok in Hv as (_ & Hk & _ & _ & _ & Hlit).
  apply target_key_ok in Hk as (_ & _ & _ & _ & _ & _ & h & Hh & Hkey).
  intros Hdot. rewrite (Hdot h Hh) in Hkey. change (key_host (target_key_of v)) with (validated_host v) in Hkey.
  unfold http_destinations. cbn [send_target send_name send_addresses]. rewrite Hh, Hkey, lowercase_idem.
  assert (Hb : starts_with_byte x5b (to_ascii_lowercase h) = false).
  { destruct (starts_with_byte x5b (to_ascii_lowercase h)) eqn:Hb; [|done].
    rewrite Hkey, brackets_unresolved in Hl by done. done. }
  unfold strip_brackets. rewrite Hb. rewrite Hkey in Hlit.
  destruct (parse_ip (to_ascii_lowercase h)) as [i|] eqn:Hi.
  - eexists. split; [done|]. apply Forall_singleton. specialize (Hlit i eq_refl).
    apply validate_ip_iff in Hlit as [H1' H2']; [|by eapply parse_ip_wf].
    rewrite no_local in H2'. split; [done|]. by destruct H2'.
  - rewrite str_eqb_refl. eauto.
Qed.

Lemma dials_connect resolved l last :
  Forall (fun x => ip_wf (ip x)) l -> dials (connect_pinned p resolved last l).
Proof using no_local.
  intros Hw. revert last. induction Hw as [|x l Hx Hl IH]; intros last s Hs; cbn [connect_pinned]; [done|].
  destruct (by_policy (validate_retry p resolved x)) as [[]|] eqn:Hr; [|done].
  apply safe_of_retry in Hr; [|done]. cbn [net_connect dialled].
  destruct (net_connect _ x s.1) as [n r].
  assert (Hs' : Forall dial_safe (s.2 ++ [DialAddress x])) by (apply Forall_app; split; [done|by apply Forall_singleton]).
  destruct r as [[k|e]|]; [done|by apply IH|by apply IH].
Qed.

Lemma dials_connect_ws resolved target headers l last :
  Forall (fun x => ip_wf (ip x)) l -> dials (connect_websocket p resolved target headers last l).
Proof using no_local.
  intros Hw. revert last. induction Hw as [|x l Hx Hl IH]; intros last s Hs; cbn [connect_websocket]; [done|].
  destruct (by_policy (validate_retry p resolved x)) as [[]|] eqn:Hr; [|done].
  apply safe_of_retry in Hr; [|done]. cbn [net_connect dialled].
  destruct (net_connect _ x s.1) as [n r].
  assert (Hs' : Forall dial_safe (s.2 ++ [DialAddress x])) by (apply Forall_app; split; [done|by apply Forall_singleton]).
  destruct r as [[k|e]|]; [|by apply IH|by apply IH].
  destruct (websocket_request target headers); [|done]. cbn [ws_handshake dialled fst snd].
  destruct (ws_handshake _ _ _ _ n) as [n2 [[w|e]|]]; [done|by apply IH|by apply IH].
Qed.

Lemma dials_http fuel method headers body a target redirects :
  dials (http_loop fuel p method headers body a target redirects).
Proof using no_local lookup_wf brackets_unresolved.
  revert target redirects. induction fuel as [|fuel IH]; intros target redirects s Hs; cbn [http_loop]; [done|].
  destruct (resolve p target a s) as [s1 [r|e]] eqn:Hr; [|by unfold resolve in Hr; simplify_eq].
  assert (Hq : forall hs, dial_safe (DialHttp (mkHttpSend method target hs body
                            (validated_host (resolved_target r)) (addresses r)))).
  { intros hs. by eapply pinned_safe. }
  apply resolve_safe in Hr as (-> & _ & _).
  destruct (map_err _ (http_client_build s)); [|done].
  destruct (forward_headers _ _ _) as [hs|]; [|done]. cbn [http_send dialled].
  match goal with |- context [s.2 ++ [?d]] =>
    assert (Hs' : Forall dial_safe (s.2 ++ [d]))
      by (apply Forall_app; split; [done|apply Forall_singleton, Hq]) end.
  destruct (http_send _ s.1) as [n [reply|e]]; [|done].
  destruct (is_redirection _), (reply_location reply) as [loc|]; try done.
  match goal with |- context [match ?x with Ok _ => _ | Err _ => _ end] =>
    destruct x as [u|e] end; [by apply IH|done].
Qed.

Lemma dials_permit {A} (body : ProxyPolicy -> SM (N * list Dial) BlnkError A) svc s :
  svc_policy svc = p -> dials (body p) -> Forall dial_safe s.2 ->
  Forall dial_safe (with_permit body (svc, s)).1.2.2.
Proof using Type.
  intros Hp Hb Hs. unfold with_permit, acquire. destruct (0 <? available_permits svc); [|done].
  cbn [svc_policy]. rewrite Hp. specialize (Hb s Hs). by destruct (body p s) as [s' [|]].
Qed.

End destinations.

Lemma lowercase_len h : str_len (to_ascii_lowercase h) = str_len h.
Proof. unfold str_len, zlen, to_ascii_lowercase. by rewrite as_bytes_string_of, length_fmap. Qed.
Lemma drop_end_prefix b l : exists k, l = drop_end_matches b l ++ k.
Proof.
  induction l as [|c l [k Hk]]; cbn; [by exists []|].
  destruct (drop_end_matches b l) as [|d r]; [|by exists k; rewrite Hk at 1].
  case_match; [by eexists|]. exists l. done.
Qed.
Lemma trim_end_same b h : str_len h = str_len (trim_end_matches b h) -> trim_end_matches b h = h.
Proof.
  unfold str_len, zlen, trim_end_matches. rewrite as_bytes_string_of. intros He.
  destruct (drop_end_prefix b (as_bytes h)) as [k Hk].
  assert (k = []) as ->.
  { apply nil_length_inv. apply (f_equal length) in Hk. rewrite length_app in Hk. lia. }
  rewrite app_nil_r in Hk. rewrite <- Hk. apply as_bytes_inj. by rewrite as_bytes_string_of.
Qed.

(** The pin is entered under the name without its trailing dots, but the request
    asks for the name in its URL: for a name with a trailing dot that is not an
    address the client connects to whatever the system resolves then, unchecked. *)
Theorem trailing_dot_unpinned p u a lookup r h method hs body :
  url_host_str u = Some h -> trim_end_matches DOT_BYTE h <> h ->
  parse_ip (strip_brackets (to_ascii_lowercase h)) = None ->
  resolve_and_validate lookup p u a = Ok r ->
  http_destinations (mkHttpSend method u hs body (validated_host (resolved_target r)) (addresses r)) = None.
Proof.
  intros Hh Hdot Hlit Hr. unfold resolve_and_validate in Hr.
  destruct (validate_target p u a) as [v|] eqn:Hv; [|done]. cbn in Hr.
  destruct (lookup _) as [l|]; [|done]. cbn in Hr. apply resolved_for_ok in Hr as (-> & _).
  apply validate_target_ok in Hv as (_ & Hk & _).
  apply target_key_ok in Hk as (_ & _ & _ & _ & _ & _ & h' & Hh' & Hkey).
  rewrite Hh in Hh'. injection Hh' as <-.
  unfold http_destinations. cbn [send_target send_name]. rewrite Hh, Hlit.
  unfold validated_host. rewrite Hkey, lowercase_idem.
  rewrite (proj2 (str_eqb_ne _ _)); [done|]. intros He. apply Hdot.
  apply (f_equal str_len) in He. rewrite !lowercase_len in He. by apply trim_end_same.
Qed.

(** ** Bounds *)

(** HTTP redirect chains end: with one more iteration than the allowed
    redirects the request always produces a result, against any servers. *)
Theorem http_request_terminates {N S K} `{Network N S K} fuel base req body a svc (n : N) :
  0 <= max_redirects (limits (svc_policy svc)) <= U8_MAX ->
  (Z.to_nat (max_redirects (limits (svc_policy svc))) < fuel)%nat ->
  exists r, (request_http fuel base req body a (svc, n)).2 = Some r.
Proof.
  intros Hm Hf. unfold request_http, acquire. destruct (0 <? available_permits svc); [|by eexists].
  cbn [svc_policy]. destruct (http_prepare _ _ _ _) as [[url0 m]|]; [|by eexists].
  assert (Hloop : forall fuel target redirects n,
    0 <= redirects -> (Z.to_nat (max_redirects (limits (svc_policy svc)) - redirects) < fuel)%nat ->
    exists r, (http_loop fuel (svc_policy svc) m (stream.headers req) body a target redirects n).2 = Some r).
  { clear fuel Hf n. induction fuel as [|fuel IH]; intros target redirects n Hr Hf; [lia|].
    cbn [http_loop]. destruct (resolve _ _ _ n) as [n1 [r|e]]; [|by eexists].
    destruct (map_err _ _); [|by eexists]. destruct (forward_headers _ _ _); [|by eexists].
    destruct (http_send _ n1) as [n2 [reply|e]]; [|by eexists].
    destruct (is_redirection _), (reply_location reply) as [loc|]; try by eexists.
    destruct (ok_or loc _) as [l|]; [|by eexists]. destruct (ok_or (url_join _ _) _) as [u|]; [|by eexists].
    destruct (by_policy _) as [v|] eqn:Hv; [|by eexists].
    apply by_policy_ok in Hv. apply redirect_below in Hv.
    rewrite saturating_add_exact by lia. apply IH; lia. }
  destruct (Hloop fuel url0 0 n ltac:(lia)) as [r Hr]; [by rewrite Z.sub_0_r|].
  exists r. by destruct (http_loop _ _ _ _ _ _ _ _ n).
Qed.

Lemma read_body_bound p body l out :
  zlen body <= max_response_bytes (limits p) -> read_body p body l = Ok out ->
  zlen out <= max_response_bytes (limits p).
Proof.
  revert body. induction l as [|c l IH]; intros body Hb Hr; cbn in Hr; [by simplify_eq|].
  destruct c as [chunk|]; [|done]. cbn [map_err] in Hr.
  destruct (checked_add _ _ _) as [len|] eqn:Hl; [|done]. cbn [ok_or] in Hr.
  destruct (by_policy _) as [u|] eqn:Hc; [|done]. apply by_policy_ok in Hc.
  apply checked_add_Some in Hl as [-> _]. eapply IH; [|exact Hr].
  rewrite zlen_app. unfold check_response_size in Hc. run_cases. lia.
Qed.

Lemma http_loop_result {N S K} `{Network N S K} fuel p m headers body a target redirects (n n' : N) r :
  0 <= redirects <= max_redirects (limits p) -> max_redirects (limits p) <= U8_MAX ->
  0 <= max_response_bytes (limits p) ->
  http_loop fuel p m headers body a target redirects n = (n', Some (Ok r)) ->
  zlen (proxy_body r) <= max_response_bytes (limits p) /\
  redirects <= redirects_followed r <= max_redirects (limits p).
Proof.
  intros Hr Hmax Hresp. revert target redirects n Hr.
  induction fuel as [|fuel IH]; intros target redirects n Hr Hl; cbn [http_loop] in Hl; [done|].
  destruct (resolve _ _ _ n) as [n1 [res|e]]; [|done].
  destruct (map_err _ _); [|done]. destruct (forward_headers _ _ _); [|done].
  destruct (http_send _ n1) as [n2 [reply|e]]; [|done].
  assert (Hfinal : forall x, (n2, Some (let? _ := match reply_content_length reply with
                      | Some length => by_policy (check_response_size p length)
                      | None => Ok tt
                      end in
            let? body := read_body p [] (reply_chunks reply) in
            Ok (mkHttpProxyResponse
                  (stream.mkHttpResponse (reply_status reply)
                     (response_headers (reply_headers reply))) body redirects))) = (n', Some (Ok x)) ->
            zlen (proxy_body x) <= max_response_bytes (limits p) /\
            redirects <= redirects_followed x <= max_redirects (limits p)).
  { intros x Hx. destruct (match reply_content_length reply with Some _ => _ | None => _ end); [|done].
    destruct (read_body p [] (reply_chunks reply)) as [b|] eqn:Hb; [|done]. simplify_eq. cbn.
    split; [|lia]. eapply read_body_bound; [|exact Hb]. done. }
  destruct (is_redirection _), (reply_location reply) as [loc|]; try by apply Hfinal.
  destruct (ok_or loc _) as [l|]; [|done]. destruct (ok_or (url_join _ _) _) as [u|]; [|done].
  destruct (by_policy _) as [v|] eqn:Hv; [|done].
  apply by_policy_ok in Hv. apply redirect_below in Hv.
  rewrite saturating_add_exact in Hl by lia. apply IH in Hl; lia.
Qed.

(** C38: a proxied HTTP response is bounded: its body never exceeds the configured
    response size, whatever the server announces or sends, the redirects
    followed never exceed the limit, and the request body was within its
    limit. *)
Theorem http_response_bounded {N S K} `{Network N S K} fuel base req body a svc (n : N) s' r :
  0 <= max_redirects (limits (svc_policy svc)) <= U8_MAX ->
  0 <= max_response_bytes (limits (svc_policy svc)) ->
  request_http fuel base req body a (svc, n) = (s', Some (Ok r)) ->
  zlen (proxy_body r) <= max_response_bytes (limits (svc_policy svc)) /\
  0 <= redirects_followed r <= max_redirects (limits (svc_policy svc)) /\
  zlen body <= max_request_bytes (limits (svc_policy svc)) /\
  available_permits s'.1 = available_permits svc.
Proof.
  intros Hm Hresp Hr. unfold request_http, acquire in Hr.
  destruct (0 <? available_permits svc); [|done]. cbn [svc_policy] in Hr.
  destruct (http_prepare _ _ _ _) as [[url0 m]|] eqn:Hp; [|done].
  destruct (http_loop _ _ _ _ _ _ _ _ n) as [n' res] eqn:Hl. injection Hr as <- ->.
  apply http_loop_result in Hl as [Hb Hred]; [|lia..]. split_and!; try lia.
  - unfold http_prepare in Hp. destruct (validate_wire_type _ _); [|done].
    destruct ((stream.content_length req <? 0) || _); [done|].
    destruct (by_policy (check_request_size _ _)) eqn:Hc; [|done]. apply by_policy_ok in Hc.
    clear Hp. unfold check_request_size in Hc. run_cases. lia.
  - cbn. lia.
Qed.

(** *** TCP byte accounting *)

Section tcp.
Context {N S K : Type} `{Network N S K} `{Prost stream.TcpData}.
Implicit Types st : TcpProxyStream S.

(** The outcome of one incoming frame: the counter never decreases and, when
    the frame's data was written, it grew by the data's length and is within the
    limit. *)
Lemma tcp_handle_frame_spec f st n st' n' r :
  0 <= tcp_request_bytes st -> tcp_handle_frame f (st, n) = ((st', n'), r) ->
  tcp_limits st' = tcp_limits st /\ tcp_id st' = tcp_id st /\
  tcp_request_bytes st <= tcp_request_bytes st' /\
  (r = Ok false -> exists data, prost_decode (payload f) = Ok data /\ stream_id f = tcp_id st /\
     tcp_request_bytes st' = tcp_request_bytes st + zlen (stream.tcp_data data) /\
     tcp_request_bytes st' <= max_request_bytes (tcp_limits st) /\
     zlen (stream.tcp_data data) <= max_buffered_bytes (tcp_limits st)).
Proof using Type.
  intros H0' Hh. unfold tcp_handle_frame in Hh.
  destruct (check_stream_id f (tcp_id st)) eqn:Hid; [|by simplify_eq].
  destruct (is_fin (flags f)).
  { destruct (sock_shutdown _ n) as [n1 [|]]; by simplify_eq. }
  destruct (check_data_frame f (tcp_id st)); [|by simplify_eq].
  destruct (prost_decode (payload f)) as [data|] eqn:Hd; cbn [map_err] in Hh; [|by simplify_eq].
  destruct (checked_add _ _ _) as [total|] eqn:Ht; cbn [ok_or] in Hh; [|by simplify_eq].
  apply checked_add_Some in Ht as [-> _]. pose proof (zlen_nonneg (stream.tcp_data data)).
  cbn [tcp_limits tcp_set_request] in Hh.
  destruct (by_policy (limits_check_request_size _ _)) eqn:Hc;
    [|injection Hh as <- <- <-; cbn; split_and!; [done|done|lia|done]].
  destruct (by_policy (limits_check_buffered_bytes _ _)) eqn:Hb;
    [|injection Hh as <- <- <-; cbn; split_and!; [done|done|lia|done]].
  apply by_policy_ok in Hc, Hb. unfold limits_check_request_size, limits_check_buffered_bytes in *.
  destruct (_ >? _) eqn:Hc' in Hc; [done|]. destruct (_ >? _) eqn:Hb' in Hb; [done|].
  rewrite Z.gtb_ltb in Hc', Hb'.
  assert (Hid' : stream_id f = tcp_id st).
  { unfold check_stream_id in Hid. destruct (stream_id f =? tcp_id st) eqn:E; [|done]. lia. }
  destruct (sock_write_all _ _ _ n) as [n1 [[u|e]|]]; injection Hh as <- <- <-; cbn;
    split_and!; try done; try lia.
  intros _. exists data. split_and!; try done; lia.
Qed.

(** The data written to the socket over a sequence of frames. *)
Fixpoint tcp_run (fs : list Frame) (s : TcpProxyStream S * N)
    : (TcpProxyStream S * N) * list (list byte) :=
  match fs with
  | [] => (s, [])
  | f :: fs =>
      let '(s1, r) := tcp_handle_frame f s in
      let '(s2, out) := tcp_run fs s1 in
      (s2, match r, prost_decode (payload f) with
           | Ok false, Ok data => stream.tcp_data data :: out
           | _, _ => out
           end)
  end.

Lemma tcp_run_bound fs s :
  0 <= tcp_request_bytes s.1 ->
  let out := (tcp_run fs s).2 in
  out <> [] -> tcp_request_bytes s.1 + zlen (concat out) <= max_request_bytes (tcp_limits s.1).
Proof using Type.
  cbv zeta. revert s. induction fs as [|f fs IH]; intros [st n] Hp; cbn [tcp_run fst snd]; [done|].
  destruct (tcp_handle_frame f (st, n)) as [[st1 n1] r] eqn:Hh.
  apply tcp_handle_frame_spec in Hh as (Hlim & _ & Hmono & Hok); [|done].
  specialize (IH (st1, n1)). cbn in IH. rewrite Hlim in IH.
  destruct (tcp_run fs (st1, n1)) as [s2 out] eqn:Hrun. cbn in *.
  destruct r as [[]|e]; [destruct (prost_decode (payload f))| |].
  all: cbn [fst snd] in *.
  all: try (intros Ho; specialize (IH ltac:(lia) Ho); lia).
  destruct (Hok eq_refl) as (data & -> & _ & Hr & Hm & _). intros _. cbn [concat]. rewrite zlen_app.
  destruct out as [|o out]; [cbn [concat]; rewrite zlen_nil; lia|].
  specialize (IH ltac:(lia) ltac:(done)). lia.
Qed.
End tcp.

(** the request limit of a TCP stream is a bound on what reaches the socket:
    over any sequence of frames, accepted or refused, in any order and with any
    socket behaviour, the bytes written in total stay within the configured
    maximum. *)
Theorem tcp_request_bounded {N S K} `{Network N S K} `{Prost stream.TcpData} fs
    (st : TcpProxyStream S) (n : N) :
  tcp_request_bytes st = 0 -> 0 <= max_request_bytes (tcp_limits st) ->
  zlen (concat (tcp_run fs (st, n)).2) <= max_request_bytes (tcp_limits st).
Proof.
  intros H0' Hm. destruct (tcp_run fs (st, n)).2 as [|o out] eqn:E; [done|].
  pose proof (tcp_run_bound fs (st, n)) as Hb. cbn in Hb. rewrite E, H0' in Hb.
  apply Hb; [lia|done].
Qed.

(** *** Permits *)

Inductive ServiceOp :=
| SvcOpenTcp (id : Z) (open : stream.TcpOpen) (a : ProxyAuthorization)
| SvcOpenWebSocket (id : Z) (open : stream.WebSocketOpen) (a : ProxyAuthorization)
| SvcRequestHttp (fuel : nat) (base : Url) (r : stream.HttpRequest) (body : list byte)
    (a : ProxyAuthorization)
| SvcDropStream.

Section permits.
Context {N S K : Type} `{Network N S K}.

(** The service, the network and the number of open streams; dropping a stream
    returns its permit. *)
Definition service_step (s : (ProxyStreamService * N) * Z) (op : ServiceOp)
    : (ProxyStreamService * N) * Z :=
  let '(s, live) := s in
  match op with
  | SvcOpenTcp id open a =>
      let '(s, r) := open_tcp id open a s in (s, if is_ok r then live + 1 else live)
  | SvcOpenWebSocket id open a =>
      let '(s, r) := open_websocket id open a s in (s, if is_ok r then live + 1 else live)
  | SvcRequestHttp fuel base r body a =>
      let '(s, _) := request_http fuel base r body a s in (s, live)
  | SvcDropStream =>
      if 0 <? live then ((release s.1, s.2), live - 1) else (s, live)
  end.

Definition permits_inv (max : Z) (s : (ProxyStreamService * N) * Z) : Prop :=
  available_permits s.1.1 + s.2 = max /\ 0 <= available_permits s.1.1 /\ 0 <= s.2.

Lemma with_permit_inv {A} (body : ProxyPolicy -> SM N BlnkError A) max s live :
  permits_inv max (s, live) ->
  permits_inv max (let '(s, r) := with_permit body s in (s, if is_ok r then live + 1 else live)).
Proof using Type.
  destruct s as [svc n]. unfold permits_inv, with_permit, acquire, release. cbn. intros Hi.
  destruct (0 <? available_permits svc) eqn:E; cbn; [|lia].
  destruct (body _ n) as [n' [|]]; cbn; lia.
Qed.

Lemma service_step_inv max s op : permits_inv max s -> permits_inv max (service_step s op).
Proof using Type.
  destruct s as [s live]. intros Hi. destruct op; cbn [service_step].
  - by apply with_permit_inv.
  - by apply with_permit_inv.
  - destruct s as [svc n]. unfold permits_inv, request_http, acquire, release in *. cbn in *.
    destruct (0 <? available_permits svc) eqn:E; cbn; [|lia].
    destruct (http_prepare _ _ _ _) as [[u m]|]; cbn; [|lia].
    destruct (http_loop _ _ _ _ _ _ _ _ n); cbn; lia.
  - unfold permits_inv, release in *. cbn in *. destruct (0 <? live) eqn:E; cbn; lia.
Qed.
End permits.

(** the concurrency limit holds and no permit leaks: through any sequence of
    opens, requests and closes, failed ones included, the open streams and the
    free permits add up to the configured maximum, so there are never more
    streams than that. *)
Theorem permits_conserved {N S K} `{Network N S K} p svc (n : N) ops :
  0 <= max_concurrent_streams (limits p) -> service_new p = Ok svc ->
  let s := fold_left service_step ops ((svc, n), 0) in
  available_permits s.1.1 + s.2 = max_concurrent_streams (limits p) /\
  0 <= s.2 <= max_concurrent_streams (limits p).
Proof.
  intros Hmax Hn.
  assert (Hi : permits_inv (max_concurrent_streams (limits p)) ((svc, n), 0)).
  { unfold service_new in Hn. destruct (by_policy _); [|done]. simplify_eq.
    unfold permits_inv. cbn. lia. }
  assert (Hf : forall s, permits_inv (max_concurrent_streams (limits p)) s ->
            permits_inv (max_concurrent_streams (limits p)) (fold_left service_step ops s)).
  { induction ops as [|op ops IH]; intros s Hs; [done|]. by apply IH, service_step_inv. }
  destruct (Hf _ Hi) as (? & ? & ?). cbv zeta. lia.
Qed.

(** *** Frames *)

(** an HTTP response is sent as one transcript: a SYN|DAT frame with the
    metadata, DAT|MORE frames whose decoded data concatenate to the whole body,
    each at most [max_chunk] bytes and none empty, and one empty FIN frame, all on
    the same stream; only a zero chunk size is refused. *)
Theorem into_frames_transcript `{Prost stream.HttpResponse, Prost stream.HttpData} r id max_chunk :
  (forall d : list byte, prost_roundtrips (stream.mkHttpData d)) -> (0 < max_chunk)%nat ->
  exists datas,
    into_frames r id max_chunk =
      Ok (encode_frame id syn_dat_flags (proxy_response r)
          :: map (fun d => encode_frame id dat_more_flags d) datas ++ [mkFrame id FIN []]) /\
    concat (map stream.http_data datas) = proxy_body r /\
    Forall (fun d => (0 < length (stream.http_data d) <= max_chunk)%nat) datas /\
    map (fun d => prost_decode (encode_to_vec d)) datas = map Ok datas.
Proof.
  intros Hrt Hm. exists (map stream.mkHttpData (chunks max_chunk (proxy_body r))).
  split_and!.
  - unfold into_frames. destruct max_chunk; [lia|]. cbn [Nat.eqb]. by rewrite List.map_map.
  - rewrite List.map_map. cbn. rewrite List.map_id. by apply chunks_concat.
  - apply Forall_map. apply chunks_bounds, Hm.
  - rewrite !List.map_map. apply List.map_ext. intros d. apply Hrt.
Qed.

(** a full TCP read cannot be sent: the chunk size allows as many raw bytes
    as a whole SWSP payload, but the bytes travel inside a protobuf message,
    which is longer; so a read that fills the buffer produces a frame the frame
    encoder refuses. *)
Theorem full_tcp_read_unsendable {N S K} `{Network N S K} `{Prost stream.TcpData}
    (st : TcpProxyStream S) (n n' : N) data :
  (forall d, d <> [] -> zlen d < zlen (encode_to_vec (stream.mkTcpData d))) ->
  tcp_limits st = limits_default -> tcp_response_bytes st = 0 ->
  sock_read (idle_timeout limits_default) (tcp_socket st) (tcp_chunk_size limits_default) n
    = (n', Some (Ok data)) ->
  zlen data = tcp_chunk_size limits_default ->
  exists st' f, tcp_read_frame (st, n) = ((st', n'), Ok f) /\
    is_ok (encode f) = false.
Proof.
  intros Hlen Hl Hr Hread Hd. unfold tcp_read_frame. rewrite Hl, Hread.
  assert (Hz : zlen data = 16384) by done.
  destruct data as [|b data]; [done|]. cbn [is_nil]. rewrite Hr.
  set (d := b :: data) in *. unfold checked_add. rewrite Hz. cbn [Z.add Z.leb].
  change (0 + 16384 <=? U64_MAX) with true. cbn iota.
  unfold by_policy, limits_check_response_size. cbn [tcp_limits tcp_set_response]. rewrite Hl.
  change (0 + 16384 >? max_response_bytes limits_default) with false. cbn [map_err].
  eexists _, _. split; [reflexivity|]. apply encode_default_too_large.
  cbn [payload encode_frame]. specialize (Hlen d ltac:(done)).
  unfold DEFAULT_MAX_PAYLOAD_LEN. lia.
Qed.

(** ** Witnesses *)
Module Sample.
(** A network whose resolver knows one public address and whose servers answer
    with an empty 200 response; sockets deliver [incoming]. *)
Record Nw := mkNw { incoming : list byte; written : list (list byte) }.

Definition public : SocketAddr := mkSocketAddr (V4 (mkV4 93 184 216 34)) 443 0 0.
Definition url (host : string) : Url :=
  mkUrl "https" EmptyString None (Some host) None (Some 443) "/" None None.

#[export] Instance network : Network Nw unit unit := {|
  url_parse s := Some (url "example.com");
  url_join u s := Some u;
  valid_header_name _ := true;
  valid_header_value _ := true;
  valid_method _ := true;
  net_lookup _ k := if starts_with_byte x5b k.1 then None else Some [public];
  net_connect _ _ n := (n, Some (Ok tt));
  sock_shutdown _ n := (n, Ok tt);
  sock_write_all _ _ d n := (mkNw (incoming n) (written n ++ [d]), Some (Ok tt));
  sock_read _ _ k n := (n, Some (Ok (take (Z.to_nat k) (incoming n))));
  ws_client_request _ := Ok tt;
  ws_handshake _ _ _ _ n := (n, Some (Ok tt));
  ws_send _ _ _ n := (n, Some (Ok tt));
  ws_next _ _ n := (n, Some None);
  http_client_build _ := Ok tt;
  http_send _ n := (n, Ok (mkReply 200 None None [] [Ok [x2a]]));
|}.

#[export] Existing Instance Proto3.tcp_data.

Definition policy : ProxyPolicy := with_user_confirmation deny_by_default true.
Definition service : ProxyStreamService := mkService policy 16.
Definition request : stream.HttpRequest :=
  stream.mkHttpRequest "http" "GET" EmptyString EmptyString 0 [].
Definition tcp : TcpProxyStream unit := mkTcpStream 5 tt limits_default 0 0.
Definition full : list byte := repeat x2a (Z.to_nat 16384).
Definition frame (d : list byte) : Frame := mkFrame 5 DAT (encode_to_vec (stream.mkTcpData d)).

Lemma tcp_data_longer d :
  d <> [] -> zlen d < zlen (encode_to_vec (stream.mkTcpData d)).
Proof.
  intros Hd. cbn. unfold Proto3.put_bytes. destruct d as [|b d]; [done|]. cbn [is_nil].
  unfold Proto3.put_field. rewrite !zlen_app.
  pose proof (zlen_nonneg (Proto3.varint (zlen (b :: d)))).
  change (zlen (Proto3.varint (1 * 8 + 2))) with 1. lia.
Qed.
End Sample.
Import Sample.


Lemma trailing_dot_unpinned_witness :
  exists r, resolve_and_validate (fun _ => Some [public]) policy (url "example.com.") UserConfirmed = Ok r /\
    http_destinations (mkHttpSend "GET" (url "example.com.") [] [] (validated_host (resolved_target r))
                         (addresses r)) = None.
Proof.
  eexists. split; [vm_compute; reflexivity|].
  eapply (trailing_dot_unpinned policy (url "example.com.") UserConfirmed (fun _ => Some [public]) _ "example.com.");
    [reflexivity|vm_compute; discriminate|vm_compute; reflexivity|vm_compute; reflexivity].
Defined.

Lemma http_request_terminates_witness :
  exists r, (request_http 6 (url "example.com") request [] UserConfirmed (service, mkNw [] [])).2
            = Some r.
Proof.
  apply (http_request_terminates 6 (url "example.com") request [] UserConfirmed service).
  - vm_compute. split; congruence.
  - vm_compute. lia.
Defined.

Lemma http_response_bounded_witness :
  zlen [x2a] <= max_response_bytes limits_default.
Proof.
  destruct (http_response_bounded 6 (url "example.com") request [] UserConfirmed service
              (mkNw [] []) (service, mkNw [] [])
              (mkHttpProxyResponse (stream.mkHttpResponse 200 []) [x2a] 0)) as [H _].
  - vm_compute. split; congruence.
  - vm_compute. congruence.
  - vm_compute. reflexivity.
  - exact H.
Defined.

Lemma tcp_request_bounded_witness :
  zlen (concat (tcp_run [frame [x01; x02]; frame full] (tcp, mkNw [] [])).2)
  <= max_request_bytes limits_default.
Proof.
  apply (tcp_request_bounded [frame [x01; x02]; frame full] tcp (mkNw [] [])).
  - reflexivity.
  - vm_compute. congruence.
Defined.

Lemma permits_conserved_witness :
  available_permits (fold_left service_step
    [SvcOpenTcp 1 (stream.mkTcpOpen "tcp" "example.com" 443) UserConfirmed; SvcDropStream]
    ((service, mkNw [] []), 0)).1.1 = 16.
Proof.
  pose proof (permits_conserved policy service (mkNw [] [])
    [SvcOpenTcp 1 (stream.mkTcpOpen "tcp" "example.com" 443) UserConfirmed; SvcDropStream]) as H.
  destruct H as [H _]; [vm_compute; congruence|reflexivity|]. exact H.
Defined.

Lemma into_frames_transcript_witness :
  exists datas,
    @into_frames {| encode_to_vec _ := []; prost_decode _ := Err "unused" |}
      {| encode_to_vec m := stream.http_data m;
         prost_decode bs := Ok (stream.mkHttpData bs) |}
      (mkHttpProxyResponse (stream.mkHttpResponse 200 []) [x01; x02; x03] 0) 7 2
    = Ok (mkFrame 7 syn_dat_flags []
          :: map (fun d => mkFrame 7 dat_more_flags (stream.http_data d)) datas ++ [mkFrame 7 FIN []]) /\
    concat (map stream.http_data datas) = [x01; x02; x03].
Proof.
  destruct (@into_frames_transcript {| encode_to_vec _ := []; prost_decode _ := Err "unused" |}
      {| encode_to_vec m := stream.http_data m;
         prost_decode bs := Ok (stream.mkHttpData bs) |}
      (mkHttpProxyResponse (stream.mkHttpResponse 200 []) [x01; x02; x03] 0) 7 2)
    as (datas & H1 & H2 & _).
  - intros d. reflexivity.
  - lia.
  - exists datas. split; [exact H1|exact H2].
Defined.

Lemma full_tcp_read_unsendable_witness :
  exists st' f, tcp_read_frame (tcp, mkNw full []) = ((st', mkNw full []), Ok f) /\
    is_ok (encode f) = false.
Proof.
  apply (full_tcp_read_unsendable tcp (mkNw full []) (mkNw full []) full tcp_data_longer);
    vm_compute; reflexivity.
Defined.
