(* ===== verification/Signaling.v ===== *)
(** * Signaling messages

    [src/src/signaling/mod.rs]: the typed messages exchanged with the signaling
    service, their constructors and their validation. Every message carries its
    discriminator in [message_type]; [validate] checks it together with the
    required fields. A [BTreeMap] is a [gmap]; where its iteration order matters
    the entries are taken in key order. *)
From S2P Require Import Prelude Errors External.

Definition PROTOCOL_VERSION : Z := 3.

(** ** Checks shared by the messages *)

Definition require_message_type (actual expected : string) : BResult unit :=
  fail_if! negb (str_eqb actual expected)
    with ErrSignaling ("message_type must be " +:+ expected +:+ ", got " +:+ actual) in
  Ok tt.

Definition require_non_empty (value field : string) : BResult unit :=
  fail_if! trim_is_empty value
    with ErrSignaling (field +:+ " must not be empty") in
  Ok tt.

Definition is_ascii_digit (b : byte) : bool := (48 <=? byte_val b) && (byte_val b <=? 57).

Definition validate_pairing_code (value : string) : BResult unit :=
  fail_if! negb (str_len value =? 6) || negb (forallb is_ascii_digit (as_bytes value))
    with ErrSignaling "pairing_code must contain exactly six decimal digits" in
  Ok tt.

(** ** The messages *)

Record ProtocolVersion := mkProtocolVersion { version : Z }.

Definition protocol_version_current : ProtocolVersion := mkProtocolVersion PROTOCOL_VERSION.

Definition protocol_version_validate (v : ProtocolVersion) : BResult unit :=
  fail_if! negb (version v =? PROTOCOL_VERSION)
    with ErrSignaling ("unsupported signaling protocol version: " +:+ dec (version v)) in
  Ok tt.

Record RegisterRequest := mkRegisterRequest {
  rq_message_type : string;
  rq_uid : string;
  rq_public_key : string;
  rq_protocol : Z;
  rq_want_code : bool;
}.

Definition register_request_validate (m : RegisterRequest) : BResult unit :=
  let? _ := require_message_type (rq_message_type m) "register" in
  let? _ := require_non_empty (rq_uid m) "uid" in
  let? _ := require_non_empty (rq_public_key m) "public_key" in
  protocol_version_validate (mkProtocolVersion (rq_protocol m)).

Definition register_request_new (uid public_key : string) (want_code : bool)
    : BResult RegisterRequest :=
  let request := mkRegisterRequest "register" uid public_key PROTOCOL_VERSION want_code in
  let? _ := register_request_validate request in
  Ok request.

Record RegisterResponse := mkRegisterResponse {
  rs_message_type : string;
  rs_pairing_code : string;
}.

Definition register_response_validate (m : RegisterResponse) : BResult unit :=
  let? _ := require_message_type (rs_message_type m) "registered" in
  validate_pairing_code (rs_pairing_code m).

Definition register_response_new (pairing_code : string) : BResult RegisterResponse :=
  let response := mkRegisterResponse "registered" pairing_code in
  let? _ := register_response_validate response in
  Ok response.

Record IceServer := mkIceServer {
  ice_urls : string;
  ice_username : option string;
  ice_credential : option string;
}.

Definition ice_server_validate (s : IceServer) : BResult unit :=
  require_non_empty (ice_urls s) "ICE server urls".

Definition ice_server_new (urls : string) : BResult IceServer :=
  let server := mkIceServer urls None None in
  let? _ := ice_server_validate server in
  Ok server.

(** [Debug for IceServer]: the credential is only shown as present. *)
Definition option_debug `{RustFmt} (o : option string) : string :=
  match o with Some s => "Some(" +:+ str_debug s +:+ ")" | None => "None" end.
Definition ice_server_debug `{RustFmt} (s : IceServer) : string :=
  "IceServer { urls: " +:+ str_debug (ice_urls s)
  +:+ ", username: " +:+ option_debug (ice_username s)
  +:+ ", credential: " +:+ option_debug ((fun _ => "<redacted>") <$> ice_credential s) +:+ " }".

(** The [for] loop over the servers of a request. *)
Fixpoint ice_servers_validate (l : list IceServer) : BResult unit :=
  match l with
  | [] => Ok tt
  | s :: l => let? _ := ice_server_validate s in ice_servers_validate l
  end.

Record ConnectionRequest := mkConnectionRequest {
  cr_message_type : string;
  cr_client_id : string;
  cr_browser_ip : option string;
  cr_ice_servers : list IceServer;
  cr_force_relay : bool;
}.

Definition connection_request_validate (m : ConnectionRequest) : BResult unit :=
  let? _ := require_message_type (cr_message_type m) "request" in
  let? _ := require_non_empty (cr_client_id m) "client_id" in
  ice_servers_validate (cr_ice_servers m).

Definition connection_request_new (client_id : string) : BResult ConnectionRequest :=
  let request := mkConnectionRequest "request" client_id None [] false in
  let? _ := connection_request_validate request in
  Ok request.

Record OfferMessage := mkOfferMessage {
  of_message_type : string;
  of_client_id : string;
  of_sdp : string;
  of_streams : gmap string (list byte);
}.

Definition offer_validate (m : OfferMessage) : BResult unit :=
  let? _ := require_message_type (of_message_type m) "offer" in
  let? _ := require_non_empty (of_client_id m) "client_id" in
  require_non_empty (of_sdp m) "sdp".

Definition offer_new (client_id sdp : string) : BResult OfferMessage :=
  let message := mkOfferMessage "offer" client_id sdp ∅ in
  let? _ := offer_validate message in
  Ok message.

Record AnswerMessage := mkAnswerMessage {
  an_message_type : string;
  an_client_id : string;
  an_sdp : string;
  an_encrypted_request : string;
}.

Definition answer_validate (m : AnswerMessage) : BResult unit :=
  let? _ := require_message_type (an_message_type m) "answer" in
  let? _ := require_non_empty (an_client_id m) "client_id" in
  let? _ := require_non_empty (an_sdp m) "sdp" in
  require_non_empty (an_encrypted_request m) "encrypted_request".

Definition answer_new (client_id sdp encrypted_request : string) : BResult AnswerMessage :=
  let message := mkAnswerMessage "answer" client_id sdp encrypted_request in
  let? _ := answer_validate message in
  Ok message.

Record IceCandidateMessage := mkIceCandidateMessage {
  ca_message_type : string;
  ca_client_id : string;
  ca_candidate : gmap string string;
}.

Definition candidate_validate (m : IceCandidateMessage) : BResult unit :=
  let? _ := require_message_type (ca_message_type m) "candidate" in
  let? _ := require_non_empty (ca_client_id m) "client_id" in
  fail_if! bool_decide (ca_candidate m = ∅)
    with ErrSignaling "candidate must not be empty" in
  Ok tt.

Definition candidate_new (client_id : string) (candidate : gmap string string)
    : BResult IceCandidateMessage :=
  let message := mkIceCandidateMessage "candidate" client_id candidate in
  let? _ := candidate_validate message in
  Ok message.

Record PairRequest := mkPairRequest {
  pq_message_type : string;
  pq_client_id : string;
  pq_remote_ip : option string;
  pq_ice_servers : list IceServer;
}.

Definition pair_request_validate (m : PairRequest) : BResult unit :=
  let? _ := require_message_type (pq_message_type m) "pair_request" in
  let? _ := require_non_empty (pq_client_id m) "client_id" in
  ice_servers_validate (pq_ice_servers m).

Definition pair_request_new (client_id : string) : BResult PairRequest :=
  let request := mkPairRequest "pair_request" client_id None [] in
  let? _ := pair_request_validate request in
  Ok request.

Record PairAnswer := mkPairAnswer {
  pa_message_type : string;
  pa_client_id : string;
  pa_sdp : string;
}.

Definition pair_answer_validate (m : PairAnswer) : BResult unit :=
  let? _ := require_message_type (pa_message_type m) "pair_answer" in
  let? _ := require_non_empty (pa_client_id m) "client_id" in
  require_non_empty (pa_sdp m) "sdp".

Definition pair_answer_new (client_id sdp : string) : BResult PairAnswer :=
  let message := mkPairAnswer "pair_answer" client_id sdp in
  let? _ := pair_answer_validate message in
  Ok message.

Record PairApproved := mkPairApproved {
  pp_message_type : string;
  pp_client_id : string;
}.

Definition pair_approved_validate (m : PairApproved) : BResult unit :=
  let? _ := require_message_type (pp_message_type m) "pair_approved" in
  require_non_empty (pp_client_id m) "client_id".

Definition pair_approved_new (client_id : string) : BResult PairApproved :=
  let message := mkPairApproved "pair_approved" client_id in
  let? _ := pair_approved_validate message in
  Ok message.

Record PairRejected := mkPairRejected {
  pj_message_type : string;
  pj_client_id : string;
  pj_reason : string;
}.

Definition pair_rejected_validate (m : PairRejected) : BResult unit :=
  let? _ := require_message_type (pj_message_type m) "pair_rejected" in
  let? _ := require_non_empty (pj_client_id m) "client_id" in
  require_non_empty (pj_reason m) "reason".

Definition pair_rejected_new (client_id reason : string) : BResult PairRejected :=
  let message := mkPairRejected "pair_rejected" client_id reason in
  let? _ := pair_rejected_validate message in
  Ok message.

Record SignalingError := mkSignalingError {
  se_message_type : string;
  se_message : string;
}.

Definition signaling_error_validate (m : SignalingError) : BResult unit :=
  let? _ := require_message_type (se_message_type m) "error" in
  require_non_empty (se_message m) "message".

Definition signaling_error_new (message : string) : BResult SignalingError :=
  let message := mkSignalingError "error" message in
  let? _ := signaling_error_validate message in
  Ok message.

(** ** What the checks accept *)

Lemma require_message_type_ok actual expected :
  require_message_type actual expected = Ok tt <-> actual = expected.
Proof.
  unfold require_message_type, str_eqb. case_bool_decide; naive_solver.
Qed.

Lemma require_non_empty_ok value field :
  require_non_empty value field = Ok tt <-> trim_is_empty value = false.
Proof. unfold require_non_empty. destruct (trim_is_empty value); naive_solver. Qed.

Lemma protocol_version_ok v :
  protocol_version_validate (mkProtocolVersion v) = Ok tt <-> v = PROTOCOL_VERSION.
Proof.
  unfold protocol_version_validate. cbn.
  destruct (v =? PROTOCOL_VERSION) eqn:E; bool_to_prop; naive_solver.
Qed.

Lemma validate_pairing_code_ok c :
  validate_pairing_code c = Ok tt <->
  str_len c = 6 /\ Forall (fun b => is_ascii_digit b = true) (as_bytes c).
Proof.
  unfold validate_pairing_code. rewrite Forall_forall.
  destruct (str_len c =? 6) eqn:E1; cbn; bool_to_prop.
  2: { split; [done|]. intros [? _]. lia. }
  destruct (forallb is_ascii_digit (as_bytes c)) eqn:E2; cbn.
  - rewrite forallb_forall in E2. setoid_rewrite <- list_elem_of_In in E2. naive_solver.
  - split; [done|]. intros [_ H]. exfalso. apply not_true_iff_false in E2. apply E2.
    apply forallb_forall. intros b Hb. apply H. by apply list_elem_of_In.
Qed.

Lemma ice_servers_ok l :
  ice_servers_validate l = Ok tt <-> Forall (fun s => ice_server_validate s = Ok tt) l.
Proof.
  induction l as [|s l IH]; cbn; [by rewrite Forall_nil|].
  rewrite seq_ok, Forall_cons, IH. done.
Qed.

#[export] Hint Rewrite @seq_ok require_message_type_ok require_non_empty_ok
  protocol_version_ok validate_pairing_code_ok ice_servers_ok : blnk_rw.

(** The debug text of a server does not depend on its credential. *)
Lemma ice_debug_redacted `{RustFmt} urls user c d :
  ice_server_debug (mkIceServer urls user (Some c)) =
  ice_server_debug (mkIceServer urls user (Some d)).
Proof. done. Qed.
