(* ===== verification/Discovery.v ===== *)
(** * Discovery on the local network

    [src/src/discovery/mod.rs]: a query over UDP multicast, the datagrams that
    answer it and the check of the identifiers they carry, and the responder. The
    datagrams that arrive before the deadline are given in their order. *)
From S2P Require Import Prelude Errors External Net Signaling.

Definition BLNK_MDNS_SERVICE_NAME : string := "_blnk._tcp.local".
Definition DEFAULT_MDNS_DISCOVERY_TIMEOUT : Z := from_secs 3.
Definition MDNS_MULTICAST_IPV4 : string := "224.0.0.251:5353".
Definition RECV_BUFFER : nat := 1024.
Definition PEER_PREFIX : string := "BLNK_PEER:".

Record DiscoveredPeer := mkDiscovered {
  peer_id : string;
  peer_ip : IpAddr;
  peer_port : Z;
  host_name : option string;
}.
#[export] Instance DiscoveredPeer_eq_dec : EqDecision DiscoveredPeer.
Proof. solve_decision. Defined.

(** ** The check of an identifier *)

Definition is_ascii_alphanumeric (b : byte) : bool :=
  is_ascii_digit b || ((65 <=? byte_val b) && (byte_val b <=? 90))
  || ((97 <=? byte_val b) && (byte_val b <=? 122)).
(** A character outside ASCII is encoded in bytes that all fail this test, so
    testing the bytes is testing the characters. *)
Definition peer_id_char (b : byte) : bool :=
  is_ascii_alphanumeric b || (byte_val b =? 45) || (byte_val b =? 95) || (byte_val b =? 46).
Definition is_valid_peer_id (id : string) : bool :=
  negb (str_is_empty id) && (str_len id <=? 64) && forallb peer_id_char (as_bytes id).

(** ** Collecting the answers *)

(** What one call of [recv_from] under the deadline gives. *)
Inductive Received :=
| Datagram (bytes : list byte) (src : SocketAddr)
| ReceiveFailed
| DeadlinePassed.

Section discovery.
Context `{RustFmt}.

(** A datagram longer than the buffer is cut off. *)
Definition read_datagram (bytes : list byte) (src : SocketAddr) : option DiscoveredPeer :=
  let read := take RECV_BUFFER bytes in
  if negb (zlen read >? 0) then None else
  match str_from_utf8 read with
  | Err _ => None
  | Ok msg =>
      match strip_prefix PEER_PREFIX msg with
      | None => None
      | Some id =>
          if is_valid_peer_id id then Some (mkDiscovered id (ip src) (sock_port src) None) else None
      end
  end.

(** [HashSet::insert]; the order of the list is not observable. *)
Definition insert_peer (p : DiscoveredPeer) (peers : list DiscoveredPeer) : list DiscoveredPeer :=
  if decide (p ∈ peers) then peers else peers ++ [p].

Fixpoint collect_peers (events : list Received) (peers : list DiscoveredPeer) : list DiscoveredPeer :=
  match events with
  | Datagram bytes src :: events =>
      collect_peers events
        match read_datagram bytes src with Some p => insert_peer p peers | None => peers end
  | ReceiveFailed :: _ | DeadlinePassed :: _ | [] => peers
  end.

(** [bound] is whether the socket could be bound; the datagram sent (its failure
    is ignored) and the result. *)
Definition discover_local_peers (bound : bool) (events : list Received)
    : option (string * string) * BResult (list DiscoveredPeer) :=
  if negb bound then (None, Ok []) else
  (Some (MDNS_MULTICAST_IPV4, "BLNK_DISCOVER:" +:+ BLNK_MDNS_SERVICE_NAME),
   Ok (collect_peers events [])).
End discovery.

(** ** The responder *)

Record MdnsResponder := mkResponder { cancelled : bool }.
Definition responder_new : MdnsResponder := mkResponder false.
Definition responder_shutdown (r : MdnsResponder) : MdnsResponder := mkResponder true.
(** The spawned task only waits for the cancellation: the datagrams it sends
    until then are none. *)
Definition start_announcing (uid : string) (port : Z) (r : MdnsResponder)
    : BResult unit * list (list byte) := (Ok tt, []).

(** ** What is reported *)

Section proofs.
Context `{RustFmt}.

Definition is_datagram (e : Received) : Prop := exists bytes src, e = Datagram bytes src.

(** An identifier that is safe to print and store. *)
Definition id_safe (id : string) : Prop :=
  1 <= str_len id <= 64 /\ Forall (fun b => peer_id_char b = true) (as_bytes id).

(** The datagram announces the peer. *)
Definition announces (bytes : list byte) (src : SocketAddr) (p : DiscoveredPeer) : Prop :=
  take RECV_BUFFER bytes = as_bytes PEER_PREFIX ++ as_bytes (peer_id p) /\ id_safe (peer_id p)
  /\ peer_ip p = ip src /\ peer_port p = sock_port src /\ host_name p = None.

Lemma valid_peer_id_spec id : is_valid_peer_id id = true <-> id_safe id.
Proof.
  unfold is_valid_peer_id, id_safe. rewrite !andb_true_iff, forallb_forall, Z.leb_le, Forall_forall.
  setoid_rewrite list_elem_of_In.
  assert (Hl : negb (str_is_empty id) = true <-> 1 <= str_len id).
  { unfold str_len, str_is_empty. destruct (as_bytes id) as [|b l]; [done|]. cbn [is_nil negb].
    rewrite zlen_cons. pose proof (zlen_nonneg l). split; [lia|done]. }
  rewrite Hl. tauto.
Qed.

Lemma peer_id_char_ascii b : peer_id_char b = true -> byte_val b < 0x80.
Proof.
  unfold peer_id_char, is_ascii_alphanumeric, is_ascii_digit.
  rewrite !orb_true_iff, !andb_true_iff, !Z.leb_le, !Z.eqb_eq. lia.
Qed.

Lemma read_datagram_spec bytes src p : read_datagram bytes src = Some p <-> announces bytes src p.
Proof.
  unfold read_datagram, announces, str_from_utf8. split.
  - case_match; [done|]. destruct (utf8_valid _); [|done].
    destruct (strip_prefix _ _) as [id|] eqn:Hp; [|done]. apply strip_prefix_Some in Hp.
    rewrite as_bytes_string_of in Hp. destruct (is_valid_peer_id id) eqn:Hv; [|done].
    apply valid_peer_id_spec in Hv. by intros [= <-].
  - destruct p as [id pip pport host]. cbn [peer_id peer_ip peer_port host_name].
    intros (Ht & Hs & -> & -> & ->). cbv zeta. rewrite Ht.
    rewrite zlen_app. pose proof (zlen_nonneg (as_bytes id)).
    replace (zlen (as_bytes PEER_PREFIX)) with 10 by done.
    destruct (_ >? 0) eqn:E; [|lia]. cbn [negb]. rewrite utf8_ascii.
    + rewrite (proj2 (strip_prefix_Some _ _ id)) by apply as_bytes_string_of.
      by rewrite (proj2 (valid_peer_id_spec id) Hs).
    + apply Forall_app. split; [by repeat constructor|].
      eapply Forall_impl; [apply Hs|]. apply peer_id_char_ascii.
Qed.

Lemma insert_peer_spec p q l : q ∈ insert_peer p l <-> q = p \/ q ∈ l.
Proof. unfold insert_peer. case_decide; set_solver. Qed.

Lemma insert_peer_NoDup p l : NoDup l -> NoDup (insert_peer p l).
Proof.
  unfold insert_peer. case_decide; [done|]. intros. apply NoDup_app. split; [done|].
  split; [set_solver|apply NoDup_singleton].
Qed.

Lemma collect_peers_NoDup events l : NoDup l -> NoDup (collect_peers events l).
Proof.
  revert l. induction events as [|[bytes src| |] events IH]; intros l Hl; cbn; try done.
  apply IH. case_match; [|done]. by apply insert_peer_NoDup.
Qed.

Lemma collect_peers_spec events l p :
  p ∈ collect_peers events l <->
  p ∈ l \/ exists before bytes src after,
    events = before ++ Datagram bytes src :: after /\ Forall is_datagram before /\ announces bytes src p.
Proof.
  revert l. induction events as [|e events IH]; intros l; cbn.
  { split; [by left|]. intros [?|([|? ?] & ? & ? & ? & ? & _)]; done. }
  destruct e as [bytes src| |]; cycle 1.
  1,2: split; [by left|]; intros [?|([|? ?] & ? & ? & ? & ? & Hf & _)]; simplify_eq/=; try done;
       by apply Forall_cons in Hf as [(? & ? & ?) _].
  rewrite IH. setoid_rewrite <- read_datagram_spec.
  assert (Hl : p ∈ match read_datagram bytes src with Some q => insert_peer q l | None => l end
               <-> p ∈ l \/ read_datagram bytes src = Some p).
  { destruct (read_datagram bytes src) as [q|]; [rewrite insert_peer_spec|]; naive_solver. }
  rewrite Hl. split.
  - intros [[?|?]|(before & b & s & after & -> & Hf & Hr)]; [by left| |].
    + right. by exists [], bytes, src, events.
    + right. exists (Datagram bytes src :: before), b, s, after. repeat split; try done.
      constructor; [by exists bytes, src|done].
  - intros [?|([|e before] & b & s & after & He & Hf & Hr)]; [by left; left| |];
      cbn in He; simplify_eq; [by left; right|].
    right. apply Forall_cons in Hf as [_ Hf]. by exists before, b, s, after.
Qed.

(** Discovery reports, once each, exactly the peers announced by a datagram
    that arrives before the first failure or the deadline: a datagram announces a
    peer when what fits the buffer is the prefix followed by an identifier of 1 to
    64 letters, digits, dots, dashes or underscores, and the reported address is
    the sender's. Nothing an outsider sends puts any other text on the list. *)
Theorem discovery_exact events peers :
  (discover_local_peers true events).2 = Ok peers ->
  NoDup peers /\
  forall p, p ∈ peers <->
    exists before bytes src after,
      events = before ++ Datagram bytes src :: after /\ Forall is_datagram before
      /\ announces bytes src p.
Proof.
  intros [= <-]. split; [apply collect_peers_NoDup, NoDup_nil_2|].
  intros p. rewrite collect_peers_spec. set_solver.
Qed.
End proofs.

(** ** A concrete run *)

Module Sample.
Definition src : SocketAddr := mkSocketAddr (V4 (mkV4 192 168 1 7)) 5353 0 0.
Definition events : list Received :=
  [Datagram (as_bytes "BLNK_PEER:dev-1") src; Datagram (as_bytes "BLNK_PEER:dev-1") src;
   Datagram (as_bytes "BLNK_PEER:dev 2") src; Datagram (as_bytes "hello") src;
   DeadlinePassed; Datagram (as_bytes "BLNK_PEER:late") src].
Definition found : list DiscoveredPeer := [mkDiscovered "dev-1" (V4 (mkV4 192 168 1 7)) 5353 None].
End Sample.

Lemma discovery_exact_witness :
  (discover_local_peers (H := Concrete.rust_fmt) true Sample.events).2 = Ok Sample.found
  /\ NoDup Sample.found.
Proof.
  assert (E : (discover_local_peers (H := Concrete.rust_fmt) true Sample.events).2 = Ok Sample.found)
    by (vm_compute; reflexivity).
  split; [exact E|]. exact (proj1 (discovery_exact (H := Concrete.rust_fmt) _ _ E)).
Defined.
