(* ===== verification/Transport.v ===== *)
(** * The signaling transport

    [src/src/signaling/transport.rs]: the wire form of the signaling messages,
    the endpoint policy, the client with its bounded retries, the WebSocket
    connection and the local fixture server.

    A WebSocket is the list of frames its peer still delivers (the end of the
    list is the end of the stream), the frames sent so far and the sends that
    fail. The resolver, the dialler and the clock are a class of operations on
    a world, so that theorems hold for every environment. *)
From S2P Require Import Prelude Errors External Signaling Net ProxyPolicy.

Definition DEFAULT_MAX_MESSAGE_SIZE : Z := 64 * 1024.

Inductive SignalingMessage :=
| SmRegister (m : RegisterRequest)
| SmRegistered (m : RegisterResponse)
| SmRequest (m : ConnectionRequest)
| SmOffer (m : OfferMessage)
| SmAnswer (m : AnswerMessage)
| SmCandidate (m : IceCandidateMessage)
| SmPairRequest (m : PairRequest)
| SmPairAnswer (m : PairAnswer)
| SmPairApproved (m : PairApproved)
| SmPairRejected (m : PairRejected)
| SmError (m : SignalingError).

Definition message_validate (m : SignalingMessage) : BResult unit :=
  match m with
  | SmRegister m => register_request_validate m
  | SmRegistered m => register_response_validate m
  | SmRequest m => connection_request_validate m
  | SmOffer m => offer_validate m
  | SmAnswer m => answer_validate m
  | SmCandidate m => candidate_validate m
  | SmPairRequest m => pair_request_validate m
  | SmPairAnswer m => pair_answer_validate m
  | SmPairApproved m => pair_approved_validate m
  | SmPairRejected m => pair_rejected_validate m
  | SmError m => signaling_error_validate m
  end.

Definition message_type (m : SignalingMessage) : string :=
  match m with
  | SmRegister _ => "register"
  | SmRegistered _ => "registered"
  | SmRequest _ => "request"
  | SmOffer _ => "offer"
  | SmAnswer _ => "answer"
  | SmCandidate _ => "candidate"
  | SmPairRequest _ => "pair_request"
  | SmPairAnswer _ => "pair_answer"
  | SmPairApproved _ => "pair_approved"
  | SmPairRejected _ => "pair_rejected"
  | SmError _ => "error"
  end.

(** ** The wire schema *)

Record WireIceServer := mkWireIceServer {
  wire_urls : string;
  wire_username : option string;
  wire_credential : option string;
}.

Inductive WireMessage :=
| WireRegister (uid public_key : string) (protocol : Z) (want_code : bool)
| WireRegistered (code : string)
| WireRequest (client_id : string) (browser_ip : option string)
    (ice_servers : list WireIceServer) (force_relay : bool)
| WireOffer (client_id sdp : string) (streams : gmap string string)
| WireAnswer (client_id sdp encrypted_request : string)
| WireCandidate (client_id : string) (candidate : gmap string string)
| WirePairRequest (client_id : string) (remote_ip : option string)
    (ice_servers : list WireIceServer)
| WirePairAnswer (client_id sdp : string)
| WirePairApproved (client_id : string)
| WirePairRejected (client_id reason : string)
| WireError (message : string).

Definition wire_ice_from (s : IceServer) : WireIceServer :=
  mkWireIceServer (ice_urls s) (ice_username s) (ice_credential s).

Definition ice_try_from (w : WireIceServer) : BResult IceServer :=
  let server := mkIceServer (wire_urls w) (wire_username w) (wire_credential w) in
  let? _ := ice_server_validate server in
  Ok server.

Section codec.
Context `{Base64} `{SerdeJson WireMessage}.

Definition to_wire (m : SignalingMessage) : BResult WireMessage :=
  let? _ := message_validate m in
  Ok match m with
     | SmRegister m => WireRegister (rq_uid m) (rq_public_key m) (rq_protocol m) (rq_want_code m)
     | SmRegistered m => WireRegistered (rs_pairing_code m)
     | SmRequest m => WireRequest (cr_client_id m) (cr_browser_ip m)
                        (wire_ice_from <$> cr_ice_servers m) (cr_force_relay m)
     | SmOffer m => WireOffer (of_client_id m) (of_sdp m) (standard_encode <$> of_streams m)
     | SmAnswer m => WireAnswer (an_client_id m) (an_sdp m) (an_encrypted_request m)
     | SmCandidate m => WireCandidate (ca_client_id m) (ca_candidate m)
     | SmPairRequest m => WirePairRequest (pq_client_id m) (pq_remote_ip m)
                            (wire_ice_from <$> pq_ice_servers m)
     | SmPairAnswer m => WirePairAnswer (pa_client_id m) (pa_sdp m)
     | SmPairApproved m => WirePairApproved (pp_client_id m)
     | SmPairRejected m => WirePairRejected (pj_client_id m) (pj_reason m)
     | SmError m => WireError (se_message m)
     end.

(** One entry of [streams]. *)
Definition decode_stream_entry (kv : string * string) : BResult (string * list byte) :=
  match standard_decode kv.2 with
  | Ok decoded => Ok (kv.1, decoded)
  | Err error => Err (ErrSignaling ("invalid base64 streams entry: " +:+ error))
  end.

Definition message_try_from (w : WireMessage) : BResult SignalingMessage :=
  let? message :=
    match w with
    | WireRegister uid public_key protocol want_code =>
        Ok (SmRegister (mkRegisterRequest "register" uid public_key protocol want_code))
    | WireRegistered code => Ok (SmRegistered (mkRegisterResponse "registered" code))
    | WireRequest client_id browser_ip ice_servers force_relay =>
        let? servers := collect_results ice_try_from ice_servers in
        Ok (SmRequest (mkConnectionRequest "request" client_id browser_ip servers force_relay))
    | WireOffer client_id sdp streams =>
        let? entries := collect_results decode_stream_entry (btree_entries streams) in
        Ok (SmOffer (mkOfferMessage "offer" client_id sdp (list_to_map entries)))
    | WireAnswer client_id sdp encrypted_request =>
        Ok (SmAnswer (mkAnswerMessage "answer" client_id sdp encrypted_request))
    | WireCandidate client_id candidate =>
        Ok (SmCandidate (mkIceCandidateMessage "candidate" client_id candidate))
    | WirePairRequest client_id remote_ip ice_servers =>
        let? servers := collect_results ice_try_from ice_servers in
        Ok (SmPairRequest (mkPairRequest "pair_request" client_id remote_ip servers))
    | WirePairAnswer client_id sdp => Ok (SmPairAnswer (mkPairAnswer "pair_answer" client_id sdp))
    | WirePairApproved client_id => Ok (SmPairApproved (mkPairApproved "pair_approved" client_id))
    | WirePairRejected client_id reason =>
        Ok (SmPairRejected (mkPairRejected "pair_rejected" client_id reason))
    | WireError message => Ok (SmError (mkSignalingError "error" message))
    end in
  let? _ := message_validate message in
  Ok message.

Definition encode_message (m : SignalingMessage) : BResult string :=
  let? wire := to_wire m in
  map_err (fun error => ErrSignaling ("failed to encode signaling message: " +:+ error))
    (json_to_string wire).

Definition decode_message (payload : string) : BResult SignalingMessage :=
  let? wire :=
    map_err (fun error => ErrSignaling ("failed to decode signaling message: " +:+ error))
      (json_from_str payload) in
  message_try_from wire.

(** ** A WebSocket *)

Inductive WsMessage :=
| WsText (payload : string)
| WsBinary (payload : list byte)
| WsPing (payload : list byte)
| WsPong (payload : list byte)
| WsClose
| WsFrame.

Record Socket := mkSocket {
  inbox : list (Result string WsMessage);
  sent : list WsMessage;
  send_error : nat -> option string;   (* by the number of frames sent before *)
}.

Definition socket_send (m : WsMessage) (s : Socket) : Socket * Result string unit :=
  match send_error s (length (sent s)) with
  | Some e => (s, Err e)
  | None => (mkSocket (inbox s) (sent s ++ [m]) (send_error s), Ok tt)
  end.

Record WebSocketConnection := mkConnection { socket : Socket; conn_max_message_size : Z }.

Definition connection_new (s : Socket) (max_message_size : Z) : BResult WebSocketConnection :=
  fail_if! max_message_size =? 0
    with ErrSignaling "maximum signaling message size must be greater than zero" in
  Ok (mkConnection s max_message_size).

Definition socket_op (c : WebSocketConnection) (m : WsMessage) (context : string)
    : WebSocketConnection * BResult unit :=
  let '(s, r) := socket_send m (socket c) in
  (mkConnection s (conn_max_message_size c),
   map_err (fun error => ErrSignaling (context +:+ error)) r).

Definition send_text (payload : string) (c : WebSocketConnection)
    : WebSocketConnection * BResult unit :=
  if str_len payload >? conn_max_message_size c
  then (c, Err (ErrSignaling ("signaling message exceeds " +:+ dec (conn_max_message_size c)
                              +:+ " byte limit")))
  else socket_op c (WsText payload) "failed to send signaling message: ".

Definition conn_send (m : SignalingMessage) (c : WebSocketConnection)
    : WebSocketConnection * BResult unit :=
  match encode_message m with
  | Err e => (c, Err e)
  | Ok payload => send_text payload c
  end.

Definition conn_close (c : WebSocketConnection) : WebSocketConnection * BResult unit :=
  socket_op c WsClose "failed to close signaling socket: ".

(** The [while let] loop of [recv] over the frames still to come. *)
Fixpoint recv_loop (frames : list (Result string WsMessage)) (c : WebSocketConnection)
    : WebSocketConnection * BResult (option SignalingMessage) :=
  let at_ rest := mkConnection (mkSocket rest (sent (socket c)) (send_error (socket c)))
                    (conn_max_message_size c) in
  match frames with
  | [] => (at_ [], Err (ErrSignaling "signaling connection dropped"))
  | Err error :: rest =>
      (at_ rest, Err (ErrSignaling ("signaling socket receive error: " +:+ error)))
  | Ok frame :: rest =>
      match frame with
      | WsText payload =>
          if str_len payload >? conn_max_message_size c
          then (at_ rest, Err (ErrSignaling ("received signaling message exceeds "
                                 +:+ dec (conn_max_message_size c) +:+ " byte limit")))
          else (at_ rest, map_ok Some (decode_message payload))
      | WsBinary _ =>
          (at_ rest, Err (ErrSignaling "signaling transport accepts JSON text frames only"))
      | WsPing payload =>
          match socket_op c (WsPong payload) "failed to respond to signaling ping: " with
          | (c, Err e) => (mkConnection (mkSocket rest (sent (socket c)) (send_error (socket c)))
                             (conn_max_message_size c), Err e)
          | (c, Ok _) => recv_loop rest c
          end
      | WsPong _ => recv_loop rest c
      | WsClose => (at_ rest, Ok None)
      | WsFrame => recv_loop rest c
      end
  end.

Definition conn_recv (c : WebSocketConnection)
    : WebSocketConnection * BResult (option SignalingMessage) :=
  recv_loop (inbox (socket c)) c.
End codec.

(** ** The endpoint policy *)

Inductive EndpointPolicy := PublicOnly | AllowLocal.

#[export] Instance EndpointPolicy_eq_dec : EqDecision EndpointPolicy.
Proof. solve_decision. Defined.

Definition endpoint_policy_default : EndpointPolicy := PublicOnly.

Definition is_unspecified_or_multicast (i : IpAddr) : bool :=
  match i with
  | V4 a => (o1 a =? 0) || v4_is_multicast a || v4_is_broadcast a
  | V6 a => v6_is_unspecified a || v6_is_multicast a
  end.

Definition is_ipv4_shared_or_reserved (a : Ipv4Addr) : bool :=
  ((o1 a =? 100) && (64 <=? o2 a) && (o2 a <=? 127))
  || ((o1 a =? 192) && (o2 a =? 0) && (o3 a =? 0))
  || ((o1 a =? 192) && (o2 a =? 0) && (o3 a =? 2))
  || ((o1 a =? 192) && (o2 a =? 88) && (o3 a =? 99))
  || ((o1 a =? 198) && (18 <=? o2 a) && (o2 a <=? 19))
  || ((o1 a =? 198) && (o2 a =? 51) && (o3 a =? 100))
  || ((o1 a =? 203) && (o2 a =? 0) && (o3 a =? 113))
  || ((240 <=? o1 a) && (o1 a <=? 255)).

Definition is_ipv6_local (a : Ipv6Addr) : bool :=
  (Z.land (s0 a) 0xfe00 =? 0xfc00) || (Z.land (s0 a) 0xffc0 =? 0xfe80).
Definition is_ipv6_documentation (a : Ipv6Addr) : bool := (s0 a =? 0x2001) && (s1 a =? 0x0db8).

(** The recursive call of [is_non_public_ip] is on an IPv4 address. *)
Definition is_non_public_ipv4 (a : Ipv4Addr) : bool :=
  is_unspecified_or_multicast (V4 a)
  || (v4_is_private a || v4_is_loopback a || v4_is_link_local a || is_ipv4_shared_or_reserved a).
Definition is_non_public_ip (i : IpAddr) : bool :=
  match i with
  | V4 a => is_non_public_ipv4 a
  | V6 a => is_unspecified_or_multicast (V6 a)
            || (match to_ipv4_mapped a with Some m => is_non_public_ipv4 m | None => false end
                || v6_is_loopback a || is_ipv6_local a || is_ipv6_documentation a)
  end.

Definition policy_validate_ip (p : EndpointPolicy) (i : IpAddr) : BResult unit :=
  let blocked := match p with
                 | PublicOnly => is_non_public_ip i
                 | AllowLocal => is_unspecified_or_multicast i
                 end in
  fail_if! blocked
    with ErrSignaling ("signaling endpoint resolves to a disallowed address: " +:+ ip_display i) in
  Ok tt.

(** The [for] loop over the resolved addresses. *)
Fixpoint validate_ips (p : EndpointPolicy) (l : list SocketAddr) : BResult unit :=
  match l with
  | [] => Ok tt
  | a :: l => let? _ := policy_validate_ip p (ip a) in validate_ips p l
  end.

(** ** The client *)

Record ReconnectPolicy := mkReconnect { max_retries : Z; retry_delay : Z }.

Definition reconnect_none : ReconnectPolicy := mkReconnect 0 0.
Definition reconnect_limited (max_retries retry_delay : Z) : ReconnectPolicy :=
  mkReconnect max_retries retry_delay.

Record SignalingClient := mkClient {
  endpoint : Url;
  endpoint_policy : EndpointPolicy;
  max_message_size : Z;
  reconnect : ReconnectPolicy;
}.

(** [Url::parse] is the [url] crate's parser. *)
Definition client_new (url_parse : string -> Result string Url) (text : string)
    : BResult SignalingClient :=
  let? u := map_err (fun error => ErrSignaling ("invalid signaling URL: " +:+ error))
              (url_parse text) in
  fail_if! negb (str_eqb (url_scheme u) "ws" || str_eqb (url_scheme u) "wss")
           || negb (is_some (url_host_str u))
    with ErrSignaling "signaling URL must use ws or wss and include a host" in
  Ok (mkClient u endpoint_policy_default DEFAULT_MAX_MESSAGE_SIZE reconnect_none).

Definition with_endpoint_policy (c : SignalingClient) (p : EndpointPolicy) : SignalingClient :=
  mkClient (endpoint c) p (max_message_size c) (reconnect c).
Definition with_max_message_size (c : SignalingClient) (n : Z) : BResult SignalingClient :=
  fail_if! n =? 0
    with ErrSignaling "maximum signaling message size must be greater than zero" in
  Ok (mkClient (endpoint c) (endpoint_policy c) n (reconnect c)).
Definition with_reconnect_policy (c : SignalingClient) (r : ReconnectPolicy) : SignalingClient :=
  mkClient (endpoint c) (endpoint_policy c) (max_message_size c) r.

(** What the client asks of the system: [tokio::net::lookup_host],
    [connect_async] and [tokio::time::sleep]. *)
Class Dialer (W : Type) := {
  lookup_host : string -> Z -> W -> W * Result string (list SocketAddr);
  connect_async : Url -> W -> W * Result string Socket;
  sleep : Z -> W -> W;
}.

Section client.
Context `{Base64} `{SerdeJson WireMessage} {W : Type} `{Dialer W}.

Definition validate_endpoint (p : EndpointPolicy) (u : Url) : SM W BlnkError unit :=
  let* host := liftS (ok_or (url_host_str u) (ErrSignaling "signaling URL must include a host")) in
  let* port := liftS (ok_or (url_port_or_known_default u)
                        (ErrSignaling "signaling URL must use ws or wss")) in
  let* addresses := (fun w =>
    let '(w, r) := lookup_host host port w in
    (w, map_err (fun error => ErrSignaling ("failed to resolve signaling endpoint " +:+ host
                                +:+ ":" +:+ dec port +:+ ": " +:+ error)) r)) in
  do* liftS (validate_ips p addresses) in
  liftS (fail_if! is_nil addresses
           with ErrSignaling ("signaling endpoint " +:+ host +:+ ":" +:+ dec port
                              +:+ " resolved to no addresses") in
         Ok tt).

Definition client_connect (c : SignalingClient) : SM W BlnkError WebSocketConnection :=
  do* validate_endpoint (endpoint_policy c) (endpoint c) in
  let* s := (fun w =>
    let '(w, r) := connect_async (endpoint c) w in
    (w, map_err (fun error => ErrSignaling ("failed to connect signaling socket: " +:+ error)) r)) in
  liftS (connection_new s (max_message_size c)).

Definition transact (c : SignalingClient) (request : SignalingMessage)
    : SM W BlnkError SignalingMessage :=
  let* connection := client_connect c in
  match conn_send request connection with
  | (_, Err e) => failS e
  | (connection, Ok _) =>
      match conn_recv connection with
      | (_, Err e) => failS e
      | (_, Ok (Some m)) => retS m
      | (_, Ok None) => failS (ErrSignaling "signaling peer closed before response")
      end
  end.

(** The retry loop shared by [connect_with_retry] and [transact_with_retry]:
    [remaining] is [max_retries - attempt]. *)
Fixpoint retry_loop {A} (delay : Z) (remaining : nat) (call : SM W BlnkError A)
    : SM W BlnkError A :=
  fun w =>
  match call w with
  | (w, Ok a) => (w, Ok a)
  | (w, Err error) =>
      match remaining with
      | S remaining => retry_loop delay remaining call (if delay =? 0 then w else sleep delay w)
      | O => (w, Err error)
      end
  end.

Definition connect_with_retry (c : SignalingClient) : SM W BlnkError WebSocketConnection :=
  retry_loop (retry_delay (reconnect c)) (Z.to_nat (max_retries (reconnect c)))
    (client_connect c).
Definition transact_with_retry (c : SignalingClient) (request : SignalingMessage)
    : SM W BlnkError SignalingMessage :=
  retry_loop (retry_delay (reconnect c)) (Z.to_nat (max_retries (reconnect c)))
    (transact c request).
End client.

(** ** The fixture server *)

Record FixtureConfig := mkFixtureConfig {
  fx_pairing_code : string;
  close_first_connection_before_response : bool;
  close_first_connection_after_response : bool;
  send_malformed_response_on_first_register : bool;
}.

Definition fixture_config_default : FixtureConfig := mkFixtureConfig "123456" false false false.

Record FixtureSnapshot := mkSnapshot {
  connection_count : Z;
  received_messages : list SignalingMessage;
}.

Definition snapshot_default : FixtureSnapshot := mkSnapshot 0 [].

Section fixture.
Context `{Base64} `{SerdeJson WireMessage}.

(** The check [start_with_config] makes before it binds the listener. *)
Definition fixture_start_check (config : FixtureConfig) : BResult unit :=
  let? _ := register_response_new (fx_pairing_code config) in Ok tt.

(** [fixture_connection_loop]: every iteration consumes a frame or ends; the
    result is [None] when [fuel] runs out. *)
Fixpoint fixture_connection_loop (fuel : nat) (c : WebSocketConnection) (connection_index : Z)
    (config : FixtureConfig) (snapshot : FixtureSnapshot)
    : option (WebSocketConnection * FixtureSnapshot) :=
  match fuel with
  | O => None
  | S fuel =>
      match conn_recv c with
      | (c, Ok None) | (c, Err _) => Some (c, snapshot)
      | (c, Ok (Some message)) =>
          let snapshot := mkSnapshot (connection_count snapshot)
                            (received_messages snapshot ++ [message]) in
          match message with
          | SmRegister _ =>
              if (connection_index =? 0) && close_first_connection_before_response config
              then Some ((conn_close c).1, snapshot) else
              if (connection_index =? 0) && send_malformed_response_on_first_register config
              then Some ((send_text "{not valid json" c).1, snapshot) else
              match register_response_new (fx_pairing_code config) with
              | Err _ => Some (c, snapshot)
              | Ok response =>
                  match conn_send (SmRegistered response) c with
                  | (c, Err _) => Some (c, snapshot)
                  | (c, Ok _) =>
                      if (connection_index =? 0) && close_first_connection_after_response config
                      then Some ((conn_close c).1, snapshot)
                      else fixture_connection_loop fuel c connection_index config snapshot
                  end
              end
          | _ =>
              let c :=
                match signaling_error_new "fixture does not implement this message flow" with
                | Ok error => (conn_send (SmError error) c).1
                | Err _ => c
                end in
              fixture_connection_loop fuel c connection_index config snapshot
          end
      end
  end.

(** The task of an accepted connection. *)
Definition fixture_serve (s : Socket) (connection_index : Z) (config : FixtureConfig)
    (snapshot : FixtureSnapshot) : option (Socket * FixtureSnapshot) :=
  let snapshot := mkSnapshot (saturating_add USIZE_MAX (connection_count snapshot) 1)
                    (received_messages snapshot) in
  match connection_new s DEFAULT_MAX_MESSAGE_SIZE with
  | Err _ => Some (s, snapshot)
  | Ok c =>
      match fixture_connection_loop (S (length (inbox s))) c connection_index config snapshot with
      | Some (c, snapshot) => Some (socket c, snapshot)
      | None => None
      end
  end.
End fixture.

(** ** Well-formed messages *)

Definition nonblank (s : string) : Prop := trim_is_empty s = false.
Definition six_digits (s : string) : Prop :=
  str_len s = 6 /\ Forall (fun b => is_ascii_digit b = true) (as_bytes s).
Definition ice_wf (s : IceServer) : Prop := nonblank (ice_urls s).

(** What a message of each kind must satisfy. *)
Definition message_wf (m : SignalingMessage) : Prop :=
  match m with
  | SmRegister m => rq_message_type m = "register" /\ nonblank (rq_uid m)
                    /\ nonblank (rq_public_key m) /\ rq_protocol m = PROTOCOL_VERSION
  | SmRegistered m => rs_message_type m = "registered" /\ six_digits (rs_pairing_code m)
  | SmRequest m => cr_message_type m = "request" /\ nonblank (cr_client_id m)
                   /\ Forall ice_wf (cr_ice_servers m)
  | SmOffer m => of_message_type m = "offer" /\ nonblank (of_client_id m) /\ nonblank (of_sdp m)
  | SmAnswer m => an_message_type m = "answer" /\ nonblank (an_client_id m)
                  /\ nonblank (an_sdp m) /\ nonblank (an_encrypted_request m)
  | SmCandidate m => ca_message_type m = "candidate" /\ nonblank (ca_client_id m)
                     /\ ca_candidate m <> ∅
  | SmPairRequest m => pq_message_type m = "pair_request" /\ nonblank (pq_client_id m)
                       /\ Forall ice_wf (pq_ice_servers m)
  | SmPairAnswer m => pa_message_type m = "pair_answer" /\ nonblank (pa_client_id m)
                      /\ nonblank (pa_sdp m)
  | SmPairApproved m => pp_message_type m = "pair_approved" /\ nonblank (pp_client_id m)
  | SmPairRejected m => pj_message_type m = "pair_rejected" /\ nonblank (pj_client_id m)
                        /\ nonblank (pj_reason m)
  | SmError m => se_message_type m = "error" /\ nonblank (se_message m)
  end.

Lemma ice_wf_validate s : ice_server_validate s = Ok tt <-> ice_wf s.
Proof. apply require_non_empty_ok. Qed.

Lemma message_validate_wf m : message_validate m = Ok tt <-> message_wf m.
Proof.
  destruct m as [m|m|m|m|m|m|m|m|m|m|m]; cbn;
    unfold register_request_validate, register_response_validate, connection_request_validate,
      offer_validate, answer_validate, candidate_validate, pair_request_validate,
      pair_answer_validate, pair_approved_validate, pair_rejected_validate,
      signaling_error_validate, nonblank, six_digits;
    autorewrite with blnk_rw; try tauto.
  - (* request *) setoid_rewrite ice_wf_validate. tauto.
  - (* candidate *) case_bool_decide; naive_solver.
  - (* pair request *) setoid_rewrite ice_wf_validate. tauto.
Qed.

Section codec_lemmas.
Context `{Base64Laws} {J : SerdeJson WireMessage}.

Lemma ice_collect l : Forall ice_wf l -> collect_results ice_try_from (wire_ice_from <$> l) = Ok l.
Proof.
  intros Hl. apply collect_section. eapply Forall_impl; [exact Hl|].
  intros [u n c] Hs%ice_wf_validate. unfold ice_try_from, wire_ice_from; cbn in *. by rewrite Hs.
Qed.

(** Decoding the encoded entries of a map, in whatever order, gives the map. *)
Lemma streams_roundtrip (m : gmap string (list byte)) :
  exists entries,
    collect_results decode_stream_entry (btree_entries (standard_encode <$> m)) = Ok entries /\
    list_to_map entries = m.
Proof.
  set (g := prod_map (@id string) standard_encode).
  assert (Hp : btree_entries (standard_encode <$> m) ≡ₚ g <$> map_to_list m).
  { rewrite btree_entries_perm, map_to_list_fmap. done. }
  apply Permutation_map_inv in Hp as (l & Hl & Hm). rewrite Hl.
  exists l. split.
  - apply (collect_section decode_stream_entry g). apply Forall_forall. intros [k v] _.
    unfold decode_stream_entry. cbn. by rewrite standard_roundtrip.
  - rewrite <- (list_to_map_to_list m). symmetry. apply list_to_map_proper; [|done].
    apply NoDup_fst_map_to_list.
Qed.

Lemma to_wire_try_from m w : to_wire m = Ok w -> message_try_from w = Ok m.
Proof.
  unfold to_wire. destruct (message_validate m) as [[]|] eqn:Hv; [|done]. intros Hw.
  pose proof Hv as Hwf. apply message_validate_wf in Hwf.
  destruct m as [m|m|m|m|m|m|m|m|m|m|m]; destruct m; cbn in Hw; simplify_eq; cbn in Hwf;
    destruct_and?; subst; unfold message_try_from; rewrite ?ice_collect by done;
    try by rewrite Hv.
  match goal with |- context [standard_encode <$> ?x] =>
    destruct (streams_roundtrip x) as (entries & -> & ->) end.
  by rewrite Hv.
Qed.

Lemma try_from_wf w m : message_try_from w = Ok m -> message_wf m.
Proof.
  unfold message_try_from. destruct (match w with WireRegister _ _ _ _ => _ | _ => _ end); [|done].
  destruct (message_validate t) as [[]|] eqn:Hv; [|done]. intros. simplify_eq.
  by apply message_validate_wf.
Qed.
End codec_lemmas.

(** C21: encoding and decoding are inverse: a well-formed message is encoded, and the
    text it becomes decodes to the same message (discriminator, optional fields,
    ICE servers and binary stream entries included), although the wire schema
    renames fields and drops the discriminator; a message that is not well formed
    is refused by the encoder. *)
Theorem signaling_roundtrip `{Base64Laws} {J : SerdeJson WireMessage} m :
  (forall w, to_wire m = Ok w -> json_roundtrips w) ->
  (message_wf m -> exists s, encode_message m = Ok s /\ decode_message s = Ok m) /\
  (~ message_wf m -> exists e, encode_message m = Err e).
Proof.
  intros Hj. unfold encode_message. split.
  - intros Hwf%message_validate_wf. destruct (to_wire m) as [w|] eqn:Hw.
    2: { unfold to_wire in Hw. by rewrite Hwf in Hw. }
    destruct (Hj w eq_refl) as (s & Hs & Hp). exists s. rewrite Hs. split; [done|].
    unfold decode_message. rewrite Hp. by apply to_wire_try_from.
  - intros Hwf. unfold to_wire. destruct (message_validate m) as [[]|e] eqn:Hv; [|by eexists].
    exfalso. by apply Hwf, message_validate_wf.
Qed.

(** whatever the signaling service sends, a payload that decodes gives a
    well-formed message (its discriminator is the one of its constructor, the
    required fields are not blank, codes have six digits, the protocol version is
    the supported one, there is a candidate, ICE servers have a URL), and a
    message that the encoder accepts is well formed: the transport carries no
    other messages in either direction. *)
Theorem transport_well_typed `{B : Base64} {J : SerdeJson WireMessage} payload m :
  (decode_message payload = Ok m -> message_wf m) /\
  (encode_message m = Ok payload -> message_wf m).
Proof.
  split.
  - unfold decode_message. destruct (map_err _ _); [|done]. apply try_from_wf.
  - unfold encode_message, to_wire. destruct (message_validate m) as [[]|] eqn:Hv; [|done].
    intros _. by apply message_validate_wf.
Qed.

(** ** The endpoint policy *)

Lemma non_public_ipv4_eq a :
  is_non_public_ipv4 a = v4_always_disallowed a || v4_private_or_local a.
Proof.
  unfold is_non_public_ipv4, v4_always_disallowed, v4_private_or_local,
    is_unspecified_or_multicast, is_ipv4_shared_or_reserved, is_reserved_ipv4.
  destruct (o1 a =? 0) eqn:E0; [by rewrite !orb_true_r|].
  unfold v4_is_unspecified. rewrite E0. cbn [andb orb].
  repeat match goal with |- context [v4_is_multicast a] => destruct (v4_is_multicast a)
    | |- context [v4_is_broadcast a] => destruct (v4_is_broadcast a) end; cbn [orb]; try done.
  all: rewrite ?orb_false_l; apply orb_comm.
Qed.

Lemma non_public_eq i : is_non_public_ip i = is_always_disallowed i || is_private_or_local i.
Proof.
  destruct i as [a|a]; cbn; [apply non_public_ipv4_eq|].
  unfold is_reserved_ipv6, is_ipv6_documentation, is_ipv6_local,
    is_ipv6_unique_local_or_link_local.
  destruct (to_ipv4_mapped a) as [m|]; rewrite ?non_public_ipv4_eq;
    destruct (v6_is_unspecified a), (v6_is_multicast a), (v6_is_loopback a),
      ((s0 a =? 0x2001) && (s1 a =? 0x0db8)),
      ((Z.land (s0 a) 0xfe00 =? 0xfc00) || (Z.land (s0 a) 0xffc0 =? 0xfe80));
    cbn; try done;
    destruct (v4_always_disallowed m), (v4_private_or_local m); done.
Qed.

(** the signaling endpoint check and the proxy's address check, written
    independently, decide the same addresses: the default policy accepts an
    address exactly when a proxy policy without the local-target opt-in does,
    and the local policy accepts every address the default one accepts. *)
Theorem endpoint_policy_agrees_with_proxy (p : ProxyPolicy) i :
  allow_local_targets p = false ->
  (policy_validate_ip PublicOnly i = Ok tt <-> validate_ip p i = Ok tt) /\
  (policy_validate_ip PublicOnly i = Ok tt -> policy_validate_ip AllowLocal i = Ok tt).
Proof.
  intros Hp. unfold policy_validate_ip, validate_ip. rewrite Hp, non_public_eq, andb_true_r.
  split; [by destruct (_ || _)|].
  destruct (is_always_disallowed i || is_private_or_local i) eqn:E; [done|].
  destruct (is_unspecified_or_multicast i) eqn:Eu; [|done].
  rewrite <- non_public_eq in E. destruct i as [a|a]; cbn in E, Eu.
  - unfold is_non_public_ipv4 in E. cbn in E. by rewrite Eu in E.
  - by rewrite Eu in E.
Qed.

(** ** Dialling and retries *)

Inductive DialEvent :=
| Looked (host : string) (port : Z) (answer : Result string (list SocketAddr))
| Dialed (u : Url)
| Slept (d : Z).

(** An environment that also writes down what the client asks of it. *)
#[export] Instance logged_dialer {W} `{Dialer W} : Dialer (W * list DialEvent) := {
  lookup_host h p '(w, log) :=
    let '(w, r) := lookup_host h p w in ((w, log ++ [Looked h p r]), r);
  connect_async u '(w, log) :=
    let '(w, r) := connect_async u w in ((w, log ++ [Dialed u]), r);
  sleep d '(w, log) := (sleep d w, log ++ [Slept d]);
}.

(** What one attempt may do: nothing (a URL without host or port), a lookup, or
    a lookup whose answer the policy accepts followed by one dial. *)
Definition attempt_log (p : EndpointPolicy) (u : Url) (seg : list DialEvent) : Prop :=
  seg = [] \/
  exists host port answer,
    url_host_str u = Some host /\ url_port_or_known_default u = Some port /\
    (seg = [Looked host port answer] \/
     exists addrs, answer = Ok addrs /\ addrs <> [] /\
       Forall (fun a => policy_validate_ip p (ip a) = Ok tt) addrs /\
       seg = [Looked host port answer; Dialed u]).

Definition pause_log (delay : Z) : list DialEvent := if delay =? 0 then [] else [Slept delay].

Fixpoint join_attempts (delay : Z) (segs : list (list DialEvent)) : list DialEvent :=
  match segs with
  | [] => []
  | [seg] => seg
  | seg :: segs => seg ++ pause_log delay ++ join_attempts delay segs
  end.

Lemma validate_ips_ok p l :
  validate_ips p l = Ok tt <-> Forall (fun a => policy_validate_ip p (ip a) = Ok tt) l.
Proof.
  induction l as [|a l IH]; cbn; [by rewrite Forall_nil|]. by rewrite seq_ok, Forall_cons, IH.
Qed.

Section dialling.
Context `{Base64} `{SerdeJson WireMessage} {W : Type} `{Dialer W}.

(** One call that makes one attempt. *)
Definition attempts_once {A} (p : EndpointPolicy) (u : Url)
    (call : SM (W * list DialEvent) BlnkError A) : Prop :=
  forall w log, exists w' seg r,
    call (w, log) = ((w', log ++ seg), r) /\ attempt_log p u seg.

Lemma connect_attempts_once c :
  attempts_once (endpoint_policy c) (endpoint c) (client_connect c).
Proof.
  intros w log. unfold client_connect, validate_endpoint, bindS, liftS.
  destruct (url_host_str (endpoint c)) as [host|] eqn:Hh; cbn.
  2: { eexists w, [], _. rewrite app_nil_r. split; [done|]. by left. }
  destruct (url_port_or_known_default (endpoint c)) as [port|] eqn:Hp; cbn.
  2: { eexists w, [], _. rewrite app_nil_r. split; [done|]. by left. }
  destruct (lookup_host host port w) as [w1 [addrs|e]] eqn:Hl; cbn.
  2: { eexists _, [_], _. split; [done|]. right. exists host, port, (Err e). eauto. }
  destruct (validate_ips (endpoint_policy c) addrs) as [[]|e] eqn:Hv.
  2: { eexists _, [_], _. split; [done|]. right. exists host, port, (Ok addrs). eauto. }
  destruct (is_nil addrs) eqn:Hn.
  { eexists _, [_], _. split; [done|]. right. exists host, port, (Ok addrs). eauto. }
  destruct (connect_async (endpoint c) w1) as [w2 [s|e]] eqn:Hc; cbn.
  all: eexists _, [_; _], _; rewrite <- app_assoc; split; [done|]; right;
    exists host, port, (Ok addrs); split_and!; try done; right; exists addrs;
    split_and!; try done; [by destruct addrs|by apply validate_ips_ok].
Qed.

Lemma attempts_once_bind {A B} p u (call : SM (W * list DialEvent) BlnkError A)
    (k : A -> Result BlnkError B) :
  attempts_once p u call -> attempts_once p u (let* a := call in liftS (k a)).
Proof.
  intros Hc w log. destruct (Hc w log) as (w' & seg & r & Hr & Hs). unfold bindS, liftS.
  rewrite Hr. destruct r as [a|e]; by eexists w', seg, _.
Qed.

(** [transact] is a connect followed by an exchange that touches no other part
    of the world. *)
Definition exchange (request : SignalingMessage) (c : WebSocketConnection)
    : BResult SignalingMessage :=
  match conn_send request c with
  | (_, Err e) => Err e
  | (c, Ok _) =>
      match conn_recv c with
      | (_, Err e) => Err e
      | (_, Ok (Some m)) => Ok m
      | (_, Ok None) => Err (ErrSignaling "signaling peer closed before response")
      end
  end.
End dialling.

Lemma transact_exchange `{Base64} `{SerdeJson WireMessage} {W} `{Dialer W} c request (w : W) :
  transact c request w = (let* conn := client_connect c in liftS (exchange request conn)) w.
Proof.
  unfold transact, exchange, bindS, liftS. destruct (client_connect c w) as [w' [conn|e]]; [|done].
  destruct (conn_send request conn) as [c' [u|e]]; [|done].
  by destruct (conn_recv c') as [c2 [[m|]|e]].
Qed.

Section retries.
Context `{Base64} `{SerdeJson WireMessage} {W : Type} `{Dialer W}.

Lemma transact_attempts_once c request :
  attempts_once (W := W) (endpoint_policy c) (endpoint c) (transact c request).
Proof.
  intros w log. rewrite transact_exchange. apply attempts_once_bind, connect_attempts_once.
Qed.

Lemma retry_log {A} p u delay n (call : SM (W * list DialEvent) BlnkError A) :
  attempts_once p u call ->
  forall w log w' log' r, retry_loop delay n call (w, log) = ((w', log'), r) ->
  exists segs, (1 <= length segs <= S n)%nat /\ Forall (attempt_log p u) segs /\
    log' = log ++ join_attempts delay segs /\ (is_ok r = false -> length segs = S n).
Proof.
  intros Hcall. induction n as [|n IH]; intros w log w' log' r Hr; cbn [retry_loop] in Hr;
    destruct (Hcall w log) as (w1 & seg & r1 & Hc & Hs); rewrite Hc in Hr; destruct r1 as [a|e];
    simplify_eq.
  1-3: exists [seg]; cbn; split_and!; try done; try lia; by apply Forall_singleton.
  assert (Hp : (if delay =? 0 then (w1, log ++ seg) else sleep delay (w1, log ++ seg))
               = ((if delay =? 0 then w1 else sleep delay w1), (log ++ seg) ++ pause_log delay)).
  { unfold pause_log. destruct (delay =? 0); [by rewrite app_nil_r|done]. }
  rewrite Hp in Hr. apply IH in Hr as (segs & Hl & Hf & -> & Hn).
  exists (seg :: segs). split_and!; cbn; try lia; try done.
  - by constructor.
  - destruct segs as [|s segs]; [cbn in Hl; lia|]. by rewrite <- !app_assoc.
  - intros He. rewrite Hn by done. done.
Qed.

(** The log of a call with retries: at most one attempt more than the allowed
    retries, all of them when the call fails. *)
Definition dials_checked {A} (c : SignalingClient) (call : SM (W * list DialEvent) BlnkError A)
    (w : W) : Prop :=
  let '((_, log), r) := call (w, []) in
  exists segs, 1 <= zlen segs <= max_retries (reconnect c) + 1 /\
    Forall (attempt_log (endpoint_policy c) (endpoint c)) segs /\
    log = join_attempts (retry_delay (reconnect c)) segs /\
    (is_ok r = false -> zlen segs = max_retries (reconnect c) + 1).

Lemma retry_dials_checked {A} c (call : SM (W * list DialEvent) BlnkError A) w :
  0 <= max_retries (reconnect c) ->
  attempts_once (endpoint_policy c) (endpoint c) call ->
  dials_checked c (retry_loop (retry_delay (reconnect c))
                     (Z.to_nat (max_retries (reconnect c))) call) w.
Proof.
  intros Hm Hc. unfold dials_checked, zlen.
  destruct (retry_loop _ _ _ (w, [])) as [[w' log] r] eqn:Hr.
  apply (retry_log _ _ _ _ _ Hc) in Hr as (segs & Hl & Hf & -> & Hn).
  exists segs. split_and!; try done; try lia. intros He. rewrite Hn by done. lia.
Qed.

(** C37: the signaling client dials only after a lookup, in the same attempt,
    whose answer is non-empty and accepted by the endpoint policy as a whole; a
    connection with retries makes at most one attempt more than the allowed
    retries, sleeping between them only, and reports an error only when all
    attempts are used. The same holds for a request with retries. *)
Theorem dials_are_checked (c : SignalingClient) (request : SignalingMessage) (w : W) :
  0 <= max_retries (reconnect c) ->
  dials_checked c (connect_with_retry c) w /\ dials_checked c (transact_with_retry c request) w.
Proof.
  intros Hm. split; apply retry_dials_checked; try done;
    [apply connect_attempts_once|apply transact_attempts_once].
Qed.
End retries.

(** ** Receiving *)

(** Frames [recv] passes over. *)
Definition is_control (m : WsMessage) : bool :=
  match m with WsPing _ | WsPong _ | WsFrame => true | _ => false end.

(** The answers to the pings among them. *)
Definition pongs (l : list WsMessage) : list WsMessage :=
  omap (fun m => match m with WsPing p => Some (WsPong p) | _ => None end) l.

Section receiving.
Context `{Base64} `{SerdeJson WireMessage}.

Lemma recv_loop_ok frames c c' r :
  recv_loop frames c = (c', Ok r) ->
  exists skipped next rest,
    frames = (Ok <$> skipped) ++ Ok next :: rest /\ forallb is_control skipped = true /\
    inbox (socket c') = rest /\ sent (socket c') = sent (socket c) ++ pongs skipped /\
    send_error (socket c') = send_error (socket c) /\
    conn_max_message_size c' = conn_max_message_size c /\
    match r with
    | Some m => exists payload, next = WsText payload /\ decode_message payload = Ok m /\
                  str_len payload <= conn_max_message_size c
    | None => next = WsClose
    end.
Proof.
  revert c. induction frames as [|[m|e] frames IH]; intros c Hr; cbn in Hr; [done| |done].
  assert (Hskip : forall c1, recv_loop frames c1 = (c', Ok r) -> is_control m = true ->
            sent (socket c1) = sent (socket c) ++ pongs [m] ->
            send_error (socket c1) = send_error (socket c) ->
            conn_max_message_size c1 = conn_max_message_size c ->
            exists skipped next rest,
              Ok m :: frames = (Ok <$> skipped) ++ Ok next :: rest /\ forallb is_control skipped = true /\
              inbox (socket c') = rest /\ sent (socket c') = sent (socket c) ++ pongs skipped /\
              send_error (socket c') = send_error (socket c) /\
              conn_max_message_size c' = conn_max_message_size c /\
              match r with
              | Some m => exists payload, next = WsText payload /\ decode_message payload = Ok m /\
                            str_len payload <= conn_max_message_size c
              | None => next = WsClose
              end).
  { intros c1 H1 Hm Hs He Hz. apply IH in H1 as (sk & nx & rest & -> & Hc & Hi & Hs' & He' & Hz' & Hm').
    exists (m :: sk), nx, rest. split_and!; try done; cbn.
    - by rewrite Hm.
    - rewrite Hs', Hs, <- app_assoc. f_equal. by destruct m.
    - congruence.
    - congruence.
    - by rewrite Hz in Hm'. }
  destruct m as [payload|payload|payload|payload| |].
  - destruct (str_len payload >? conn_max_message_size c) eqn:Hz; [done|].
    destruct (decode_message payload) as [m|] eqn:Hd; [|done]. cbn in Hr. simplify_eq.
    exists [], (WsText payload), frames. cbn. rewrite app_nil_r. bool_to_prop.
    split_and!; try done. exists payload. split_and!; [done|done|lia].
  - done.
  - unfold socket_op, socket_send in Hr.
    destruct (send_error (socket c) (length (sent (socket c)))); [done|]. cbn in Hr.
    by eapply Hskip.
  - by eapply Hskip; rewrite ?app_nil_r.
  - simplify_eq. exists [], WsClose, frames. cbn. by rewrite app_nil_r.
  - by eapply Hskip; rewrite ?app_nil_r.
Qed.

(** a received message is the first text frame of the connection that is
    not a control frame, decoded, and it is within the size limit; the frames
    before it are control frames, every ping among them was answered by one
    pong with the same payload in order, nothing else was sent, and the frames
    after it are still to be read. A clean end is reported exactly for a close
    frame. *)
Theorem recv_first_message c c' r :
  conn_recv c = (c', Ok r) ->
  exists skipped next rest,
    inbox (socket c) = (Ok <$> skipped) ++ Ok next :: rest /\ forallb is_control skipped = true /\
    inbox (socket c') = rest /\ sent (socket c') = sent (socket c) ++ pongs skipped /\
    match r with
    | Some m => exists payload, next = WsText payload /\ decode_message payload = Ok m /\
                  str_len payload <= conn_max_message_size c
    | None => next = WsClose
    end.
Proof.
  intros Hr. apply recv_loop_ok in Hr as (sk & nx & rest & H1 & H2 & H3 & H4 & _ & _ & H5).
  by exists sk, nx, rest.
Qed.

Lemma recv_shrinks c c' r :
  conn_recv c = (c', Ok r) -> (length (inbox (socket c')) < length (inbox (socket c)))%nat.
Proof.
  intros Hr. apply recv_loop_ok in Hr as (sk & nx & rest & -> & _ & -> & _).
  rewrite length_app, length_fmap. cbn. lia.
Qed.

Lemma socket_op_inbox c m ctx : inbox (socket (socket_op c m ctx).1) = inbox (socket c).
Proof. unfold socket_op, socket_send. by destruct (send_error _ _). Qed.

Lemma conn_send_inbox m c : inbox (socket (conn_send m c).1) = inbox (socket c).
Proof.
  unfold conn_send, send_text. case_match; [|done]. case_match; [done|]. apply socket_op_inbox.
Qed.

(** The fixture's loop ends: it consumes a frame in every iteration. *)
Lemma fixture_loop_total fuel c index config snapshot :
  (length (inbox (socket c)) < fuel)%nat ->
  is_some (fixture_connection_loop fuel c index config snapshot) = true.
Proof.
  revert c snapshot. induction fuel as [|fuel IH]; intros c snapshot Hf; [lia|]. cbn.
  destruct (conn_recv c) as [c1 [[m|]|e]] eqn:Hr; [|done|done].
  apply recv_shrinks in Hr.
  assert (Hs : forall m, (length (inbox (socket (conn_send m c1).1)) < fuel)%nat).
  { intros. rewrite conn_send_inbox. lia. }
  destruct m; try (apply IH; apply Hs).
  destruct (_ && _); [done|]. destruct (_ && _); [done|].
  destruct (register_response_new _) as [resp|]; [|done].
  specialize (Hs (SmRegistered resp)).
  destruct (conn_send (SmRegistered resp) c1) as [c2 [u|e]]; [|done]. cbn in Hs.
  destruct (_ && _); [done|]. by apply IH.
Qed.

(** the fixture's connection task always ends: whatever frames the client
    sends, the loop finishes within the fuel the task gives it. *)
Theorem fixture_serve_total s index config snapshot :
  is_some (fixture_serve s index config snapshot) = true.
Proof.
  unfold fixture_serve.
  change (connection_new s DEFAULT_MAX_MESSAGE_SIZE)
    with (@Ok BlnkError _ (mkConnection s DEFAULT_MAX_MESSAGE_SIZE)). cbv beta iota zeta.
  match goal with |- context [fixture_connection_loop ?f ?c ?i ?g ?n] =>
    pose proof (fixture_loop_total f c i g n ltac:(cbn; lia)) as Ht;
    by destruct (fixture_connection_loop f c i g n) as [[c' sn]|] end.
Qed.
End receiving.

(** ** The client against the fixture

    A world whose only server is the fixture. The answers of a connection
    depend on what the client sends on it; [fx_request] is that one frame, and
    the theorem below shows that it is what the client sends. *)
Record FixtureWorld := mkFixtureWorld {
  fx_config : FixtureConfig;
  fx_index : Z;
  fx_snapshot : FixtureSnapshot;
  fx_request : string;
}.

Definition loopback (port : Z) : SocketAddr := mkSocketAddr (V4 (mkV4 127 0 0 1)) port 0 0.
Definition client_socket (incoming : list WsMessage) : Socket :=
  mkSocket (Ok <$> incoming) [] (fun _ => None).

#[export] Instance fixture_dialer `{Base64} `{SerdeJson WireMessage} : Dialer FixtureWorld := {
  lookup_host _ port w := (w, Ok [loopback port]);
  connect_async _ w :=
    match fixture_serve (client_socket [WsText (fx_request w)]) (fx_index w) (fx_config w)
            (fx_snapshot w) with
    | Some (s, snapshot) =>
        (mkFixtureWorld (fx_config w) (saturating_add USIZE_MAX (fx_index w) 1) snapshot
           (fx_request w), Ok (client_socket (sent s)))
    | None => (w, Err "fixture did not answer")
    end;
  sleep _ w := w;
}.

Section fixture_flow.
Context `{Base64Laws} {J : SerdeJson WireMessage}.
Context (r : RegisterRequest) (request reply code : string) (config : FixtureConfig).
Hypothesis Hrequest : encode_message (SmRegister r) = Ok request.
Hypothesis Hrequest_dec : decode_message request = Ok (SmRegister r).
Hypothesis Hreply : encode_message (SmRegistered (mkRegisterResponse "registered" code)) = Ok reply.
Hypothesis Hreply_dec :
  decode_message reply = Ok (SmRegistered (mkRegisterResponse "registered" code)).
Hypothesis Hcode : fx_pairing_code config = code.
Hypothesis Hsize : str_len request <= DEFAULT_MAX_MESSAGE_SIZE /\ str_len reply <= DEFAULT_MAX_MESSAGE_SIZE.
Hypothesis Hmode : close_first_connection_after_response config = false /\
  send_malformed_response_on_first_register config = false.

Lemma response_new : register_response_new code = Ok (mkRegisterResponse "registered" code).
Proof using Hreply.
  unfold register_response_new. revert Hreply. unfold encode_message, to_wire. cbn.
  by destruct (register_response_validate _) as [[]|].
Qed.

(** What a connection of the fixture does with the one request. *)
Lemma fixture_serve_request index snapshot :
  fixture_serve (client_socket [WsText request]) index config snapshot =
  let dropped := (index =? 0) && close_first_connection_before_response config in
  Some (mkSocket [] (if dropped then [WsClose] else [WsText reply]) (fun _ => None),
        mkSnapshot (saturating_add USIZE_MAX (connection_count snapshot) 1)
          (received_messages snapshot ++ [SmRegister r])).
Proof using Hcode Hmode Hreply Hrequest_dec Hsize.
  unfold fixture_serve, connection_new. cbn -[DEFAULT_MAX_MESSAGE_SIZE saturating_add].
  change (DEFAULT_MAX_MESSAGE_SIZE =? 0) with false. cbv iota.
  unfold conn_recv. cbn -[DEFAULT_MAX_MESSAGE_SIZE saturating_add decode_message].
  destruct Hsize as [Hs1 Hs2]. destruct Hmode as [Hm1 Hm2].
  replace (str_len request >? DEFAULT_MAX_MESSAGE_SIZE) with false
    by (symmetry; rewrite Z.gtb_ltb; lia).
  rewrite Hrequest_dec. cbn -[DEFAULT_MAX_MESSAGE_SIZE saturating_add register_response_new].
  destruct ((index =? 0) && close_first_connection_before_response config); [done|].
  rewrite Hm1, Hm2, !andb_false_r, Hcode, response_new. unfold conn_send. rewrite Hreply.
  unfold send_text. cbn -[DEFAULT_MAX_MESSAGE_SIZE saturating_add].
  replace (str_len reply >? DEFAULT_MAX_MESSAGE_SIZE) with false
    by (symmetry; rewrite Z.gtb_ltb; lia).
  done.
Qed.

Context (c : SignalingClient) (host : string) (port : Z).
Hypothesis Hhost : url_host_str (endpoint c) = Some host.
Hypothesis Hport : url_port_or_known_default (endpoint c) = Some port.
Hypothesis Hpolicy : endpoint_policy c = AllowLocal.
Hypothesis Hmax : max_message_size c = DEFAULT_MAX_MESSAGE_SIZE.

Lemma transact_fixture index snapshot :
  let dropped := (index =? 0) && close_first_connection_before_response config in
  transact c (SmRegister r) (mkFixtureWorld config index snapshot request) =
  (mkFixtureWorld config (saturating_add USIZE_MAX index 1)
     (mkSnapshot (saturating_add USIZE_MAX (connection_count snapshot) 1)
        (received_messages snapshot ++ [SmRegister r])) request,
   if dropped then Err (ErrSignaling "signaling peer closed before response")
   else Ok (SmRegistered (mkRegisterResponse "registered" code))).
Proof using All.
  intros dropped. rewrite transact_exchange.
  unfold client_connect, validate_endpoint, bindS, liftS. rewrite Hhost, Hport, Hpolicy. cbn.
  rewrite fixture_serve_request. fold dropped. cbn -[saturating_add].
  unfold connection_new. rewrite Hmax. change (DEFAULT_MAX_MESSAGE_SIZE =? 0) with false.
  cbv iota. unfold exchange, conn_send. rewrite Hrequest. unfold send_text.
  cbn -[DEFAULT_MAX_MESSAGE_SIZE saturating_add]. destruct Hsize as [Hs1 Hs2].
  replace (str_len request >? DEFAULT_MAX_MESSAGE_SIZE) with false
    by (symmetry; rewrite Z.gtb_ltb; lia).
  unfold socket_op. cbn -[DEFAULT_MAX_MESSAGE_SIZE saturating_add].
  unfold conn_recv. destruct dropped; cbn -[DEFAULT_MAX_MESSAGE_SIZE saturating_add decode_message];
    [done|].
  replace (str_len reply >? DEFAULT_MAX_MESSAGE_SIZE) with false
    by (symmetry; rewrite Z.gtb_ltb; lia).
  by rewrite Hreply_dec.
Qed.
End fixture_flow.

(** a registration survives a dropped first connection: against a server
    that closes its first connection before answering, a client with at least
    one retry gets the registration response with the server's code; the server
    saw two connections and the same request on each. Against a server that
    does not drop it, one connection is enough. *)
Theorem registration_retries `{Base64Laws} {J : SerdeJson WireMessage}
    (r : RegisterRequest) (code : string) (drop_first : bool) (c : SignalingClient) host port
    request reply :
  let answer := SmRegistered (mkRegisterResponse "registered" code) in
  let config := mkFixtureConfig code drop_first false false in
  (forall m w, m = SmRegister r \/ m = answer -> to_wire m = Ok w -> json_roundtrips w) ->
  encode_message (SmRegister r) = Ok request -> str_len request <= DEFAULT_MAX_MESSAGE_SIZE ->
  encode_message answer = Ok reply -> str_len reply <= DEFAULT_MAX_MESSAGE_SIZE ->
  url_host_str (endpoint c) = Some host -> url_port_or_known_default (endpoint c) = Some port ->
  endpoint_policy c = AllowLocal -> max_message_size c = DEFAULT_MAX_MESSAGE_SIZE ->
  1 <= max_retries (reconnect c) ->
  let '(w, result) :=
    transact_with_retry c (SmRegister r) (mkFixtureWorld config 0 snapshot_default request) in
  result = Ok answer /\
  received_messages (fx_snapshot w) =
    (if drop_first then [SmRegister r; SmRegister r] else [SmRegister r]) /\
  connection_count (fx_snapshot w) = (if drop_first then 2 else 1).
Proof.
  intros answer config Hj Hreq Hs1 Hrep Hs2 Hh Hp Hpol Hmax Hr.
  assert (Hdec : forall m s, m = SmRegister r \/ m = answer ->
            encode_message m = Ok s -> decode_message s = Ok m).
  { intros m s Hor Hm. unfold encode_message in Hm. destruct (to_wire m) as [w|] eqn:Hw; [|done].
    destruct (Hj m w Hor Hw) as (s' & Hs' & Hd). rewrite Hs' in Hm. cbn in Hm. simplify_eq.
    unfold decode_message. rewrite Hd. by apply to_wire_try_from. }
  assert (Htr := fun i sn => transact_fixture r request reply code config Hreq
    (Hdec _ _ (or_introl eq_refl) Hreq) Hrep (Hdec _ _ (or_intror eq_refl) Hrep) eq_refl (conj Hs1 Hs2) (conj eq_refl eq_refl) c host port Hh Hp Hpol Hmax i sn).
  unfold transact_with_retry.
  destruct (Z.to_nat (max_retries (reconnect c))) as [|n] eqn:Hn; [lia|].
  cbn [retry_loop]. rewrite Htr. cbn [Z.eqb andb close_first_connection_before_response config].
  destruct drop_first; [|done].
  assert (Hsl : forall d (w : FixtureWorld), (if d =? 0 then w else sleep d w) = w)
    by (intros d w; by destruct (d =? 0)).
  rewrite Hsl. destruct n as [|n]; cbn [retry_loop]; rewrite Htr; done.
Qed.

(** ** Concrete runs *)
Module Sample.
#[export] Instance WireIceServer_eq_dec : EqDecision WireIceServer.
Proof. solve_decision. Defined.
#[export] Instance WireMessage_eq_dec : EqDecision WireMessage.
Proof. solve_decision. Defined.

#[export] Instance base64 : Base64 := Concrete.base64.
#[export] Instance base64_laws : Base64Laws := Concrete.base64_laws.

(** A codec that prints the five messages of the samples. *)
Definition table : list (WireMessage * string) :=
  [(WireRegister "uid" "key" 3 true, "{register uid key 3 true}");
   (WireRegistered "123456", "{registered 123456}");
   (WireOffer "peer" "v=0" {["k" := "AQ"]}, "{offer peer v=0 k:AQ}");
   (WireError "busy", "{error busy}")].
#[export] Instance json : SerdeJson WireMessage := {
  json_to_string w :=
    match find (fun p => bool_decide (p.1 = w)) table with
    | Some (_, s) => Ok s | None => Err "not in the table" end;
  json_from_str s :=
    match find (fun p => str_eqb p.2 s) table with
    | Some (w, _) => Ok w | None => Err "expected value" end;
}.

Definition register : RegisterRequest := mkRegisterRequest "register" "uid" "key" 3 true.
Definition offer : SignalingMessage :=
  SmOffer (mkOfferMessage "offer" "peer" "v=0" {["k" := [x41; x51]]}).

Definition url (host : string) : Url :=
  mkUrl "ws" "" None (Some host) (Some 9000) (Some 9000) "/" None None.
Definition client (p : EndpointPolicy) (retries : Z) : SignalingClient :=
  mkClient (url "relay.example") p DEFAULT_MAX_MESSAGE_SIZE (mkReconnect retries 50).

(** A resolver with one answer per lookup, and a dialler that looks the host up
    again and connects to the first address. *)
Record DnsWorld := mkDns { answers : list (list SocketAddr); dialled : list SocketAddr }.
Definition public_addr : SocketAddr := mkSocketAddr (V4 (mkV4 8 8 8 8)) 9000 0 0.
Definition next_answer (w : DnsWorld) : DnsWorld * list SocketAddr :=
  match answers w with
  | [] => (w, [])
  | a :: rest => (mkDns rest (dialled w), a)
  end.
#[export] Instance dns_dialer : Dialer DnsWorld := {
  lookup_host _ _ w := let '(w, a) := next_answer w in (w, Ok a);
  connect_async _ w :=
    let '(w, a) := next_answer w in
    match a with
    | [] => (w, Err "no address")
    | x :: _ => (mkDns (answers w) (dialled w ++ [x]), Ok (client_socket []))
    end;
  sleep _ w := w;
}.
End Sample.
Import Sample.

(** The client checks the addresses of its own lookup but hands the dialler the
    URL, which looks the host up again: a name whose second answer is a loopback
    address is dialled there under the public-only policy. *)
Theorem rebinding_not_detected :
  let '(w, r) := client_connect (Sample.client PublicOnly 0)
                   (Sample.mkDns [[Sample.public_addr]; [loopback 9000]] []) in
  is_ok r = true /\ Sample.dialled w = [loopback 9000] /\
  is_ok (policy_validate_ip PublicOnly (ip (loopback 9000))) = false.
Proof. vm_compute. done. Qed.

Lemma signaling_roundtrip_witness :
  exists s, encode_message Sample.offer = Ok s /\ decode_message s = Ok Sample.offer.
Proof.
  apply (signaling_roundtrip (J := Sample.json) Sample.offer).
  - intros w Hw. vm_compute in Hw. simplify_eq. eexists. split; vm_compute; reflexivity.
  - vm_compute. done.
Defined.

Lemma transport_well_typed_witness : message_wf (SmError (mkSignalingError "error" "busy")).
Proof.
  apply (transport_well_typed (J := Sample.json) "{error busy}"). vm_compute. reflexivity.
Defined.

Lemma endpoint_policy_agrees_with_proxy_witness :
  policy_validate_ip PublicOnly (V4 (mkV4 8 8 8 8)) = Ok tt <->
  validate_ip deny_by_default (V4 (mkV4 8 8 8 8)) = Ok tt.
Proof. apply (endpoint_policy_agrees_with_proxy deny_by_default (V4 (mkV4 8 8 8 8))). reflexivity. Defined.

Lemma dials_are_checked_witness :
  dials_checked (Sample.client PublicOnly 1) (connect_with_retry (Sample.client PublicOnly 1))
    (Sample.mkDns [[loopback 9000]; [Sample.public_addr]; [Sample.public_addr]] []).
Proof.
  apply (dials_are_checked (Sample.client PublicOnly 1) Sample.offer
           (Sample.mkDns [[loopback 9000]; [Sample.public_addr]; [Sample.public_addr]] [])).
  cbn. lia.
Defined.

Lemma recv_first_message_witness :
  exists skipped next rest,
    inbox (client_socket [WsPing [x01]; WsPong []; WsText "{error busy}"; WsClose])
      = (Ok <$> skipped) ++ Ok next :: rest /\ forallb is_control skipped = true /\
    rest = [Ok WsClose] /\ pongs skipped = [WsPong [x01]].
Proof.
  destruct (recv_first_message (H0 := Sample.json)
    (mkConnection (client_socket [WsPing [x01]; WsPong []; WsText "{error busy}"; WsClose]) 100)
    (mkConnection (mkSocket [Ok WsClose] [WsPong [x01]] (fun _ => None)) 100)
    (Some (SmError (mkSignalingError "error" "busy"))) ltac:(vm_compute; reflexivity))
    as (sk & nx & rest & H1 & H2 & H3 & H4 & _).
  exists sk, nx, rest. split_and!; try done.
Defined.

Lemma registration_retries_witness :
  (transact_with_retry (Sample.client AllowLocal 1) (SmRegister Sample.register)
     (mkFixtureWorld (mkFixtureConfig "123456" true false false) 0 snapshot_default
        "{register uid key 3 true}")).2
  = Ok (SmRegistered (mkRegisterResponse "registered" "123456")).
Proof.
  assert (Hj : forall m w,
    m = SmRegister Sample.register \/ m = SmRegistered (mkRegisterResponse "registered" "123456") ->
    to_wire m = Ok w -> json_roundtrips w).
  { intros m w' Hm Hw. destruct Hm as [Hm|Hm]; subst m; vm_compute in Hw; simplify_eq;
      eexists; split; vm_compute; reflexivity. }
  generalize (registration_retries (J := Sample.json) Sample.register "123456" true
    (Sample.client AllowLocal 1) "relay.example" 9000 "{register uid key 3 true}"
    "{registered 123456}" Hj ltac:(vm_compute; reflexivity) ltac:(vm_compute; congruence)
    ltac:(vm_compute; reflexivity) ltac:(vm_compute; congruence) eq_refl eq_refl eq_refl eq_refl
    ltac:(vm_compute; congruence)).
  destruct (transact_with_retry _ _ _) as [w result]. intros Ht. apply Ht.
Defined.
