(* ===== verification/Web.v ===== *)
(** * The browser control surface

    [src/src/web/mod.rs]: the loopback-only HTTP and WebSocket server that
    creates, reports and closes browser sessions. The store of sessions is
    shared by all requests and connections behind one mutex, so every handler is
    a function from the store to the store it leaves and its answer; [Sys] at the
    end runs them in any order. Times are nanoseconds of the monotonic clock and
    are added without the panic of an out-of-range [Instant]. *)
From S2P Require Import Prelude Errors External Net ProxyPolicy.

Definition SESSION_COOKIE_NAME : string := "blnk_session".
Definition MAX_LABEL_BYTES : Z := 64.
Definition DEFAULT_SESSION_TTL : Z := from_secs 900.
Definition DEFAULT_RATE_WINDOW : Z := from_secs 60.
Definition DEFAULT_MAX_SESSION_CREATIONS : Z := 8.
Definition DEFAULT_MAX_BODY_BYTES : Z := 16 * 1024.
Definition DEFAULT_MAX_FRAME_BYTES : Z := 64 * 1024.
Definition DEFAULT_HANDSHAKE_TIMEOUT : Z := from_secs 5.

(** ** [http]: header maps

    A [HeaderMap] is the list of its entries, names in lower case. [to_str]
    accepts the values that are visible ASCII, [from_str] the texts that are
    legal values; the laws are what the crate documents of the two. *)
Abbreviation HeaderMap := (list (string * list byte)).

Class HttpHeader := {
  hv_to_str : list byte -> option string;
  hv_from_str : string -> option (list byte);
}.
Class HttpHeaderLaws `{HttpHeader} : Prop := {
  hv_to_str_same : forall v s, hv_to_str v = Some s -> as_bytes s = v;
  hv_from_str_same : forall s v, hv_from_str s = Some v -> v = as_bytes s;
}.

Definition headers_get_all (name : string) (h : HeaderMap) : list (list byte) :=
  omap (fun '(n, v) => if str_eqb n name then Some v else None) h.
Definition headers_get (name : string) (h : HeaderMap) : option (list byte) :=
  head (headers_get_all name h).
(** [insert] replaces every value of the name. *)
Definition headers_insert (name : string) (v : list byte) (h : HeaderMap) : HeaderMap :=
  filter (fun p => p.1 <> name) h ++ [(name, v)].

(** [utils::constant_time_string_eq]: equality of the SHA-256 digests. *)
Definition secure_eq `{Sha2} `{Subtle} (expected provided : string) : bool :=
  ct_eq (sha256 (as_bytes expected)) (sha256 (as_bytes provided)).

(** ** Configuration *)

Record BrowserControlConfig := mkBrowserConfig {
  bind_addr : SocketAddr;
  allowed_origin : string;
  bootstrap_token : string;
  session_ttl : Z;
  max_sessions : Z;
  max_session_creations : Z;
  rate_window : Z;
  max_body_bytes : Z;
  max_frame_bytes : Z;
  handshake_timeout : Z;
}.

Definition config_loopback (origin token : string) : BrowserControlConfig :=
  mkBrowserConfig (mkSocketAddr (V4 (mkV4 127 0 0 1)) 0 0 0) origin token DEFAULT_SESSION_TTL 8
    DEFAULT_MAX_SESSION_CREATIONS DEFAULT_RATE_WINDOW DEFAULT_MAX_BODY_BYTES
    DEFAULT_MAX_FRAME_BYTES DEFAULT_HANDSHAKE_TIMEOUT.

Definition with_bind_addr (c : BrowserControlConfig) (a : SocketAddr) : BrowserControlConfig :=
  mkBrowserConfig a (allowed_origin c) (bootstrap_token c) (session_ttl c) (max_sessions c)
    (max_session_creations c) (rate_window c) (max_body_bytes c) (max_frame_bytes c)
    (handshake_timeout c).

Definition ip_is_loopback (i : IpAddr) : bool :=
  match i with V4 a => v4_is_loopback a | V6 a => v6_is_loopback a end.

Definition config_validate `{HttpHeader} (url_parse : string -> Result string Url)
    (c : BrowserControlConfig) : BResult unit :=
  fail_if! negb (ip_is_loopback (ip (bind_addr c)))
    with ErrConfig "browser control server must bind to a loopback address" in
  fail_if! trim_is_empty (bootstrap_token c)
    with ErrConfig "browser control server requires a non-empty bootstrap token" in
  fail_if! str_eqb (allowed_origin c) "*"
    with ErrConfig "browser control server does not allow wildcard origins" in
  let? origin := map_err (fun error => ErrConfig ("invalid browser allowed origin: " +:+ error))
                   (url_parse (allowed_origin c)) in
  fail_if! negb (str_eqb (url_scheme origin) "http" || str_eqb (url_scheme origin) "https")
           || negb (is_some (url_host_str origin))
           || negb (str_is_empty (url_username origin))
           || is_some (url_password origin)
           || is_some (url_query origin)
           || is_some (url_fragment origin)
           || negb (str_eqb (url_path origin) "/")
    with ErrConfig "browser allowed origin must be an exact http(s) origin without credentials, path, query, or fragment" in
  fail_if! (session_ttl c =? 0) || (max_sessions c =? 0) || (max_session_creations c =? 0)
           || (rate_window c =? 0) || (max_body_bytes c =? 0) || (max_frame_bytes c =? 0)
           || (handshake_timeout c =? 0)
    with ErrConfig "browser control limits must be non-zero" in
  match hv_from_str (allowed_origin c) with
  | None => Err (ErrConfig "browser allowed origin is not a valid HTTP header value")
  | Some _ => Ok tt
  end.

(** ** Sessions *)

Inductive SessionState := Active | Closed.

#[export] Instance SessionState_eq_dec : EqDecision SessionState.
Proof. solve_decision. Defined.

Definition state_as_str (s : SessionState) (expires_at now : Z) : string :=
  match s with
  | Active => if expires_at <=? now then "expired" else "active"
  | Closed => "closed"
  end.

Record SessionRecord := mkSessionRecord {
  sr_id : string;
  sr_csrf_token : string;
  sr_label : option string;
  sr_expires_at : Z;
  sr_state : SessionState;
}.

#[export] Instance SessionRecord_eq_dec : EqDecision SessionRecord.
Proof. solve_decision. Defined.

Record SessionStore := mkStore {
  sessions : gmap string SessionRecord;
  creation_times : list Z;
}.

Definition store_default : SessionStore := mkStore ∅ [].

Definition set_closed (r : SessionRecord) : SessionRecord :=
  mkSessionRecord (sr_id r) (sr_csrf_token r) (sr_label r) (sr_expires_at r) Closed.

(** ** Answers *)

Inductive Body :=
| BEmpty
| BHealth (status browser_control : string)
| BError (error : string)
| BCreated (session_id csrf_token state websocket_path : string) (expires_in_secs : Z)
| BSession (session_id state websocket_path : string) (expires_in_secs : Z)
    (label : option string)
| BClosed (session_id state : string)
| BUpgrade (write_buffer max_message max_frame max_write_buffer : Z).

Record Response := mkResponse { status : Z; body : Body; headers : HeaderMap }.

Record ApiError := mkApiError { err_status : Z; err_code : string }.

Definition bad_request : ApiError := mkApiError 400 "invalid_request".
Definition unauthorized : ApiError := mkApiError 401 "unauthorized".
Definition forbidden : ApiError := mkApiError 403 "forbidden".
Definition not_found : ApiError := mkApiError 404 "not_found".
Definition gone : ApiError := mkApiError 410 "session_unavailable".
Definition payload_too_large : ApiError := mkApiError 413 "payload_too_large".
Definition too_many_requests : ApiError := mkApiError 429 "rate_limited".
Definition internal : ApiError := mkApiError 500 "internal_error".

Definition api_error_into_response (e : ApiError) : Response :=
  let r := mkResponse (err_status e) (BError (err_code e))
             [("content-type", as_bytes "application/json")] in
  if err_status e =? 401
  then mkResponse (status r) (body r)
         (headers_insert "www-authenticate" (as_bytes "Bearer realm=blnk-browser") (headers r))
  else r.

Definition json_response (status : Z) (b : Body) : Response :=
  mkResponse status b [("content-type", as_bytes "application/json")].

(** ** Request checks *)

Section checks.
Context `{HttpHeader} `{Sha2} `{Subtle}.

Definition header_str (name : string) (h : HeaderMap) : option string :=
  match headers_get name h with Some v => hv_to_str v | None => None end.

Definition origin_allowed (h : HeaderMap) (c : BrowserControlConfig) : bool :=
  match header_str "origin" h with
  | Some origin => str_eqb origin (allowed_origin c)
  | None => false
  end.

Definition require_origin (h : HeaderMap) (c : BrowserControlConfig) : Result ApiError unit :=
  if origin_allowed h c then Ok tt else Err forbidden.

Definition valid_bearer (h : HeaderMap) (expected : string) : bool :=
  match header_str "authorization" h with
  | None => false
  | Some value =>
      match strip_prefix "Bearer " value with
      | None => false
      | Some token => secure_eq token expected
      end
  end.

Definition csrf_allowed (h : HeaderMap) (expected : string) : bool :=
  match header_str "x-csrf-token" h with
  | Some actual => secure_eq actual expected
  | None => false
  end.

(** [s.split(b)]: at least one piece. *)
Fixpoint split_byte (b : byte) (acc l : list byte) : list (list byte) :=
  match l with
  | [] => [acc]
  | c :: l => if byte_val c =? byte_val b then acc :: split_byte b [] l
              else split_byte b (acc ++ [c]) l
  end.
(** [s.split_once(b)]. *)
Fixpoint split_once (b : byte) (l : list byte) : option (list byte * list byte) :=
  match l with
  | [] => None
  | c :: l => if byte_val c =? byte_val b then Some ([], l)
              else match split_once b l with
                   | Some (x, y) => Some (c :: x, y)
                   | None => None
                   end
  end.
Fixpoint drop_start_matches (b : byte) (l : list byte) : list byte :=
  match l with
  | [] => []
  | c :: l' => if byte_val c =? byte_val b then drop_start_matches b l' else l
  end.

(** One [name=value] part of a cookie header. *)
Definition cookie_part (part : list byte) : option string :=
  match split_once x3d (trim (String.string_of_list_byte part)) with
  | None => None
  | Some (name, value) =>
      if str_eqb (String.string_of_list_byte name) SESSION_COOKIE_NAME
      then Some (String.string_of_list_byte
                   (drop_end_matches x22
                      (drop_start_matches x22 (trim (String.string_of_list_byte value)))))
      else None
  end.

Definition session_cookie (h : HeaderMap) : option string :=
  let parts := concat ((fun s => split_byte x3b [] (as_bytes s))
                         <$> omap hv_to_str (headers_get_all "cookie" h)) in
  head (omap cookie_part parts).

Definition add_cors_headers (c : BrowserControlConfig) (h : HeaderMap) : HeaderMap :=
  let h := match hv_from_str (allowed_origin c) with
           | Some origin => headers_insert "access-control-allow-origin" origin h
           | None => h
           end in
  let h := headers_insert "access-control-allow-credentials" (as_bytes "true") h in
  let h := headers_insert "access-control-allow-headers"
             (as_bytes "authorization, content-type, x-csrf-token") h in
  headers_insert "access-control-allow-methods" (as_bytes "GET, POST, OPTIONS") h.

(** The middleware around every route: [request] is the headers of the
    request, [r] what the route answered. *)
Definition security_headers (c : BrowserControlConfig) (request : HeaderMap) (r : Response)
    : Response :=
  let h := headers r in
  let h := headers_insert "cache-control" (as_bytes "no-store, max-age=0") h in
  let h := headers_insert "x-content-type-options" (as_bytes "nosniff") h in
  let h := headers_insert "x-frame-options" (as_bytes "DENY") h in
  let h := headers_insert "content-security-policy" (as_bytes "frame-ancestors 'none'") h in
  let h := headers_insert "vary" (as_bytes "Origin") h in
  let h := if origin_allowed request c then add_cors_headers c h else h in
  mkResponse (status r) (body r) h.

(** ** The handlers *)

Definition health : Response := json_response 200 (BHealth "ok" "loopback-session-only").

Definition preflight (c : BrowserControlConfig) (h : HeaderMap) : Response :=
  if negb (origin_allowed h c) then api_error_into_response forbidden
  else mkResponse 204 BEmpty (add_cors_headers c []).

(** [str::parse::<usize>()]: decimal digits with an optional plus sign. *)
Fixpoint parse_digits (acc : Z) (l : list byte) : option Z :=
  match l with
  | [] => Some acc
  | b :: l =>
      let v := byte_val b in
      if (48 <=? v) && (v <=? 57)
      then let acc := acc * 10 + (v - 48) in
           if acc >? USIZE_MAX then None else parse_digits acc l
      else None
  end.
Definition parse_usize (s : string) : option Z :=
  let l := match as_bytes s with
           | b :: rest => if (byte_val b =? 43) && negb (is_nil rest) then rest else b :: rest
           | [] => []
           end in
  if is_nil l then None else parse_digits 0 l.

Record CreateSessionRequest := mkCreate { cs_label : option string }.

Definition active_at (now : Z) (r : SessionRecord) : bool :=
  bool_decide (sr_state r = Active) && (sr_expires_at r >? now).

(** [sessions.values().filter(active and unexpired).count()]. *)
Definition active_count (now : Z) (m : gmap string SessionRecord) : Z :=
  Z.of_nat (size (filter (fun p => active_at now p.2 = true) m)).

(** The two [retain]s at the start of a creation. *)
Definition retain_sessions (now : Z) (m : gmap string SessionRecord)
    : gmap string SessionRecord :=
  filter (fun p => sr_expires_at p.2 > now \/ sr_state p.2 = Closed) m.
Definition retain_times (now window : Z) (l : list Z) : list Z :=
  filter (fun t => Z.max 0 (now - t) < window) l.

Context `{Base64}.

(** [random] is the 24 bytes of [getrandom], when it works. *)
Definition random_token (random : option (list byte)) : option string :=
  url_safe_no_pad_encode <$> random.

Definition websocket_path (id : string) : string := "/api/session/" +:+ id +:+ "/ws".
Definition session_cookie_value (id : string) : string :=
  SESSION_COOKIE_NAME +:+ "=" +:+ id +:+ "; Path=/api/session; HttpOnly; SameSite=Strict".

(** The checks of [create_session] before it takes the lock. [payload] is the
    outcome of axum's JSON extractor; a rejection is its status. *)
Definition create_checks (c : BrowserControlConfig) (h : HeaderMap)
    (payload : Result Z CreateSessionRequest) : Result ApiError CreateSessionRequest :=
  let? _ := require_origin h c in
  if negb (valid_bearer h (bootstrap_token c)) then Err unauthorized else
  if match header_str "content-length" h with
     | Some value => match parse_usize value with
                     | Some length => length >? max_body_bytes c
                     | None => false
                     end
     | None => false
     end
  then Err payload_too_large else
  match payload with
  | Err rejection => if rejection =? 413 then Err payload_too_large else Err bad_request
  | Ok payload =>
      if match cs_label payload with
         | Some label => str_len label >? MAX_LABEL_BYTES
         | None => false
         end
      then Err payload_too_large else Ok payload
  end.

(** The part of [create_session] under the lock: the identifier and the CSRF
    token of the new session. [now] was read before the lock was waited for, so
    it may be behind the clock. *)
Definition create_record (c : BrowserControlConfig) (now : Z) (label : option string)
    (random_id random_csrf : option (list byte)) (store : SessionStore)
    : SessionStore * Result ApiError (string * string) :=
  let store := mkStore (retain_sessions now (sessions store))
                 (retain_times now (rate_window c) (creation_times store)) in
  if zlen (creation_times store) >=? max_session_creations c
  then (store, Err too_many_requests) else
  if active_count now (sessions store) >=? max_sessions c
  then (store, Err too_many_requests) else
  match random_token random_id with
  | None => (store, Err internal)
  | Some id =>
      match random_token random_csrf with
      | None => (store, Err internal)
      | Some csrf_token =>
          let record := mkSessionRecord id csrf_token label (now + session_ttl c) Active in
          (mkStore (<[id := record]> (sessions store)) (creation_times store ++ [now]),
           Ok (id, csrf_token))
      end
  end.

Definition create_session (c : BrowserControlConfig) (now : Z) (h : HeaderMap)
    (payload : Result Z CreateSessionRequest) (random_id random_csrf : option (list byte))
    (store : SessionStore) : SessionStore * Response :=
  match create_checks c h payload with
  | Err e => (store, api_error_into_response e)
  | Ok payload =>
      match create_record c now (cs_label payload) random_id random_csrf store with
      | (store, Err e) => (store, api_error_into_response e)
      | (store, Ok (id, csrf_token)) =>
          let r := json_response 201
                     (BCreated id csrf_token "active" (websocket_path id)
                        (session_ttl c / 1000000000)) in
          let h := match hv_from_str (session_cookie_value id) with
                   | Some cookie => headers_insert "set-cookie" cookie (headers r)
                   | None => headers r
                   end in
          (store, mkResponse (status r) (body r) h)
      end
  end.

Definition authenticated_session (store : SessionStore) (session_id : string) (h : HeaderMap)
    : Result ApiError SessionRecord :=
  let? cookie := ok_or (session_cookie h) unauthorized in
  if negb (secure_eq cookie session_id) then Err unauthorized else
  let? session := ok_or (sessions store !! session_id) not_found in
  if negb (secure_eq (sr_id session) session_id) then Err unauthorized else
  Ok session.

(** What [get_session], [close_session] and [websocket] check first. *)
Definition authorized_session (c : BrowserControlConfig) (store : SessionStore)
    (session_id : string) (h : HeaderMap) : Result ApiError SessionRecord :=
  let? _ := require_origin h c in
  authenticated_session store session_id h.

Definition session_response (r : SessionRecord) (now : Z) : Body :=
  BSession (sr_id r) (state_as_str (sr_state r) (sr_expires_at r) now)
    (websocket_path (sr_id r)) (Z.max 0 (sr_expires_at r - now) / 1000000000) (sr_label r).

Definition get_session (c : BrowserControlConfig) (now : Z) (session_id : string)
    (h : HeaderMap) (store : SessionStore) : Response :=
  match authorized_session c store session_id h with
  | Err e => api_error_into_response e
  | Ok session => json_response 200 (session_response session now)
  end.

Definition close_session_record (session_id : string) (store : SessionStore) : SessionStore :=
  mkStore (alter set_closed session_id (sessions store)) (creation_times store).

(** [close_session] releases the lock between its checks and the change: the
    two halves, and the handler with [store'] the store at the second lock. *)
Definition close_check (c : BrowserControlConfig) (session_id : string) (h : HeaderMap)
    (store : SessionStore) : Result ApiError unit :=
  let? session := authorized_session c store session_id h in
  if negb (csrf_allowed h (sr_csrf_token session)) then Err forbidden else Ok tt.

Definition close_apply (session_id : string) (store : SessionStore) : SessionStore * Response :=
  match sessions store !! session_id with
  | None => (store, api_error_into_response not_found)
  | Some _ => (close_session_record session_id store,
               json_response 200 (BClosed session_id "closed"))
  end.

Definition close_session (c : BrowserControlConfig) (session_id : string) (h : HeaderMap)
    (store store' : SessionStore) : SessionStore * Response :=
  match close_check c session_id h store with
  | Err e => (store', api_error_into_response e)
  | Ok _ => close_apply session_id store'
  end.

Definition session_status (now : Z) (session_id : string) (store : SessionStore) : string :=
  match sessions store !! session_id with
  | Some r => state_as_str (sr_state r) (sr_expires_at r) now
  | None => "expired"
  end.

(** ** WebSocket connections *)

Inductive Phase := AwaitHello | Ready | Finished.

#[export] Instance Phase_eq_dec : EqDecision Phase.
Proof. solve_decision. Defined.

Record WsConn := mkWsConn { ws_session : string; ws_csrf : string; ws_phase : Phase }.

Definition websocket (c : BrowserControlConfig) (now : Z) (session_id : string) (h : HeaderMap)
    (store : SessionStore) : Response * option WsConn :=
  match authorized_session c store session_id h with
  | Err e => (api_error_into_response e, None)
  | Ok session =>
      if negb (bool_decide (sr_state session = Active)) || (sr_expires_at session <=? now)
      then (api_error_into_response gone, None) else
      let frame_limit := max_frame_bytes c in
      let write_buffer := Z.min (Z.max frame_limit 1) 1024 in
      let write_limit := Z.max (Z.min (frame_limit * 4) USIZE_MAX)
                           (saturating_add USIZE_MAX write_buffer 1) in
      (mkResponse 101 (BUpgrade write_buffer frame_limit frame_limit write_limit) [],
       Some (mkWsConn session_id (sr_csrf_token session) AwaitHello))
  end.

Inductive WsClientMessage := WsHello (csrf_token : string) | WsStatus | WsCloseCommand.
Record WsServerMessage := mkWsServer {
  wm_type : string;
  wm_session_id : string;
  wm_state : string;
}.

Inductive Message :=
| MText (text : string)
| MBinary (data : list byte)
| MPing (data : list byte)
| MPong (data : list byte)
| MClose.

(** What the connection sees next: the handshake timeout (while the hello is
    awaited), the end of the stream, an error, or a message. *)
Inductive WsEvent := EvTimeout | EvEnd | EvError | EvMessage (m : Message).

Context `{SerdeJson WsClientMessage} `{SerdeJson WsServerMessage}.

(** [socket.send(m).await.is_ok()], with [sends] the outcomes of the sends. *)
Definition ws_send (m : Message) (sends : list bool) : list Message * bool * list bool :=
  match sends with
  | ok :: sends => ([m], ok, sends)
  | [] => ([m], true, [])
  end.
Definition send_ws_json (m : WsServerMessage) (sends : list bool)
    : list Message * bool * list bool :=
  match json_to_string m with
  | Ok payload => ws_send (MText payload) sends
  | Err _ => ([], false, sends)
  end.

(** [run_websocket] advanced by one event. The result is the store, the
    connection and the frames handed to the socket; every path that ends the
    task has closed the session record. *)
Definition ws_step (now : Z) (sends : list bool) (ev : WsEvent) (conn : WsConn)
    (store : SessionStore) : SessionStore * WsConn * list Message :=
  let id := ws_session conn in
  let finish out := (close_session_record id store, mkWsConn id (ws_csrf conn) Finished, out) in
  let continue_ out := (store, mkWsConn id (ws_csrf conn) Ready, out) in
  match ws_phase conn with
  | Finished => (store, conn, [])
  | AwaitHello =>
      let authenticated :=
        match ev with
        | EvMessage (MText text) =>
            match json_from_str text with
            | Ok (WsHello csrf_token) => secure_eq csrf_token (ws_csrf conn)
            | _ => false
            end
        | _ => false
        end in
      if negb authenticated then finish [MClose] else
      let '(out, ok, _) := send_ws_json (mkWsServer "ready" id "active") sends in
      if negb ok then finish out else continue_ out
  | Ready =>
      match ev with
      | EvTimeout => (store, conn, [])
      | EvEnd | EvError => finish []
      | EvMessage (MText text) =>
          match json_from_str text with
          | Err _ => finish [MClose]
          | Ok WsStatus =>
              let '(out, ok, _) :=
                send_ws_json (mkWsServer "status" id (session_status now id store)) sends in
              if negb ok then finish out else continue_ out
          | Ok WsCloseCommand =>
              let '(out, _, _) := send_ws_json (mkWsServer "closed" id "closed") sends in
              finish (out ++ [MClose])
          | Ok (WsHello _) => finish [MClose]
          end
      | EvMessage MClose => finish []
      | EvMessage (MPing payload) =>
          let '(out, ok, _) := ws_send (MPong payload) sends in
          if negb ok then finish out else continue_ out
      | EvMessage (MPong _) => continue_ []
      | EvMessage (MBinary _) => finish [MClose]
      end
  end.
End checks.

(** ** The server

    The shared store, the open connections, the close requests that have passed
    their checks and wait for the lock, the clock, and the history of the times
    at which the store gained a session. *)
Record Sys := mkSys {
  sys_store : SessionStore;
  sys_conns : list WsConn;
  sys_closing : list string;
  sys_now : Z;
  sys_created : list Z;
}.

Definition sys_init (now : Z) : Sys := mkSys store_default [] [] now [].

(** [create_session] reads the clock before it waits for the lock: [waited] is
    the time between the two. *)
Inductive Op :=
| OCreate (waited : nat) (h : HeaderMap) (payload : Result Z CreateSessionRequest)
    (random_id random_csrf : option (list byte))
| OGet (id : string) (h : HeaderMap)
| OCloseCheck (id : string) (h : HeaderMap)
| OCloseApply (n : nat)
| OWebsocket (id : string) (h : HeaderMap)
| OWsEvent (n : nat) (ev : WsEvent) (sends : list bool)
| OTick (dt : nat).

Section server.
Context `{HttpHeader} `{Sha2} `{Subtle} `{Base64} `{SerdeJson WsClientMessage}
  `{SerdeJson WsServerMessage}.
Context (c : BrowserControlConfig).

(** The usable sessions of [store'] that [store] does not have. *)
Definition gained (store store' : SessionStore) : gmap string SessionRecord :=
  filter (fun p => sr_state p.2 = Active /\ sessions store !! p.1 <> Some p.2) (sessions store').

(** One operation on the store, the connections, the pending closes and the
    clock. *)
Definition step_state (op : Op) (s : Sys) : Sys :=
  let '(mkSys store conns closing now created) := s in
  match op with
  | OCreate waited h payload random_id random_csrf =>
      mkSys (create_session c (now - Z.of_nat waited) h payload random_id random_csrf store).1
        conns closing now created
  | OGet _ _ => s
  | OCloseCheck id h =>
      match close_check c id h store with
      | Ok _ => mkSys store conns (closing ++ [id]) now created
      | Err _ => s
      end
  | OCloseApply n =>
      match closing !! n with
      | Some id => mkSys (close_apply id store).1 conns (delete n closing) now created
      | None => s
      end
  | OWebsocket id h =>
      match (websocket c now id h store).2 with
      | Some conn => mkSys store (conns ++ [conn]) closing now created
      | None => s
      end
  | OWsEvent n ev sends =>
      match conns !! n with
      | Some conn =>
          let '(store', conn', _) := ws_step now sends ev conn store in
          mkSys store' (<[n := conn']> conns) closing now created
      | None => s
      end
  | OTick dt => mkSys store conns closing (now + Z.of_nat dt) created
  end.

(** The history is what an observer of the store sees: the time of every session
    that the operation added. *)
Definition step (op : Op) (s : Sys) : Sys :=
  let s' := step_state op s in
  mkSys (sys_store s') (sys_conns s') (sys_closing s') (sys_now s')
    (sys_created s ++ replicate (size (gained (sys_store s) (sys_store s'))) (sys_now s')).

Definition run (ops : list Op) (s : Sys) : Sys := foldl (fun s op => step op s) s ops.
End server.

(** ** Counting and purging *)

#[local] Arguments retain_times : simpl never.
#[local] Arguments retain_sessions : simpl never.
#[local] Arguments active_count : simpl never.

Lemma active_count_mono now now' m m' :
  (forall id r, m' !! id = Some r -> active_at now' r = true ->
                m !! id = Some r /\ active_at now r = true) ->
  active_count now' m' <= active_count now m.
Proof.
  intros Hsub. unfold active_count. apply Nat2Z.inj_le, map_subseteq_size.
  apply map_filter_strong_subseteq_ext. cbn. intros id r [Ha Hm].
  destruct (Hsub id r Hm Ha). done.
Qed.

Lemma active_count_insert now m id r :
  active_count now (<[id := r]> m) <= active_count now m + 1.
Proof.
  unfold active_count.
  assert (Hsub : filter (fun p => active_at now p.2 = true) (<[id := r]> m)
                 ⊆ <[id := r]> (filter (fun p => active_at now p.2 = true) m)).
  { apply map_subseteq_spec. intros i x Hi. apply map_lookup_filter_Some in Hi as [Hi Ha].
    destruct (decide (i = id)) as [->|Hne].
    - by rewrite lookup_insert_eq in Hi |- *.
    - rewrite lookup_insert_ne in Hi |- * by done. by apply map_lookup_filter_Some. }
  apply map_subseteq_size in Hsub. rewrite map_size_insert in Hsub.
  destruct (filter _ m !! id); cbn in Hsub; lia.
Qed.

Lemma retain_lookup now m id r :
  retain_sessions now m !! id = Some r <->
  m !! id = Some r /\ (sr_expires_at r > now \/ sr_state r = Closed).
Proof. unfold retain_sessions. by rewrite map_lookup_filter_Some. Qed.

Lemma active_count_retain now m :
  active_count now (retain_sessions now m) = active_count now m.
Proof.
  apply Z.le_antisymm; apply active_count_mono; intros id r Hr Ha.
  - apply retain_lookup in Hr. tauto.
  - split; [|done]. apply retain_lookup. split; [done|].
    unfold active_at in Ha. bool_to_prop. left. lia.
Qed.

Lemma close_record_lookup id j store :
  sessions (close_session_record id store) !! j =
  if decide (j = id) then set_closed <$> sessions store !! j else sessions store !! j.
Proof.
  cbn. case_decide; subst; [by rewrite lookup_alter_eq|by rewrite lookup_alter_ne].
Qed.

Lemma active_count_close now id store :
  active_count now (sessions (close_session_record id store)) <= active_count now (sessions store).
Proof.
  apply active_count_mono. intros j r Hj Ha. rewrite close_record_lookup in Hj.
  case_decide; [|done]. destruct (sessions store !! j) as [r'|]; cbn in Hj; [|done].
  by simplify_eq.
Qed.

Lemma retain_times_later now now' w l :
  now <= now' -> retain_times now' w (retain_times now w l) = retain_times now' w l.
Proof.
  intros Hn. unfold retain_times. induction l as [|t l IH]; [done|].
  rewrite !filter_cons. repeat (case_decide; rewrite ?filter_cons); try lia; by rewrite ?IH.
Qed.

Lemma retain_times_app now w l k :
  retain_times now w (l ++ k) = retain_times now w l ++ retain_times now w k.
Proof. apply filter_app. Qed.

(** ** What a creation does *)

Section facts.
Context `{HttpHeader} `{Sha2} `{Subtle} `{Base64} `{SerdeJson WsClientMessage}
  `{SerdeJson WsServerMessage}.
Context (c : BrowserControlConfig).

(** The request comes from the allowed origin and carries the bootstrap token. *)
Definition create_authorized (h : HeaderMap) : Prop :=
  origin_allowed h c = true /\ valid_bearer h (bootstrap_token c) = true.

Lemma create_checks_ok h payload p : create_checks c h payload = Ok p -> create_authorized h.
Proof.
  unfold create_checks, require_origin, create_authorized.
  destruct (origin_allowed h c); [|done]. by destruct (valid_bearer h (bootstrap_token c)).
Qed.

Definition purged (now : Z) (store : SessionStore) : SessionStore :=
  mkStore (retain_sessions now (sessions store))
    (retain_times now (rate_window c) (creation_times store)).

(** A creation refuses the request before looking at the store, or purges the
    store and refuses, or purges it and adds one session within both limits. *)
Lemma create_cases now h payload a b store store' r :
  create_session c now h payload a b store = (store', r) ->
  (store' = store /\ status r <> 201) \/
  (create_authorized h /\ store' = purged now store /\ status r <> 201) \/
  (create_authorized h /\ status r = 201 /\
   zlen (creation_times (purged now store)) < max_session_creations c /\
   active_count now (sessions store) < max_sessions c /\
   exists id csrf label, random_token a = Some id /\ random_token b = Some csrf /\
     store' = mkStore (<[id := mkSessionRecord id csrf label (now + session_ttl c) Active]>
                         (sessions (purged now store)))
                (creation_times (purged now store) ++ [now])).
Proof.
  assert (He : forall e, In e [unauthorized; forbidden; bad_request; payload_too_large;
                               too_many_requests; internal] ->
            status (api_error_into_response e) <> 201).
  { intros e Hin. cbn in Hin. by repeat (destruct Hin as [<-|Hin]; [done|]). }
  unfold create_session. destruct (create_checks c h payload) as [p|e] eqn:Hc.
  2: { intros. simplify_eq. left. split; [done|]. apply He.
       unfold create_checks, require_origin in Hc. cbn.
       repeat (case_match; simplify_eq/=); tauto. }
  apply create_checks_ok in Hc. unfold create_record. fold (purged now store).
  destruct (zlen _ >=? _) eqn:Hz.
  { intros. simplify_eq. right. left. split_and!; [done|done|]. apply He. cbn. tauto. }
  destruct (active_count _ _ >=? _) eqn:Ha.
  { intros. simplify_eq. right. left. split_and!; [done|done|]. apply He. cbn. tauto. }
  destruct (random_token a) as [id|] eqn:Hid.
  2: { intros. simplify_eq. right. left. split_and!; [done|done|]. apply He. cbn. tauto. }
  destruct (random_token b) as [csrf|] eqn:Hcs.
  2: { intros. simplify_eq. right. left. split_and!; [done|done|]. apply He. cbn. tauto. }
  intros. simplify_eq. right. right. rewrite Z.geb_leb in Hz, Ha. bool_to_prop.
  unfold purged in Ha. cbn [sessions] in Ha. rewrite active_count_retain in Ha.
  split_and!; try done. exists id, csrf, (cs_label p). done.
Qed.
Lemma ws_step_store now sends ev conn store :
  (ws_step now sends ev conn store).1.1 = store \/
  ((ws_step now sends ev conn store).1.1 = close_session_record (ws_session conn) store /\
   ws_phase conn <> Finished).
Proof.
  unfold ws_step, ws_send. destruct (ws_phase conn) eqn:Hp; [| |by left].
  all: repeat case_match; cbn; try tauto; right; split; congruence.
Qed.

Lemma close_apply_store id store :
  (close_apply id store).1 = store \/ (close_apply id store).1 = close_session_record id store.
Proof. unfold close_apply. case_match; tauto. Qed.

Lemma create_or_not op :
  (exists waited h payload a b, op = OCreate waited h payload a b) \/
  (forall waited h payload a b, op <> OCreate waited h payload a b).
Proof. destruct op; [left; by eauto 10|right; congruence..]. Qed.

(** An operation that is not a creation leaves the store, or closes one record
    of it. *)
Lemma step_state_store op s :
  (forall waited h payload a b, op <> OCreate waited h payload a b) ->
  sys_store (step_state c op s) = sys_store s \/
  exists id, sys_store (step_state c op s) = close_session_record id (sys_store s).
Proof.
  intros Hop. destruct s as [store conns closing now created].
  destruct op as [wt h payload a b|id h|id h|n|id h|n ev sends|dt]; cbn [step_state];
    try (by left); [by destruct (Hop wt h payload a b)|..].
  - destruct (close_check c id h store); by left.
  - destruct (closing !! n) as [id|]; [|by left].
    destruct (close_apply_store id store); cbn [sys_store]; eauto.
  - destruct (websocket c now id h store).2; by left.
  - destruct (conns !! n) as [conn|]; [|by left].
    pose proof (ws_step_store now sends ev conn store) as Hst.
    destruct (ws_step now sends ev conn store) as [[store' conn'] out]. cbn in Hst |- *.
    destruct Hst as [->|[-> _]]; eauto.
Qed.

Lemma step_state_now op s : sys_now s <= sys_now (step_state c op s).
Proof.
  destruct s as [store conns closing now created].
  destruct op as [wt h payload a b|id h|id h|n|id h|n ev sends|dt]; cbn; repeat case_match; cbn; lia.
Qed.

(** *** The sessions a step adds *)

Lemma gained_lookup store store' id r :
  gained store store' !! id = Some r <->
  sessions store' !! id = Some r /\ sr_state r = Active /\ sessions store !! id <> Some r.
Proof. unfold gained. rewrite map_lookup_filter_Some. cbn. tauto. Qed.

Lemma gained_none store store' :
  (forall id r, sessions store' !! id = Some r -> sr_state r = Active ->
     sessions store !! id = Some r) ->
  gained store store' = ∅.
Proof.
  intros Hold. apply map_empty. intros id. apply eq_None_not_Some. intros [r Hr].
  apply gained_lookup in Hr as (Hr & Ha & Hn). auto.
Qed.

Lemma gained_close id store : gained store (close_session_record id store) = ∅.
Proof.
  apply gained_none. intros j r Hj Ha. rewrite close_record_lookup in Hj. case_decide; [|done].
  destruct (sessions store !! j); cbn in Hj; [|done]. by simplify_eq.
Qed.
Lemma gained_purged now store : gained store (purged now store) = ∅.
Proof. apply gained_none. intros id r [Hr _]%retain_lookup _. done. Qed.

Lemma gained_insert now store id r ts :
  (size (gained store (mkStore (<[id := r]> (sessions (purged now store))) ts)) <= 1)%nat.
Proof.
  rewrite <- (map_size_singleton (M := gmap string) id r). apply map_subseteq_size.
  apply map_subseteq_spec. intros j x (Hj & _ & Hn)%gained_lookup. cbn [sessions] in Hj.
  destruct (decide (j = id)) as [->|Hne].
  - rewrite lookup_insert_eq in Hj. by rewrite lookup_singleton_eq.
  - rewrite lookup_insert_ne in Hj by done. apply retain_lookup in Hj as [Hj _]. done.
Qed.

Lemma step_gains op s :
  (forall waited h payload a b, op <> OCreate waited h payload a b) ->
  sys_created (step c op s) = sys_created s.
Proof.
  intros Hop. cbn. apply (step_state_store op s) in Hop as [->|[id ->]].
  - rewrite gained_none by done. rewrite map_size_empty. by rewrite app_nil_r.
  - rewrite gained_close, map_size_empty. by rewrite app_nil_r.
Qed.
End facts.

(** ** The invariant of the server *)

Definition in_window (t w x : Z) : Prop := t <= x < t + w.

Record sys_inv (c : BrowserControlConfig) (s : Sys) : Prop := {
  (* every record is stored under its own identifier *)
  inv_keyed : forall id r, sessions (sys_store s) !! id = Some r -> sr_id r = id;
  (* at most [max_sessions] sessions can be used *)
  inv_active : active_count (sys_now s) (sessions (sys_store s)) <= max_sessions c;
}.

(** A creation is remembered with the time it read, at most [wait] before the
    time at which it took place. *)
Definition remembered (wait now read at_ : Z) : Prop := read <= at_ <= read + wait /\ at_ <= now.

Record rate_inv (c : BrowserControlConfig) (wait : Z) (s : Sys) : Prop := {
  (* the kept times have the recent part of what the creations read *)
  inv_recent : exists reads, Forall2 (remembered wait (sys_now s)) reads (sys_created s) /\
    forall now, sys_now s <= now ->
      zlen (retain_times now (rate_window c) reads)
      <= zlen (retain_times now (rate_window c) (creation_times (sys_store s)));
  (* at most [max_session_creations] creations in any window *)
  inv_rate : forall t, zlen (filter (in_window t (rate_window c - wait)) (sys_created s))
                       <= max_session_creations c;
}.

(** The creations of a window that ends now read times that are still kept. *)
Lemma window_remembered wait w now t reads created :
  Forall2 (remembered wait now) reads created -> in_window t (w - wait) now ->
  zlen (filter (in_window t (w - wait)) created) <= zlen (retain_times now w reads).
Proof.
  unfold zlen, retain_times, in_window, remembered. intros Hf Hn.
  apply Nat2Z.inj_le. induction Hf as [|r l reads created Hr Hf IH]; [done|].
  rewrite !filter_cons. repeat case_decide; cbn; lia.
Qed.

Section invariant.
Context `{HttpHeader} `{Sha2} `{Subtle} `{Base64} `{SerdeJson WsClientMessage}
  `{SerdeJson WsServerMessage}.
Context (c : BrowserControlConfig).

Lemma inv_init now : 0 <= max_sessions c -> sys_inv c (sys_init now).
Proof. intros Hm. split; cbn; try done. Qed.
Lemma rate_init wait now : 0 <= max_session_creations c -> rate_inv c wait (sys_init now).
Proof. intros Hm. split; cbn; [|done]. exists []. split; [constructor|done]. Qed.

(** *** Sessions that can be used *)

Lemma inv_close_record id m now :
  (forall j r, m !! j = Some r -> sr_id r = j) -> active_count now m <= max_sessions c ->
  forall ts, (forall j r, sessions (close_session_record id (mkStore m ts)) !! j = Some r -> sr_id r = j) /\
  active_count now (sessions (close_session_record id (mkStore m ts))) <= max_sessions c.
Proof.
  intros Hk Ha ts. split.
  - intros j r Hj. rewrite close_record_lookup in Hj. specialize (Hk j). cbn in Hj.
    case_decide; [|by apply Hk]. destruct (m !! j) as [r'|]; [|done].
    cbn in Hj. simplify_eq. cbn. by apply Hk.
  - etransitivity; [apply active_count_close|done].
Qed.

Lemma active_count_later now now' m : now <= now' -> active_count now' m <= active_count now m.
Proof.
  intros Hn. apply active_count_mono. intros id r Hr Ha. split; [done|].
  unfold active_at in *. bool_to_prop. apply andb_true_iff.
  split; [by apply bool_decide_eq_true|]. rewrite Z.gtb_ltb. lia.
Qed.

Lemma inv_purged n now store :
  n <= now -> (forall j r, sessions store !! j = Some r -> sr_id r = j) ->
  (forall j r, sessions (purged c n store) !! j = Some r -> sr_id r = j) /\
  active_count now (sessions (purged c n store)) <= active_count now (sessions store).
Proof.
  intros Hn Hk. split; [intros j r [Hr _]%retain_lookup; naive_solver|].
  apply active_count_mono. intros j r [Hr _]%retain_lookup. done.
Qed.

Lemma inv_create waited h payload a b s :
  sys_inv c s -> sys_inv c (step c (OCreate waited h payload a b) s).
Proof.
  intros [Hk Ha]. destruct s as [store conns closing now created]. cbn in Hk, Ha.
  set (n := now - Z.of_nat waited). assert (Hn : n <= now) by lia.
  split; cbn; fold n.
  all: destruct (create_session c n h payload a b store) as [store' r] eqn:Hc; cbn.
  all: destruct (inv_purged n now store Hn Hk) as [Hpk Hpa].
  all: apply create_cases in Hc
    as [[-> _]|[(_ & -> & _)|(_ & _ & _ & Hlt & id & csrf & label & _ & _ & ->)]];
    try done; try lia; cbn [sessions].
  - intros j r'. destruct (decide (j = id)) as [->|Hne].
    + rewrite lookup_insert_eq. intros. by simplify_eq.
    + rewrite lookup_insert_ne by done. apply Hpk.
  - etransitivity; [apply active_count_insert|].
    pose proof (active_count_later n now (sessions store) Hn). lia.
Qed.

Lemma inv_step op s : sys_inv c s -> sys_inv c (step c op s).
Proof.
  intros Hs. destruct (create_or_not op) as [(wt & h & payload & a & b & ->)|Hop];
    [by apply inv_create|].
  apply (step_state_store c op s) in Hop. pose proof (step_state_now c op s) as Hn.
  destruct Hs as [Hk Ha].
  assert (Hl := active_count_later _ _ (sessions (sys_store s)) Hn).
  destruct Hop as [Heq|[id Heq]]; split; cbn; rewrite Heq; try done; try lia.
  - destruct (sys_store s). by eapply inv_close_record.
  - destruct (sys_store s). eapply inv_close_record; [done|cbn in *; lia].
Qed.

Lemma inv_run ops s : sys_inv c s -> sys_inv c (run c ops s).
Proof.
  revert s. induction ops as [|op ops IH]; intros s Hs; [done|]. by apply IH, inv_step.
Qed.

(** *** The rate of creations *)

Definition waits_within (wait : Z) (op : Op) : Prop :=
  match op with OCreate waited _ _ _ _ => Z.of_nat waited <= wait | _ => True end.

(** The clock may move and old times may go. *)
Lemma rate_same wait s s' :
  rate_inv c wait s -> sys_created s' = sys_created s -> sys_now s <= sys_now s' ->
  (forall now, sys_now s' <= now ->
     retain_times now (rate_window c) (creation_times (sys_store s'))
     = retain_times now (rate_window c) (creation_times (sys_store s))) ->
  rate_inv c wait s'.
Proof.
  intros [(reads & Hr & Hle) Hrate] Hc Hn Ht. split; [|by rewrite Hc].
  exists reads. rewrite Hc. split.
  - eapply Forall2_impl; [exact Hr|]. unfold remembered. intros. lia.
  - intros now Hnow. rewrite Ht by done. apply Hle. lia.
Qed.

(** A creation that was let through, seen by an observer or not. *)
Lemma rate_created wait n store' (k : nat) s :
  rate_inv c wait s -> n <= sys_now s <= n + wait -> (k <= 1)%nat ->
  zlen (retain_times n (rate_window c) (creation_times (sys_store s))) < max_session_creations c ->
  creation_times store' = retain_times n (rate_window c) (creation_times (sys_store s)) ++ [n] ->
  rate_inv c wait (mkSys store' (sys_conns s) (sys_closing s) (sys_now s)
                     (sys_created s ++ replicate k (sys_now s))).
Proof.
  intros [(reads & Hr & Hle) Hrate] Hn Hk Hz Ht.
  assert (Hk' : k = 0%nat \/ k = 1%nat) by lia. split; cbn.
  - exists (reads ++ replicate k n). split.
    + apply Forall2_app; [done|]. destruct Hk' as [->| ->]; repeat constructor; lia.
    + intros now Hnow. rewrite Ht. rewrite !retain_times_app, retain_times_later by lia.
      specialize (Hle now Hnow). unfold zlen in *. rewrite !length_app.
      destruct Hk' as [->| ->]; cbn [replicate]; [|lia]. change (retain_times _ _ []) with (@nil Z). cbn. lia.
  - intros t. rewrite filter_app. unfold zlen. rewrite length_app.
    specialize (Hrate t).
    destruct Hk' as [->| ->]; cbn [replicate]; [cbn; unfold zlen in *; lia|].
    rewrite filter_cons. case_decide as Hw; cbn; [|unfold zlen in *; lia].
    pose proof (window_remembered _ _ _ _ _ _ Hr Hw) as Hwin.
    specialize (Hle (sys_now s) ltac:(lia)).
    rewrite <- (retain_times_later n _ _ (creation_times _)) in Hle by lia.
    pose proof (length_filter (fun t => Z.max 0 (sys_now s - t) < rate_window c)
      (retain_times n (rate_window c) (creation_times (sys_store s)))).
    unfold zlen, retain_times in *. lia.
Qed.

Lemma rate_create wait waited h payload a b s :
  Z.of_nat waited <= wait -> rate_inv c wait s ->
  rate_inv c wait (step c (OCreate waited h payload a b) s).
Proof.
  intros Hw Hs. destruct s as [store conns closing now created].
  set (n := now - Z.of_nat waited). unfold step. cbn [step_state sys_store sys_now]. fold n.
  destruct (create_session c n h payload a b store) as [store' r] eqn:Hc. cbn [fst sys_conns sys_closing sys_created].
  apply create_cases in Hc
    as [[-> _]|[(_ & -> & _)|(_ & _ & Hz & _ & id & csrf & label & _ & _ & ->)]].
  - rewrite gained_none, map_size_empty, app_nil_r by done. done.
  - rewrite (gained_purged c), map_size_empty, app_nil_r.
    eapply rate_same; [exact Hs|done|cbn; lia|]. intros now' Hn'. cbn in *.
    apply retain_times_later. lia.
  - eapply (rate_created wait n _ _ (mkSys store conns closing now created)); cbn;
      [done|lia|apply (gained_insert c)|exact Hz|done].
Qed.

Lemma rate_step wait op s : waits_within wait op -> rate_inv c wait s -> rate_inv c wait (step c op s).
Proof.
  intros Hw Hs. destruct (create_or_not op) as [(wt & h & payload & a & b & ->)|Hop];
    [by apply rate_create|].
  eapply rate_same; [exact Hs|by apply step_gains|apply step_state_now|].
  intros now _. cbn. by destruct (step_state_store c op s Hop) as [->|[id ->]].
Qed.

Lemma rate_run wait ops s :
  Forall (waits_within wait) ops -> rate_inv c wait s -> rate_inv c wait (run c ops s).
Proof.
  intros Hops. revert s. induction Hops as [|op ops Hop Hops IH]; intros s Hs; [done|].
  by apply IH, rate_step.
Qed.
End invariant.

(** C29: resource limits of the browser surface under any interleaving of
    requests, connections and clock ticks: at no time are more than
    [max_sessions] sessions active and unexpired, however long the creations
    waited for the lock after they read the clock; and when none of them waits
    longer than [wait], the store gains at most [max_session_creations] sessions
    in any time window that is [wait] shorter than [rate_window]. *)
Theorem session_limits `{HttpHeader} `{Sha2} `{Subtle} `{Base64} `{SerdeJson WsClientMessage}
    `{SerdeJson WsServerMessage} (c : BrowserControlConfig) (start : Z) (ops : list Op) :
  0 <= max_sessions c -> 0 <= max_session_creations c ->
  let s := run c ops (sys_init start) in
  active_count (sys_now s) (sessions (sys_store s)) <= max_sessions c /\
  forall wait t, Forall (waits_within wait) ops ->
    zlen (filter (in_window t (rate_window c - wait)) (sys_created s)) <= max_session_creations c.
Proof.
  intros Hm Hc. cbv zeta. split; [apply inv_run, inv_init, Hm|].
  intros wait t Hops. by apply (inv_rate c wait), rate_run, rate_init.
Qed.

(** ** Who changes a session *)

Section authority.
Context `{HttpHeader} `{Sha2} `{SubtleLaws} `{Base64} `{SerdeJson WsClientMessage}
  `{SerdeJson WsServerMessage}.
Context (c : BrowserControlConfig).

Definition same_digest (a b : string) : Prop := sha256 (as_bytes a) = sha256 (as_bytes b).

Lemma secure_eq_spec a b : secure_eq a b = true <-> same_digest a b.
Proof. apply ct_eq_spec. Qed.

(** The request comes from the allowed origin and its session cookie is the
    identifier of the session. *)
Definition session_authorized (h : HeaderMap) (id : string) : Prop :=
  header_str "origin" h = Some (allowed_origin c) /\
  exists cookie, session_cookie h = Some cookie /\ same_digest cookie id.

Lemma origin_allowed_spec h :
  origin_allowed h c = true <-> header_str "origin" h = Some (allowed_origin c).
Proof.
  unfold origin_allowed. destruct (header_str "origin" h) as [o|]; [|naive_solver].
  rewrite str_eqb_eq. naive_solver.
Qed.

Lemma authorized_session_ok store id h r :
  authorized_session c store id h = Ok r ->
  session_authorized h id /\ sessions store !! id = Some r.
Proof.
  unfold authorized_session, require_origin, authenticated_session, session_authorized.
  destruct (origin_allowed h c) eqn:Ho; [|done]. apply origin_allowed_spec in Ho.
  destruct (session_cookie h) as [v|]; cbn; [|done].
  destruct (secure_eq v id) eqn:Hv; cbn; [|done]. apply secure_eq_spec in Hv.
  destruct (sessions store !! id) as [r'|]; cbn; [|done].
  destruct (secure_eq (sr_id r') id); cbn; [|done]. intros. simplify_eq. eauto.
Qed.

(** A close request that passes the checks, and a connection that is
    upgraded. *)
Definition close_authorized (s : Sys) (op : Op) (id : string) : Prop :=
  exists h r token, op = OCloseCheck id h /\ session_authorized h id /\
    sessions (sys_store s) !! id = Some r /\
    header_str "x-csrf-token" h = Some token /\ same_digest token (sr_csrf_token r).
Definition upgrade_authorized (s : Sys) (op : Op) (conn : WsConn) : Prop :=
  exists h r, op = OWebsocket (ws_session conn) h /\ session_authorized h (ws_session conn) /\
    sessions (sys_store s) !! ws_session conn = Some r /\ sr_state r = Active /\
    sys_now s < sr_expires_at r /\ conn = mkWsConn (sr_id r) (sr_csrf_token r) AwaitHello.

(** How one operation may change the record of [id]. *)
Definition record_change (s : Sys) (op : Op) (id : string) (before after : option SessionRecord)
    : Prop :=
  after = before
  \/ (exists waited h payload a b, op = OCreate waited h payload a b /\ create_authorized c h /\
        ((exists csrf label, random_token a = Some id /\
            after = Some (mkSessionRecord id csrf label
                            (sys_now s - Z.of_nat waited + session_ttl c) Active))
         \/ (exists r, before = Some r /\ sr_state r = Active /\
                       sr_expires_at r <= sys_now s - Z.of_nat waited /\ after = None)))
  \/ (exists r, before = Some r /\ after = Some (set_closed r) /\
        ((exists n, op = OCloseApply n /\ sys_closing s !! n = Some id) \/
         (exists n ev sends conn, op = OWsEvent n ev sends /\ sys_conns s !! n = Some conn /\
            ws_session conn = id /\ ws_phase conn <> Finished))).

Lemma purged_change s op id waited h payload a b :
  op = OCreate waited h payload a b -> create_authorized c h ->
  record_change s op id (sessions (sys_store s) !! id)
    (sessions (purged c (sys_now s - Z.of_nat waited) (sys_store s)) !! id).
Proof.
  intros -> Hh. set (n := sys_now s - Z.of_nat waited).
  destruct (sessions (purged c n (sys_store s)) !! id) as [r|] eqn:Hr.
  - apply retain_lookup in Hr as [Hr _]. left. done.
  - destruct (sessions (sys_store s) !! id) as [r|] eqn:Hs; [|by left].
    right. left. exists waited, h, payload, a, b. split_and!; [done|done|]. right. exists r. fold n.
    assert (Hn : ~ (sr_expires_at r > n \/ sr_state r = Closed)).
    { intros Hc. unfold purged in Hr. cbn [sessions] in Hr.
      assert (retain_sessions n (sessions (sys_store s)) !! id = Some r)
        by by apply retain_lookup. congruence. }
    split_and!; try done; [|lia]. destruct (sr_state r); [done|]. exfalso. tauto.
Qed.

Lemma close_record_change s op id j :
  ((exists n, op = OCloseApply n /\ sys_closing s !! n = Some j) \/
   (exists n ev sends conn, op = OWsEvent n ev sends /\ sys_conns s !! n = Some conn /\
      ws_session conn = j /\ ws_phase conn <> Finished)) ->
  record_change s op id (sessions (sys_store s) !! id)
    (sessions (close_session_record j (sys_store s)) !! id).
Proof.
  intros Hop. rewrite close_record_lookup. case_decide; [|by left]. subst j.
  destruct (sessions (sys_store s) !! id) as [r|]; [|by left].
  right. right. exists r. done.
Qed.

Lemma ws_step_ids now sends ev conn store :
  ws_session (ws_step now sends ev conn store).1.2 = ws_session conn /\
  ws_csrf (ws_step now sends ev conn store).1.2 = ws_csrf conn.
Proof. unfold ws_step, ws_send. by repeat case_match. Qed.

Lemma step_records op s id :
  record_change s op id (sessions (sys_store s) !! id)
    (sessions (sys_store (step c op s)) !! id).
Proof.
  destruct s as [store conns closing now created].
  destruct op as [wt h payload a b|j h|j h|n|j h|n ev sends|dt]; cbn [step step_state sys_store].
  - destruct (create_session c (now - Z.of_nat wt) h payload a b store) as [store' r] eqn:Hc.
    cbn [fst].
    apply create_cases in Hc
      as [[-> _]|[(Hh & -> & _)|(Hh & _ & _ & _ & j & csrf & label & Ha & _ & ->)]].
    + by left.
    + by eapply (purged_change (mkSys store conns closing now created)).
    + cbn [sessions]. destruct (decide (id = j)) as [->|Hne].
      * rewrite lookup_insert_eq. right. left. exists wt, h, payload, a, b. split_and!; [done|done|].
        left. by exists csrf, label.
      * rewrite lookup_insert_ne by done.
        by eapply (purged_change (mkSys store conns closing now created)).
  - by left.
  - destruct (close_check c j h store); by left.
  - destruct (closing !! n) as [j|] eqn:Hn; [|by left]. unfold close_apply. cbn [sys_store].
    destruct (sessions store !! j); cbn [fst]; [|by left].
    apply (close_record_change (mkSys store conns closing now created)). left. by exists n.
  - destruct (websocket c now j h store).2; by left.
  - destruct (conns !! n) as [conn|] eqn:Hn; [|by left].
    pose proof (ws_step_store now sends ev conn store) as Hst.
    destruct (ws_step now sends ev conn store) as [[store' conn'] out]. cbn in Hst |- *.
    destruct Hst as [->|[-> Hp]]; [by left|].
    apply (close_record_change (mkSys store conns closing now created)). right.
    by exists n, ev, sends, conn.
  - by left.
Qed.

Lemma close_check_authorized s id h :
  close_check c id h (sys_store s) = Ok tt -> close_authorized s (OCloseCheck id h) id.
Proof.
  unfold close_check. destruct (authorized_session c (sys_store s) id h) as [r|] eqn:Hr; [|done].
  apply authorized_session_ok in Hr as [Hauth Hr]. unfold csrf_allowed.
  destruct (header_str "x-csrf-token" h) as [token|] eqn:Ht; [|done].
  destruct (secure_eq token (sr_csrf_token r)) eqn:Heq; [|done]. intros _.
  apply secure_eq_spec in Heq. by exists h, r, token.
Qed.

Lemma step_closing op s id :
  id ∈ sys_closing (step c op s) -> id ∈ sys_closing s \/ close_authorized s op id.
Proof.
  destruct s as [store conns closing now created].
  destruct op as [wt h payload a b|j h|j h|n|j h|n ev sends|dt]; cbn [step step_state sys_closing sys_conns]; try by left.
  - destruct (close_check c j h store) as [[]|e] eqn:Hk; [|by left]. cbn.
    intros [Hj| ->%list_elem_of_singleton]%elem_of_app; [by left|]. right.
    by apply (close_check_authorized (mkSys store conns closing now created)).
  - destruct (closing !! n) as [j|] eqn:Hn; [|by left]. cbn. intros Hj. left.
    apply list_elem_of_lookup in Hj as [i Hi].
    rewrite <- (take_drop_middle closing n j Hn). rewrite delete_take_drop in Hi.
    apply list_elem_of_lookup_2 in Hi. set_solver.
  - destruct (websocket _ _ _ _ _).2; by left.
  - destruct (conns !! n); [|by left]. destruct (ws_step _ _ _ _ _) as [[? ?] ?]. by left.
Qed.

Lemma websocket_authorized s id h conn :
  sys_inv c s -> (websocket c (sys_now s) id h (sys_store s)).2 = Some conn ->
  upgrade_authorized s (OWebsocket id h) conn.
Proof.
  intros Hs Hw. unfold websocket in Hw.
  destruct (authorized_session c (sys_store s) id h) as [r|] eqn:Hr; [|done].
  apply authorized_session_ok in Hr as [Hauth Hr].
  destruct (_ || _) eqn:Hg; [done|]. cbn in Hw. simplify_eq. bool_to_prop.
  exists h, r. cbn. split_and!; try done. by rewrite (inv_keyed _ _ Hs id r Hr).
Qed.

Lemma step_conns op s conn :
  sys_inv c s -> conn ∈ sys_conns (step c op s) ->
  upgrade_authorized s op conn \/
  exists old, old ∈ sys_conns s /\ ws_session old = ws_session conn /\ ws_csrf old = ws_csrf conn.
Proof.
  intros Hs. destruct s as [store conns closing now created].
  destruct op as [wt h payload a b|j h|j h|n|j h|n ev sends|dt]; cbn [step step_state sys_closing sys_conns]; try (right; by eauto).
  - destruct (close_check _ _ _ _); right; eauto.
  - destruct (closing !! n); right; eauto.
  - destruct (websocket c now j h store).2 as [k|] eqn:Hw; [|right; by eauto]. cbn.
    intros [Hk| ->%list_elem_of_singleton]%elem_of_app; [right; eauto|]. left.
    by apply (websocket_authorized (mkSys store conns closing now created)).
  - destruct (conns !! n) as [k|] eqn:Hn; [|right; by eauto].
    pose proof (ws_step_ids now sends ev k store) as Hid.
    destruct (ws_step now sends ev k store) as [[store' k'] out]. cbn in Hid |- *.
    intros Hk. right. apply list_elem_of_lookup in Hk as [i Hi].
    apply list_lookup_insert_Some in Hi as [(-> & <- & _)|[_ Hi]];
      [exists k|exists conn]; split; try (by eapply list_elem_of_lookup_2); naive_solver.
Qed.

(** C10: sessions change only with authority, whatever the interleaving. A
    session appears only through a request from the allowed origin that carries
    the bootstrap token; it disappears only by expiry, during such a request; it
    is closed only by a close request that passed its checks or by a live
    connection of that session. A close request passes only with the allowed
    origin, a cookie with the digest of the session identifier and a CSRF token
    with the digest of the session's; a connection exists only after an upgrade
    with origin and cookie of an active, unexpired session. *)
Theorem session_changes_authorized start ops op :
  0 <= max_sessions c -> 0 <= max_session_creations c ->
  let s := run c ops (sys_init start) in
  (forall id, record_change s op id (sessions (sys_store s) !! id)
                (sessions (sys_store (step c op s)) !! id)) /\
  (forall id, id ∈ sys_closing (step c op s) ->
     id ∈ sys_closing s \/ close_authorized s op id) /\
  (forall conn, conn ∈ sys_conns (step c op s) ->
     upgrade_authorized s op conn \/
     exists old, old ∈ sys_conns s /\ ws_session old = ws_session conn /\ ws_csrf old = ws_csrf conn).
Proof.
  intros Hm Hc s. split_and!; [apply step_records|apply step_closing|].
  intros conn. by apply step_conns, inv_run, inv_init.
Qed.
End authority.

(** ** Closed sessions *)

Section closed.
Context `{HttpHeader} `{Sha2} `{Subtle} `{Base64} `{SerdeJson WsClientMessage}
  `{SerdeJson WsServerMessage}.
Context (c : BrowserControlConfig).

(** The operation does not draw the identifier of an existing session. *)
Definition draws_other (id : string) (op : Op) : Prop :=
  match op with OCreate _ _ _ a _ => random_token a <> Some id | _ => True end.

Lemma closed_close_record id j r store :
  sessions store !! id = Some r -> sr_state r = Closed ->
  sessions (close_session_record j store) !! id = Some r.
Proof.
  intros Hr Hc. rewrite close_record_lookup. case_decide; [|done]. rewrite Hr. cbn.
  destruct r; cbn in *. by subst.
Qed.

Lemma closed_step op id r s :
  draws_other id op -> sessions (sys_store s) !! id = Some r -> sr_state r = Closed ->
  sessions (sys_store (step c op s)) !! id = Some r.
Proof.
  intros Hd Hr Hc. destruct s as [store conns closing now created].
  destruct op as [wt h payload a b|j h|j h|n|j h|n ev sends|dt]; cbn [step step_state sys_store]; cbn in Hr; try done.
  - set (n := now - Z.of_nat wt).
    destruct (create_session c n h payload a b store) as [store' resp] eqn:Hcr. cbn [fst].
    assert (Hp : sessions (purged c n store) !! id = Some r)
      by (apply retain_lookup; tauto).
    apply create_cases in Hcr
      as [[-> _]|[(_ & -> & _)|(_ & _ & _ & _ & j & csrf & label & Ha & _ & ->)]]; try done.
    cbn [sessions]. rewrite lookup_insert_ne; [done|]. cbn in Hd. congruence.
  - by destruct (close_check c j h store).
  - destruct (closing !! n) as [j|]; [|done]. unfold close_apply. cbn [sys_store].
    destruct (sessions store !! j); cbn [fst]; [by apply closed_close_record|done].
  - by destruct (websocket c now j h store).2.
  - destruct (conns !! n) as [conn|]; [|done].
    pose proof (ws_step_store now sends ev conn store) as Hst.
    destruct (ws_step now sends ev conn store) as [[store' conn'] out]. cbn in Hst |- *.
    destruct Hst as [->|[-> _]]; [done|]. by apply closed_close_record.
Qed.

(** closing is final and permanent: the record of a closed session is never
    changed, reactivated or removed, not even long after its expiry, by any
    later sequence of operations that does not draw its identifier again. (The
    purge of a creation keeps closed records, so the store keeps one for every
    session that was closed.) *)
Theorem closed_sessions_stay ops s id r :
  Forall (draws_other id) ops ->
  sessions (sys_store s) !! id = Some r -> sr_state r = Closed ->
  sessions (sys_store (run c ops s)) !! id = Some r.
Proof.
  intros Hops. revert s. induction Hops as [|op ops Hop Hops IH]; intros s Hr Hc; [done|].
  apply IH; [|done]. by apply closed_step.
Qed.
End closed.

(** ** Connections *)

(** C31: a connection is told anything only after it presented the CSRF token:
    while the hello is awaited, the only event that does not end the connection
    is a text message that parses to a hello whose token has the digest of the
    session's, and nothing but a close frame is sent in the other cases; a
    connection that ends, for whatever reason, leaves its session closed. *)
Theorem websocket_requires_csrf `{HttpHeader} `{Sha2} `{SubtleLaws} `{SerdeJson WsClientMessage}
    `{SerdeJson WsServerMessage} now sends ev conn store :
  let '(store', conn', out) := ws_step now sends ev conn store in
  (ws_phase conn = AwaitHello -> ws_phase conn' = Ready \/ (exists m, m ∈ out /\ m <> MClose) ->
   exists text token, ev = EvMessage (MText text) /\ json_from_str text = Ok (WsHello token) /\
     same_digest token (ws_csrf conn)) /\
  (ws_phase conn <> Finished -> ws_phase conn' = Finished ->
   forall r, sessions store' !! ws_session conn = Some r -> sr_state r = Closed).
Proof.
  assert (Hclosed : forall r, sessions (close_session_record (ws_session conn) store)
            !! ws_session conn = Some r -> sr_state r = Closed).
  { intros r Hr. rewrite close_record_lookup, decide_True in Hr by done.
    destruct (sessions store !! ws_session conn); cbn in Hr; by simplify_eq. }
  destruct (ws_step now sends ev conn store) as [[store' conn'] out] eqn:Hw.
  unfold ws_step, ws_send in Hw. destruct (ws_phase conn) eqn:Hp.
  - split.
    2: { intros _ Hf. repeat (case_match; simplify_eq/=); try done. }
    intros _ Hor.
    assert (Hno : forall x : Prop, (close_session_record (ws_session conn) store,
               mkWsConn (ws_session conn) (ws_csrf conn) Finished, [MClose]) = (store', conn', out) -> x).
    { intros x Heq. simplify_eq. destruct Hor as [?|(m & Hm & Hne)]; [done|].
      by apply list_elem_of_singleton in Hm. }
    destruct ev as [| | |[text| | | |]]; cbn in Hw; try by eapply Hno.
    destruct (json_from_str text) as [[token| |]|] eqn:Hj; cbn in Hw; try by eapply Hno.
    destruct (secure_eq token (ws_csrf conn)) eqn:Heq; cbn in Hw; [|by eapply Hno].
    apply secure_eq_spec in Heq. by exists text, token.
  - split; [done|]. intros _ Hf. repeat (case_match; simplify_eq/=); try done; congruence.
  - split; [done|]. done.
Qed.

(** ** Response headers *)

Lemma headers_get_insert name v h : headers_get name (headers_insert name v h) = Some v.
Proof.
  unfold headers_get, headers_get_all, headers_insert. rewrite omap_app. cbn.
  unfold str_eqb at 2. rewrite bool_decide_true by done.
  replace (omap _ (filter _ h)) with (@nil (list byte)); [done|].
  induction h as [|[n w] h IH]; [done|]. rewrite filter_cons. cbn. case_decide as Hn; [|done].
  cbn. unfold str_eqb at 1. rewrite bool_decide_false by done. done.
Qed.

Lemma headers_get_insert_ne name other v h :
  name <> other -> headers_get name (headers_insert other v h) = headers_get name h.
Proof.
  intros Hne. unfold headers_get, headers_get_all, headers_insert. rewrite omap_app. cbn.
  unfold str_eqb at 2. rewrite bool_decide_false by done. rewrite app_nil_r. f_equal.
  induction h as [|[n w] h IH]; [done|]. rewrite filter_cons. cbn.
  case_decide as Hn; cbn; rewrite IH; [done|].
  destruct (decide (n = other)) as [->|]; [|tauto].
  unfold str_eqb. rewrite bool_decide_false by done. done.
Qed.

Ltac header_lookup :=
  repeat first [rewrite headers_get_insert | rewrite headers_get_insert_ne by done].

(** The origin a response allows. *)
Definition cors_origin (r : Response) : option (list byte) :=
  headers_get "access-control-allow-origin" (headers r).

(** every response carries the hardening headers, whatever the route
    answered; it names an allowed origin exactly when the request came from the
    configured origin, and then that origin, provided the route itself set no
    such header (only the preflight route does, for the same origin). *)
Theorem responses_hardened `{HttpHeader} (c : BrowserControlConfig) request r origin :
  hv_from_str (allowed_origin c) = Some origin ->
  cors_origin r = None \/ r = preflight c request ->
  let out := security_headers c request r in
  headers_get "cache-control" (headers out) = Some (as_bytes "no-store, max-age=0") /\
  headers_get "x-content-type-options" (headers out) = Some (as_bytes "nosniff") /\
  headers_get "x-frame-options" (headers out) = Some (as_bytes "DENY") /\
  headers_get "content-security-policy" (headers out) = Some (as_bytes "frame-ancestors 'none'") /\
  cors_origin out = (if origin_allowed request c then Some origin else None).
Proof.
  intros Ho Hr out. unfold out, security_headers, add_cors_headers, cors_origin. cbn [headers].
  rewrite Ho. destruct (origin_allowed request c) eqn:Ha.
  - split_and!; header_lookup; done.
  - split_and!; header_lookup; try done. destruct Hr as [Hr| ->]; [exact Hr|].
    unfold preflight. by rewrite Ha.
Qed.

(** ** Concrete runs *)
Module Sample.
#[export] Instance subtle : Subtle := Concrete.subtle.
#[export] Instance subtle_laws : SubtleLaws := Concrete.subtle_laws.
#[export] Instance sha2 : Sha2 := Concrete.sha2.
#[export] Instance base64 : Base64 := Concrete.base64.

Definition visible (b : byte) : bool :=
  ((32 <=? byte_val b) && (byte_val b <? 127)) || (byte_val b =? 9).
#[export] Instance http : HttpHeader := {
  hv_to_str v := if forallb visible v then Some (String.string_of_list_byte v) else None;
  hv_from_str s := if forallb visible (as_bytes s) then Some (as_bytes s) else None;
}.
#[export] Instance http_laws : HttpHeaderLaws.
Proof.
  split; cbn; intros *; case_match; intros; simplify_eq; [apply as_bytes_string_of|done].
Qed.

#[export] Instance client_json : SerdeJson WsClientMessage := {
  json_to_string _ := Err "not sent";
  json_from_str s :=
    if str_eqb s "status" then Ok WsStatus
    else if str_eqb s "close" then Ok WsCloseCommand
    else match strip_prefix "hello " s with
         | Some token => Ok (WsHello token) | None => Err "unknown" end;
}.
#[export] Instance server_json : SerdeJson WsServerMessage := {
  json_to_string m := Ok (wm_type m +:+ " " +:+ wm_state m);
  json_from_str _ := Err "not received";
}.

Definition config : BrowserControlConfig := config_loopback "http://127.0.0.1:3000" "token".
Definition origin : string * list byte := ("origin", as_bytes "http://127.0.0.1:3000").
Definition bearer : string * list byte := ("authorization", as_bytes "Bearer token").
Definition cookie : string * list byte :=
  ("cookie", as_bytes "theme=dark; blnk_session=sid").
Definition csrf : string * list byte := ("x-csrf-token", as_bytes "tok").

Definition create : Op :=
  OCreate 0 [origin; bearer] (Ok (mkCreate (Some "laptop"))) (Some (as_bytes "sid"))
    (Some (as_bytes "tok")).
Definition record (s : SessionState) : SessionRecord :=
  mkSessionRecord "sid" "tok" (Some "laptop") (5 + from_secs 900) s.

(** A session is created, upgraded, greeted, asked for its status, closed. *)
Lemma flow :
  let s := run config [create; OWebsocket "sid" [origin; cookie]] (sys_init 5) in
  sessions (sys_store s) !! "sid" = Some (record Active) /\
  sys_conns s = [mkWsConn "sid" "tok" AwaitHello] /\
  (ws_step 6 [] (EvMessage (MText "hello tok")) (mkWsConn "sid" "tok" AwaitHello)
     (sys_store s)).2 = [MText "ready active"] /\
  (ws_step 6 [] (EvMessage (MText "hello no")) (mkWsConn "sid" "tok" AwaitHello)
     (sys_store s)).2 = [MClose] /\
  (ws_step 6 [] (EvMessage (MText "status")) (mkWsConn "sid" "tok" Ready)
     (sys_store s)).2 = [MText "status active"] /\
  sessions (sys_store (run config [OCloseCheck "sid" [origin; cookie; csrf]; OCloseApply 0] s))
    !! "sid" = Some (record Closed) /\
  sys_closing (run config [OCloseCheck "sid" [origin; cookie]] s) = [] /\
  sys_conns (run config [OWebsocket "sid" [origin]] s) = sys_conns s.
Proof. vm_compute. repeat split. Qed.
End Sample.
Import Sample.

Lemma session_limits_witness :
  let ops := [Sample.create; OTick 30; Sample.create] in
  let s := run Sample.config ops (sys_init 5) in
  sys_created s = [5; 35] /\
  active_count (sys_now s) (sessions (sys_store s)) <= max_sessions Sample.config /\
  zlen (filter (in_window 0 (rate_window Sample.config - 7)) (sys_created s))
    <= max_session_creations Sample.config.
Proof.
  destruct (session_limits Sample.config 5 [Sample.create; OTick 30; Sample.create]
              ltac:(vm_compute; congruence) ltac:(vm_compute; congruence)) as [Ha Hr].
  split; [vm_compute; reflexivity|]. split; [exact Ha|]. apply Hr.
  repeat apply Forall_cons_2; [vm_compute; congruence|exact I|vm_compute; congruence|constructor].
Defined.

(** The wait for the lock matters: with one creation allowed per window of 60,
    a creation that read the clock 30 before it got the lock does not count
    against the next one, and a window of 60 holds two. *)
Theorem stale_clock_exceeds_rate :
  let c := mkBrowserConfig (bind_addr Sample.config) (allowed_origin Sample.config)
             (bootstrap_token Sample.config) 900 8 1 60 1024 1024 5 in
  let create waited id := OCreate waited [Sample.origin; Sample.bearer] (Ok (mkCreate None))
                            (Some (as_bytes id)) (Some (as_bytes "tok")) in
  let s := run c [OTick 30; create 30%nat "one"; OTick 30; create 0%nat "two"] (sys_init 0) in
  max_session_creations c = 1 /\ sys_created s = [30; 60] /\
  zlen (filter (in_window 30 (rate_window c)) (sys_created s)) = 2.
Proof. vm_compute. done. Qed.

Lemma session_changes_authorized_witness :
  let s := run Sample.config [] (sys_init 5) in
  record_change Sample.config s Sample.create "sid" (sessions (sys_store s) !! "sid")
    (sessions (sys_store (step Sample.config Sample.create s)) !! "sid").
Proof.
  exact (proj1 (session_changes_authorized Sample.config 5 [] Sample.create
                  ltac:(vm_compute; congruence) ltac:(vm_compute; congruence)) "sid").
Defined.

Lemma closed_sessions_stay_witness :
  sessions (sys_store
    (run Sample.config [OTick 10000; Sample.create; OTick 5]
       (mkSys (mkStore {["old" := Sample.record Closed]} []) [] [] 0 []))) !! "old"
  = Some (Sample.record Closed).
Proof.
  apply closed_sessions_stay; [|vm_compute; reflexivity|reflexivity].
  by repeat apply Forall_cons_2.
Defined.

Lemma responses_hardened_witness :
  cors_origin (security_headers Sample.config [Sample.origin] health)
  = Some (as_bytes "http://127.0.0.1:3000").
Proof.
  destruct (responses_hardened (H := Sample.http) Sample.config [Sample.origin] health
    (as_bytes "http://127.0.0.1:3000") ltac:(vm_compute; reflexivity)
    ltac:(left; vm_compute; reflexivity)) as (_ & _ & _ & _ & Hc).
  exact Hc.
Defined.

(** A greeting with the session's token, and a wrong one that ends the
    connection. *)
Lemma websocket_requires_csrf_witness :
  let conn := mkWsConn "sid" "tok" AwaitHello in
  let store := mkStore {["sid" := Sample.record Active]} [] in
  (exists text token, EvMessage (MText "hello tok") = EvMessage (MText text)
     /\ json_from_str text = Ok (WsHello token) /\ same_digest token "tok")
  /\ (forall r, sessions (ws_step 6 [] (EvMessage (MText "hello no")) conn store).1.1 !! "sid" = Some r ->
        sr_state r = Closed).
Proof.
  split.
  - refine (proj1 (websocket_requires_csrf 6 [] (EvMessage (MText "hello tok"))
              (mkWsConn "sid" "tok" AwaitHello) (mkStore {["sid" := Sample.record Active]} []))
              eq_refl _). left. vm_compute. reflexivity.
  - refine (proj2 (websocket_requires_csrf 6 [] (EvMessage (MText "hello no"))
              (mkWsConn "sid" "tok" AwaitHello) (mkStore {["sid" := Sample.record Active]} []))
              _ _); vm_compute; [discriminate|reflexivity].
Defined.
