(* ===== verification/WebServer.v ===== *)
(** * The browser control server around its handlers

    [src/src/web/mod.rs]: the routes, the layers around them and the life of the
    listener. The request that reaches the router is its method, its path and
    headers, and the outcomes of axum's extractors; [handle] gives the answer and
    what the request does to the system of [Web]. *)
From S2P Require Import Prelude Errors External Net ProxyPolicy Web.

(** ** Routing *)

Inductive Method := GET | HEAD | POST | OPTIONS | OtherMethod (name : string).

#[export] Instance Method_eq_dec : EqDecision Method.
Proof. solve_decision. Defined.

Inductive Route := RHealth | RSessions | RSession (id : string) | RSocket (id : string).

(** [path_param]: the percent-decoding of a path segment, [None] when it is not
    UTF-8. *)
Class Axum := { path_param : string -> option string }.

Definition segments (path : string) : list string :=
  String.string_of_list_byte <$> split_byte x2f [] (as_bytes path).

(** The route of a path; a parameter matches one segment that is not empty. *)
Definition find_route (path : string) : option Route :=
  let param id k := if str_is_empty id then None else Some (k id) in
  match segments path with
  | [root; "healthz"] => if str_is_empty root then Some RHealth else None
  | [root; "api"; "session"] => if str_is_empty root then Some RSessions else None
  | [root; "api"; "session"; id] => if str_is_empty root then param id RSession else None
  | [root; "api"; "session"; id; "ws"] => if str_is_empty root then param id RSocket else None
  | _ => None
  end.

Record HttpRequest := mkRequest {
  method : Method;
  path : string;
  request_headers : HeaderMap;
  payload : Result Z CreateSessionRequest;   (* the JSON extractor *)
  upgrade : Result Z unit;                   (* the upgrade extractor *)
  random_id : option (list byte);
  random_csrf : option (list byte);
  lock_wait : nat;   (* between reading the clock and holding the sessions *)
}.

Definition status_only (code : Z) : Response := mkResponse code BEmpty [].

Section routing.
Context `{HttpHeader} `{Sha2} `{Subtle} `{Base64} `{Axum}.
Context (c : BrowserControlConfig).

(** [get] also answers [HEAD]; the body is then dropped by the server. *)
Definition is_get (m : Method) : bool := bool_decide (m = GET) || bool_decide (m = HEAD).
Definition with_param (raw : string) (k : string -> Response * list Op) : Response * list Op :=
  match path_param raw with Some id => k id | None => (status_only 400, []) end.

(** The answer of the routed handler, and what it does as steps of the
    system. *)
Definition routed (req : HttpRequest) (s : Sys) : Response * list Op :=
  let h := request_headers req in
  let m := method req in
  match find_route (path req) with
  | None => (status_only 404, [])
  | Some RHealth => if is_get m then (health, []) else (status_only 405, [])
  | Some RSessions =>
      if bool_decide (m = POST) then
        ((create_session c (sys_now s - Z.of_nat (lock_wait req)) h (payload req) (random_id req)
            (random_csrf req) (sys_store s)).2,
         [OCreate (lock_wait req) h (payload req) (random_id req) (random_csrf req)])
      else if bool_decide (m = OPTIONS) then (preflight c h, []) else (status_only 405, [])
  | Some (RSession raw) =>
      if is_get m then
        with_param raw (fun id => (get_session c (sys_now s) id h (sys_store s), [OGet id h]))
      else if bool_decide (m = POST) then
        with_param raw (fun id =>
          ((close_session c id h (sys_store s) (sys_store s)).2,
           OCloseCheck id h :: match close_check c id h (sys_store s) with
                               | Ok _ => [OCloseApply (length (sys_closing s))]
                               | Err _ => [] end))
      else if bool_decide (m = OPTIONS) then (preflight c h, []) else (status_only 405, [])
  | Some (RSocket raw) =>
      if is_get m then
        with_param raw (fun id =>
          match upgrade req with
          | Err rejection => (status_only rejection, [])
          | Ok _ => ((websocket c (sys_now s) id h (sys_store s)).1, [OWebsocket id h])
          end)
      else if bool_decide (m = OPTIONS) then (preflight c h, []) else (status_only 405, [])
  end.

(** The router with its layers. *)
Definition build_router (req : HttpRequest) (s : Sys) : Response * list Op :=
  let '(r, ops) := routed req s in (security_headers c (request_headers req) r, ops).
End routing.

(** ** The listener *)

Record BrowserControlServer := mkServer {
  address : SocketAddr;
  cancelled : bool;
  task : bool;              (* the join handle is held *)
}.

(** [TcpListener::bind] and [local_addr]. *)
Class Listener (W : Type) := {
  tcp_bind : SocketAddr -> W -> W * Result IoError unit;
  local_addr : W -> Result IoError SocketAddr;
}.

Section server.
Context `{HttpHeader} {W : Type} `{Listener W}.

Definition server_start (url_parse : string -> Result string Url) (c : BrowserControlConfig) (w : W)
    : W * BResult BrowserControlServer :=
  match config_validate url_parse c with
  | Err e => (w, Err e)
  | Ok _ =>
      match tcp_bind (bind_addr c) w with
      | (w, Err e) => (w, Err (ErrIo e))
      | (w, Ok _) => (w, map_err ErrIo (map_ok (fun a => mkServer a false true) (local_addr w)))
      end
  end.
End server.

Definition server_url (s : BrowserControlServer) : string :=
  "http://" +:+ socket_addr_display (address s).

(** [joined] is how the listener's task ends. *)
Definition server_shutdown (joined : Result string (Result IoError unit)) (s : BrowserControlServer)
    : BrowserControlServer * BResult unit :=
  if negb (task s) then (mkServer (address s) true false, Ok tt) else
  (mkServer (address s) true false,
   match joined with
   | Ok (Ok _) => Ok tt
   | Ok (Err error) => Err (ErrIo error)
   | Err error => Err (ErrIo (mkIoError "Other" ("browser control task join: " +:+ error)))
   end).
(** [Drop]: the task is aborted when nobody took it. *)
Definition server_drop (s : BrowserControlServer) : BrowserControlServer * bool :=
  (mkServer (address s) true (task s), task s).

(** ** What a request does *)

Section requests.
Context `{HttpHeader} `{Sha2} `{Subtle} `{Base64} `{Axum} `{SerdeJson WsClientMessage}
  `{SerdeJson WsServerMessage}.
Context (c : BrowserControlConfig).

Lemma error_status e : status (api_error_into_response e) = err_status e.
Proof. unfold api_error_into_response. by case_match. Qed.

(** The checks fail with a client error. *)
Lemma authorized_err store id h e : authorized_session c store id h = Err e -> 400 <= err_status e.
Proof.
  unfold authorized_session, require_origin, authenticated_session, ok_or.
  repeat (case_match; cbn; try done); intros; simplify_eq; cbn; lia.
Qed.
Lemma close_check_err store id h e : close_check c id h store = Err e -> 400 <= err_status e.
Proof.
  unfold close_check. destruct (authorized_session c store id h) as [r|e'] eqn:Ha; cbn.
  - case_match; intros; by simplify_eq.
  - intros. simplify_eq. by eapply authorized_err.
Qed.

Lemma create_refused h p e : create_checks c h p = Err e -> 400 <= err_status e.
Proof.
  unfold create_checks, require_origin. repeat (case_match; cbn; try done); intros; by simplify_eq.
Qed.

Lemma create_record_refused now label a b store store' e :
  create_record c now label a b store = (store', Err e) -> 400 <= err_status e.
Proof. unfold create_record. repeat case_match; intros; by simplify_eq. Qed.
Lemma create_record_stores now label a b store store' id csrf :
  create_record c now label a b store = (store', Ok (id, csrf)) ->
  sessions store' = <[id := mkSessionRecord id csrf label (now + session_ttl c) Active]>
                      (retain_sessions now (sessions store)).
Proof. unfold create_record. repeat case_match; intros; by simplify_eq. Qed.

Lemma get_status now id h store :
  status (get_session c now id h store) <> 101 /\ status (get_session c now id h store) <> 201.
Proof.
  unfold get_session. destruct (authorized_session c store id h) as [|e] eqn:Hc; [done|].
  apply authorized_err in Hc. cbn. rewrite error_status. lia.
Qed.
Lemma close_status id h store store' :
  status (close_session c id h store store').2 <> 101 /\
  status (close_session c id h store store').2 <> 201.
Proof.
  unfold close_session, close_apply. destruct (close_check c id h store) as [|e] eqn:Hc.
  - by destruct (sessions store' !! id).
  - apply close_check_err in Hc. cbn. rewrite error_status. lia.
Qed.
Lemma create_status now h p a b store : status (create_session c now h p a b store).2 <> 101.
Proof.
  unfold create_session, create_checks, create_record, require_origin.
  repeat (case_match; cbn; try done); simplify_eq; rewrite ?error_status; done.
Qed.
Lemma websocket_status now id h store :
  status (websocket c now id h store).1 = 101 <-> is_Some (websocket c now id h store).2.
Proof.
  unfold websocket. destruct (authorized_session c store id h) as [r|e] eqn:Hc.
  - case_match; cbn; split; try done; by intros [].
  - apply authorized_err in Hc. cbn. rewrite error_status. split; [lia|by intros []].
Qed.
Lemma websocket_not_created now id h store : status (websocket c now id h store).1 <> 201.
Proof.
  unfold websocket. destruct (authorized_session c store id h) as [r|e] eqn:Hc.
  - by case_match.
  - apply authorized_err in Hc. cbn. rewrite error_status. lia.
Qed.

(** A close request served on its own leaves no half-done close behind. *)
Definition close_ops (id : string) (h : HeaderMap) (s : Sys) : list Op :=
  OCloseCheck id h :: match close_check c id h (sys_store s) with
                      | Ok _ => [OCloseApply (length (sys_closing s))]
                      | Err _ => [] end.

Lemma close_runs id h s :
  let s' := run c (close_ops id h s) s in
  sys_store s' = (close_session c id h (sys_store s) (sys_store s)).1 /\
  sys_conns s' = sys_conns s /\ sys_closing s' = sys_closing s /\ sys_now s' = sys_now s.
Proof.
  destruct s as [store conns closing now created]. unfold close_ops, close_session. cbn.
  destruct (close_check c id h store) as [|e] eqn:Hk; cbn; rewrite ?Hk; [|done]. cbn.
  rewrite lookup_app_r, Nat.sub_diag by done. split_and!; try done.
  by rewrite delete_middle, app_nil_r.
Qed.

(** The upgrade extractor rejects with a client error. *)
Definition upgrade_ok (req : HttpRequest) : Prop :=
  match upgrade req with Ok _ => True | Err rejection => 400 <= rejection end.

(** The time a request goes by when it looks at the sessions. *)
Definition read_at (req : HttpRequest) (s : Sys) : Z := sys_now s - Z.of_nat (lock_wait req).

(** What an answer tells of the sessions before and after. 201 names the
    identifier and the CSRF token of the one session that is new; with any
    other answer no session is new, and a record that is not as before was closed,
    and the answer says so, or was expired and is gone. *)
Definition sessions_told (now : Z) (r : Response) (before after : gmap string SessionRecord) : Prop :=
  if status r =? 201 then
    exists id csrf label, body r = BCreated id csrf "active" (websocket_path id)
                                     (session_ttl c / 1000000000) /\
      after = <[id := mkSessionRecord id csrf label (now + session_ttl c) Active]>
                (retain_sessions now before)
  else forall id,
    after !! id = before !! id \/
    (status r = 200 /\ body r = BClosed id "closed" /\ after !! id = set_closed <$> before !! id) \/
    (after !! id = None /\ exists old, before !! id = Some old /\ sr_state old = Active /\
                                       sr_expires_at old <= now).

(** The system after the steps of a request is what its answer tells. *)
Definition told (req : HttpRequest) (s : Sys) (out : Response * list Op) : Prop :=
  let '(r, ops) := out in
  let s' := run c ops s in
  (method req <> POST -> sys_store s' = sys_store s) /\
  sys_closing s' = sys_closing s /\ sys_now s' = sys_now s /\
  (if status r =? 101 then exists conn, sys_conns s' = sys_conns s ++ [conn]
   else sys_conns s' = sys_conns s) /\
  sessions_told (read_at req s) r (sessions (sys_store s)) (sessions (sys_store s')).

Lemma told_ops req s r ops :
  status r <> 101 -> status r <> 201 -> sys_store (run c ops s) = sys_store s ->
  sys_closing (run c ops s) = sys_closing s -> sys_now (run c ops s) = sys_now s ->
  sys_conns (run c ops s) = sys_conns s ->
  told req s (r, ops).
Proof.
  intros Ha%Z.eqb_neq Hb%Z.eqb_neq Hst **. unfold told, sessions_told. rewrite Ha, Hb, Hst.
  split_and!; auto.
Qed.
Lemma told_nothing req s r : status r <> 101 -> status r <> 201 -> told req s (r, []).
Proof. intros. by apply told_ops. Qed.

Lemma told_param req s raw k : (forall id, told req s (k id)) -> told req s (with_param raw k).
Proof. intros Hk. unfold with_param. case_match; [apply Hk|by apply told_nothing]. Qed.

(** The answer of a creation that succeeded is the record it stored. *)
Lemma create_answer now h p a b store store' r :
  create_session c now h p a b store = (store', r) ->
  sessions_told now r (sessions store) (sessions store').
Proof.
  intros Hc. unfold sessions_told. destruct (status r =? 201) eqn:Hs.
  - unfold create_session in Hc. destruct (create_checks c h p) as [p'|e] eqn:Hk; cbn in Hc.
    2: { simplify_eq. apply create_refused in Hk. rewrite error_status in Hs. lia. }
    destruct (create_record c now (cs_label p') a b store) as [st [[id csrf]|e]] eqn:Hr;
      simplify_eq/=.
    + exists id, csrf, (cs_label p'). split; [done|]. by apply create_record_stores in Hr.
    + apply create_record_refused in Hr. rewrite error_status in Hs. lia.
  - apply create_cases in Hc as [[-> _]|[(_ & -> & _)|(_ & Hs' & _)]]; [by left| |lia].
    intros id. pose proof (retain_lookup now (sessions store) id) as Hr. cbn.
    destruct (sessions store !! id) as [old|] eqn:Hold.
    + destruct (retain_sessions now (sessions store) !! id) as [r'|] eqn:Hr'.
      * left. destruct (Hr r') as [Hd _]. by destruct (Hd eq_refl) as [? _]; simplify_eq.
      * right. right. split; [done|]. exists old. split; [done|].
        destruct (Hr old) as [_ Hd]. destruct (sr_state old) eqn:Ho.
        -- split; [done|]. destruct (decide (sr_expires_at old <= now)); [done|].
           discriminate Hd. split; [done|]. left. lia.
        -- discriminate Hd. tauto.
    + left. destruct (retain_sessions now (sessions store) !! id) as [r'|] eqn:Hr'; [|done].
      destruct (Hr r') as [Hd _]. by destruct (Hd eq_refl).
Qed.

Lemma told_create req s :
  method req = POST ->
  let h := request_headers req in
  told req s ((create_session c (read_at req s) h (payload req) (random_id req) (random_csrf req)
                 (sys_store s)).2,
              [OCreate (lock_wait req) h (payload req) (random_id req) (random_csrf req)]).
Proof.
  intros Hm h. destruct s as [store conns closing now created]. unfold told, read_at. cbn.
  set (n := now - Z.of_nat (lock_wait req)).
  pose proof (create_status n h (payload req) (random_id req) (random_csrf req) store) as Hs.
  destruct (create_session c n h _ _ _ store) as [store' r] eqn:Hc. cbn in Hs |- *.
  apply Z.eqb_neq in Hs as ->. apply create_answer in Hc. split_and!; done.
Qed.

Lemma told_close req s id :
  method req = POST ->
  let h := request_headers req in
  told req s ((close_session c id h (sys_store s) (sys_store s)).2, close_ops id h s).
Proof.
  intros Hm h. destruct (close_runs id h s) as (Hst & Hco & Hcl & Hn).
  destruct (close_status id h (sys_store s) (sys_store s)) as [Ha%Z.eqb_neq Hb%Z.eqb_neq].
  unfold told, sessions_told. rewrite Hst, Hco, Hcl, Hn, Ha, Hb. split_and!; try done.
  intros j. unfold close_session, close_apply.
  destruct (close_check c id h (sys_store s)) as [|e]; [|by left]. cbn.
  destruct (sessions (sys_store s) !! id) eqn:Hid; [|by left]. cbn.
  destruct (decide (j = id)) as [->|Hne].
  - right. left. by rewrite lookup_alter_eq.
  - left. by rewrite lookup_alter_ne.
Qed.

Lemma told_websocket req s id h :
  told req s ((websocket c (sys_now s) id h (sys_store s)).1, [OWebsocket id h]).
Proof.
  destruct s as [store conns closing now created]. unfold told, sessions_told. cbn.
  pose proof (websocket_status now id h store) as Hs.
  pose proof (websocket_not_created now id h store) as Hc%Z.eqb_neq.
  destruct (websocket c now id h store) as [r [conn|]]; cbn in Hs, Hc |- *; rewrite Hc.
  - destruct Hs as [_ ->]; [|by eexists]. split_and!; try done; [by exists conn|by left].
  - destruct (status r =? 101) eqn:H101; [|split_and!; try done; by left].
    apply Z.eqb_eq, Hs in H101. by destruct H101.
Qed.

Lemma told_get req s id h :
  told req s (get_session c (sys_now s) id h (sys_store s), [OGet id h]).
Proof. destruct (get_status (sys_now s) id h (sys_store s)), s. by apply told_ops. Qed.
Lemma told_socket req s id h :
  upgrade_ok req ->
  told req s match upgrade req with
             | Err rejection => (status_only rejection, [])
             | Ok _ => ((websocket c (sys_now s) id h (sys_store s)).1, [OWebsocket id h])
             end.
Proof.
  unfold upgrade_ok. case_match; intros Hu; [apply told_websocket|].
  apply told_nothing; cbn; lia.
Qed.
Lemma told_options req s h (b : bool) :
  told req s (if b then (preflight c h, []) else (status_only 405, [])).
Proof. unfold preflight. repeat case_match; by apply told_nothing. Qed.
#[local] Hint Resolve told_nothing told_param told_create told_close told_get told_socket
  told_options : told.

(** C30: a request, whatever its path and method, does to the system only what
    its answer says. Only POST changes the sessions; nothing is left half done;
    a connection is added exactly when the answer is 101. With the answer 201 the
    store has exactly one new session, the one whose identifier and CSRF token the
    answer carries; with any other answer no session is new, a session is closed
    only when the answer says it is, and only expired ones are gone. An unknown
    path changes nothing. *)
Theorem request_effect req s :
  upgrade_ok req ->
  told req s (build_router c req s) /\
  (find_route (path req) = None ->
     (build_router c req s).2 = [] /\ status (build_router c req s).1 = 404).
Proof.
  intros Hu. unfold build_router. split; [|intros Hn; unfold routed; by rewrite Hn].
  destruct (routed c req s) as [r ops] eqn:Hr.
  enough (told req s (r, ops)) by done. rewrite <- Hr. unfold routed.
  destruct (find_route (path req)) as [[| |raw|raw]|]; [| | | |by apply told_nothing].
  - case_match; by apply told_nothing.
  - case_bool_decide as Hm; [by apply told_create|auto with told].
  - case_match; [auto with told|]. case_bool_decide as Hm; [|auto with told].
    apply told_param. intros id. by apply told_close.
  - case_match; auto with told.
Qed.

(** ** Headers of every answer *)

Lemma error_cors e : cors_origin (api_error_into_response e) = None.
Proof. unfold api_error_into_response. by case_match. Qed.

Lemma routed_cors req s :
  cors_origin (routed c req s).1 = None \/ (routed c req s).1 = preflight c (request_headers req).
Proof.
  unfold routed, with_param, create_session, get_session, close_session, close_apply, websocket.
  repeat (case_match; cbn; auto using error_cors).
Qed.

(** every answer of the server carries the hardening headers, the ones for
    unknown paths, wrong methods and rejected extractors included; it names an
    allowed origin exactly when the request came from the configured one. *)
Theorem every_answer_hardened req s origin :
  hv_from_str (allowed_origin c) = Some origin ->
  let out := (build_router c req s).1 in
  headers_get "cache-control" (headers out) = Some (as_bytes "no-store, max-age=0") /\
  headers_get "x-content-type-options" (headers out) = Some (as_bytes "nosniff") /\
  headers_get "x-frame-options" (headers out) = Some (as_bytes "DENY") /\
  headers_get "content-security-policy" (headers out) = Some (as_bytes "frame-ancestors 'none'") /\
  cors_origin out = (if origin_allowed (request_headers req) c then Some origin else None).
Proof.
  intros Ho. pose proof (routed_cors req s) as Hr. unfold build_router.
  destruct (routed c req s) as [r ops]. by apply responses_hardened.
Qed.
End requests.

(** ** The life of the server *)

Section life.
Context `{HttpHeader} {W : Type} `{Listener W}.

(** What a configuration must have for the server to run with it. *)
Record servable (c : BrowserControlConfig) : Prop := {
  servable_loopback : ip_is_loopback (ip (bind_addr c)) = true;
  servable_token : trim_is_empty (bootstrap_token c) = false;
  servable_origin : allowed_origin c <> "*" /\ is_Some (hv_from_str (allowed_origin c));
  servable_limits : 0 <> session_ttl c /\ 0 <> max_sessions c /\ 0 <> max_session_creations c /\
    0 <> rate_window c /\ 0 <> max_body_bytes c /\ 0 <> max_frame_bytes c /\
    0 <> handshake_timeout c;
}.

Lemma config_validate_servable url_parse c u : config_validate url_parse c = Ok u -> servable c.
Proof.
  unfold config_validate. intros Hv.
  repeat (case_match; try done);
    repeat match goal with
      | H : negb _ = false |- _ => apply negb_false_iff in H
      | H : _ || _ = false |- _ => apply orb_false_iff in H as [? ?]
      | H : (_ =? 0) = false |- _ => apply Z.eqb_neq in H
      end.
  split; [done|done| |lia]. split; [|by eexists].
  intros He. by rewrite He in *.
Qed.

(** the server runs only on a loopback address, for one exact origin, with
    a bootstrap token and limits that are not zero; with any other configuration
    it fails before it touches the network. *)
Theorem server_start_checked url_parse c (w : W) :
  match server_start url_parse c w with
  | (w', Ok s) => servable c /\ w' = (tcp_bind (bind_addr c) w).1 /\
                  local_addr w' = Ok (address s) /\ cancelled s = false
  | (w', Err e) => w' = w \/ (servable c /\ w' = (tcp_bind (bind_addr c) w).1 /\ exists io, e = ErrIo io)
  end.
Proof.
  unfold server_start. destruct (config_validate url_parse c) as [u|] eqn:Hv; [|by left].
  apply config_validate_servable in Hv.
  destruct (tcp_bind (bind_addr c) w) as [w' [[]|e]]; cbn; [|naive_solver].
  destruct (local_addr w') as [a|e] eqn:Ha; cbn; naive_solver.
Qed.
End life.

(** A server that was shut down stays so; its task is joined once. *)
Theorem shutdown_once joined joined' s :
  let '(s1, r) := server_shutdown joined s in
  cancelled s1 = true /\ server_shutdown joined' s1 = (s1, Ok tt) /\
  server_drop s1 = (s1, false) /\ (task s = false -> r = Ok tt).
Proof. unfold server_shutdown, server_drop. by destruct (task s). Qed.

(** ** Concrete requests *)
Module Requests.
#[export] Existing Instances Web.Sample.subtle Web.Sample.sha2 Web.Sample.base64 Web.Sample.http
  Web.Sample.client_json Web.Sample.server_json.
#[export] Instance axum : Axum := { path_param := Some }.

Definition request (m : Method) (p : string) (h : HeaderMap) : HttpRequest :=
  mkRequest m p h (Ok (mkCreate None)) (Err 426) (Some (as_bytes "sid")) (Some (as_bytes "tok")) 3.
Definition create : HttpRequest :=
  request POST "/api/session" [Web.Sample.origin; Web.Sample.bearer].

Lemma answers :
  let answer req := status (build_router Web.Sample.config req (sys_init 5)).1 in
  answer create = 201 /\
  answer (request POST "/api/session" []) = 403 /\
  answer (request GET "/healthz" []) = 200 /\
  answer (request HEAD "/healthz" []) = 200 /\
  answer (request POST "/healthz" []) = 405 /\
  answer (request GET "/api/session/sid/ws" []) = 426 /\
  answer (request GET "/api/session/" []) = 404 /\
  answer (request GET "/api/session/sid/" []) = 404 /\
  answer (request GET "/" []) = 404.
Proof. vm_compute. repeat split. Qed.
End Requests.
#[local] Existing Instances Requests.axum.
Import Web.Sample.

Lemma request_effect_witness :
  status (build_router Web.Sample.config Requests.create (sys_init 5)).1 = 201 /\
  told Web.Sample.config Requests.create (sys_init 5)
    (build_router Web.Sample.config Requests.create (sys_init 5)).
Proof.
  split; [vm_compute; reflexivity|].
  refine (proj1 (request_effect Web.Sample.config Requests.create (sys_init 5) _)).
  vm_compute. discriminate.
Defined.

Lemma every_answer_hardened_witness :
  headers_get "x-frame-options"
    (headers (build_router Web.Sample.config Requests.create (sys_init 5)).1)
  = Some (as_bytes "DENY").
Proof.
  refine (proj1 (proj2 (proj2 (every_answer_hardened Web.Sample.config Requests.create (sys_init 5)
    (as_bytes "http://127.0.0.1:3000") _)))). reflexivity.
Defined.
