(* ===== verification/Fixture.v ===== *)
(** * The local signaling fixture's server

    [LocalFixtureServer] of [src/src/signaling/transport.rs]: the listener, the
    task that accepts connections and its shutdown. A connection is served by
    [Transport.fixture_serve]; connections are served one after the other. *)
From S2P Require Import Prelude Errors External Signaling Net ProxyPolicy Transport WebServer.

Record LocalFixtureServer := mkFixture {
  fixture_address : SocketAddr;
  fixture_state : FixtureSnapshot;
  fixture_config : FixtureConfig;
  connection_index : Z;       (* of the accepting task *)
  accepting : bool;           (* the task has not left its loop *)
  fixture_task : bool;        (* the join handle is held *)
}.

(** What the accepting task sees next: the shutdown signal, an error of
    [accept], a stream whose WebSocket handshake fails, or a socket. *)
Inductive Accepted :=
| ShutdownSignal
| AcceptError
| HandshakeFailed
| Connection (s : Socket).

Section fixture.
Context `{Base64} `{SerdeJson WireMessage} {W : Type} `{Listener W}.

Definition FIXTURE_ADDR : SocketAddr := mkSocketAddr (V4 (mkV4 127 0 0 1)) 0 0 0.

Definition start_with_config (config : FixtureConfig) (w : W) : W * BResult LocalFixtureServer :=
  match fixture_start_check config with
  | Err e => (w, Err e)
  | Ok _ =>
      match tcp_bind FIXTURE_ADDR w with
      | (w, Err e) => (w, Err (ErrIo e))
      | (w, Ok _) =>
          (w, map_err ErrIo
                (map_ok (fun a => mkFixture a snapshot_default config 0 true true) (local_addr w)))
      end
  end.

(** One turn of the accepting task. *)
Definition accept_step (f : LocalFixtureServer) (e : Accepted) : LocalFixtureServer :=
  let stopped := mkFixture (fixture_address f) (fixture_state f) (fixture_config f)
                   (connection_index f) false (fixture_task f) in
  let accepted snapshot :=
    mkFixture (fixture_address f) snapshot (fixture_config f)
      (saturating_add USIZE_MAX (connection_index f) 1) true (fixture_task f) in
  if negb (accepting f) then f else
  match e with
  | ShutdownSignal | AcceptError => stopped
  | HandshakeFailed => accepted (fixture_state f)
  | Connection s =>
      match fixture_serve s (connection_index f) (fixture_config f) (fixture_state f) with
      | Some (_, snapshot) => accepted snapshot
      | None => stopped
      end
  end.
Definition accept_loop (events : list Accepted) (f : LocalFixtureServer) : LocalFixtureServer :=
  foldl accept_step f events.
End fixture.

Definition fixture_url (f : LocalFixtureServer) : string :=
  "ws://" +:+ socket_addr_display (fixture_address f).

(** [joined] is how the accepting task ends once it was told to. *)
Definition fixture_shutdown (joined : Result string unit) (f : LocalFixtureServer) : BResult unit :=
  if negb (fixture_task f) then Ok tt else
  map_err (fun error => ErrSignaling ("fixture server task failed: " +:+ error)) joined.

(** ** What the fixture records *)

Definition is_connection (e : Accepted) : bool :=
  match e with Connection _ => true | _ => false end.
Definition is_end (e : Accepted) : bool :=
  match e with ShutdownSignal | AcceptError => true | _ => false end.

(** The events the task sees before it leaves its loop. *)
Fixpoint live (events : list Accepted) : list Accepted :=
  match events with
  | [] => []
  | e :: events => if is_end e then [] else e :: live events
  end.

Section counting.
Context `{Base64} `{SerdeJson WireMessage}.

Lemma loop_count fuel c index config snapshot c' snapshot' :
  fixture_connection_loop fuel c index config snapshot = Some (c', snapshot') ->
  connection_count snapshot' = connection_count snapshot.
Proof.
  revert c snapshot. induction fuel as [|fuel IH]; intros c snapshot; [done|]. cbn.
  destruct (conn_recv c) as [c1 [[m|]|e]]; [|by intros; simplify_eq|by intros; simplify_eq].
  destruct m; try (intros Hl; apply IH in Hl; exact Hl).
  repeat (case_match; try (by intros; simplify_eq)). intros Hl. by apply IH in Hl.
Qed.

Lemma serve_counts s index config snapshot :
  exists s' snapshot', fixture_serve s index config snapshot = Some (s', snapshot') /\
    connection_count snapshot' = saturating_add USIZE_MAX (connection_count snapshot) 1.
Proof.
  pose proof (fixture_serve_total s index config snapshot) as Ht.
  destruct (fixture_serve s index config snapshot) as [[s' snapshot']|] eqn:Hs; [|done].
  exists s', snapshot'. split; [done|]. revert Hs. unfold fixture_serve.
  case_match; [|by intros; simplify_eq].
  case_match eqn:Hl; [|done]. case_match. intros. simplify_eq. by apply loop_count in Hl.
Qed.

Lemma accept_loop_stopped events f : accepting f = false -> accept_loop events f = f.
Proof.
  intros Hf. induction events as [|e events IH]; [done|]. unfold accept_loop in *. cbn.
  unfold accept_step at 2. by rewrite Hf.
Qed.

(** One turn: the task goes on unless it is told to end, and only a connection
    counts. *)
Lemma accept_step_effect f e :
  accepting f = true ->
  accepting (accept_step f e) = negb (is_end e) /\
  fixture_address (accept_step f e) = fixture_address f /\
  connection_count (fixture_state (accept_step f e))
  = if is_connection e then saturating_add USIZE_MAX (connection_count (fixture_state f)) 1
    else connection_count (fixture_state f).
Proof.
  intros Ha. unfold accept_step. rewrite Ha. cbn. destruct e as [| | |s]; try done.
  by destruct (serve_counts s (connection_index f) (fixture_config f) (fixture_state f))
    as (s' & sn & -> & Hn).
Qed.

(** the snapshot counts exactly the connections whose WebSocket handshake
    succeeded before the task was stopped, and nothing is accepted after. *)
Theorem fixture_counts_connections events f :
  accepting f = true -> connection_count (fixture_state f) <= USIZE_MAX ->
  let f' := accept_loop events f in
  connection_count (fixture_state f')
    = Z.min (connection_count (fixture_state f) + zlen (List.filter is_connection (live events)))
        USIZE_MAX /\
  fixture_address f' = fixture_address f /\
  (existsb is_end events = true -> accepting f' = false).
Proof.
  cbv zeta. revert f. induction events as [|e events IH]; intros f Ha Hc.
  { unfold zlen. cbn. split_and!; [lia|done|done]. }
  destruct (accept_step_effect f e Ha) as (Hg & Hd & Hn).
  change (accept_loop (e :: events) f) with (accept_loop events (accept_step f e)).
  destruct (is_end e) eqn:He; cbn [live existsb]; rewrite He; cbn.
  - rewrite accept_loop_stopped by done. rewrite Hn, Hd, Hg.
    destruct e; try done; unfold zlen; cbn; split_and!; try done; lia.
  - destruct (IH (accept_step f e)) as (Hc' & Hd' & Hg'); [done| |].
    { rewrite Hn. unfold saturating_add. case_match; lia. }
    rewrite Hc', Hd', Hn, Hd. split_and!; [|done|done].
    destruct (is_connection e); unfold saturating_add, zlen; cbn [length]; lia.
Qed.
End counting.

(** ** Concrete runs *)
Module FixtureSample.
#[export] Existing Instances Concrete.base64.
#[export] Instance no_json : SerdeJson WireMessage := {
  json_to_string _ := Err "not sent";
  json_from_str _ := Err "not valid";
}.
Definition fixture : LocalFixtureServer :=
  mkFixture (loopback 4000) snapshot_default fixture_config_default 0 true true.
Definition events : list Accepted :=
  [Connection (client_socket []); HandshakeFailed; Connection (client_socket [WsText "{"]);
   ShutdownSignal; Connection (client_socket [])].
End FixtureSample.
Import FixtureSample.

Lemma fixture_counts_connections_witness :
  connection_count (fixture_state (accept_loop events fixture)) = 2 /\
  connection_index (accept_loop events fixture) = 3.
Proof.
  split; [|reflexivity].
  rewrite (proj1 (fixture_counts_connections events fixture eq_refl
                    ltac:(vm_compute; discriminate))).
  reflexivity.
Defined.
