(* ===== verification/Vault.v ===== *)
(** * The encrypted payload vault

    [src/src/vault.rs]: payloads encrypted with XChaCha20-Poly1305 under a root
    key and kept in a SQLite table. A table is a map from its primary key to its
    row; the SQL statements of the source are written out on it, conflict clauses
    included. Errors are the messages of [anyhow]. *)
From S2P Require Import Prelude Errors External.

Definition KEY_VERSION : Z := 1.
Definition ALGORITHM : string := "XChaCha20-Poly1305".
Definition NONCE_LEN : Z := 24.

(** [chacha20poly1305]: authenticated encryption with associated data. *)
Class Aead := {
  aead_encrypt : list byte -> list byte -> list byte -> list byte -> option (list byte);
  aead_decrypt : list byte -> list byte -> list byte -> list byte -> option (list byte);
}.
(** Decryption under the same key, nonce and associated data undoes encryption. *)
Class AeadLaws `{Aead} : Prop := {
  aead_roundtrip : forall key nonce aad m ct,
    aead_encrypt key nonce aad m = Some ct -> aead_decrypt key nonce aad ct = Some m;
}.

(** ** Data *)

Record PutPayloadRequest := mkPut {
  put_payload_ref : string;
  put_object_id : string;
  put_revision : Z;
  put_media_type : string;
  put_plaintext : list byte;
}.
Record GetPayloadRequest := mkGet { get_payload_ref : string; get_purpose : string }.
Record GetPayloadResponse := mkGot { got_plaintext : list byte; got_media_type : string }.

Record VaultRecord := mkVaultRecord {
  vr_payload_ref : string;
  vr_object_id : string;
  vr_revision : Z;
  vr_key_version : Z;
  vr_storage_state : string;
  vr_algorithm : string;
  vr_nonce : list byte;
  vr_ciphertext : list byte;
  vr_aad_hash : string;
  vr_payload_hash : string;
  vr_payload_size : Z;
  vr_created_at : Z;
  vr_deleted_at : Z;
  vr_media_type : string;
}.

(** A row of [vault_records] without its primary key [payload_ref], and a row of
    [vault_keys]. *)
Record Row := mkRow {
  row_object_id : string;
  row_revision : Z;
  row_key_version : Z;
  row_storage_state : string;
  row_algorithm : string;
  row_nonce : list byte;
  row_ciphertext : list byte;
  row_aad_hash : string;
  row_payload_hash : string;
  row_payload_size : Z;
  row_media_type : string;
  row_created_at : Z;
  row_deleted_at : option Z;
}.
Record KeyRow := mkKeyRow {
  key_ref : string;
  key_algorithm : string;
  key_status : string;
  key_created_at : Z;
  key_retired_at : option Z;
}.

Record EncryptedVault := mkVault {
  records : gmap string Row;
  keys : gmap Z KeyRow;
  root_key : list byte;
}.

(** Signed 64-bit columns read as unsigned ones, and back. *)
Definition as_u64 (z : Z) : Z := z mod (U64_MAX + 1).
Definition as_u32 (z : Z) : Z := z mod (U32_MAX + 1).

(** ** Operations *)

Section vault.
Context `{Sha2} `{Aead}.

(** [format!("{b:02x}")] for every byte. *)
Definition hex_byte (b : byte) : string :=
  hex_digit (byte_val b / 16) +:+ hex_digit (byte_val b mod 16).
Fixpoint hex_encode (l : list byte) : string :=
  match l with [] => "" | b :: l => hex_byte b +:+ hex_encode l end.
Definition digest (value : list byte) : string := hex_encode (sha256 value).

Definition NUL : string := String (Ascii.ascii_of_nat 0) EmptyString.
Definition aad (payload_ref object_id : string) (revision : Z) (media_type : string)
    : list byte :=
  as_bytes ("blnk/vault/v1" +:+ NUL +:+ payload_ref +:+ NUL +:+ object_id +:+ NUL
            +:+ dec revision +:+ NUL +:+ media_type).

(** [INSERT OR IGNORE INTO vault_keys]. *)
Definition ensure_key_version (now : Z) (v : EncryptedVault) : EncryptedVault :=
  match keys v !! KEY_VERSION with
  | Some _ => v
  | None => mkVault (records v)
              (<[KEY_VERSION := mkKeyRow "runtime-root-key" ALGORITHM "active" now None]> (keys v))
              (root_key v)
  end.

(** [open] on the tables of an existing database, and [open_in_memory];
    [CREATE TABLE IF NOT EXISTS] keeps the rows. *)
Definition vault_open (db : gmap string Row * gmap Z KeyRow) (root_key : list byte) (now : Z)
    : EncryptedVault :=
  ensure_key_version now (mkVault db.1 db.2 root_key).
Definition vault_open_in_memory (root_key : list byte) (now : Z) : EncryptedVault :=
  ensure_key_version now (mkVault ∅ ∅ root_key).

(** The reference a payload is stored under. *)
Definition payload_ref_for (r : PutPayloadRequest) : string :=
  if str_is_empty (put_payload_ref r)
  then "vault:" +:+ put_object_id r +:+ "-r" +:+ dec (put_revision r)
  else put_payload_ref r.

(** [INSERT ... ON CONFLICT(payload_ref) DO UPDATE]: the new row, or the old one
    with six of its columns replaced. *)
Definition upsert_row (old : option Row) (new : Row) : Row :=
  match old with
  | None => new
  | Some o => mkRow (row_object_id o) (row_revision o) (row_key_version o) "committed"
                (row_algorithm o) (row_nonce new) (row_ciphertext new) (row_aad_hash o)
                (row_payload_hash new) (row_payload_size new) (row_media_type new)
                (row_created_at o) (row_deleted_at o)
  end.

(** [random] is the outcome of [getrandom]: 24 bytes or its error. *)
Definition vault_put (r : PutPayloadRequest) (random : Result string (list byte)) (now : Z)
    (v : EncryptedVault) : EncryptedVault * Result string VaultRecord :=
  if str_is_empty (put_object_id r) || is_nil (put_plaintext r)
  then (v, Err "object_id and plaintext are required") else
  let payload_ref := payload_ref_for r in
  match random with
  | Err e => (v, Err ("generate vault nonce: " +:+ e))
  | Ok nonce =>
      let ad := aad payload_ref (put_object_id r) (put_revision r) (put_media_type r) in
      match aead_encrypt (root_key v) nonce ad (put_plaintext r) with
      | None => (v, Err "vault encryption failed")
      | Some ciphertext =>
          let payload_hash := digest (put_plaintext r) in
          (* a [u64] parameter must fit SQLite's signed integers *)
          if put_revision r >? I64_MAX
          then (v, Err "out of range integral type conversion attempted") else
          if negb (is_some (keys v !! KEY_VERSION))
          then (v, Err "FOREIGN KEY constraint failed") else
          let new := mkRow (put_object_id r) (put_revision r) KEY_VERSION "committed" ALGORITHM
                       nonce ciphertext (digest ad) payload_hash (zlen (put_plaintext r))
                       (put_media_type r) now None in
          (mkVault (<[payload_ref := upsert_row (records v !! payload_ref) new]> (records v))
             (keys v) (root_key v),
           Ok (mkVaultRecord payload_ref (put_object_id r) (put_revision r) KEY_VERSION "committed"
                 ALGORITHM nonce ciphertext (digest ad) payload_hash (zlen (put_plaintext r)) now 0
                 (put_media_type r)))
      end
  end.

(** The row the [SELECT] of [get] finds. *)
Definition select_committed (v : EncryptedVault) (payload_ref : string) : option Row :=
  match records v !! payload_ref with
  | Some row => if str_eqb (row_storage_state row) "committed" && negb (is_some (row_deleted_at row))
                then Some row else None
  | None => None
  end.

Definition vault_get (r : GetPayloadRequest) (v : EncryptedVault)
    : Result string GetPayloadResponse :=
  match select_committed v (get_payload_ref r) with
  | None => Err "vault payload not found"
  | Some row =>
      if negb (str_eqb (row_algorithm row) ALGORITHM) || negb (zlen (row_nonce row) =? NONCE_LEN)
      then Err "unsupported vault record algorithm or nonce" else
      let ad := aad (get_payload_ref r) (row_object_id row) (as_u64 (row_revision row))
                  (row_media_type row) in
      if negb (str_eqb (digest ad) (row_aad_hash row))
      then Err "vault AAD integrity check failed" else
      match aead_decrypt (root_key v) (row_nonce row) ad (row_ciphertext row) with
      | None => Err "vault authentication failed"
      | Some plaintext =>
          if negb (str_eqb (digest plaintext) (row_payload_hash row))
          then Err "vault payload hash mismatch"
          else Ok (mkGot plaintext (row_media_type row))
      end
  end.

(** [UPDATE ... SET storage_state='deleting', deleted_at]. *)
Definition mark_deleting (now : Z) (row : Row) : Row :=
  mkRow (row_object_id row) (row_revision row) (row_key_version row) "deleting"
    (row_algorithm row) (row_nonce row) (row_ciphertext row) (row_aad_hash row)
    (row_payload_hash row) (row_payload_size row) (row_media_type row) (row_created_at row)
    (Some now).
Definition vault_delete (payload_ref : string) (now : Z) (v : EncryptedVault) : EncryptedVault :=
  mkVault (alter (mark_deleting now) payload_ref (records v)) (keys v) (root_key v).

Definition vault_inspect (payload_ref : string) (v : EncryptedVault) : option VaultRecord :=
  (fun row => mkVaultRecord payload_ref (row_object_id row) (as_u64 (row_revision row))
                (as_u32 (row_key_version row)) (row_storage_state row) (row_algorithm row)
                (row_nonce row) (row_ciphertext row) (row_aad_hash row) (row_payload_hash row)
                (as_u64 (row_payload_size row)) (row_created_at row) 0 (row_media_type row))
    <$> records v !! payload_ref.
End vault.

(** ** Decimal text and NUL separators *)

Definition nul_free (l : list byte) : Prop := x00 ∉ l.

Lemma pretty_char_nul x : Ascii.byte_of_ascii (pretty_N_char x) <> x00.
Proof.
  unfold pretty_N_char. repeat case_match; vm_compute; congruence.
Qed.

Lemma as_bytes_cons a s : as_bytes (String a s) = Ascii.byte_of_ascii a :: as_bytes s.
Proof. done. Qed.

Lemma pretty_go_nul x s : nul_free (as_bytes s) -> nul_free (as_bytes (pretty_N_go x s)).
Proof.
  revert s. induction (N.lt_wf_0 x) as [x _ IH]. intros s Hs.
  destruct (decide (x = 0%N)) as [->|Hx]; [by rewrite pretty_N_go_0|].
  rewrite pretty_N_go_step by lia. apply IH; [apply N.div_lt; lia|].
  rewrite as_bytes_cons. unfold nul_free. rewrite not_elem_of_cons. split; [|done].
  intros He. by apply (pretty_char_nul (x mod 10)).
Qed.

Lemma pretty_N_nul (x : N) : nul_free (as_bytes (pretty x)).
Proof.
  unfold pretty, pretty_N. case_decide; [vm_compute; set_solver|].
  apply pretty_go_nul. vm_compute. set_solver.
Qed.

Lemma dec_nul z : nul_free (as_bytes (dec z)).
Proof.
  unfold dec. destruct z as [|p|p]; [apply (pretty_N_nul 0)|apply (pretty_N_nul (Npos p))|].
  change (pretty (Z.neg p)) with ("-" +:+ pretty (Npos p)). rewrite as_bytes_append.
  unfold nul_free. rewrite not_elem_of_app. split; [vm_compute; set_solver|apply pretty_N_nul].
Qed.

(** A NUL-free piece before a separator is determined by the whole. *)
Lemma nul_split a b a' b' :
  nul_free a -> nul_free a' -> a ++ x00 :: b = a' ++ x00 :: b' -> a = a' /\ b = b'.
Proof.
  unfold nul_free. revert a'. induction a as [|x a IH]; intros [|y a'] Ha Ha' Heq; cbn in Heq.
  - by simplify_eq.
  - simplify_eq. set_solver.
  - simplify_eq. set_solver.
  - injection Heq as -> Heq. destruct (IH a') as [-> ->]; set_solver.
Qed.

Lemma aad_bytes payload_ref object_id revision media_type :
  aad payload_ref object_id revision media_type =
  as_bytes "blnk/vault/v1" ++ x00 :: as_bytes payload_ref ++ x00 :: as_bytes object_id
  ++ x00 :: as_bytes (dec revision) ++ x00 :: as_bytes media_type.
Proof. unfold aad, NUL. by rewrite !as_bytes_append. Qed.

(** The associated data determine reference, object, revision and media type. *)
Lemma aad_inj r o v m r' o' v' m' :
  nul_free (as_bytes r) -> nul_free (as_bytes o) -> nul_free (as_bytes r') ->
  nul_free (as_bytes o') ->
  aad r o v m = aad r' o' v' m' -> r = r' /\ o = o' /\ v = v' /\ m = m'.
Proof.
  intros Hr Ho Hr' Ho'. rewrite !aad_bytes. intros Heq.
  apply app_inv_head in Heq. injection Heq as Heq.
  apply nul_split in Heq as [Hr1 Heq]; [|done|done].
  apply nul_split in Heq as [Ho1 Heq]; [|done|done].
  apply nul_split in Heq as [Hv1 Hm1]; [|apply dec_nul|apply dec_nul].
  apply as_bytes_inj in Hr1, Ho1, Hv1, Hm1.
  split_and!; try done. by apply (inj pretty).
Qed.

(** ** Hexadecimal digests *)

Lemma hex_digit_inj x y : 0 <= x < 16 -> 0 <= y < 16 -> hex_digit x = hex_digit y -> x = y.
Proof.
  intros Hx Hy.
  assert (Hc : forall z, 0 <= z < 16 -> In z [0;1;2;3;4;5;6;7;8;9;10;11;12;13;14;15])
    by (intros z Hz; cbn; lia).
  apply Hc in Hx. apply Hc in Hy. cbn in Hx, Hy.
  repeat destruct Hx as [<-|Hx]; try done; repeat destruct Hy as [<-|Hy]; done.
Qed.

Lemma hex_digit_char x : 0 <= x < 16 -> exists a, hex_digit x = String a EmptyString.
Proof.
  intros Hx. assert (Hc : In x [0;1;2;3;4;5;6;7;8;9;10;11;12;13;14;15]) by (cbn; lia).
  cbn in Hc. repeat destruct Hc as [<-|Hc]; try done; by eexists.
Qed.

Lemma hex_encode_inj l k : hex_encode l = hex_encode k -> l = k.
Proof.
  assert (Hb : forall b, exists x y, hex_byte b = String x (String y EmptyString) /\
            hex_digit (byte_val b / 16) = String x EmptyString /\
            hex_digit (byte_val b mod 16) = String y EmptyString).
  { intros b. pose proof (byte_val_range b). pose proof (Z.mod_pos_bound (byte_val b) 16).
    destruct (hex_digit_char (byte_val b / 16)) as [x Hx].
    { split; [apply Z.div_pos|apply Z.div_lt_upper_bound]; lia. }
    destruct (hex_digit_char (byte_val b mod 16)) as [y Hy]; [lia|].
    exists x, y. unfold hex_byte. by rewrite Hx, Hy. }
  revert k. induction l as [|b l IH]; intros [|d k] Heq; cbn in Heq; try done.
  - destruct (Hb d) as (x & y & Hd & _). by rewrite Hd in Heq.
  - destruct (Hb b) as (x & y & Hd & _). by rewrite Hd in Heq.
  - destruct (Hb b) as (x & y & H1 & H2 & H3). destruct (Hb d) as (x' & y' & H1' & H2' & H3').
    rewrite H1, H1' in Heq. cbn in Heq. injection Heq as -> -> Heq. f_equal; [|by apply IH].
    pose proof (byte_val_range b). pose proof (byte_val_range d).
    pose proof (Z.mod_pos_bound (byte_val b) 16). pose proof (Z.mod_pos_bound (byte_val d) 16).
    apply byte_val_inj. rewrite (Z.div_mod (byte_val b) 16), (Z.div_mod (byte_val d) 16) by lia.
    f_equal; [f_equal|]; apply hex_digit_inj; try lia; try congruence.
    all: split; [apply Z.div_pos|apply Z.div_lt_upper_bound]; lia.
Qed.

Lemma digest_eq `{Sha2} a b : digest a = digest b <-> sha256 a = sha256 b.
Proof. unfold digest. split; [apply hex_encode_inj|by intros ->]. Qed.

(** ** What a payload is read back as *)

(** Authentication: a ciphertext does not decrypt under other associated data. *)
Class AeadAuthentic `{Aead} : Prop := {
  aead_binds : forall key nonce ad ad' m ct,
    aead_encrypt key nonce ad m = Some ct -> ad <> ad' -> aead_decrypt key nonce ad' ct = None;
}.

Section vault_facts.
Context `{Sha2} `{AeadLaws}.

Definition put_aad (r : PutPayloadRequest) : list byte :=
  aad (payload_ref_for r) (put_object_id r) (put_revision r) (put_media_type r).

(** An existing row that a put of [r] can be written over and read back. *)
Definition row_matches (r : PutPayloadRequest) (row : Row) : Prop :=
  row_object_id row = put_object_id r /\ row_revision row = put_revision r /\
  row_algorithm row = ALGORITHM /\ row_deleted_at row = None /\
  row_aad_hash row = digest (put_aad r).

Lemma put_ok r nonce now v v' rec :
  vault_put r (Ok nonce) now v = (v', Ok rec) ->
  exists ct,
    aead_encrypt (root_key v) nonce (put_aad r) (put_plaintext r) = Some ct /\
    put_revision r <= I64_MAX /\ vr_payload_ref rec = payload_ref_for r /\
    vr_ciphertext rec = ct /\ root_key v' = root_key v /\
    records v' = <[payload_ref_for r :=
      upsert_row (records v !! payload_ref_for r)
        (mkRow (put_object_id r) (put_revision r) KEY_VERSION "committed" ALGORITHM nonce ct
           (digest (put_aad r)) (digest (put_plaintext r)) (zlen (put_plaintext r))
           (put_media_type r) now None)]> (records v).
Proof.
  unfold vault_put. fold (put_aad r). intros Hp. case_match; [done|].
  destruct (aead_encrypt _ _ _ _) as [ct|]; [|done].
  destruct (put_revision r >? I64_MAX) eqn:Hr; [done|]. case_match; [done|]. simplify_eq.
  bool_to_prop. by exists ct.
Qed.

Lemma as_u64_in_range z : in_u64 z -> as_u64 z = z.
Proof. unfold in_u64, as_u64, U64_MAX. intros. apply Z.mod_small. lia. Qed.

(** The branches of [vault_get] on a committed row. *)
Lemma get_row g v row :
  records v !! get_payload_ref g = Some row -> row_storage_state row = "committed" ->
  row_deleted_at row = None -> row_algorithm row = ALGORITHM -> zlen (row_nonce row) = NONCE_LEN ->
  let ad := aad (get_payload_ref g) (row_object_id row) (as_u64 (row_revision row))
              (row_media_type row) in
  (digest ad <> row_aad_hash row -> vault_get g v = Err "vault AAD integrity check failed") /\
  (forall m, digest ad = row_aad_hash row ->
     aead_decrypt (root_key v) (row_nonce row) ad (row_ciphertext row) = Some m ->
     digest m = row_payload_hash row -> vault_get g v = Ok (mkGot m (row_media_type row))).
Proof.
  intros Hrow Hs Hd Ha Hn ad.
  assert (Hsel : select_committed v (get_payload_ref g) = Some row).
  { unfold select_committed. by rewrite Hrow, Hs, Hd. }
  unfold vault_get. rewrite Hsel, Ha, Hn. fold ad.
  change (negb (str_eqb ALGORITHM ALGORITHM) || negb (NONCE_LEN =? NONCE_LEN)) with false. cbv iota.
  split.
  - intros Hne. unfold str_eqb. by rewrite bool_decide_false.
  - intros m Hh Hm Hp. rewrite (proj2 (str_eqb_eq _ _) Hh). cbn [negb]. rewrite Hm.
    by rewrite (proj2 (str_eqb_eq _ _) Hp).
Qed.


(** C20: stored payloads cannot be moved or relabelled among references and
    object identifiers without a NUL byte: if the nonce and ciphertext of a row are
    those of some earlier put under the same key, a get succeeds only when the
    reference, object, revision and media type of the row are those of that put,
    and it returns that put's plaintext. (The associated data join the fields with
    NUL bytes; [nul_confuses_identities] shows that the condition is needed.) *)
Theorem vault_binds_identity `{!AeadAuthentic} r nonce ct g v resp row :
  nul_free (as_bytes (payload_ref_for r)) -> nul_free (as_bytes (put_object_id r)) ->
  nul_free (as_bytes (get_payload_ref g)) -> nul_free (as_bytes (row_object_id row)) ->
  aead_encrypt (root_key v) nonce (put_aad r) (put_plaintext r) = Some ct ->
  records v !! get_payload_ref g = Some row -> row_nonce row = nonce -> row_ciphertext row = ct ->
  vault_get g v = Ok resp ->
  get_payload_ref g = payload_ref_for r /\ row_object_id row = put_object_id r /\
  as_u64 (row_revision row) = put_revision r /\ row_media_type row = put_media_type r /\
  resp = mkGot (put_plaintext r) (put_media_type r).
Proof.
  intros Hn1 Hn2 Hn3 Hn4 Henc Hrow <- <- Hget. unfold vault_get, select_committed in Hget.
  rewrite Hrow in Hget. destruct (str_eqb _ "committed" && _); [|done].
  destruct (_ || _); [done|].
  set (ad := aad (get_payload_ref g) (row_object_id row) (as_u64 (row_revision row))
               (row_media_type row)) in *.
  destruct (str_eqb (digest ad) _); [|done]. cbn [negb] in Hget.
  destruct (decide (put_aad r = ad)) as [Heq|Hne].
  2: { by rewrite (aead_binds _ _ _ _ _ _ Henc Hne) in Hget. }
  pose proof Heq as Hinj. unfold put_aad, ad in Hinj.
  apply aad_inj in Hinj as (-> & -> & -> & Hm); try done.
  rewrite <- Heq, (aead_roundtrip _ _ _ _ _ Henc) in Hget.
  destruct (str_eqb (digest _) _); [|done]. cbn in Hget. injection Hget as <-. by rewrite Hm.
Qed.

Lemma string_app_assoc (a b c : string) : (a +:+ b) +:+ c = a +:+ b +:+ c.
Proof. induction a as [|x a IH]; [done|exact (f_equal (String x) IH)]. Qed.

(** the associated data do not tell where a NUL byte of a reference or an object
    identifier ends and the next field begins: the reference [x NUL y] of the object
    [z] and the reference [x] of the object [y NUL z] have the same, so a row moved
    from the one identity to the other passes the integrity check and is read. *)
Theorem nul_confuses_identities x y z revision media nonce m ct v row :
  let moved := mkRow (y +:+ NUL +:+ z) revision KEY_VERSION "committed" ALGORITHM nonce ct
                 (digest (aad (x +:+ NUL +:+ y) z (as_u64 revision) media)) (digest m) (zlen m) media
                 (row_created_at row) None in
  zlen nonce = NONCE_LEN ->
  aead_encrypt (root_key v) nonce (aad (x +:+ NUL +:+ y) z (as_u64 revision) media) m = Some ct ->
  records v !! x = Some moved ->
  vault_get (mkGet x "Apply") v = Ok (mkGot m media).
Proof.
  intros moved Hn Henc Hrow.
  assert (Haad : aad x (y +:+ NUL +:+ z) (as_u64 revision) media
                 = aad (x +:+ NUL +:+ y) z (as_u64 revision) media).
  { unfold aad. by rewrite !string_app_assoc. }
  apply (proj2 (get_row (mkGet x "Apply") v moved Hrow eq_refl eq_refl eq_refl Hn));
    unfold moved; cbn [get_payload_ref row_object_id row_revision row_media_type row_aad_hash
                       row_nonce row_ciphertext row_payload_hash]; rewrite ?Haad; try done.
  by eapply aead_roundtrip.
Qed.

(** writing over a reference can lose the payload although the put reports
    success: after a delete the deletion mark stays, so a new payload under the
    reference is never found; and a put with another media type keeps the digest
    of the old associated data, so reading it back fails (unless SHA-256 maps the
    two associated data to the same digest). *)
Theorem overwrite_unreadable r nonce now v v' rec purpose :
  vault_put r (Ok nonce) now v = (v', Ok rec) ->
  (forall when u, v = vault_delete (payload_ref_for r) when u ->
     records u !! payload_ref_for r <> None ->
     vault_get (mkGet (vr_payload_ref rec) purpose) v' = Err "vault payload not found") /\
  (forall row, records v !! payload_ref_for r = Some row -> row_deleted_at row = None ->
     row_algorithm row = ALGORITHM -> zlen nonce = NONCE_LEN ->
     row_object_id row = put_object_id r -> row_revision row = put_revision r ->
     in_u64 (put_revision r) ->
     row_aad_hash row = digest (aad (payload_ref_for r) (row_object_id row)
                                  (as_u64 (row_revision row)) (row_media_type row)) ->
     sha256 (put_aad r) <>
       sha256 (aad (payload_ref_for r) (row_object_id row) (as_u64 (row_revision row))
                 (row_media_type row)) ->
     vault_get (mkGet (vr_payload_ref rec) purpose) v' = Err "vault AAD integrity check failed").
Proof.
  intros Hp. apply put_ok in Hp as (ct & Henc & Hi & -> & _ & Hk & Hr). split.
  - intros when u -> Hu. unfold vault_get, select_committed. cbn [get_payload_ref].
    rewrite Hr, lookup_insert_eq. cbn [records vault_delete]. rewrite lookup_alter_eq.
    destruct (records u !! payload_ref_for r) as [o|]; [|done]. done.
  - intros row Hrow Hd Ha Hn Ho Hrev Hu Hh Hsha. rewrite Hrow in Hr. cbn [upsert_row] in Hr.
    eapply (proj1 (get_row (mkGet (payload_ref_for r) purpose) v' _
      (eq_trans (f_equal (lookup _) Hr) (lookup_insert_eq _ _ _)) eq_refl Hd Ha Hn)).
    cbn [get_payload_ref row_object_id row_revision row_media_type row_aad_hash].
    rewrite Hh, digest_eq. rewrite Ho, Hrev, as_u64_in_range in * by done. done.
Qed.

(** A deleted payload is not readable. *)
Lemma deleted_not_found ref now purpose v :
  vault_get (mkGet ref purpose) (vault_delete ref now v) = Err "vault payload not found".
Proof.
  unfold vault_get, select_committed. cbn. rewrite lookup_alter_eq.
  by destruct (records v !! ref).
Qed.
End vault_facts.

(** ** Concrete runs *)
Module Sample.
#[export] Instance sha2 : Sha2 := Concrete.sha2.

(** A cipher that writes the associated data in front of the plaintext, with
    their length in unary. *)
Definition header (ad : list byte) : list byte := replicate (length ad) x01 ++ x00 :: ad.
#[export] Instance aead : Aead := {
  aead_encrypt _ _ ad m := Some (header ad ++ m);
  aead_decrypt _ _ ad ct :=
    if bool_decide (take (length (header ad)) ct = header ad)
    then Some (drop (length (header ad)) ct) else None;
}.
#[export] Instance aead_laws : AeadLaws.
Proof.
  split. cbn. intros _ _ ad m ct [= <-].
  by rewrite take_app_length, bool_decide_true, drop_app_length.
Qed.

Lemma header_prefix a b x y : header a ++ x = header b ++ y -> a = b.
Proof.
  assert (Hlen : forall n k l l', replicate n x01 ++ x00 :: l = replicate k x01 ++ x00 :: l' ->
            n = k /\ l = l').
  { induction n as [|n IH]; intros [|k] l l' Heq; cbn in Heq; simplify_eq; [done|].
    by destruct (IH _ _ _ Heq) as [-> ->]. }
  unfold header. rewrite <- !app_assoc. cbn. intros Heq.
  apply Hlen in Heq as [Hl Heq]. by apply app_inj_1 in Heq as [? _].
Qed.

#[export] Instance aead_authentic : AeadAuthentic.
Proof.
  split. cbn. intros _ _ ad ad' m ct [= <-] Hne. case_bool_decide as Hd; [|done].
  exfalso. apply Hne. apply (header_prefix _ _ m (drop (length (header ad')) (header ad ++ m))).
  rewrite <- (take_drop (length (header ad')) (header ad ++ m)) at 1. by rewrite Hd.
Qed.

Definition nonce : list byte := replicate 24 x07.
Definition request : PutPayloadRequest :=
  mkPut "vault:o1-r1" "o1" 1 "application/json" [x41; x42].
Definition vault : EncryptedVault := vault_open_in_memory (replicate 32 x07) 0.
End Sample.
Import Sample.


Lemma vault_binds_identity_witness :
  "vault:o1-r1" = payload_ref_for request.
Proof.
  set (v := (vault_put request (Ok nonce) 9 vault).1).
  set (row := mkRow "o1" 1 1 "committed" ALGORITHM nonce
     (header (put_aad request) ++ [x41; x42]) (digest (put_aad request)) (digest [x41; x42]) 2
     "application/json" 9 None).
  refine (proj1 (vault_binds_identity request nonce (header (put_aad request) ++ [x41; x42])
           (mkGet "vault:o1-r1" "Apply") v (mkGot [x41; x42] "application/json") row
           _ _ _ _ _ _ _ _ _)).
  all: try (vm_compute; reflexivity).
  all: vm_compute; set_solver.
Defined.

Lemma nul_confuses_identities_witness :
  let put := mkPut ("a" +:+ NUL +:+ "b") "c" 1 "text/plain" [x41] in
  let row := mkRow ("b" +:+ NUL +:+ "c") 1 KEY_VERSION "committed" ALGORITHM nonce
               (header (put_aad put) ++ [x41]) (digest (put_aad put)) (digest [x41]) 1 "text/plain" 0
               None in
  vault_get (mkGet "a" "Apply") (mkVault {["a" := row]} ∅ (replicate 32 x07))
  = Ok (mkGot [x41] "text/plain").
Proof.
  intros put row.
  exact (nul_confuses_identities "a" "b" "c" 1 "text/plain" nonce [x41] (header (put_aad put) ++ [x41])
    (mkVault {["a" := row]} ∅ (replicate 32 x07)) row eq_refl eq_refl ltac:(vm_compute; reflexivity)).
Defined.

Lemma overwrite_unreadable_witness :
  let v := vault_delete "vault:o1-r1" 10 (vault_put request (Ok nonce) 9 vault).1 in
  vault_get (mkGet "vault:o1-r1" "Apply") (vault_put request (Ok nonce) 11 v).1
  = Err "vault payload not found".
Proof.
  intros v. destruct (vault_put request (Ok nonce) 11 v) as [v' [rec|]] eqn:Hp;
    [|by vm_compute in Hp].
  assert (Hv : vr_payload_ref rec = "vault:o1-r1").
  { apply put_ok in Hp as (ct & _ & _ & -> & _). reflexivity. }
  rewrite <- Hv. cbn [fst].
  apply (proj1 (overwrite_unreadable request nonce 11 v v' rec "Apply" Hp) 10
           (vault_put request (Ok nonce) 9 vault).1).
  - reflexivity.
  - vm_compute. congruence.
Defined.
