(* ===== verification/Schema.v ===== *)
(** * The declared schema

    [src/src/storage/schema.rs]: the batch of statements [create_tables] runs,
    as data: every table with its columns, defaults, checks, keys and foreign
    keys, the search index and the other indices. The statements are
    [IF NOT EXISTS]. The database engine itself is a parameter, [Sqlite], with the
    law that it refuses a row that violates a declared constraint; [Storage] runs
    its statements on it. *)
From S2P Require Import Prelude Errors External.

Inductive SqlType := TEXT | INTEGER.
Inductive Literal := LText (s : string) | LInt (z : Z).
(** [CHECK (c IN (...))] and [CHECK (c >= z)]. *)
Inductive Check := TextIn (l : list string) | IntIn (l : list Z) | AtLeast (z : Z).
Inductive OnDelete := Cascade | SetNull.
Inductive Order := Asc | Desc.

Record Column := mkColumn {
  col_name : string;
  col_type : SqlType;
  col_not_null : bool;
  col_default : option Literal;
  col_check : option Check;
  col_unique : bool;
  col_nocase : bool;
}.
Record ForeignKey := mkForeign {
  fk_column : string;
  fk_table : string;
  fk_target : string;
  fk_action : OnDelete;
}.
Record Table := mkTable {
  table_name : string;
  columns : list Column;
  primary_key : list string;
  autoincrement : bool;
  foreign_keys : list ForeignKey;
}.
Record Index := mkIndex {
  index_name : string;
  index_table : string;
  index_columns : list (string * Order);
}.
Inductive Statement :=
| Pragma (name value : string)
| CreateTable (t : Table)
| CreateSearch (name : string) (cols : list (string * bool))
| CreateIndex (i : Index).

#[export] Instance SqlType_eq_dec : EqDecision SqlType.
Proof. solve_decision. Defined.
#[export] Instance OnDelete_eq_dec : EqDecision OnDelete.
Proof. solve_decision. Defined.

Definition opt (name : string) (ty : SqlType) : Column := mkColumn name ty false None None false false.
Definition req (name : string) (ty : SqlType) : Column := mkColumn name ty true None None false false.
Definition defaults (l : Literal) (c : Column) : Column :=
  mkColumn (col_name c) (col_type c) (col_not_null c) (Some l) (col_check c) (col_unique c)
    (col_nocase c).
Definition checks (k : Check) (c : Column) : Column :=
  mkColumn (col_name c) (col_type c) (col_not_null c) (col_default c) (Some k) (col_unique c)
    (col_nocase c).
Definition unique (c : Column) : Column :=
  mkColumn (col_name c) (col_type c) (col_not_null c) (col_default c) (col_check c) true (col_nocase c).
Definition nocase (c : Column) : Column :=
  mkColumn (col_name c) (col_type c) (col_not_null c) (col_default c) (col_check c) (col_unique c) true.

(** ** The statements *)

Definition schema_migrations_table : Table := mkTable "schema_migrations"
  [opt "version" INTEGER;
   req "name" TEXT;
   req "checksum" TEXT;
   req "applied_at" INTEGER]
  ["version"] false
  [].

Definition app_metadata_table : Table := mkTable "app_metadata"
  [opt "key" TEXT;
   req "value" TEXT;
   req "updated_at" INTEGER]
  ["key"] false
  [].

Definition devices_table : Table := mkTable "devices"
  [opt "id" TEXT;
   unique (req "uid" TEXT);
   req "label" TEXT;
   opt "platform" TEXT;
   req "public_key" TEXT;
   defaults (LText "rsa-2048") (req "key_algorithm" TEXT);
   checks (TextIn ["unknown"; "pending"; "trusted"; "blocked"; "revoked"])
     (defaults (LText "unknown") (req "trust_state" TEXT));
   defaults (LText "{}") (req "capabilities_json" TEXT);
   opt "endpoint_hint" TEXT;
   opt "last_seen_at" INTEGER;
   req "created_at" INTEGER;
   req "updated_at" INTEGER;
   opt "revoked_at" INTEGER]
  ["id"] false
  [].

Definition idx_devices_trust : Index :=
  mkIndex "idx_devices_trust" "devices" [("trust_state", Asc); ("last_seen_at", Desc)].

Definition objects_table : Table := mkTable "objects"
  [opt "id" TEXT;
   req "kind" TEXT;
   defaults (LInt 1) (req "schema_version" INTEGER);
   req "title" TEXT;
   opt "description" TEXT;
   checks (TextIn ["public"; "internal"; "sensitive"; "secret"])
     (defaults (LText "internal") (req "sensitivity" TEXT));
   checks (TextIn ["draft"; "active"; "archived"; "revoked"; "deleted"])
     (defaults (LText "active") (req "status" TEXT));
   opt "workspace_id" TEXT;
   unique (req "payload_ref" TEXT);
   req "payload_hash" TEXT;
   checks (AtLeast 0) (defaults (LInt 0) (req "payload_size" INTEGER));
   defaults (LText "application/json") (req "payload_media_type" TEXT);
   checks (AtLeast 1) (defaults (LInt 1) (req "current_revision" INTEGER));
   checks (TextIn ["staged"; "ready"; "deleting"; "corrupt"])
     (defaults (LText "ready") (req "storage_state" TEXT));
   defaults (LText "local") (req "provenance_type" TEXT);
   defaults (LText "{}") (req "provenance_json" TEXT);
   opt "created_by_device" TEXT;
   req "created_at" INTEGER;
   req "updated_at" INTEGER;
   opt "last_used_at" INTEGER;
   opt "deleted_at" INTEGER]
  ["id"] false
  [mkForeign "workspace_id" "workspaces" "id" SetNull;
   mkForeign "created_by_device" "devices" "id" SetNull].

Definition idx_objects_kind_status : Index :=
  mkIndex "idx_objects_kind_status" "objects" [("kind", Asc); ("status", Asc)].

Definition idx_objects_workspace : Index :=
  mkIndex "idx_objects_workspace" "objects" [("workspace_id", Asc); ("updated_at", Desc)].

Definition idx_objects_updated : Index :=
  mkIndex "idx_objects_updated" "objects" [("updated_at", Desc)].

Definition idx_objects_sensitivity : Index :=
  mkIndex "idx_objects_sensitivity" "objects" [("sensitivity", Asc); ("status", Asc)].

Definition idx_objects_payload_hash : Index :=
  mkIndex "idx_objects_payload_hash" "objects" [("payload_hash", Asc)].

Definition workspaces_table : Table := mkTable "workspaces"
  [opt "id" TEXT;
   req "name" TEXT;
   opt "description" TEXT;
   opt "root_path" TEXT;
   checks (TextIn ["active"; "archived"; "deleted"])
     (defaults (LText "active") (req "status" TEXT));
   req "created_at" INTEGER;
   req "updated_at" INTEGER]
  ["id"] false
  [].

Definition idx_workspaces_status : Index :=
  mkIndex "idx_workspaces_status" "workspaces" [("status", Asc); ("updated_at", Desc)].

Definition apps_table : Table := mkTable "apps"
  [opt "id" TEXT;
   req "adapter_id" TEXT;
   req "display_name" TEXT;
   opt "version" TEXT;
   opt "detected_path" TEXT;
   defaults (LText "{}") (req "capabilities_json" TEXT);
   checks (TextIn ["unknown"; "detected"; "available"; "unsupported"; "disabled"])
     (defaults (LText "unknown") (req "status" TEXT));
   req "created_at" INTEGER;
   req "updated_at" INTEGER]
  ["id"] false
  [].

Definition app_bindings_table : Table := mkTable "app_bindings"
  [req "app_id" TEXT;
   req "object_id" TEXT;
   req "binding_kind" TEXT;
   checks (IntIn [0; 1]) (defaults (LInt 1) (req "enabled" INTEGER));
   defaults (LText "{}") (req "mapping_json" TEXT);
   defaults (LInt 1) (req "revision" INTEGER);
   req "created_at" INTEGER;
   req "updated_at" INTEGER]
  ["app_id"; "object_id"; "binding_kind"] false
  [mkForeign "app_id" "apps" "id" Cascade;
   mkForeign "object_id" "objects" "id" Cascade].

Definition tags_table : Table := mkTable "tags"
  [opt "id" TEXT;
   nocase (unique (req "name" TEXT));
   req "created_at" INTEGER]
  ["id"] false
  [].

Definition object_tags_table : Table := mkTable "object_tags"
  [req "object_id" TEXT;
   req "tag_id" TEXT]
  ["object_id"; "tag_id"] false
  [mkForeign "object_id" "objects" "id" Cascade;
   mkForeign "tag_id" "tags" "id" Cascade].

(** Columns with whether they are indexed for search. *)
Definition object_search_columns : list (string * bool) :=
  [("object_id", false); ("title", true); ("description", true); ("tags", true); ("kind", true);
    ("provenance", true)].

Definition object_revisions_table : Table := mkTable "object_revisions"
  [req "object_id" TEXT;
   req "revision" INTEGER;
   req "payload_ref" TEXT;
   req "payload_hash" TEXT;
   req "payload_size" INTEGER;
   checks (TextIn ["created"; "updated"; "imported"; "applied"; "restored"; "merged"])
     (req "change_type" TEXT);
   opt "change_summary" TEXT;
   opt "author_device_id" TEXT;
   req "created_at" INTEGER]
  ["object_id"; "revision"] false
  [mkForeign "object_id" "objects" "id" Cascade;
   mkForeign "author_device_id" "devices" "id" SetNull].

Definition object_sources_table : Table := mkTable "object_sources"
  [req "object_id" TEXT;
   req "source_type" TEXT;
   opt "source_uri" TEXT;
   opt "source_app_id" TEXT;
   opt "source_hash" TEXT;
   req "imported_at" INTEGER;
   defaults (LText "{}") (req "metadata_json" TEXT)]
  ["object_id"; "source_type"; "source_uri"] false
  [mkForeign "object_id" "objects" "id" Cascade;
   mkForeign "source_app_id" "apps" "id" SetNull].

Definition shares_table : Table := mkTable "shares"
  [opt "id" TEXT;
   opt "object_id" TEXT;
   opt "pack_manifest_json" TEXT;
   unique (req "envelope_ref" TEXT);
   checks (TextIn ["local_file"; "clipboard"; "qr"; "deep_link"; "https"; "p2p"; "sync"; "api"])
     (req "channel" TEXT);
   checks (TextIn ["local"; "private_device"; "selected_recipient"; "link_bearer"; "delegated"])
     (req "trust_policy" TEXT);
   opt "recipient_device_id" TEXT;
   opt "recipient_hint" TEXT;
   req "expires_at" INTEGER;
   checks (IntIn [0; 1]) (defaults (LInt 1) (req "one_time" INTEGER));
   checks (TextIn ["created"; "offered"; "opened"; "verified"; "consumed"; "revoked";
       "expired"; "failed"])
     (defaults (LText "created") (req "status" TEXT));
   defaults (LInt 0) (req "attempts" INTEGER);
   defaults (LInt 3) (req "max_attempts" INTEGER);
   opt "locked_until" INTEGER;
   opt "created_by_device_id" TEXT;
   req "created_at" INTEGER;
   opt "opened_at" INTEGER;
   opt "consumed_at" INTEGER;
   opt "revoked_at" INTEGER]
  ["id"] false
  [mkForeign "object_id" "objects" "id" SetNull;
   mkForeign "recipient_device_id" "devices" "id" SetNull;
   mkForeign "created_by_device_id" "devices" "id" SetNull].

Definition idx_shares_status_expiry : Index :=
  mkIndex "idx_shares_status_expiry" "shares" [("status", Asc); ("expires_at", Asc)].

Definition idx_shares_recipient : Index :=
  mkIndex "idx_shares_recipient" "shares" [("recipient_device_id", Asc); ("status", Asc)].

Definition share_events_table : Table := mkTable "share_events"
  [opt "id" INTEGER;
   req "share_id" TEXT;
   checks (TextIn ["created"; "offered"; "opened"; "pin_failed"; "verified"; "consumed";
       "revoked"; "expired"; "failed"])
     (req "event_type" TEXT);
   opt "actor_device_id" TEXT;
   defaults (LText "ok") (req "result" TEXT);
   defaults (LText "{}") (req "metadata_json" TEXT);
   req "created_at" INTEGER]
  ["id"] true
  [mkForeign "share_id" "shares" "id" Cascade;
   mkForeign "actor_device_id" "devices" "id" SetNull].

Definition apply_receipts_table : Table := mkTable "apply_receipts"
  [opt "id" TEXT;
   req "object_id" TEXT;
   req "revision" INTEGER;
   opt "app_id" TEXT;
   opt "adapter_id" TEXT;
   opt "target_path" TEXT;
   opt "before_hash" TEXT;
   opt "after_hash" TEXT;
   opt "backup_id" TEXT;
   checks (TextIn ["planned"; "applied"; "rolled_back"; "failed"]) (req "status" TEXT);
   opt "error_code" TEXT;
   req "created_at" INTEGER;
   opt "completed_at" INTEGER]
  ["id"] false
  [mkForeign "object_id" "objects" "id" Cascade;
   mkForeign "app_id" "apps" "id" SetNull].

Definition backups_table : Table := mkTable "backups"
  [opt "id" TEXT;
   checks (TextIn ["metadata"; "full"; "object"; "live_config"]) (req "kind" TEXT);
   req "path" TEXT;
   req "checksum" TEXT;
   checks (IntIn [0; 1]) (defaults (LInt 1) (req "encrypted" INTEGER));
   opt "source_revision" INTEGER;
   req "reason" TEXT;
   req "created_at" INTEGER;
   opt "expires_at" INTEGER;
   opt "restored_at" INTEGER]
  ["id"] false
  [].

Definition audit_events_table : Table := mkTable "audit_events"
  [opt "id" INTEGER;
   unique (req "event_id" TEXT);
   checks (TextIn ["user"; "device"; "system"; "adapter"]) (req "actor_type" TEXT);
   opt "actor_id" TEXT;
   req "action" TEXT;
   req "entity_type" TEXT;
   opt "entity_id" TEXT;
   checks (TextIn ["success"; "failure"; "denied"]) (req "result" TEXT);
   opt "error_code" TEXT;
   defaults (LText "{}") (req "metadata_json" TEXT);
   req "created_at" INTEGER]
  ["id"] true
  [].

Definition idx_audit_entity : Index :=
  mkIndex "idx_audit_entity" "audit_events" [("entity_type", Asc); ("entity_id", Asc); ("created_at", Desc)].

Definition idx_audit_time : Index :=
  mkIndex "idx_audit_time" "audit_events" [("created_at", Desc)].

Definition sync_cursors_table : Table := mkTable "sync_cursors"
  [opt "provider_id" TEXT;
   opt "local_cursor" TEXT;
   opt "remote_cursor" TEXT;
   opt "last_success_at" INTEGER;
   opt "last_error_code" TEXT;
   req "updated_at" INTEGER]
  ["provider_id"] false
  [].

Definition sync_changes_table : Table := mkTable "sync_changes"
  [opt "id" TEXT;
   req "provider_id" TEXT;
   req "object_id" TEXT;
   req "revision" INTEGER;
   checks (TextIn ["upsert"; "delete"; "revoke"]) (req "operation" TEXT);
   opt "payload_ref" TEXT;
   opt "payload_hash" TEXT;
   defaults (LText "{}") (req "vector_json" TEXT);
   checks (TextIn ["pending"; "uploaded"; "downloaded"; "applied"; "conflict"; "failed"])
     (defaults (LText "pending") (req "state" TEXT));
   req "created_at" INTEGER;
   req "updated_at" INTEGER]
  ["id"] false
  [mkForeign "object_id" "objects" "id" Cascade].

Definition sync_conflicts_table : Table := mkTable "sync_conflicts"
  [opt "id" TEXT;
   req "object_id" TEXT;
   req "local_revision" INTEGER;
   req "remote_revision" INTEGER;
   req "local_hash" TEXT;
   req "remote_hash" TEXT;
   checks (TextIn ["keep_local"; "keep_remote"; "merge"; "duplicate"]) (opt "resolution" TEXT);
   opt "resolved_at" INTEGER;
   req "created_at" INTEGER]
  ["id"] false
  [mkForeign "object_id" "objects" "id" Cascade].

(** The batch, in the order of the source. *)
Definition batch : list Statement :=
  [Pragma "foreign_keys" "ON";
   Pragma "journal_mode" "WAL";
   Pragma "synchronous" "FULL";
   Pragma "busy_timeout" "5000";
   Pragma "trusted_schema" "OFF";
   Pragma "secure_delete" "ON";
   Pragma "recursive_triggers" "ON";
   Pragma "auto_vacuum" "INCREMENTAL";
   CreateTable schema_migrations_table;
   CreateTable app_metadata_table;
   CreateTable devices_table;
   CreateIndex idx_devices_trust;
   CreateTable objects_table;
   CreateIndex idx_objects_kind_status;
   CreateIndex idx_objects_workspace;
   CreateIndex idx_objects_updated;
   CreateIndex idx_objects_sensitivity;
   CreateIndex idx_objects_payload_hash;
   CreateTable workspaces_table;
   CreateIndex idx_workspaces_status;
   CreateTable apps_table;
   CreateTable app_bindings_table;
   CreateTable tags_table;
   CreateTable object_tags_table;
   CreateSearch "object_search" object_search_columns;
   CreateTable object_revisions_table;
   CreateTable object_sources_table;
   CreateTable shares_table;
   CreateIndex idx_shares_status_expiry;
   CreateIndex idx_shares_recipient;
   CreateTable share_events_table;
   CreateTable apply_receipts_table;
   CreateTable backups_table;
   CreateTable audit_events_table;
   CreateIndex idx_audit_entity;
   CreateIndex idx_audit_time;
   CreateTable sync_cursors_table;
   CreateTable sync_changes_table;
   CreateTable sync_conflicts_table].

(** ** Running the batch *)

(** What exists in the database file, by name. *)
Notation Catalog := (gmap string Statement).

Definition created_name (s : Statement) : option string :=
  match s with
  | Pragma _ _ => None
  | CreateTable t => Some (table_name t)
  | CreateSearch name _ => Some name
  | CreateIndex i => Some (index_name i)
  end.
Definition execute (cat : Catalog) (s : Statement) : Catalog :=
  match created_name s with
  | None => cat
  | Some name => if is_some (cat !! name) then cat else <[name := s]> cat
  end.
Definition execute_batch (cat : Catalog) : Catalog := foldl execute cat batch.

Lemma execute_mono cat s name : is_Some (cat !! name) -> execute cat s !! name = cat !! name.
Proof.
  unfold execute. destruct (created_name s) as [n|]; [|done]. intros [x Hx].
  destruct (cat !! n) eqn:E; [done|]. cbn. rewrite lookup_insert_ne by congruence. done.
Qed.

Lemma execute_all_mono l cat name :
  is_Some (cat !! name) -> foldl execute cat l !! name = cat !! name.
Proof.
  revert cat. induction l as [|s l IH]; intros cat Hc; [done|]. cbn.
  rewrite IH; rewrite execute_mono; done.
Qed.

Lemma execute_created cat s name : created_name s = Some name -> is_Some (execute cat s !! name).
Proof.
  unfold execute. intros ->. destruct (cat !! name) eqn:E; cbn; [by rewrite E|].
  rewrite lookup_insert_eq. eauto.
Qed.

(** Running statements whose objects exist changes nothing. *)
Lemma execute_all_again l cat :
  (forall s name, s ∈ l -> created_name s = Some name -> is_Some (cat !! name)) ->
  foldl execute cat l = cat.
Proof.
  revert cat. induction l as [|s l IH]; intros cat Hl; [done|]. cbn.
  assert (execute cat s = cat) as ->.
  { unfold execute. destruct (created_name s) as [n|] eqn:E; [|done].
    destruct (Hl s n) as [x Hx]; [set_solver|done|]. by rewrite Hx. }
  apply IH. intros s' n Hin. apply Hl. set_solver.
Qed.

Lemma execute_all_exist l cat s name :
  s ∈ l -> created_name s = Some name -> is_Some (foldl execute cat l !! name).
Proof.
  revert cat. induction l as [|s' l IH]; intros cat Hin Hn; [set_solver|].
  cbn. apply elem_of_cons in Hin as [<-|Hin]; [|by apply IH].
  pose proof (execute_created cat s name Hn) as He. by rewrite execute_all_mono.
Qed.

(** [create_tables] can run at every start: a second run changes nothing,
    whatever was in the database before, and no run replaces a table, index or
    search index that exists; on an empty database every object has exactly its
    declaration. *)
Theorem create_tables_idempotent (cat : Catalog) :
  execute_batch (execute_batch cat) = execute_batch cat /\
  (forall name, is_Some (cat !! name) -> execute_batch cat !! name = cat !! name) /\
  Forall (fun s => match created_name s with
                   | Some name => execute_batch ∅ !! name = Some s | None => True end) batch.
Proof.
  split_and!.
  - apply execute_all_again. intros s name. apply execute_all_exist.
  - intros name. apply execute_all_mono.
  - repeat (apply Forall_cons_2; [vm_compute; reflexivity || exact I|]). apply Forall_nil_2.
Qed.

(** ** Rows and their constraints *)

Inductive Value := VNull | VText (s : string) | VInt (z : Z).

#[export] Instance Value_eq_dec : EqDecision Value.
Proof. solve_decision. Defined.

(** A column that is not given is null. *)
Notation Row := (list (string * Value)).
Definition cell (r : Row) (name : string) : Value :=
  default VNull (snd <$> find (fun p => str_eqb p.1 name) r).

Definition one_of (l : list string) (s : string) : bool := existsb (str_eqb s) l.

(** A check whose result is null passes; text is greater than every integer. *)
Definition check_ok (k : Check) (v : Value) : bool :=
  match k, v with
  | _, VNull => true
  | TextIn l, VText s => one_of l s
  | IntIn l, VInt z => existsb (Z.eqb z) l
  | AtLeast n, VInt z => n <=? z
  | AtLeast _, VText _ => true
  | TextIn _, VInt _ | IntIn _, VText _ => false
  end.
Definition column_ok (r : Row) (c : Column) : bool :=
  let v := cell r (col_name c) in
  negb (col_not_null c && bool_decide (v = VNull))
  && match col_check c with Some k => check_ok k v | None => true end.

Section constraints.
(** Whether a table has a row with the key. *)
Context (present : string -> Value -> bool).

Definition foreign_ok (r : Row) (fk : ForeignKey) : bool :=
  let v := cell r (fk_column fk) in bool_decide (v = VNull) || present (fk_table fk) v.
Definition columns_ok (t : Table) (r : Row) : bool := forallb (column_ok r) (columns t).
Definition references_ok (t : Table) (r : Row) : bool := forallb (foreign_ok r) (foreign_keys t).
End constraints.

(** The sets of columns two rows must differ in. *)
Definition keys (t : Table) : list (list string) :=
  primary_key t :: ((fun c => [col_name c]) <$> filter (fun c => col_unique c = true) (columns t)).
Definition same_key (r r' : Row) (key : list string) : bool :=
  forallb (fun c => bool_decide (cell r c <> VNull) && bool_decide (cell r c = cell r' c)) key.
Definition conflict (t : Table) (r r' : Row) : bool := existsb (same_key r r') (keys t).

(** ** The engine

    [sql_accepts statements table present others row]: whether SQLite, on a
    connection that ran [statements], lets a row be written into a table whose
    other rows are [others]; [present] tells which keys the tables have. It may
    refuse for reasons of its own. *)
Class Sqlite := {
  sql_accepts : list Statement -> string -> (string -> Value -> bool) -> list Row -> Row -> bool;
}.

(** What SQLite documents of a row it accepts: the checks and not-null
    constraints of its table hold, no other row agrees with it on the primary key
    or on a unique column, and its foreign keys refer to rows that exist, provided
    the connection turned their enforcement on. *)
Class SqliteLaws `{Sqlite} : Prop := {
  sql_enforces : forall statements table t present others row,
    foldl execute ∅ statements !! table = Some (CreateTable t) ->
    sql_accepts statements table present others row = true ->
    columns_ok t row = true /\ Forall (fun other => conflict t row other = false) others /\
    (Pragma "foreign_keys" "ON" ∈ statements -> references_ok present t row = true);
}.

(** An engine that accepts exactly such rows. *)
Module Exact.
Definition turns_keys_on (s : Statement) : bool :=
  match s with Pragma name value => str_eqb name "foreign_keys" && str_eqb value "ON" | _ => false end.
#[export] Instance sqlite : Sqlite := {|
  sql_accepts statements table present others row :=
    match foldl execute ∅ statements !! table with
    | Some (CreateTable t) =>
        columns_ok t row && forallb (fun other => negb (conflict t row other)) others
        && (negb (existsb turns_keys_on statements) || references_ok present t row)
    | _ => false
    end;
|}.
#[export] Instance sqlite_laws : SqliteLaws.
Proof.
  split. intros statements table t present others row Ht. cbn. rewrite Ht.
  intros [[Hc Ho]%andb_true_iff Hr]%andb_true_iff. split_and!; [done| |].
  - apply List.Forall_forall. intros other Hin. rewrite forallb_forall in Ho.
    by apply negb_true_iff, Ho.
  - intros Hp. destruct (existsb turns_keys_on statements) eqn:He; [done|].
    apply not_true_iff_false in He as []. apply existsb_exists.
    exists (Pragma "foreign_keys" "ON"). split; [by apply list_elem_of_In|done].
Qed.
End Exact.
