(* ===== verification/Storage.v ===== *)
(** * The metadata store

    [src/src/storage/schema.rs] and [src/src/storage/store.rs]: the SQLite
    tables of the object model and the operations on them. A table is a map from
    its primary key to its row; constraints ([CHECK], [UNIQUE], foreign keys) are
    tests before a row is written, a transaction that fails leaves the database
    as it was. Tables no operation writes appear only through the keys that
    foreign keys refer to. Errors are the messages of [anyhow]. *)
From S2P Require Import Prelude Errors External Schema.

Definition SCHEMA_VERSION : Z := 1.

(** ** Generated enumerations

    The names and values of the protobuf enums ([proto/*.proto]); [name_of] and
    [value_of] are prost's [as_str_name] and [from_str_name]. *)
Definition enum := list (string * Z).

Definition ObjectKind : enum :=
  [("OBJECT_KIND_UNSPECIFIED", 0); ("OBJECT_KIND_NOTE", 1); ("OBJECT_KIND_MCP_SERVER", 2);
   ("OBJECT_KIND_PROVIDER", 3); ("OBJECT_KIND_PROFILE", 4); ("OBJECT_KIND_PROMPT", 5);
   ("OBJECT_KIND_SKILL", 6); ("OBJECT_KIND_WORKSPACE_PACK", 7); ("OBJECT_KIND_BOOKMARK", 8);
   ("OBJECT_KIND_FILE_REFERENCE", 9); ("OBJECT_KIND_SECRET_PASSWORD", 10);
   ("OBJECT_KIND_SECRET_LOGIN", 11); ("OBJECT_KIND_SECRET_WIFI", 12);
   ("OBJECT_KIND_SECRET_TOTP", 13); ("OBJECT_KIND_QR_CODE", 14); ("OBJECT_KIND_WEBHOOK", 15);
   ("OBJECT_KIND_BUTTON", 16)].
Definition Sensitivity : enum :=
  [("SENSITIVITY_UNSPECIFIED", 0); ("SENSITIVITY_PUBLIC", 1); ("SENSITIVITY_INTERNAL", 2);
   ("SENSITIVITY_SENSITIVE", 3); ("SENSITIVITY_SECRET", 4)].
Definition ObjectStatus : enum :=
  [("OBJECT_STATUS_UNSPECIFIED", 0); ("OBJECT_STATUS_DRAFT", 1); ("OBJECT_STATUS_ACTIVE", 2);
   ("OBJECT_STATUS_ARCHIVED", 3); ("OBJECT_STATUS_REVOKED", 4); ("OBJECT_STATUS_DELETED", 5)].
Definition StorageState : enum :=
  [("STORAGE_STATE_UNSPECIFIED", 0); ("STORAGE_STATE_STAGED", 1); ("STORAGE_STATE_READY", 2);
   ("STORAGE_STATE_DELETING", 3); ("STORAGE_STATE_CORRUPT", 4)].

Definition name_of (e : enum) (value : Z) : option string :=
  fst <$> find (fun p => p.2 =? value) e.
Definition value_of (e : enum) (name : string) : option Z :=
  snd <$> find (fun p => str_eqb p.1 name) e.

(** ** Names in the tables *)

Definition byte_to_ascii_uppercase (b : byte) : byte :=
  let v := byte_val b in
  if (97 <=? v) && (v <=? 122) then byte_of (v - 32) else b.
Definition to_ascii_uppercase (s : string) : string :=
  String.string_of_list_byte (byte_to_ascii_uppercase <$> as_bytes s).
(** [s.replace('.', "_")]. *)
Definition dots_to_underscores (s : string) : string :=
  String.string_of_list_byte ((fun b => if byte_val b =? 46 then x5f else b) <$> as_bytes s).

Definition object_kind_name (value : Z) : string :=
  default "OBJECT_KIND_UNSPECIFIED" (name_of ObjectKind value).
Definition sensitivity_name (value : Z) : string :=
  if value =? 1 then "public" else if value =? 2 then "internal"
  else if value =? 3 then "sensitive" else if value =? 4 then "secret" else "internal".
Definition status_name (value : Z) : string :=
  if value =? 1 then "draft" else if value =? 2 then "active" else if value =? 3 then "archived"
  else if value =? 4 then "revoked" else if value =? 5 then "deleted" else "active".
Definition storage_state_name (value : Z) : string :=
  if value =? 1 then "staged" else if value =? 2 then "ready" else if value =? 3 then "deleting"
  else if value =? 4 then "corrupt" else "ready".

Definition parse_object_kind (value : string) : Z :=
  default 0 (value_of ObjectKind
               ("OBJECT_KIND_" +:+ dots_to_underscores (to_ascii_uppercase value))).
Definition parse_sensitivity (value : string) : Z :=
  default 2 (value_of Sensitivity ("SENSITIVITY_" +:+ to_ascii_uppercase value)).
Definition parse_status (value : string) : Z :=
  default 2 (value_of ObjectStatus ("OBJECT_STATUS_" +:+ to_ascii_uppercase value)).
Definition parse_storage_state (value : string) : Z :=
  default 2 (value_of StorageState ("STORAGE_STATE_" +:+ to_ascii_uppercase value)).

Definition empty_to_none (value : string) : option string :=
  if str_is_empty value then None else Some value.
Definition optional_timestamp (value : Z) : option Z :=
  if value =? 0 then None else Some value.

(** ** Records *)

Record Provenance := mkProvenance {
  source_type : string;
  source_uri : string;
  source_app_id : string;
  source_hash : string;
  attributes : gmap string string;
}.

(** The fields of [ObjectMetadata] the store reads; [policy] and
    [display_attributes] are never stored. *)
Record ObjectMetadata := mkMetadata {
  title : string;
  description : string;
  tags : list string;
  sensitivity : Z;
  provenance : option Provenance;
  workspace_id : string;
}.

Record ObjectRecord := mkObject {
  id : string;
  kind : Z;
  schema_version_of : Z;
  metadata : option ObjectMetadata;
  status : Z;
  payload_ref : string;
  payload_hash : string;
  payload_size : Z;
  payload_media_type : string;
  current_revision : Z;
  storage_state : Z;
  created_at : Z;
  updated_at : Z;
  last_used_at : Z;
  created_by_device_id : string;
}.

(** ** Tables *)

Record ObjectRow := mkObjectRow {
  o_kind : string;
  o_schema_version : Z;
  o_title : string;
  o_description : string;
  o_sensitivity : string;
  o_status : string;
  o_workspace_id : option string;
  o_payload_ref : string;
  o_payload_hash : string;
  o_payload_size : Z;
  o_payload_media_type : string;
  o_current_revision : Z;
  o_storage_state : string;
  o_provenance_type : string;
  o_provenance_json : string;
  o_created_by_device : option string;
  o_created_at : Z;
  o_updated_at : Z;
  o_last_used_at : option Z;
}.
Record RevisionRow := mkRevisionRow {
  r_payload_ref : string;
  r_payload_hash : string;
  r_payload_size : Z;
  r_change_type : string;
  r_change_summary : option string;
  r_created_at : Z;
}.
Record SearchRow := mkSearchRow {
  s_object_id : string;
  s_title : string;
  s_description : string;
  s_tags : string;
  s_kind : string;
  s_provenance : string;
}.
Record BindingRow := mkBindingRow {
  b_enabled : bool;
  b_mapping_json : string;
  b_revision : Z;
  b_created_at : Z;
  b_updated_at : Z;
}.
Record MigrationRow := mkMigrationRow {
  m_name : string;
  m_checksum : string;
  m_applied_at : Z;
}.

Record Db := mkDb {
  schema_migrations : gmap Z MigrationRow;
  app_metadata : gmap string (string * Z);
  objects : gmap string ObjectRow;
  object_revisions : gmap (string * Z) RevisionRow;
  object_search : list SearchRow;
  app_bindings : gmap (string * string * string) BindingRow;
  workspaces : gset string;
  devices : gset string;
  apps : gset string;
}.

Definition set_objects (db : Db) m := mkDb (schema_migrations db) (app_metadata db) m
  (object_revisions db) (object_search db) (app_bindings db) (workspaces db) (devices db) (apps db).
Definition set_revisions (db : Db) m := mkDb (schema_migrations db) (app_metadata db) (objects db)
  m (object_search db) (app_bindings db) (workspaces db) (devices db) (apps db).
Definition set_search (db : Db) l := mkDb (schema_migrations db) (app_metadata db) (objects db)
  (object_revisions db) l (app_bindings db) (workspaces db) (devices db) (apps db).
Definition set_bindings (db : Db) m := mkDb (schema_migrations db) (app_metadata db) (objects db)
  (object_revisions db) (object_search db) m (workspaces db) (devices db) (apps db).

(** ** Rows as the statements write them *)

Definition opt_text (o : option string) : Value := match o with Some s => VText s | None => VNull end.
Definition opt_int (o : option Z) : Value := match o with Some z => VInt z | None => VNull end.

Definition object_row (key : string) (r : ObjectRow) : Row :=
  [("id", VText key); ("kind", VText (o_kind r)); ("schema_version", VInt (o_schema_version r));
   ("title", VText (o_title r)); ("description", VText (o_description r));
   ("sensitivity", VText (o_sensitivity r)); ("status", VText (o_status r));
   ("workspace_id", opt_text (o_workspace_id r)); ("payload_ref", VText (o_payload_ref r));
   ("payload_hash", VText (o_payload_hash r)); ("payload_size", VInt (o_payload_size r));
   ("payload_media_type", VText (o_payload_media_type r));
   ("current_revision", VInt (o_current_revision r));
   ("storage_state", VText (o_storage_state r));
   ("provenance_type", VText (o_provenance_type r));
   ("provenance_json", VText (o_provenance_json r));
   ("created_by_device", opt_text (o_created_by_device r));
   ("created_at", VInt (o_created_at r)); ("updated_at", VInt (o_updated_at r));
   ("last_used_at", opt_int (o_last_used_at r))].
Definition revision_row (key : string * Z) (r : RevisionRow) : Row :=
  [("object_id", VText key.1); ("revision", VInt key.2); ("payload_ref", VText (r_payload_ref r));
   ("payload_hash", VText (r_payload_hash r)); ("payload_size", VInt (r_payload_size r));
   ("change_type", VText (r_change_type r)); ("change_summary", opt_text (r_change_summary r));
   ("created_at", VInt (r_created_at r))].

Definition present (db : Db) (table : string) (v : Value) : bool :=
  match v with
  | VText k =>
      if str_eqb table "workspaces" then bool_decide (k ∈ workspaces db)
      else if str_eqb table "devices" then bool_decide (k ∈ devices db)
      else if str_eqb table "apps" then bool_decide (k ∈ apps db)
      else if str_eqb table "objects" then is_some (objects db !! k) else false
  | _ => false
  end.

Definition binding_row (key : string * string * string) (r : BindingRow) : Row :=
  let '(app, object, binding_kind) := key in
  [("app_id", VText app); ("object_id", VText object); ("binding_kind", VText binding_kind);
   ("enabled", VInt (if b_enabled r then 1 else 0)); ("mapping_json", VText (b_mapping_json r));
   ("revision", VInt (b_revision r)); ("created_at", VInt (b_created_at r));
   ("updated_at", VInt (b_updated_at r))].

(** The rows of a table but those of the key [skip]. *)
Definition other_rows {K R} `{Countable K} (encode : K -> R -> Row) (skip : option K) (m : gmap K R)
    : list Row :=
  (fun p => encode p.1 p.2) <$> filter (fun p => Some p.1 <> skip) (map_to_list m).

(** Machine integers in SQL parameters: [as i64] wraps; a [u64] parameter that
    is not a signed integer is refused. *)
Definition as_i64 (z : Z) : Z := let m := z mod (U64_MAX + 1) in if m >? I64_MAX then m - (U64_MAX + 1) else m.
Definition as_u64 (z : Z) : Z := z mod (U64_MAX + 1).
Definition u64_param (z : Z) : bool := z <=? I64_MAX.

(** ** Schema and migration *)

(** [create_tables] on a database whose tables exist or not: the statements are
    [IF NOT EXISTS], so rows stay; then [migrate_v1]. [now] is [unixepoch()]. *)
Definition migrate_v1 (now : Z) (db : Db) : Db :=
  let migrations :=
    match schema_migrations db !! SCHEMA_VERSION with
    | Some _ => schema_migrations db
    | None => <[SCHEMA_VERSION := mkMigrationRow "object-store-v1" "blnk-object-store-v1" now]>
                (schema_migrations db)
    end in
  mkDb migrations (<["schema_version" := (dec SCHEMA_VERSION, now)]> (app_metadata db))
    (objects db) (object_revisions db) (object_search db) (app_bindings db) (workspaces db)
    (devices db) (apps db).
Definition create_tables (now : Z) (db : Db) : Db := migrate_v1 now db.

Definition empty_db : Db := mkDb ∅ ∅ ∅ ∅ [] ∅ ∅ ∅ ∅.
(** [SELECT COALESCE(MAX(version), 0)]. *)
Definition schema_version (db : Db) : Z :=
  default 0 (foldr (fun p acc => Some (match acc with Some a => Z.max p.1 a | None => p.1 end))
               None (map_to_list (schema_migrations db))).
Definition store_open (now : Z) (db : Db) : Db := create_tables now db.
Definition store_open_in_memory (now : Z) : Db := create_tables now empty_db.

(** ** Operations *)

Definition validate_object (o : ObjectRecord) : Result string unit :=
  fail_if! trim_is_empty (id o) || trim_is_empty (payload_ref o)
    with "object id and payload_ref are required" in
  fail_if! (current_revision o =? 0) || trim_is_empty (payload_hash o)
    with "object revision and payload_hash are required" in
  fail_if! match metadata o with Some m => trim_is_empty (title m) | None => true end
    with "object title is required" in
  Ok tt.

(** [v.join(" ")]. *)
Fixpoint join_space (l : list string) : string :=
  match l with
  | [] => ""
  | [s] => s
  | s :: l => s +:+ " " +:+ join_space l
  end.

Definition provenance_type (m : ObjectMetadata) : string :=
  match provenance m with Some p => source_type p | None => "local" end.

Definition search_row (o : ObjectRecord) (m : ObjectMetadata) : SearchRow :=
  mkSearchRow (id o) (title m) (description m) (join_space (tags m)) (object_kind_name (kind o))
    (provenance_type m).

(** [DELETE] and [INSERT] on the search index. *)
Definition upsert_search (o : ObjectRecord) (db : Db) : Result string Db :=
  let? m := ok_or (metadata o) "object metadata is required" in
  Ok (set_search db
        (filter (fun r => s_object_id r <> id o) (object_search db)
         ++ [search_row o m])).

Section engine.
Context `{Sqlite}.

(** [INSERT INTO objects]. *)
Definition sql_insert_object (key : string) (r : ObjectRow) (db : Db) : Result string Db :=
  if sql_accepts batch "objects" (present db) (other_rows object_row None (objects db))
       (object_row key r)
  then Ok (set_objects db (<[key := r]> (objects db))) else Err "insert object metadata".
(** [UPDATE objects ... WHERE id=?1] of an existing row. *)
Definition sql_update_object (key : string) (r : ObjectRow) (db : Db) : Result string Db :=
  if sql_accepts batch "objects" (present db) (other_rows object_row (Some key) (objects db))
       (object_row key r)
  then Ok (set_objects db (<[key := r]> (objects db))) else Err "constraint failed".
(** [INSERT INTO object_revisions]. *)
Definition sql_insert_revision (context : string) (key : string) (revision : Z) (r : RevisionRow)
    (db : Db) : Result string Db :=
  if u64_param revision
     && sql_accepts batch "object_revisions" (present db)
          (other_rows revision_row None (object_revisions db)) (revision_row (key, revision) r)
  then Ok (set_revisions db (<[(key, revision) := r]> (object_revisions db))) else Err context.
(** [INSERT INTO app_bindings ... ON CONFLICT ... DO UPDATE], with [r] the row
    that results. *)
Definition sql_upsert_binding (key : string * string * string) (r : BindingRow) (db : Db)
    : Result string Db :=
  if sql_accepts batch "app_bindings" (present db)
       (other_rows binding_row (Some key) (app_bindings db)) (binding_row key r)
  then Ok (set_bindings db (<[key := r]> (app_bindings db))) else Err "constraint failed".
End engine.

(** A transaction: its result is kept on success and dropped on an error. *)
Definition transaction (body : Db -> Result string Db) (db : Db) : Db * Result string unit :=
  match body db with
  | Ok db' => (db', Ok tt)
  | Err e => (db, Err e)
  end.

Section store.
Context `{SerdeJson Provenance} `{Sqlite}.

(** The parameters of the [INSERT] and [UPDATE] statements. *)
Definition inserted_row (o : ObjectRecord) (m : ObjectMetadata) (provenance_json : string)
    : ObjectRow :=
  mkObjectRow (object_kind_name (kind o)) (schema_version_of o) (title m) (description m)
    (sensitivity_name (sensitivity m)) (status_name (status o)) (empty_to_none (workspace_id m))
    (payload_ref o) (payload_hash o) (as_i64 (payload_size o)) (payload_media_type o)
    (as_i64 (Z.max (current_revision o) 1)) (storage_state_name (storage_state o))
    (provenance_type m) provenance_json (empty_to_none (created_by_device_id o)) (created_at o)
    (updated_at o) (optional_timestamp (last_used_at o)).
Definition updated_row (o : ObjectRecord) (m : ObjectMetadata) (old : ObjectRow) : ObjectRow :=
  mkObjectRow (o_kind old) (o_schema_version old) (title m) (description m)
    (sensitivity_name (sensitivity m)) (status_name (status o)) (empty_to_none (workspace_id m))
    (payload_ref o) (payload_hash o) (as_i64 (payload_size o)) (payload_media_type o)
    (as_i64 (current_revision o)) (storage_state_name (storage_state o)) (o_provenance_type old)
    (o_provenance_json old) (o_created_by_device old) (o_created_at old) (updated_at o)
    (o_last_used_at old).

Definition insert_object (o : ObjectRecord) (change_type : string) (db : Db)
    : Db * Result string unit :=
  transaction (fun db =>
    let? _ := validate_object o in
    let? m := ok_or (metadata o) "object metadata is required" in
    let? provenance_json :=
      match provenance m with Some p => json_to_string p | None => Ok "{}" end in
    let now := Z.max (updated_at o) (created_at o) in
    let revision := Z.max (current_revision o) 1 in
    let? db := sql_insert_object (id o) (inserted_row o m provenance_json) db in
    let? db := sql_insert_revision "insert initial object revision" (id o) revision
                 (mkRevisionRow (payload_ref o) (payload_hash o) (as_i64 (payload_size o))
                    change_type None now) db in
    upsert_search o db) db.

Definition row_to_object (key : string) (r : ObjectRow) : ObjectRecord :=
  mkObject key (parse_object_kind (o_kind r)) (o_schema_version r)
    (Some (mkMetadata (o_title r) (o_description r) [] (parse_sensitivity (o_sensitivity r))
             (match json_from_str (o_provenance_json r) with Ok p => Some p | Err _ => None end)
             (default "" (o_workspace_id r))))
    (parse_status (o_status r)) (o_payload_ref r) (o_payload_hash r)
    (as_u64 (o_payload_size r)) (o_payload_media_type r) (as_u64 (o_current_revision r))
    (parse_storage_state (o_storage_state r)) (o_created_at r) (o_updated_at r)
    (default 0 (o_last_used_at r)) (default "" (o_created_by_device r)).

Definition get_object (key : string) (db : Db) : option ObjectRecord :=
  match objects db !! key with
  | Some r => if str_eqb (o_status r) "deleted" then None else Some (row_to_object key r)
  | None => None
  end.

(** [ORDER BY updated_at DESC]. *)
Fixpoint insert_desc (x : string * ObjectRow) (l : list (string * ObjectRow)) :=
  match l with
  | [] => [x]
  | y :: l' => if o_updated_at y.2 <=? o_updated_at x.2 then x :: l else y :: insert_desc x l'
  end.

(** [fts] is SQLite's full-text match on the indexed rows; it may refuse the
    query. *)
Definition search (fts : string -> list SearchRow -> Result string (list SearchRow))
    (query : string) (limit : Z) (db : Db) : Result string (list ObjectRecord) :=
  let? hits := fts query (object_search db) in
  let joined := omap (fun s => match objects db !! s_object_id s with
                               | Some r => if str_eqb (o_status r) "deleted" then None
                                           else Some (s_object_id s, r)
                               | None => None
                               end) hits in
  Ok ((fun p => row_to_object p.1 p.2)
        <$> take (Z.to_nat (Z.max limit 1)) (foldr insert_desc [] joined)).

Definition update_object (o : ObjectRecord) (change_summary : string) (db : Db)
    : Db * Result string unit :=
  transaction (fun db =>
    let? _ := validate_object o in
    let? m := ok_or (metadata o) "object metadata is required" in
    let? old := ok_or (objects db !! id o) "read current object revision" in
    (* [current + 1] wraps, as in a release build *)
    let current := o_current_revision old in
    let revision := as_i64 (current_revision o) in
    fail_if! negb (revision =? as_i64 (current + 1))
      with ("revision conflict: expected " +:+ dec (as_i64 (current + 1)) +:+ ", received "
            +:+ dec revision) in
    let? db := sql_update_object (id o) (updated_row o m old) db in
    let? db := sql_insert_revision "constraint failed" (id o) revision
                 (mkRevisionRow (payload_ref o) (payload_hash o) (as_i64 (payload_size o))
                    "updated" (Some change_summary) (updated_at o)) db in
    upsert_search o db) db.
End store.

Record AppBinding := mkAppBinding {
  ab_app_id : string;
  ab_object_id : string;
  ab_binding_kind : string;
  ab_enabled : bool;
  ab_revision : Z;
}.

(** [mapping_json] is the JSON text of the binding's mapping. *)
Definition bind_app `{Sqlite} (b : AppBinding) (mapping_json : Result string string) (now : Z) (db : Db)
    : Db * Result string unit :=
  transaction (fun db =>
    let? mapping := mapping_json in
    fail_if! negb (u64_param (ab_revision b))
      with "out of range integral type conversion attempted" in
    let key := (ab_app_id b, ab_object_id b, ab_binding_kind b) in
    let created := match app_bindings db !! key with Some old => b_created_at old | None => now end in
    sql_upsert_binding key (mkBindingRow (ab_enabled b) mapping (ab_revision b) created now) db) db.

(** ** Sequences of operations *)

Section runs.
Context `{SerdeJson Provenance} `{Sqlite}.

Inductive Op :=
| Insert (o : ObjectRecord) (change_type : string)
| Update (o : ObjectRecord) (change_summary : string)
| Bind (b : AppBinding) (mapping_json : Result string string) (now : Z)
| Reopen (now : Z).

Definition exec (op : Op) (db : Db) : Db * Result string unit :=
  match op with
  | Insert o change_type => insert_object o change_type db
  | Update o summary => update_object o summary db
  | Bind b mapping now => bind_app b mapping now db
  | Reopen now => (store_open now db, Ok tt)
  end.

Fixpoint run (ops : list Op) (db : Db) : Db * list (Result string unit) :=
  match ops with
  | [] => (db, [])
  | op :: ops =>
      let '(db', r) := exec op db in
      let '(db'', rs) := run ops db' in (db'', r :: rs)
  end.
End runs.

(** ** The abstract store: an append-only history per object

    The first revision number and the payloads of the revisions, oldest first;
    an operation that succeeds starts a history or appends one version to it,
    an operation that fails changes nothing. *)
Record Version := mkVersion { v_ref : string; v_hash : string; v_size : Z }.
Notation History := (gmap string (Z * list Version)).

Definition version_of (o : ObjectRecord) : Version :=
  mkVersion (payload_ref o) (payload_hash o) (payload_size o).

Inductive history_step `{SerdeJson Provenance} : Op -> Result string unit -> History -> History -> Prop :=
| HsInsert o ct h :
    h !! id o = None -> 1 <= current_revision o ->
    history_step (Insert o ct) (Ok tt) h (<[id o := (current_revision o, [version_of o])]> h)
| HsUpdate o summary h first vs :
    h !! id o = Some (first, vs) -> current_revision o = first + zlen vs ->
    history_step (Update o summary) (Ok tt) h (<[id o := (first, vs ++ [version_of o])]> h)
| HsBind b mapping now h : history_step (Bind b mapping now) (Ok tt) h h
| HsReopen now h : history_step (Reopen now) (Ok tt) h h
| HsErr op e h : history_step op (Err e) h h.

Inductive history_steps `{SerdeJson Provenance} : list Op -> list (Result string unit) -> History -> History -> Prop :=
| HssNil h : history_steps [] [] h h
| HssCons op ops r rs h1 h2 h3 :
    history_step op r h1 h2 -> history_steps ops rs h2 h3 ->
    history_steps (op :: ops) (r :: rs) h1 h3.

Definition revision_version (r : RevisionRow) : Version :=
  mkVersion (r_payload_ref r) (r_payload_hash r) (r_payload_size r).
Definition row_version (r : ObjectRow) : Version :=
  mkVersion (o_payload_ref r) (o_payload_hash r) (o_payload_size r).

(** The [n]-th revision of a history. *)
Definition nth_version (first : Z) (vs : list Version) (n : Z) : option Version :=
  if first <=? n then vs !! Z.to_nat (n - first) else None.

(** How the tables represent the history of one object. *)
Definition object_refines (db : Db) (key : string) (h : option (Z * list Version)) : Prop :=
  match h with
  | None => objects db !! key = None /\ forall n, object_revisions db !! (key, n) = None
  | Some (first, vs) =>
      exists r, objects db !! key = Some r
        /\ 1 <= first /\ first + zlen vs - 1 <= I64_MAX
        /\ o_current_revision r = first + zlen vs - 1 /\ last vs = Some (row_version r)
        /\ forall n, revision_version <$> object_revisions db !! (key, n) = nth_version first vs n
  end.

(** ... and the search index holds one row for each object. *)
Definition refines (db : Db) (h : History) : Prop :=
  (forall key, object_refines db key (h !! key))
  /\ NoDup (s_object_id <$> object_search db)
  /\ (forall key, key ∈ s_object_id <$> object_search db <-> is_Some (objects db !! key)).

(** The integers of a record are in the range of their types. *)
Definition record_in_range (o : ObjectRecord) : Prop :=
  in_u64 (payload_size o) /\ in_u64 (current_revision o).
Definition op_in_range `{SerdeJson Provenance} (op : Op) : Prop :=
  match op with Insert o _ | Update o _ => record_in_range o | _ => True end.

(** ** Lemmas *)

Lemma as_i64_nonneg z : in_u64 z -> 0 <= as_i64 z -> as_i64 z = z /\ z <= I64_MAX.
Proof.
  unfold in_u64, as_i64, I64_MAX, U64_MAX. intros Hz. rewrite Z.mod_small by lia.
  destruct (z >? _) eqn:E; bool_to_prop; lia.
Qed.

Lemma as_i64_id z : 0 <= z <= I64_MAX -> as_i64 z = z.
Proof.
  unfold as_i64, I64_MAX, U64_MAX. intros Hz. rewrite Z.mod_small by lia.
  destruct (z >? _) eqn:E; bool_to_prop; lia.
Qed.

Lemma as_u64_id z : in_u64 z -> as_u64 z = z.
Proof. unfold as_u64, in_u64. intros. apply Z.mod_small. lia. Qed.

(** ** What the declarations demand of the rows *)

Lemma present_workspaces db k : present db "workspaces" (VText k) = bool_decide (k ∈ workspaces db).
Proof. done. Qed.
Lemma present_devices db k : present db "devices" (VText k) = bool_decide (k ∈ devices db).
Proof. done. Qed.
Lemma present_apps db k : present db "apps" (VText k) = bool_decide (k ∈ apps db).
Proof. done. Qed.
Lemma present_objects db k : present db "objects" (VText k) = is_some (objects db !! k).
Proof. done. Qed.

(** Evaluates constraints on a row, up to the tests of its contents. *)
Ltac eval_row := lazy -[one_of Z.leb present].
Ltac split_tests :=
  rewrite ?present_workspaces, ?present_devices, ?present_apps, ?present_objects; cbn -[one_of Z.leb];
  repeat (match goal with |- context [if ?b then _ else _] =>
            lazymatch b with context [if _ then _ else _] => fail | _ => destruct b end end;
          cbn -[one_of Z.leb]);
  done.

Definition fk_ok (keys : gset string) (o : option string) : bool :=
  match o with None => true | Some k => bool_decide (k ∈ keys) end.
(** The declared checks and foreign keys of [objects], column by column. *)
Definition object_row_checks (db : Db) (r : ObjectRow) : bool :=
  one_of ["public"; "internal"; "sensitive"; "secret"] (o_sensitivity r)
  && one_of ["draft"; "active"; "archived"; "revoked"; "deleted"] (o_status r)
  && (0 <=? o_payload_size r)
  && (1 <=? o_current_revision r)
  && one_of ["staged"; "ready"; "deleting"; "corrupt"] (o_storage_state r)
  && fk_ok (workspaces db) (o_workspace_id r)
  && fk_ok (devices db) (o_created_by_device r).

Lemma object_row_ok db key r :
  columns_ok objects_table (object_row key r)
  && references_ok (present db) objects_table (object_row key r) = object_row_checks db r.
Proof.
  remember (object_row_checks db r) as rhs eqn:E.
  destruct r as [? ? ? ? ? ? [w|] ? ? ? ? ? ? ? ? [d|] ? ? [u|]]; eval_row; subst rhs;
    unfold object_row_checks, fk_ok; split_tests.
Qed.
Lemma revision_row_ok db key r :
  columns_ok object_revisions_table (revision_row key r)
  && references_ok (present db) object_revisions_table (revision_row key r)
  = one_of ["created"; "updated"; "imported"; "applied"; "restored"; "merged"] (r_change_type r)
    && is_some (objects db !! key.1).
Proof.
  match goal with |- _ = ?rhs => remember rhs as c eqn:E end.
  destruct r as [? ? ? ? [s|] ?], key as [k n]; eval_row; subst c; rewrite present_objects;
    cbn [fst snd]; destruct (objects db !! k); split_tests.
Qed.
Lemma binding_row_ok db key r :
  columns_ok app_bindings_table (binding_row key r)
  && references_ok (present db) app_bindings_table (binding_row key r)
  = bool_decide (key.1.1 ∈ apps db) && is_some (objects db !! key.1.2).
Proof.
  match goal with |- _ = ?rhs => remember rhs as c eqn:E end.
  destruct r as [[|] ? ? ? ?], key as [[app object] k]; eval_row; subst c;
    rewrite ?present_objects, ?present_apps; cbn [fst snd]; destruct (objects db !! object);
    split_tests.
Qed.

Lemma same_text (s t : string) : bool_decide (VText s = VText t) = str_eqb s t.
Proof.
  apply eq_true_iff_eq. rewrite bool_decide_eq_true, str_eqb_eq. split; [by intros [= ->]|by intros ->].
Qed.

(** Rows that agree on a key of their table conflict. *)
Lemma object_conflict k r k' r' :
  conflict objects_table (object_row k r) (object_row k' r')
  = str_eqb k k' || str_eqb (o_payload_ref r) (o_payload_ref r').
Proof.
  unfold conflict, same_key. change (keys objects_table) with [["id"]; ["payload_ref"]].
  cbn [existsb forallb]. change (cell (object_row k r) "id") with (VText k).
  change (cell (object_row k' r') "id") with (VText k').
  change (cell (object_row k r) "payload_ref") with (VText (o_payload_ref r)).
  change (cell (object_row k' r') "payload_ref") with (VText (o_payload_ref r')).
  rewrite !same_text. cbn. by rewrite !andb_true_r, orb_false_r.
Qed.

Lemma revision_conflict k r k' r' :
  conflict object_revisions_table (revision_row k r) (revision_row k' r') = bool_decide (k = k').
Proof.
  destruct k as [k n], k' as [k' n']. unfold conflict, same_key.
  change (keys object_revisions_table) with [["object_id"; "revision"]].
  cbn [existsb forallb]. change (cell (revision_row (k, n) r) "object_id") with (VText k).
  change (cell (revision_row (k', n') r') "object_id") with (VText k').
  change (cell (revision_row (k, n) r) "revision") with (VInt n).
  change (cell (revision_row (k', n') r') "revision") with (VInt n').
  rewrite same_text. rewrite orb_false_r, andb_true_r. cbn [bool_decide].
  apply eq_true_iff_eq. rewrite !andb_true_iff, !bool_decide_eq_true, str_eqb_eq. naive_solver.
Qed.

Lemma batch_objects : foldl execute ∅ batch !! "objects" = Some (CreateTable objects_table).
Proof. vm_compute. reflexivity. Qed.
Lemma batch_object_revisions :
  foldl execute ∅ batch !! "object_revisions" = Some (CreateTable object_revisions_table).
Proof. vm_compute. reflexivity. Qed.
Lemma batch_app_bindings : foldl execute ∅ batch !! "app_bindings" = Some (CreateTable app_bindings_table).
Proof. vm_compute. reflexivity. Qed.

Section accepted.
Context `{SqliteLaws}.

Lemma accepts_batch table t db others row :
  foldl execute ∅ batch !! table = Some (CreateTable t) ->
  sql_accepts batch table (present db) others row = true ->
  columns_ok t row && references_ok (present db) t row = true
  /\ Forall (fun other => conflict t row other = false) others.
Proof.
  intros Ht Ha. destruct (sql_enforces batch table t (present db) others row Ht Ha) as (Hc & Ho & Hr).
  split; [|done]. apply andb_true_iff. split; [exact Hc|]. apply Hr. unfold batch. left.
Qed.

Lemma other_rows_elem {K R} `{Countable K} (encode : K -> R -> Row) skip (m : gmap K R) k r :
  m !! k = Some r -> Some k <> skip -> encode k r ∈ other_rows encode skip m.
Proof.
  intros Hk Hs. unfold other_rows. apply list_elem_of_fmap. exists (k, r). split; [done|].
  apply list_elem_of_filter. split; [done|]. by apply elem_of_map_to_list.
Qed.

Lemma accepts_object db key r skip :
  sql_accepts batch "objects" (present db) (other_rows object_row skip (objects db))
    (object_row key r) = true ->
  object_row_checks db r = true /\
  forall k r', objects db !! k = Some r' -> Some k <> skip -> k <> key /\ o_payload_ref r' <> o_payload_ref r.
Proof.
  intros Ha. apply (accepts_batch _ _ _ _ _ batch_objects) in Ha as [Hok Ho].
  rewrite object_row_ok in Hok. split; [done|]. intros k r' Hk Hs. rewrite Forall_forall in Ho.
  specialize (Ho _ (other_rows_elem object_row skip _ _ _ Hk Hs)). rewrite object_conflict in Ho.
  apply orb_false_iff in Ho as [H1%str_eqb_ne H2%str_eqb_ne]. split; congruence.
Qed.

Lemma accepts_revision db key n r :
  sql_accepts batch "object_revisions" (present db)
    (other_rows revision_row None (object_revisions db)) (revision_row (key, n) r) = true ->
  object_revisions db !! (key, n) = None /\ is_Some (objects db !! key) /\
  one_of ["created"; "updated"; "imported"; "applied"; "restored"; "merged"] (r_change_type r) = true.
Proof.
  intros Ha. apply (accepts_batch _ _ _ _ _ batch_object_revisions) in Ha as [Hok Ho].
  rewrite revision_row_ok in Hok. apply andb_true_iff in Hok as [Hc Hs]. split_and!; [| |done].
  - destruct (object_revisions db !! (key, n)) as [old|] eqn:Hk; [|done].
    rewrite Forall_forall in Ho.
    specialize (Ho _ (other_rows_elem revision_row None _ _ _ Hk ltac:(done))).
    rewrite revision_conflict in Ho. by apply bool_decide_eq_false in Ho.
  - cbn in Hs. destruct (objects db !! key); [by eexists|done].
Qed.

Lemma accepts_binding db key r skip :
  sql_accepts batch "app_bindings" (present db)
    (other_rows binding_row skip (app_bindings db)) (binding_row key r) = true ->
  key.1.1 ∈ apps db /\ is_Some (objects db !! key.1.2).
Proof.
  intros Ha. apply (accepts_batch _ _ _ _ _ batch_app_bindings) in Ha as [Hok _].
  rewrite binding_row_ok in Hok. apply andb_true_iff in Hok as [Happ%bool_decide_eq_true Hs].
  split; [done|]. destruct (objects db !! key.1.2); [by eexists|done].
Qed.
End accepted.

Lemma object_row_checks_nonneg db r :
  object_row_checks db r = true -> 0 <= o_payload_size r /\ 1 <= o_current_revision r.
Proof. unfold object_row_checks. intros. bool_to_prop. lia. Qed.

(** Splits on the value tested; past the last test the value is outside the
    enumeration. *)
Ltac stored_cases :=
  repeat match goal with
  | |- context [?v =? ?n] => destruct (Z.eqb_spec v n); [subst; vm_compute; reflexivity|]
  end;
  rewrite (proj2 (andb_false_iff _ _)) by (rewrite !Z.leb_gt; lia);
  vm_compute; reflexivity.

Lemma sensitivity_stored v :
  parse_sensitivity (sensitivity_name v) = if (1 <=? v) && (v <=? 4) then v else 2.
Proof. unfold sensitivity_name. stored_cases. Qed.

Lemma status_stored v :
  parse_status (status_name v) = if (1 <=? v) && (v <=? 5) then v else 2.
Proof. unfold status_name. stored_cases. Qed.

Lemma storage_state_stored v :
  parse_storage_state (storage_state_name v) = if (1 <=? v) && (v <=? 4) then v else 2.
Proof. unfold storage_state_name. stored_cases. Qed.

(** The stored name already starts with the prefix the reader adds. *)
Lemma kind_stored v : parse_object_kind (object_kind_name v) = 0.
Proof.
  assert (Hall : forallb (fun p => parse_object_kind p.1 =? 0) ObjectKind = true)
    by (vm_compute; reflexivity).
  unfold object_kind_name, name_of. destruct (find _ ObjectKind) as [p|] eqn:E; cbn.
  - apply find_some in E as [Hin _]. rewrite forallb_forall in Hall.
    apply Z.eqb_eq, Hall, Hin.
  - vm_compute. reflexivity.
Qed.

Lemma validate_revision o : validate_object o = Ok tt -> current_revision o <> 0.
Proof. unfold validate_object. intros. run_cases. done. Qed.

Section writes.
Context `{SqliteLaws}.

Lemma sql_insert_object_Ok key r db db' :
  sql_insert_object key r db = Ok db' ->
  objects db !! key = None /\ object_row_checks db r = true
  /\ (forall k old, objects db !! k = Some old -> o_payload_ref old <> o_payload_ref r)
  /\ db' = set_objects db (<[key := r]> (objects db)).
Proof.
  unfold sql_insert_object. destruct (sql_accepts _ _ _ _ _) eqn:Ha; [|done]. intros [= <-].
  apply accepts_object in Ha as [Hc Ho]. split_and!; [|done| |done].
  - destruct (objects db !! key) as [old|] eqn:Hk; [|done]. by destruct (Ho key old Hk ltac:(done)).
  - intros k old Hk. by destruct (Ho k old Hk ltac:(done)).
Qed.

Lemma sql_update_object_Ok key r db db' :
  sql_update_object key r db = Ok db' ->
  object_row_checks db r = true
  /\ (forall k old, objects db !! k = Some old -> k <> key -> o_payload_ref old <> o_payload_ref r)
  /\ db' = set_objects db (<[key := r]> (objects db)).
Proof.
  unfold sql_update_object. destruct (sql_accepts _ _ _ _ _) eqn:Ha; [|done]. intros [= <-].
  apply accepts_object in Ha as [Hc Ho]. split_and!; [done| |done].
  intros k old Hk Hne. by destruct (Ho k old Hk ltac:(congruence)).
Qed.

Lemma sql_insert_revision_Ok context key n r db db' :
  sql_insert_revision context key n r db = Ok db' ->
  n <= I64_MAX /\ object_revisions db !! (key, n) = None
  /\ one_of ["created"; "updated"; "imported"; "applied"; "restored"; "merged"] (r_change_type r) = true
  /\ db' = set_revisions db (<[(key, n) := r]> (object_revisions db)).
Proof.
  unfold sql_insert_revision, u64_param. destruct (n <=? I64_MAX) eqn:Hn; [|done]. cbn [andb].
  destruct (sql_accepts _ _ _ _ _) eqn:Ha; [|done]. intros [= <-].
  apply accepts_revision in Ha as (Hk & _ & Hc). bool_to_prop. done.
Qed.
End writes.

(** What a successful write of an object leaves in the three tables. *)
Definition written (db db' : Db) (o : ObjectRecord) (m : ObjectMetadata) (row : ObjectRow)
    (revision : Z) (rev_row : RevisionRow) : Prop :=
  validate_object o = Ok tt /\ metadata o = Some m
  /\ object_row_checks db row = true /\ revision <= I64_MAX
  /\ object_revisions db !! (id o, revision) = None
  /\ (forall k old, objects db !! k = Some old -> k <> id o -> o_payload_ref old <> o_payload_ref row)
  /\ one_of ["created"; "updated"; "imported"; "applied"; "restored"; "merged"] (r_change_type rev_row) = true
  /\ db' = set_search
             (set_revisions (set_objects db (<[id o := row]> (objects db)))
                (<[(id o, revision) := rev_row]> (object_revisions db)))
             (filter (fun r => s_object_id r <> id o) (object_search db) ++ [search_row o m]).

Section proofs.
Context `{SerdeJson Provenance} `{SqliteLaws}.

Lemma insert_object_Ok o ct db db' :
  insert_object o ct db = (db', Ok tt) ->
  exists m json,
    match provenance m with Some p => json_to_string p | None => Ok "{}" end = Ok json
    /\ objects db !! id o = None
    /\ written db db' o m (inserted_row o m json) (Z.max (current_revision o) 1)
         (mkRevisionRow (payload_ref o) (payload_hash o) (as_i64 (payload_size o)) ct None
            (Z.max (updated_at o) (created_at o))).
Proof.
  unfold insert_object, transaction, upsert_search. intros Hok.
  destruct (validate_object o) as [[]|] eqn:Hv; [|done].
  destruct (metadata o) as [m|] eqn:Hm; cbn [ok_or] in Hok; [|done].
  destruct (match provenance m with Some p => _ | None => _ end) as [json|] eqn:Hj; [|done].
  destruct (sql_insert_object _ _ _) as [db1|] eqn:E1; [|done].
  destruct (sql_insert_revision _ _ _ _ _) as [db2|] eqn:E2; [|done].
  apply sql_insert_object_Ok in E1 as (?&?&Hrefs&->).
  apply sql_insert_revision_Ok in E2 as (?&?&?&->). simplify_eq. exists m, json.
  unfold written. split_and!; try done. intros k old Hk _. by eapply Hrefs.
Qed.

Lemma update_object_Ok o summary db db' :
  update_object o summary db = (db', Ok tt) ->
  exists m old,
    objects db !! id o = Some old
    /\ as_i64 (current_revision o) = as_i64 (o_current_revision old + 1)
    /\ written db db' o m (updated_row o m old) (as_i64 (current_revision o))
         (mkRevisionRow (payload_ref o) (payload_hash o) (as_i64 (payload_size o)) "updated"
            (Some summary) (updated_at o)).
Proof.
  unfold update_object, transaction, upsert_search. intros Hok.
  destruct (validate_object o) as [[]|] eqn:Hv; [|done].
  destruct (metadata o) as [m|] eqn:Hm; cbn [ok_or] in Hok; [|done].
  destruct (objects db !! id o) as [old|] eqn:Ho; cbn [ok_or] in Hok; [|done].
  destruct (negb _) eqn:Hr; [done|]. apply negb_false_iff, Z.eqb_eq in Hr.
  destruct (sql_update_object _ _ _) as [db1|] eqn:E1; [|done].
  destruct (sql_insert_revision _ _ _ _ _) as [db2|] eqn:E2; [|done].
  apply sql_update_object_Ok in E1 as (?&?&->).
  apply sql_insert_revision_Ok in E2 as (?&?&?&->). simplify_eq. by exists m, old.
Qed.

Lemma nth_version_snoc first vs v n :
  nth_version first (vs ++ [v]) n
  = if n =? first + zlen vs then Some v else nth_version first vs n.
Proof.
  unfold nth_version, zlen. destruct (n =? _) eqn:E, (first <=? n) eqn:E'; bool_to_prop; try lia.
  - subst. rewrite lookup_app_r by lia.
    replace (_ - _)%nat with 0%nat by lia. done.
  - destruct (decide (n < first + Z.of_nat (length vs))).
    + by rewrite lookup_app_l by lia.
    + rewrite !lookup_ge_None_2; [done| |]; rewrite ?length_app; cbn; lia.
  - done.
Qed.

(** A write that appends one version to the history of its object. *)
Lemma written_refines db db' h o m row n rev first vs v :
  refines db h -> written db db' o m row n rev ->
  (forall k, revision_version <$> object_revisions db !! (id o, k) = nth_version first vs k) ->
  1 <= first -> n = first + zlen vs -> o_current_revision row = n ->
  row_version row = v -> revision_version rev = v ->
  refines db' (<[id o := (first, vs ++ [v])]> h).
Proof.
  intros (Hobj & Hnd & Hidx) (_&_&_&Hmax&_&_&_&->) Hold Hf Hn Hrow <- Hrev. unfold refines.
  split_and!; cbn [objects object_revisions object_search set_objects set_revisions set_search].
  - intros key. destruct (decide (key = id o)) as [->|Hne].
    + rewrite lookup_insert_eq. exists row. cbn [objects object_revisions set_objects set_revisions set_search].
      rewrite lookup_insert_eq, zlen_app, zlen_cons, zlen_nil.
      rewrite last_snoc. split_and!; try done; [lia..|].
      intros k. rewrite nth_version_snoc, <- Hold, <- Hn. destruct (Z.eqb_spec k n) as [->|Hk].
      * by rewrite lookup_insert_eq, <- Hrev.
      * rewrite lookup_insert_ne by congruence. done.
    + rewrite lookup_insert_ne by done. specialize (Hobj key). unfold object_refines in *.
      cbn [objects object_revisions set_objects set_revisions set_search].
      rewrite lookup_insert_ne by done.
      assert (Hk : forall k, (<[(id o, n) := rev]> (object_revisions db)) !! (key, k)
                             = object_revisions db !! (key, k))
        by (intros; apply lookup_insert_ne; congruence).
      destruct (h !! key) as [[f ws]|]; setoid_rewrite Hk; done.
  - rewrite fmap_app. apply NoDup_app. split_and!.
    + eapply sublist_NoDup; [exact Hnd|]. apply fmap_sublist, sublist_filter.
    + intros x (r & -> & Hr)%list_elem_of_fmap Hx. apply list_elem_of_filter in Hr as [Hr _].
      cbn in Hx. by apply list_elem_of_singleton in Hx.
    + apply NoDup_singleton.
  - intros key. rewrite fmap_app, elem_of_app. cbn. rewrite list_elem_of_singleton.
    destruct (decide (key = id o)) as [->|Hne].
    + rewrite lookup_insert_eq. naive_solver.
    + rewrite lookup_insert_ne, <- Hidx by done. rewrite !list_elem_of_fmap.
      setoid_rewrite list_elem_of_filter. naive_solver.
Qed.

Lemma written_revisions db db' o m row n rev :
  written db db' o m row n rev -> object_revisions db ⊆ object_revisions db'.
Proof. intros (_&_&_&_&Hfree&_&_&->). cbn. by apply insert_subseteq. Qed.

(** A successful write has its sizes and revision in range, so that storing them
    as signed integers loses nothing. *)
Lemma written_in_range db db' o m row n rev :
  written db db' o m row n rev -> record_in_range o ->
  o_payload_size row = as_i64 (payload_size o) ->
  o_current_revision row = as_i64 (current_revision o) ->
  as_i64 (payload_size o) = payload_size o /\ as_i64 (current_revision o) = current_revision o
  /\ 1 <= current_revision o <= I64_MAX.
Proof.
  intros (_&_&Hc&_) [Hs Hr] Es Er. apply object_row_checks_nonneg in Hc.
  destruct (as_i64_nonneg _ Hs); [lia|]. destruct (as_i64_nonneg _ Hr); lia.
Qed.

Lemma written_max db db' o m row n rev :
  written db db' o m row n rev -> record_in_range o -> Z.max (current_revision o) 1 = current_revision o.
Proof. intros (Hv&_) [_ Hr]. apply validate_revision in Hv. unfold in_u64 in Hr. lia. Qed.

Lemma insert_refines o ct db db' h :
  refines db h -> record_in_range o -> insert_object o ct db = (db', Ok tt) ->
  exists h', history_step (Insert o ct) (Ok tt) h h' /\ refines db' h'
    /\ object_revisions db ⊆ object_revisions db'.
Proof.
  intros Href Hr (m & json & _ & Hnone & Hw)%insert_object_Ok.
  pose proof (written_max _ _ _ _ _ _ _ Hw Hr) as Emax.
  destruct (written_in_range _ _ _ _ _ _ _ Hw Hr) as (Es & Er & ?); [done|cbn; by rewrite Emax|].
  rewrite Emax in Hw. pose proof (proj1 Href (id o)) as Ho.
  destruct (h !! id o) as [[first vs]|] eqn:Eh.
  { destruct Ho as (r & ? & _). congruence. }
  eexists. split; [apply HsInsert; [done|lia]|]. split; [|by eapply written_revisions].
  apply (written_refines _ _ _ _ _ _ _ _ (current_revision o) [] (version_of o) Href Hw);
    try (rewrite zlen_nil; lia);
    try (cbn; unfold version_of, row_version, revision_version; cbn; rewrite ?Emax, ?Es; lia || done).
  intros k. rewrite (proj2 Ho). unfold nth_version. by destruct (_ <=? _).
Qed.

Lemma update_refines o summary db db' h :
  refines db h -> record_in_range o -> update_object o summary db = (db', Ok tt) ->
  exists h', history_step (Update o summary) (Ok tt) h h' /\ refines db' h'
    /\ object_revisions db ⊆ object_revisions db'.
Proof.
  intros Href Hr (m & old & Hold & Erev & Hw)%update_object_Ok.
  destruct (written_in_range _ _ _ _ _ _ _ Hw Hr) as (Es & Er & ?); [done..|].
  rewrite Er in Hw, Erev. pose proof (proj1 Href (id o)) as Ho.
  destruct (h !! id o) as [[first vs]|] eqn:Eh; [|destruct Ho; congruence].
  destruct Ho as (r & ? & ? & Hm & Ec & ? & Hrevs). assert (r = old) as -> by congruence.
  assert (current_revision o = first + zlen vs) as Enext.
  { rewrite Ec, Z.sub_add in Erev. destruct (decide (first + zlen vs <= I64_MAX)).
    - pose proof (zlen_nonneg vs). rewrite as_i64_id in Erev; lia.
    - replace (first + zlen vs) with (I64_MAX + 1) in Erev by lia.
      vm_compute (as_i64 (I64_MAX + 1)) in Erev. lia. }
  eexists. split; [by apply HsUpdate|]. split; [|by eapply written_revisions].
  apply (written_refines _ _ _ _ _ _ _ _ first vs (version_of o) Href Hw);
    try (cbn; unfold version_of, row_version, revision_version; cbn; rewrite ?Er, ?Es; done).
Qed.

Lemma bind_app_db b mapping now db :
  exists bs, (bind_app b mapping now db).1 = set_bindings db bs.
Proof.
  exists (app_bindings (bind_app b mapping now db).1).
  unfold bind_app, sql_upsert_binding, transaction.
  destruct db, mapping; cbn [map_err]; [|done]. destruct (negb _); [done|].
  by destruct (sql_accepts _ _ _ _ _).
Qed.

Lemma exec_refines op db h :
  refines db h -> op_in_range op ->
  exists h', history_step op (exec op db).2 h h' /\ refines (exec op db).1 h'
    /\ object_revisions db ⊆ object_revisions (exec op db).1.
Proof.
  intros Href Hop. destruct op as [o ct|o summary|b mapping now|now]; cbn [exec].
  - destruct (insert_object o ct db) as [db' [[]|e]] eqn:E; cbn.
    + by apply insert_refines.
    + exists h. split; [constructor|]. unfold insert_object, transaction in E.
      destruct (let? _ := validate_object o in _); by simplify_eq.
  - destruct (update_object o summary db) as [db' [[]|e]] eqn:E; cbn.
    + by apply update_refines.
    + exists h. split; [constructor|]. unfold update_object, transaction in E.
      destruct (let? _ := validate_object o in _); by simplify_eq.
  - destruct (bind_app_db b mapping now db) as [bs ->]. exists h.
    split; [|by split]. destruct (bind_app b mapping now db).2 as [[]|]; constructor.
  - exists h. split; [constructor|]. by split.
Qed.

Lemma open_refines now : refines (store_open_in_memory now) ∅.
Proof.
  split_and!; [|constructor|].
  - intros key. rewrite lookup_empty. split; intros; apply lookup_empty.
  - intros key. split; [by intros ?%elem_of_nil|]. intros [x Hx].
    change (objects _) with (∅ : gmap string ObjectRow) in Hx. by rewrite lookup_empty in Hx.
Qed.

(** C9: The store implements an append-only history per object: whatever
    operations are run, each success is exactly one step of the history (an
    insert starts it at the record's revision, an update appends the next
    revision, nothing else touches it), each failure leaves it unchanged, the
    tables and the search index represent it throughout, and no revision row is
    ever changed or removed. *)
Theorem store_refines_history ops db h :
  refines db h -> Forall op_in_range ops ->
  exists h', history_steps ops (run ops db).2 h h' /\ refines (run ops db).1 h'
    /\ object_revisions db ⊆ object_revisions (run ops db).1.
Proof.
  revert db h. induction ops as [|op ops IH]; intros db h Href Hr; cbn [run].
  - exists h. split; [constructor|]. by split.
  - inversion_clear Hr as [|? ? Hop Hops].
    destruct (exec_refines op db h Href Hop) as (h1 & Hs & Href1 & Hsub).
    destruct (exec op db) as [db1 r]. cbn in *.
    destruct (IH db1 h1 Href1 Hops) as (h2 & Hss & Href2 & Hsub2).
    destruct (run ops db1) as [db2 rs]. cbn in *.
    exists h2. split; [by econstructor|]. split; [done|]. by etrans.
Qed.

(** ** The declared constraints hold of what is stored *)

Record object_fits (db : Db) (r : ObjectRow) : Prop := {
  fits_sensitivity : o_sensitivity r ∈ ["public"; "internal"; "sensitive"; "secret"];
  fits_status : o_status r ∈ ["draft"; "active"; "archived"; "revoked"; "deleted"];
  fits_storage_state : o_storage_state r ∈ ["staged"; "ready"; "deleting"; "corrupt"];
  fits_size : 0 <= o_payload_size r;
  fits_revision : 1 <= o_current_revision r;
  fits_workspace : forall w, o_workspace_id r = Some w -> w ∈ workspaces db;
  fits_device : forall d, o_created_by_device r = Some d -> d ∈ devices db;
}.

Record db_ok (db : Db) : Prop := {
  ok_objects : forall key r, objects db !! key = Some r -> object_fits db r;
  ok_refs : forall k k' r r', objects db !! k = Some r -> objects db !! k' = Some r' ->
    o_payload_ref r = o_payload_ref r' -> k = k';
  ok_revisions : forall key n r, object_revisions db !! (key, n) = Some r ->
    is_Some (objects db !! key) /\
    r_change_type r ∈ ["created"; "updated"; "imported"; "applied"; "restored"; "merged"];
  ok_bindings : forall app object bound b, app_bindings db !! (app, object, bound) = Some b ->
    app ∈ apps db /\ is_Some (objects db !! object);
}.

Lemma one_of_elem l x : one_of l x = true <-> x ∈ l.
Proof.
  unfold one_of. rewrite existsb_exists, list_elem_of_In. setoid_rewrite str_eqb_eq.
  split; [by intros (y & Hy & <-)|eauto].
Qed.
Lemma fk_ok_spec keys o : fk_ok keys o = true <-> forall k, o = Some k -> k ∈ keys.
Proof. unfold fk_ok. destruct o; [rewrite bool_decide_eq_true|]; naive_solver. Qed.

Lemma object_row_checks_fits db r : object_row_checks db r = true -> object_fits db r.
Proof.
  unfold object_row_checks. rewrite !andb_true_iff, !one_of_elem, !fk_ok_spec, !Z.leb_le.
  intros [[[[[[? ?] ?] ?] ?] ?] ?]. by split.
Qed.

Lemma written_ok db db' o m row n rev : db_ok db -> written db db' o m row n rev -> db_ok db'.
Proof.
  intros [Hobj Href Hrev Hbind] (_ & _ & Hc%object_row_checks_fits & _ & _ & Hne & Hct%one_of_elem & ->).
  assert (Hsome : forall key, is_Some (objects db !! key) -> is_Some (<[id o := row]> (objects db) !! key)).
  { intros key ?. destruct (decide (key = id o)) as [->|];
      [rewrite lookup_insert_eq; by eexists|by rewrite lookup_insert_ne]. }
  split; cbn [objects object_revisions app_bindings apps set_search set_revisions set_objects].
  - intros key r [[<- <-]|[_ Hk]]%lookup_insert_Some; destruct Hc; [by split|].
    destruct (Hobj key r Hk). by split.
  - intros k k' r r' [[<- <-]|[Hk1 Hk]]%lookup_insert_Some [[<- <-]|[Hk2 Hk']]%lookup_insert_Some Heq;
      [done| | |by eapply Href].
    + by destruct (Hne k' r' Hk').
    + by destruct (Hne k r Hk).
  - intros key k r [[[= <- <-] <-]|[_ Hk]]%lookup_insert_Some.
    + split; [rewrite lookup_insert_eq; by eexists|done].
    + destruct (Hrev key k r Hk). auto.
  - intros app object bound b Hk. destruct (Hbind _ _ _ _ Hk). auto.
Qed.

Lemma bind_app_ok b mapping now db : db_ok db -> db_ok (bind_app b mapping now db).1.
Proof.
  intros Hok. unfold bind_app, sql_upsert_binding, transaction.
  destruct mapping as [mapping|e]; cbn [map_err]; [|done]. destruct (negb _); [done|].
  destruct (sql_accepts _ _ _ _ _) eqn:Ha; [|done]. apply accepts_binding in Ha as [Happ Hobj].
  destruct Hok as [Hobjs ? ? Hbind]. split; cbn [fst objects object_revisions app_bindings apps set_bindings];
    try done.
  - intros key r Hk. by destruct (Hobjs key r Hk).
  - intros app object bound b' [[[= <- <- <-] _]|[_ Hk]]%lookup_insert_Some; [done|]. by eapply Hbind.
Qed.

Lemma exec_ok op db : db_ok db -> db_ok (exec op db).1.
Proof.
  intros Hok. destruct op as [o ct|o summary|b mapping now|now]; cbn [exec].
  - destruct (insert_object o ct db) as [db' [[]|e]] eqn:E; cbn.
    + apply insert_object_Ok in E as (m & json & _ & _ & Hw). by eapply written_ok.
    + unfold insert_object, transaction in E. by destruct (let? _ := validate_object o in _); simplify_eq.
  - destruct (update_object o summary db) as [db' [[]|e]] eqn:E; cbn.
    + apply update_object_Ok in E as (m & old & _ & _ & Hw). by eapply written_ok.
    + unfold update_object, transaction in E. by destruct (let? _ := validate_object o in _); simplify_eq.
  - by apply bind_app_ok.
  - destruct Hok as [Hobjs ? ? ?]. split; try done. intros key r Hk. by destruct (Hobjs key r Hk).
Qed.

(** C25: Whatever operations are run, with whatever outcomes, the tables satisfy
    what the schema declares: every object has a sensitivity, status and storage
    state of the declared values, a size of at least 0, a revision of at least 1,
    and an existing workspace and device where it names one; no two objects share
    a payload reference; every revision belongs to an object and has a declared
    kind of change; every binding joins an existing app and object. This rests on
    the declarations and on the pragma that turns foreign keys on, since the code
    itself checks almost none of it. *)
Theorem store_keeps_constraints ops db : db_ok db -> db_ok (run ops db).1.
Proof.
  revert db. induction ops as [|op ops IH]; intros db Hok; cbn [run]; [done|].
  apply (exec_ok op) in Hok. destruct (exec op db) as [db1 r]. cbn in Hok. apply IH in Hok.
  by destruct (run ops db1).
Qed.

(** ** Reading back *)

(** What the columns keep of a record: the kind and the tags are lost, values
    outside an enumeration become its default, and the provenance is what the
    stored text parses to. *)
Definition stored_form (o : ObjectRecord) (m : ObjectMetadata) (p : option Provenance)
    : ObjectRecord :=
  mkObject (id o) 0 (schema_version_of o)
    (Some (mkMetadata (title m) (description m) []
             (if (1 <=? sensitivity m) && (sensitivity m <=? 4) then sensitivity m else 2)
             p (workspace_id m)))
    (if (1 <=? status o) && (status o <=? 5) then status o else 2)
    (payload_ref o) (payload_hash o) (payload_size o) (payload_media_type o) (current_revision o)
    (if (1 <=? storage_state o) && (storage_state o <=? 4) then storage_state o else 2)
    (created_at o) (updated_at o) (last_used_at o) (created_by_device_id o).

Lemma empty_to_none_back s : default "" (empty_to_none s) = s.
Proof. unfold empty_to_none. destruct s; done. Qed.

Lemma optional_timestamp_back z : default 0 (optional_timestamp z) = z.
Proof. unfold optional_timestamp. by destruct (Z.eqb_spec z 0). Qed.

Lemma status_deleted v : str_eqb (status_name v) "deleted" = (v =? 5).
Proof.
  unfold status_name.
  repeat match goal with
  | |- context [v =? ?n] => destruct (Z.eqb_spec v n); [subst; vm_compute; reflexivity|]
  end. vm_compute. reflexivity.
Qed.

Lemma get_inserted o ct db db' m :
  record_in_range o -> metadata o = Some m -> insert_object o ct db = (db', Ok tt) ->
  exists json,
    match provenance m with Some p => json_to_string p | None => Ok "{}" end = Ok json /\
    get_object (id o) db' =
    if status o =? 5 then None
    else Some (stored_form o m match json_from_str json with Ok p => Some p | Err _ => None end).
Proof.
  intros Hr Hm E. apply insert_object_Ok in E as (m' & json & Ej & _ & Hw).
  pose proof (written_max _ _ _ _ _ _ _ Hw Hr) as Emax.
  destruct (written_in_range _ _ _ _ _ _ _ Hw Hr) as (Es & Er & ?); [done|cbn; by rewrite Emax|].
  pose proof Hw as (_ & Em & _ & _ & _ & _ & _ & ->). assert (m' = m) as -> by congruence.
  exists json. split; [done|].
  unfold get_object. cbn [objects set_search set_revisions set_objects].
  rewrite lookup_insert_eq. cbn [o_status inserted_row]. rewrite status_deleted.
  destruct (status o =? 5); [done|]. unfold row_to_object, stored_form, inserted_row; cbn -[parse_sensitivity parse_status parse_storage_state parse_object_kind sensitivity_name status_name storage_state_name object_kind_name as_i64 as_u64 Z.leb Z.max].
  rewrite kind_stored, sensitivity_stored, status_stored, storage_state_stored, Emax, Es, Er.
  destruct Hr. rewrite !as_u64_id by done.
  by rewrite !empty_to_none_back, optional_timestamp_back.
Qed.

(** What the store keeps of an object's fields, value for value. *)
Definition same_fields (o o' : ObjectRecord) : Prop :=
  id o' = id o /\ schema_version_of o' = schema_version_of o /\
  payload_ref o' = payload_ref o /\ payload_hash o' = payload_hash o /\
  payload_size o' = payload_size o /\ payload_media_type o' = payload_media_type o /\
  current_revision o' = current_revision o /\ created_at o' = created_at o /\
  updated_at o' = updated_at o /\ last_used_at o' = last_used_at o /\
  created_by_device_id o' = created_by_device_id o.
Definition same_metadata (m m' : ObjectMetadata) : Prop :=
  title m' = title m /\ description m' = description m /\ workspace_id m' = workspace_id m.
(** An enumeration reads back as it was when it is one of [1..n], else as 2. *)
Definition clamped (n v v' : Z) : Prop := v' = if (1 <=? v) && (v <=? n) then v else 2.


(** what is lost: the kind of an inserted object always reads back as
    unspecified, and its tags as none, although both were given. *)
Theorem kind_and_tags_lost o ct db m o' :
  record_in_range o -> metadata o = Some m -> (insert_object o ct db).2 = Ok tt ->
  get_object (id o) (insert_object o ct db).1 = Some o' ->
  kind o' = 0 /\ exists m', metadata o' = Some m' /\ tags m' = [].
Proof.
  intros Hr Hm Hok Hg. destruct (insert_object o ct db) as [db' r] eqn:E. cbn in Hok, Hg. subst r.
  destruct (get_inserted _ _ _ _ _ Hr Hm E) as (json & _ & Hg').
  rewrite Hg' in Hg. destruct (status o =? 5); simplify_eq. split; [done|]. by eexists.
Qed.
End proofs.

(** ** Concrete runs *)

Module Sample.
(** A codec that writes one field, on the provenances it is used for. *)
#[local] Instance json : SerdeJson Provenance := {|
  json_to_string p := Ok (source_type p);
  json_from_str s := Ok (mkProvenance s "" "" "" ∅);
|}.

Definition note_of (ref : string) (revision size : Z) : ObjectRecord :=
  mkObject "note-1" 1 1
    (Some (mkMetadata "a title" "text" ["x"; "y"] 3 (Some (mkProvenance "import" "" "" "" ∅)) ""))
    2 ref "hash" size "text/plain" revision 2 100 100 0 "".
Definition note (ref : string) (revision : Z) : ObjectRecord := note_of ref revision 10.

Definition ops : list Op :=
  [Insert (note "r1" 1) "created"; Update (note "r2" 3) "skips a revision";
   Update (note "r2" 2) "second"; Insert (note "r3" 1) "created"].

End Sample.
#[local] Existing Instances Sample.json Exact.sqlite Exact.sqlite_laws.
Import Sample.

Lemma store_refines_history_witness :
  (run ops (store_open_in_memory 0)).2
    = [Ok tt; Err "revision conflict: expected 2, received 3"; Ok tt; Err "insert object metadata"]
  /\ exists h', history_steps ops (run ops (store_open_in_memory 0)).2 ∅ h'
     /\ refines (run ops (store_open_in_memory 0)).1 h'
     /\ object_revisions (store_open_in_memory 0)
        ⊆ object_revisions (run ops (store_open_in_memory 0)).1.
Proof.
  split; [vm_compute; reflexivity|].
  apply (store_refines_history ops (store_open_in_memory 0) ∅ (open_refines 0)).
  repeat constructor; done.
Defined.

Lemma store_keeps_constraints_witness :
  let r := run ops (store_open_in_memory 0) in
  size (objects r.1) = 1%nat /\ db_ok r.1.
Proof.
  split; [vm_compute; reflexivity|].
  apply (store_keeps_constraints ops (store_open_in_memory 0)).
  split; intros *; try (intros Hk; vm_compute in Hk; discriminate).
Defined.

(** A size of more than the signed maximum and a change type that is not declared
    are refused by the constraints. *)
Lemma refused :
  let big := note_of "r9" 1 (2 ^ 63) in
  (insert_object big "created" (store_open_in_memory 0)).2 = Err "insert object metadata" /\
  (insert_object (note "r1" 1) "renamed" (store_open_in_memory 0)).2
  = Err "insert initial object revision".
Proof. vm_compute. done. Qed.

Definition note_metadata : ObjectMetadata :=
  mkMetadata "a title" "text" ["x"; "y"] 3 (Some (mkProvenance "import" "" "" "" ∅)) "".
Lemma note_inserted : (insert_object (note "r1" 1) "created" (store_open_in_memory 0)).2 = Ok tt.
Proof. vm_compute. reflexivity. Qed.
Lemma note_in_range : record_in_range (note "r1" 1).
Proof. done. Qed.


Lemma kind_and_tags_lost_witness :
  kind (note "r1" 1) = 1 /\
  forall o', get_object "note-1" (insert_object (note "r1" 1) "created" (store_open_in_memory 0)).1
             = Some o' -> kind o' = 0.
Proof.
  split; [reflexivity|]. intros o' Hg.
  exact (proj1 (kind_and_tags_lost (note "r1" 1) "created" (store_open_in_memory 0) note_metadata o'
    note_in_range eq_refl note_inserted Hg)).
Defined.
