(* ===== verification/Rfc4648.v ===== *)
(** * An executable base64

    The [base64] crate is a parameter of the model; this file gives an
    implementation of RFC 4648 that satisfies the laws stated of it, for
    evaluating the components that depend on the shape of the encoded text. *)
From S2P Require Import Prelude Errors External.

(** ** Bytes and groups of six bits *)

Fixpoint sextets (l : list Z) : list Z :=
  match l with
  | a :: b :: c :: l =>
      a / 4 :: (a mod 4) * 16 + b / 16 :: (b mod 16) * 4 + c / 64 :: c mod 64 :: sextets l
  | [a; b] => [a / 4; (a mod 4) * 16 + b / 16; (b mod 16) * 4]
  | [a] => [a / 4; (a mod 4) * 16]
  | [] => []
  end.

Fixpoint octets (l : list Z) : option (list Z) :=
  match l with
  | w :: x :: y :: z :: l =>
      match octets l with
      | Some r => Some (w * 4 + x / 16 :: (x mod 16) * 16 + y / 4 :: (y mod 4) * 64 + z :: r)
      | None => None
      end
  | [w; x; y] => Some [w * 4 + x / 16; (x mod 16) * 16 + y / 4]
  | [w; x] => Some [w * 4 + x / 16]
  | [_] => None
  | [] => Some []
  end.

Definition is_byte (z : Z) : Prop := 0 <= z < 256.

(** Induction three bytes at a time. *)
Lemma groups_ind (P : list Z -> Prop) :
  P [] -> (forall a, P [a]) -> (forall a b, P [a; b]) ->
  (forall a b c l, P l -> P (a :: b :: c :: l)) -> forall l, P l.
Proof.
  intros H0 H1 H2 H3. fix IH 1. intros [|a [|b [|c l]]]; [done|apply H1|apply H2|apply H3, IH].
Qed.

Ltac euclid := Z.to_euclidean_division_equations; lia.

Lemma octets_sextets l : Forall is_byte l -> octets (sextets l) = Some l.
Proof.
  induction l as [|a|a b|a b c l IH] using groups_ind; intros Hl;
    rewrite ?Forall_cons in Hl; unfold is_byte in Hl; cbn [sextets octets].
  - done.
  - f_equal. f_equal. euclid.
  - f_equal. f_equal; [|f_equal]; euclid.
  - rewrite IH by apply Hl. f_equal. f_equal; [|f_equal; [|f_equal]]; euclid.
Qed.

Lemma sextets_range l : Forall is_byte l -> Forall (fun s => 0 <= s < 64) (sextets l).
Proof.
  induction l as [|a|a b|a b c l IH] using groups_ind; intros Hl;
    rewrite ?Forall_cons in Hl; unfold is_byte in Hl; cbn [sextets].
  - constructor.
  - repeat (constructor; [euclid|]). constructor.
  - repeat (constructor; [euclid|]). constructor.
  - repeat (constructor; [euclid|]). apply IH, Hl.
Qed.

Lemma sextets_len l : zlen (sextets l) = (4 * zlen l + 2) / 3.
Proof.
  induction l as [|a|a b|a b c l IH] using groups_ind; cbn [sextets];
    rewrite ?zlen_cons, ?zlen_nil; try reflexivity.
  rewrite IH. pose proof (zlen_nonneg l). euclid.
Qed.

(** ** Alphabets *)

Definition letter (symbols : byte * byte) (s : Z) : byte :=
  if s <? 26 then byte_of (65 + s) else if s <? 52 then byte_of (97 + s - 26)
  else if s <? 62 then byte_of (48 + s - 52) else if s =? 62 then symbols.1 else symbols.2.
Definition STANDARD : byte * byte := (x2b, x2f).
Definition URL_SAFE : byte * byte := (x2d, x5f).

Definition all_sextets : list Z := Z.of_nat <$> seq 0 64.
Definition value (symbols : byte * byte) (b : byte) : option Z :=
  find (fun s => byte_val (letter symbols s) =? byte_val b) all_sextets.

Fixpoint values (symbols : byte * byte) (l : list byte) : option (list Z) :=
  match l with
  | [] => Some []
  | b :: l => match value symbols b, values symbols l with
              | Some s, Some r => Some (s :: r)
              | _, _ => None
              end
  end.

Lemma sextet_in s : 0 <= s < 64 -> In s all_sextets.
Proof.
  intros Hs. apply in_map_iff. exists (Z.to_nat s). split; [lia|]. apply in_seq. lia.
Qed.

Lemma value_letter symbols s :
  symbols = STANDARD \/ symbols = URL_SAFE -> 0 <= s < 64 -> value symbols (letter symbols s) = Some s.
Proof.
  intros Hsym Hs.
  assert (Hall : forallb (fun s => bool_decide (value symbols (letter symbols s) = Some s))
                   all_sextets = true)
    by (destruct Hsym as [-> | ->]; vm_compute; reflexivity).
  rewrite forallb_forall in Hall. by apply (bool_decide_unpack _), Is_true_true, Hall, sextet_in.
Qed.

Lemma values_letters symbols l :
  symbols = STANDARD \/ symbols = URL_SAFE -> Forall (fun s => 0 <= s < 64) l ->
  values symbols (letter symbols <$> l) = Some l.
Proof.
  intros Hsym. induction 1 as [|s l Hs Hl IH]; [done|]. rewrite fmap_cons. cbn [values].
  by rewrite value_letter, IH.
Qed.

(** ** The codecs *)

Definition encode_no_pad (symbols : byte * byte) (l : list byte) : list byte :=
  letter symbols <$> sextets (byte_val <$> l).
Definition decode_no_pad (symbols : byte * byte) (l : list byte) : Result string (list byte) :=
  match values symbols l ≫= octets with
  | Some r => Ok (byte_of <$> r)
  | None => Err "Invalid input"
  end.

Definition EQUALS : byte := x3d.
Definition padding (l : list byte) : list byte :=
  replicate (Z.to_nat ((- zlen l) mod 3)) EQUALS.
Definition unpad (l : list byte) : list byte :=
  drop_end_matches EQUALS l.

Lemma bytes_in_range (l : list byte) : Forall is_byte (byte_val <$> l).
Proof. apply Forall_fmap, Forall_true. intros b. apply byte_val_range. Qed.

Lemma byte_of_vals (l : list byte) : byte_of <$> (byte_val <$> l) = l.
Proof. induction l as [|b l IH]; cbn; [done|]. by rewrite byte_of_val, IH. Qed.

Lemma no_pad_roundtrip symbols l :
  symbols = STANDARD \/ symbols = URL_SAFE ->
  decode_no_pad symbols (encode_no_pad symbols l) = Ok l.
Proof.
  intros Hsym. unfold decode_no_pad, encode_no_pad.
  rewrite values_letters by (done || apply sextets_range, bytes_in_range). cbn.
  rewrite octets_sextets by apply bytes_in_range. by rewrite byte_of_vals.
Qed.

Lemma letter_not_equals s : 0 <= s < 64 -> (byte_val (letter STANDARD s) =? byte_val EQUALS) = false.
Proof.
  intros Hs. assert (Hall : forallb (fun s => negb (byte_val (letter STANDARD s) =? byte_val EQUALS))
                              all_sextets = true) by (vm_compute; reflexivity).
  rewrite forallb_forall in Hall. by apply negb_true_iff, Hall, sextet_in.
Qed.

Lemma drop_end_app l n :
  Forall (fun b => (byte_val b =? byte_val EQUALS) = false) l ->
  drop_end_matches EQUALS (l ++ replicate n EQUALS) = l.
Proof.
  induction 1 as [|b l Hb Hl IH].
  - induction n as [|n IH]; cbn in *; [done|]. by rewrite IH.
  - cbn [drop_end_matches app]. rewrite IH. destruct l; [by rewrite Hb|done].
Qed.

Lemma unpad_pad l n :
  drop_end_matches EQUALS (encode_no_pad STANDARD l ++ replicate n EQUALS) = encode_no_pad STANDARD l.
Proof.
  apply drop_end_app, Forall_fmap. eapply Forall_impl; [apply sextets_range, bytes_in_range|].
  intros s Hs. by apply letter_not_equals.
Qed.

Definition codec : Base64 := {|
  standard_encode l := String.string_of_list_byte (encode_no_pad STANDARD l ++ padding l);
  standard_decode s := decode_no_pad STANDARD (unpad (as_bytes s));
  url_safe_no_pad_encode l := String.string_of_list_byte (encode_no_pad URL_SAFE l);
  url_safe_no_pad_decode s := decode_no_pad URL_SAFE (as_bytes s);
  standard_no_pad_encode l := String.string_of_list_byte (encode_no_pad STANDARD l);
  standard_no_pad_decode s := decode_no_pad STANDARD (as_bytes s);
|}.

Lemma codec_laws : @Base64Laws codec.
Proof.
  constructor; intros a; unfold standard_decode, standard_encode, url_safe_no_pad_decode, url_safe_no_pad_encode,
    standard_no_pad_decode, standard_no_pad_encode, codec;
    rewrite as_bytes_string_of; [|apply no_pad_roundtrip; auto..].
  unfold unpad, padding. rewrite unpad_pad. apply no_pad_roundtrip. auto.
Qed.

Lemma codec_text : @Base64Text codec.
Proof.
  assert (Hall : forallb (fun s => base64_char (letter STANDARD s)) all_sextets = true)
    by (vm_compute; reflexivity). rewrite forallb_forall in Hall.
  constructor; intros a; unfold standard_encode, url_safe_no_pad_encode, codec.
  - rewrite as_bytes_string_of. apply Forall_app. split.
    + apply Forall_fmap. eapply Forall_impl; [apply sextets_range, bytes_in_range|].
      intros s Hs. by apply Hall, sextet_in.
    + by apply Forall_replicate.
  - unfold str_len, encode_no_pad. rewrite as_bytes_string_of. unfold zlen. rewrite length_fmap.
    change (Z.of_nat (length (sextets (byte_val <$> a)))) with (zlen (sextets (byte_val <$> a))).
    rewrite sextets_len. unfold zlen. by rewrite length_fmap.
Qed.

(** The vectors of RFC 4648, section 10. *)
Lemma rfc4648_vectors :
  @standard_encode codec <$> (as_bytes <$> [""; "f"; "fo"; "foo"; "foob"; "fooba"; "foobar"])
  = [""; "Zg=="; "Zm8="; "Zm9v"; "Zm9vYg=="; "Zm9vYmE="; "Zm9vYmFy"].
Proof. vm_compute. reflexivity. Qed.
