(* ===== verification/Disk.v ===== *)
(** * Files of the process's own state

    The calls of [std::fs] that the key store and the device registry make:
    reading, creating directories and files, permissions, renaming and removing.
    [Disk] is the operations, [DiskLaws] what each does to the files (contents
    and permission bits by path), failures included; [Memory] is an executable
    disk that satisfies the laws. *)
From S2P Require Import Prelude Errors Paths.

Class Disk (D : Type) := {
  (** [fs::metadata(p)], as whether it is a directory. *)
  disk_is_dir : D -> string -> Result IoError bool;
  (** [fs::read] and the bytes behind [fs::read_to_string]. *)
  disk_read : D -> string -> Result IoError (list byte);
  create_dir : string -> D -> D * Result IoError unit;
  create_dir_all : string -> D -> D * Result IoError unit;
  (** [fs::set_permissions] and [File::set_permissions]. *)
  set_mode : string -> Z -> D -> D * Result IoError unit;
  (** [OpenOptions::new().write(true).create_new(true).open(p)]. *)
  create_new : string -> D -> D * Result IoError unit;
  write_all : string -> list byte -> D -> D * Result IoError unit;
  sync_all : string -> D -> D * Result IoError unit;
  (** [fs::write]: truncates or creates, then writes. *)
  write_file : string -> list byte -> D -> D * Result IoError unit;
  rename : string -> string -> D -> D * Result IoError unit;
  remove_file : string -> D -> D * Result IoError unit;
}.

(** [Path::exists]. *)
Definition path_exists `{Disk D} (d : D) (p : string) : bool := is_ok (disk_is_dir d p).

Definition NotFound : string := "NotFound".
Definition AlreadyExists : string := "AlreadyExists".

(** A file is its contents and permission bits. The paths are those of regular
    files that are not links to each other; paths equal as [Path]s name the same
    file. *)
Class DiskLaws (D : Type) `{Disk D} := {
  file : D -> string -> option (list byte * Z);
  file_eqb : forall d p q, path_eqb p q = true -> file d p = file d q;
  read_ok : forall d p l, disk_read d p = Ok l -> exists m, file d p = Some (l, m);
  exists_file : forall d p f, file d p = Some f -> disk_is_dir d p = Ok false;
  create_dir_file : forall p d q, file (create_dir p d).1 q = file d q;
  create_dir_all_file : forall p d q, file (create_dir_all p d).1 q = file d q;
  create_dir_ok : forall p d d' u, create_dir p d = (d', Ok u) -> file d p = None;
  set_mode_ok : forall p m d d' u, set_mode p m d = (d', Ok u) ->
    forall q, file d' q = if path_eqb q p then (fun f => (f.1, m)) <$> file d p else file d q;
  set_mode_err : forall p m d d' e, set_mode p m d = (d', Err e) ->
    forall q, file d' q = file d q;
  create_new_ok : forall p d d' u, create_new p d = (d', Ok u) ->
    file d p = None /\
    exists m, forall q, file d' q = if path_eqb q p then Some ([], m) else file d q;
  create_new_err : forall p d d' e, create_new p d = (d', Err e) ->
    forall q, file d' q = file d q;
  write_all_ok : forall p l d d' u, write_all p l d = (d', Ok u) ->
    forall q, file d' q = if path_eqb q p then (fun f => (f.1 ++ l, f.2)) <$> file d p
                          else file d q;
  write_all_err : forall p l d d' e, write_all p l d = (d', Err e) ->
    forall q, path_eqb q p = false -> file d' q = file d q;
  sync_all_file : forall p d q, file (sync_all p d).1 q = file d q;
  write_file_ok : forall p l d d' u, write_file p l d = (d', Ok u) ->
    exists m, forall q, file d' q = if path_eqb q p then Some (l, m) else file d q;
  write_file_err : forall p l d d' e, write_file p l d = (d', Err e) ->
    forall q, path_eqb q p = false -> file d' q = file d q;
  rename_ok : forall p r f d d' u, rename p r d = (d', Ok u) -> file d p = Some f ->
    forall q, file d' q = if path_eqb q r then Some f
                          else if path_eqb q p then None else file d q;
  rename_err : forall p r d d' e, rename p r d = (d', Err e) -> forall q, file d' q = file d q;
  remove_ok : forall p d d' u, remove_file p d = (d', Ok u) ->
    forall q, file d' q = if path_eqb q p then None else file d q;
  remove_err : forall p d d' e, remove_file p d = (d', Err e) -> forall q, file d' q = file d q;
}.

(** ** Paths *)

(** The stem of a file name: what precedes its last dot, the whole name when the
    only dot starts it. *)
Fixpoint last_dot (i : nat) (l : list byte) : option nat :=
  match l with
  | [] => None
  | b :: l => match last_dot (S i) l with
              | Some j => Some j
              | None => if byte_val b =? 46 then Some i else None
              end
  end.
Definition file_stem (name : list byte) : list byte :=
  match last_dot 0 name with
  | None | Some O => name
  | Some j => take j name
  end.

(** [Path::with_extension] for a non-empty extension, up to equality of paths. *)
Definition with_extension (p ext : string) : string :=
  match last (components p) with
  | Some (Normal name) =>
      path_join (render (removelast (components p)))
        (String.string_of_list_byte (file_stem name ++ [x2e] ++ as_bytes ext))
  | _ => p
  end.

(** The path and its parents, up to the empty path or the root. *)
Definition ancestors (p : string) : list string :=
  p :: ((fun k => render (take k (components p)))
          <$> rev (seq 1 (length (components p) - 1))).

(** ** An executable disk

    Every call that changes something takes the next entry of [faults]; [true]
    makes the call fail without an effect. *)
Module Memory.
#[export] Instance byte_countable : Countable byte :=
  inj_countable' byte_val byte_of byte_of_val.
#[export] Instance component_countable : Countable Component :=
  inj_countable'
    (fun c => match c with
              | RootDir => inl 0 | CurDir => inl 1 | ParentDir => inl 2 | Normal s => inr s end)
    (fun x => match x with
              | inl 0 => RootDir | inl 1 => CurDir | inl _ => ParentDir | inr s => Normal s end)
    (fun c => match c with RootDir | CurDir | ParentDir | Normal _ => eq_refl end).

Inductive Node := Dir | Regular (contents : list byte) (mode : Z).
Notation Nodes := (gmap (list Component) Node).
Record Mem := mkMem { nodes : Nodes; faults : list bool }.

Definition not_found : IoError := mkIoError NotFound "No such file or directory (os error 2)".
Definition already_exists : IoError := mkIoError AlreadyExists "File exists (os error 17)".
Definition injected : IoError := mkIoError "Other" "I/O error".

Definition call (effect : Nodes -> Result IoError Nodes) (m : Mem) : Mem * Result IoError unit :=
  let '(fault, rest) := match faults m with [] => (false, []) | b :: l => (b, l) end in
  if fault then (mkMem (nodes m) rest, Err injected) else
  match effect (nodes m) with
  | Ok l => (mkMem l rest, Ok tt)
  | Err e => (mkMem (nodes m) rest, Err e)
  end.

Definition create (n : Node) (p : string) (l : Nodes) : Result IoError Nodes :=
  match l !! components p with
  | Some _ => Err already_exists
  | None => Ok (<[components p := n]> l)
  end.
Definition create_all (p : string) (l : Nodes) : Result IoError Nodes :=
  let missing := filter (fun q => l !! components q = None) (ancestors p) in
  Ok (foldr (fun q l => <[components q := Dir]> l) l missing).
Definition chmod (mode : Z) (p : string) (l : Nodes) : Result IoError Nodes :=
  match l !! components p with
  | Some (Regular c _) => Ok (<[components p := Regular c mode]> l)
  | Some Dir => Ok l
  | None => Err not_found
  end.
Definition append (d : list byte) (p : string) (l : Nodes) : Result IoError Nodes :=
  match l !! components p with
  | Some (Regular c mode) => Ok (<[components p := Regular (c ++ d) mode]> l)
  | _ => Err not_found
  end.
Definition overwrite (d : list byte) (p : string) (l : Nodes) : Result IoError Nodes :=
  match l !! components p with
  | Some (Regular _ mode) => Ok (<[components p := Regular d mode]> l)
  | Some Dir => Err already_exists
  | None => Ok (<[components p := Regular d 420]> l)
  end.
Definition move (p r : string) (l : Nodes) : Result IoError Nodes :=
  match l !! components p, l !! components r with
  | _, Some Dir => Err already_exists
  | Some n, _ => Ok (<[components r := n]> (delete (components p) l))
  | None, _ => Err not_found
  end.
Definition unlink (p : string) (l : Nodes) : Result IoError Nodes :=
  match l !! components p with
  | Some (Regular _ _) => Ok (delete (components p) l)
  | _ => Err not_found
  end.

#[export] Instance disk : Disk Mem := {|
  disk_is_dir m p := match nodes m !! components p with
                     | Some Dir => Ok true | Some (Regular _ _) => Ok false | None => Err not_found
                     end;
  disk_read m p := match nodes m !! components p with
                   | Some (Regular c _) => Ok c | _ => Err not_found
                   end;
  create_dir p := call (create Dir p);
  create_dir_all p := call (create_all p);
  set_mode p mode := call (chmod mode p);
  create_new p := call (create (Regular [] 420) p);
  write_all p d := call (append d p);
  sync_all p := call Ok;
  write_file p d := call (overwrite d p);
  rename p r := call (move p r);
  remove_file p := call (unlink p);
|}.

Definition file_of (m : Mem) (p : string) : option (list byte * Z) :=
  match nodes m !! components p with Some (Regular c mode) => Some (c, mode) | _ => None end.

Lemma call_Ok effect m m' u :
  call effect m = (m', Ok u) -> effect (nodes m) = Ok (nodes m').
Proof.
  unfold call. destruct (match faults m with [] => _ | _ => _ end) as [[] rest]; [done|].
  destruct (effect (nodes m)); intros; by simplify_eq.
Qed.

Lemma call_Err effect m m' e : call effect m = (m', Err e) -> nodes m' = nodes m.
Proof.
  unfold call. destruct (match faults m with [] => _ | _ => _ end) as [[] rest]; [by intros; simplify_eq|].
  destruct (effect (nodes m)); intros; by simplify_eq.
Qed.

Lemma create_all_files p l l' q :
  create_all p l = Ok l' ->
  match l' !! components q with Some (Regular c m) => Some (c, m) | _ => None end
  = match l !! components q with Some (Regular c m) => Some (c, m) | _ => None end.
Proof.
  unfold create_all. intros Hl%Ok_inj. subst l'.
  assert (Hall : Forall (fun q => l !! components q = None)
                   (filter (fun q => l !! components q = None) (ancestors p))).
  { apply Forall_forall. intros x [Hx _]%list_elem_of_filter. done. }
  induction Hall as [|x xs Hx Hxs IH]; cbn; [done|].
  rewrite lookup_insert. case_decide as He; [|exact IH]. by rewrite <- He, Hx.
Qed.

(** The laws, one case per kind of node and equality of paths. *)
Ltac law H :=
  match type of H with
  | call _ _ = (_, Ok _) =>
      apply call_Ok in H; unfold create, chmod, append, overwrite, move, unlink in H;
      repeat case_match; try discriminate H; injection H as H
  | call _ _ = (_, Err _) => apply call_Err in H; symmetry in H
  end;
  unfold file_of, path_eqb in *; intros; try rewrite <- H; rewrite ?lookup_insert, ?lookup_delete;
  repeat (case_decide || case_bool_decide); simplify_eq/=;
  repeat match goal with
  | E : components ?q = components ?p |- _ => rewrite E in *; clear E
  | E : ?m !! components ?p = _ |- context [?m !! components ?p] => rewrite E
  | E : ?m !! components ?p = _, E' : context [?m !! components ?p] |- _ => rewrite E in E'
  end; simplify_eq/=; try done.

#[export] Instance laws : DiskLaws Mem.
Proof.
  refine {| file := file_of |}.
  - intros d p q Hpq%path_eqb_eq. unfold file_of. by rewrite Hpq.
  - intros d p l. unfold file_of. cbn. intros. repeat case_match; simplify_eq. by eexists.
  - intros d p f. unfold file_of. cbn. intros. by repeat case_match; simplify_eq.
  - intros p d q. cbn. destruct (call _ d) as [d' [[]|e]] eqn:H; cbn; law H.
  - intros p d q. cbn. destruct (call _ d) as [d' [[]|e]] eqn:H; cbn; [|law H].
    apply call_Ok in H. by apply (create_all_files p).
  - intros p d d' u H. cbn in H. law H.
  - intros p m d d' u H. cbn in H. law H.
  - intros p m d d' e H. cbn in H. law H.
  - intros p d d' u H. cbn in H. split; [law H|exists 420; law H].
  - intros p d d' e H. cbn in H. law H.
  - intros p l d d' u H. cbn in H. law H.
  - intros p l d d' e H. cbn in H. law H.
  - intros p d q. cbn. destruct (call _ d) as [d' [[]|e]] eqn:H; cbn; law H.
  - intros p l d d' u H. cbn in H.
    exists (match nodes d !! components p with Some (Regular _ m) => m | _ => 420 end). law H.
  - intros p l d d' e H. cbn in H. law H.
  - intros p r f d d' u H. cbn in H. law H.
  - intros p r d d' e H. cbn in H. law H.
  - intros p d d' u H. cbn in H. law H.
  - intros p d d' e H. cbn in H. law H.
Defined.
End Memory.
