(* ===== verification/Identity.v ===== *)
(** * Device identities

    [src/src/identity/key.rs]: the RSA key of a device with its identifier and
    codes, the JSON and PEM files it is kept in and the atomic, private write of
    both. The [rsa] crate, the JSON codec, base64 and the random sources are
    parameters; the Windows variants of the file calls are not modelled. *)
From S2P Require Import Prelude Errors External Rfc4648 Paths Disk Signaling Pairing.

Definition RSA_BITS : Z := 2048.
Definition PAIRING_CODE_SPACE : Z := 1000000.
Definition ACCESS_CODE_BYTES : Z := 8.
Definition UID_BYTES : Z := 16.

(** ** The [rsa] crate: private and public keys, their encodings, PKCS#1 v1.5
    signatures and OAEP encryption with SHA-256; errors are their texts *)
Class Rsa (Sk Pk : Type) := {
  to_public_key : Sk -> Pk;
  to_public_key_der : Pk -> Result string (list byte);
  from_public_key_der : list byte -> Result string Pk;
  to_pkcs8_der : Sk -> Result string (list byte);
  from_pkcs8_der : list byte -> Result string Sk;
  to_pkcs8_pem : Sk -> Result string string;
  from_pkcs8_pem : string -> Result string Sk;
  key_size : Sk -> Z;
  modulus_bits : Sk -> Z;
  rsa_sign : Sk -> list byte -> Result string (list byte);
  rsa_verify : Pk -> list byte -> list byte -> Result string unit;
  (** The first argument is what is drawn from the random generator. *)
  rsa_encrypt : list byte -> Pk -> list byte -> Result string (list byte);
  rsa_decrypt : Sk -> list byte -> Result string (list byte);
}.

Class RsaLaws (Sk Pk : Type) `{Rsa Sk Pk} : Prop := {
  pkcs8_der_roundtrip : forall k d, to_pkcs8_der k = Ok d -> from_pkcs8_der d = Ok k;
  pkcs8_pem_roundtrip : forall k s, to_pkcs8_pem k = Ok s -> from_pkcs8_pem s = Ok k;
  public_der_roundtrip : forall p d, to_public_key_der p = Ok d -> from_public_key_der d = Ok p;
  key_size_bits : forall k, key_size k = (modulus_bits k + 7) / 8;
  verify_sign : forall k h s, rsa_sign k h = Ok s -> rsa_verify (to_public_key k) h s = Ok tt;
  decrypt_encrypt : forall k seed m c,
    rsa_encrypt seed (to_public_key k) m = Ok c -> rsa_decrypt k c = Ok m;
}.

Record PersistedIdentity := mkPersisted {
  pi_private_key_pem : string;
  pi_uid : string;
  pi_pairing_code : string;
  pi_access_code : string;
}.

Inductive IdentityFormat := Json | Pem.

(** [?] on an [io::Result]. *)
Definition io {D A} (c : D -> D * Result IoError A) : SM D BlnkError A :=
  fun d => let '(d, r) := c d in (d, map_err ErrIo r).

(** ** PEM blocks *)

Section pem.
Context `{Base64}.

Definition pem_begin (block_type : string) : string := "-----BEGIN " +:+ block_type +:+ "-----".
Definition pem_end (block_type : string) : string := "-----END " +:+ block_type +:+ "-----".

Definition decode_pem_block (contents block_type : string) : BResult (list byte) :=
  let begin := as_bytes (pem_begin block_type) in
  let end_ := as_bytes (pem_end block_type) in
  let text := as_bytes contents in
  let? begin_index := ok_or (find_bytes begin text)
    (ErrIdentity ("identity PEM is missing " +:+ block_type +:+ " block")) in
  let body_start := (begin_index + length begin)%nat in
  let? index := ok_or (find_bytes end_ (drop body_start text))
    (ErrIdentity ("identity PEM has unterminated " +:+ block_type +:+ " block")) in
  let encoded := concat ((fun line => trim_end (trim_start line))
                           <$> lines (take index (drop body_start text))) in
  map_err (fun error => ErrIdentity ("decode " +:+ block_type +:+ " block: " +:+ error))
    (standard_decode (String.string_of_list_byte encoded)).

(** [chunks(64)] of the encoded text: ASCII, so that every chunk is UTF-8. *)
Definition encode_pem_block (block_type : string) (bytes : list byte) : list byte :=
  as_bytes (pem_begin block_type) ++ [x0a]
  ++ concat ((fun chunk => chunk ++ [x0a]) <$> chunks 64 (as_bytes (standard_encode bytes)))
  ++ as_bytes (pem_end block_type) ++ [x0a].
End pem.

(** ** Codes *)

Section codes.
Context `{Base64}.

(** [getrandom::fill] of [n] bytes, which may fail. *)
Definition fill (n : Z) (what : string) (random : Result string (list byte)) : BResult (list byte) :=
  match random with
  | Ok bytes => Ok (take (Z.to_nat n) (bytes ++ replicate (Z.to_nat n) x00))
  | Err error => Err (ErrIdentity ("generate " +:+ what +:+ ": " +:+ error))
  end.

Definition generate_pairing_code (random : Result string (list byte)) : BResult string :=
  let? bytes := fill 4 "pairing_code" random in
  Ok (fmt06 (from_le_bytes bytes mod PAIRING_CODE_SPACE)).
Definition generate_access_code (random : Result string (list byte)) : BResult string :=
  let? bytes := fill ACCESS_CODE_BYTES "access_code" random in
  Ok (url_safe_no_pad_encode bytes).

Definition decodes_to (n : Z) (value : string) : bool :=
  match url_safe_no_pad_decode value with Ok bytes => zlen bytes =? n | Err _ => false end.
Definition is_valid_uid (value : string) : bool := (str_len value =? 22) && decodes_to UID_BYTES value.
Definition is_valid_access_code (value : string) : bool :=
  (str_len value =? 11) && decodes_to ACCESS_CODE_BYTES value.
End codes.

(** ** Identities *)

Record Identity (Sk : Type) := mkIdentity {
  private_key : Sk;
  uid : string;
  pairing_code : string;
  access_code : string;
}.
Arguments mkIdentity {Sk} _ _ _ _.
Arguments private_key {Sk} _.
Arguments uid {Sk} _.
Arguments pairing_code {Sk} _.
Arguments access_code {Sk} _.

Definition identity_debug `{RustFmt} {Sk} (i : Identity Sk) : string :=
  "Identity { uid: " +:+ str_debug (uid i) +:+ ", pairing_code: " +:+ str_debug "[REDACTED]"
  +:+ ", access_code: " +:+ str_debug "[REDACTED]" +:+ " }".

Section identity.
Context {Sk Pk : Type} `{Rsa Sk Pk} `{Sha2} `{Base64} `{RustFmt} `{SerdeJson PersistedIdentity}.

Definition identity_err {T} (operation : string) (r : Result string T) : BResult T :=
  map_err (fun error => ErrIdentity (operation +:+ ": " +:+ error)) r.

Definition derive_uid (k : Sk) : BResult string :=
  let? der := identity_err "encode public key" (to_public_key_der (to_public_key k)) in
  Ok (url_safe_no_pad_encode (take 16 (sha256 der))).

Definition validate_rsa_key_size (k : Sk) : BResult unit :=
  fail_if! negb (modulus_bits k =? RSA_BITS)
    with ErrIdentity ("identity key must be exactly " +:+ dec RSA_BITS +:+ " bits") in
  Ok tt.

(** [key], [pairing] and [access] are what the generators return. *)
Definition generate (key : Result string Sk) (pairing access : Result string (list byte))
    : BResult (Identity Sk) :=
  let? k := identity_err "generate RSA key" key in
  let? uid := derive_uid k in
  let? code := generate_pairing_code pairing in
  let? access := generate_access_code access in
  Ok (mkIdentity k uid code access).

Definition public_key (i : Identity Sk) : Pk := to_public_key (private_key i).
Definition public_key_b64 (i : Identity Sk) : BResult string :=
  let? der := identity_err "encode public key" (to_public_key_der (public_key i)) in
  Ok (standard_encode der).
Definition sign (i : Identity Sk) (data : list byte) : BResult (list byte) :=
  identity_err "sign data" (rsa_sign (private_key i) (sha256 data)).
Definition verify (i : Identity Sk) (data signature : list byte) : BResult unit :=
  identity_err "verify signature" (rsa_verify (public_key i) (sha256 data) signature).
Definition encrypt_for_peer (seed : list byte) (p : Pk) (plaintext : list byte)
    : BResult (list byte) :=
  identity_err "encrypt data" (rsa_encrypt seed p plaintext).
Definition decrypt (i : Identity Sk) (ciphertext : list byte) : BResult (list byte) :=
  identity_err "decrypt data" (rsa_decrypt (private_key i) ciphertext).

(** ** The PEM representation *)

Definition looks_like_pem (contents : list byte) : bool :=
  utf8_valid contents && is_prefix (as_bytes "-----BEGIN ") (trim_start contents).

Definition load_pem (contents : list byte) (pairing : Result string (list byte))
    : BResult (Identity Sk) :=
  let? text := identity_err "decode identity PEM" (str_from_utf8 contents) in
  let? private_key_der := decode_pem_block text "PRIVATE KEY" in
  let? access_code_bytes := decode_pem_block text "BITBANG ACCESS CODE" in
  fail_if! negb (zlen access_code_bytes =? ACCESS_CODE_BYTES)
    with ErrIdentity ("access-code block has wrong length: " +:+ dec (zlen access_code_bytes)
                      +:+ " (want " +:+ dec ACCESS_CODE_BYTES +:+ ")") in
  let? k := identity_err "decode private key" (from_pkcs8_der private_key_der) in
  let? _ := validate_rsa_key_size k in
  let? uid := derive_uid k in
  let access := url_safe_no_pad_encode access_code_bytes in
  let? code := generate_pairing_code pairing in
  Ok (mkIdentity k uid code access).

Definition save_pem (i : Identity Sk) : BResult (list byte) :=
  let? _ := validate_rsa_key_size (private_key i) in
  let? derived_uid := derive_uid (private_key i) in
  fail_if! negb (str_eqb (uid i) derived_uid)
    with ErrIdentity
           "cannot export a legacy identity to PEM because its UID is not key-derived" in
  let? private_key_der := identity_err "encode private key" (to_pkcs8_der (private_key i)) in
  let? access_code_bytes :=
    identity_err "decode access code" (url_safe_no_pad_decode (access_code i)) in
  fail_if! negb (zlen access_code_bytes =? ACCESS_CODE_BYTES)
    with ErrIdentity ("access code has wrong length: " +:+ dec (zlen access_code_bytes)
                      +:+ " (want " +:+ dec ACCESS_CODE_BYTES +:+ ")") in
  Ok (encode_pem_block "PRIVATE KEY" private_key_der
      ++ encode_pem_block "BITBANG ACCESS CODE" access_code_bytes).

(** ** Files *)

Context {D : Type} `{Disk D}.

(** [fs::read_to_string]. *)
Definition read_to_string (d : D) (p : string) : BResult string :=
  match disk_read d p with
  | Err e => Err (ErrIo e)
  | Ok bytes => if utf8_valid bytes then Ok (String.string_of_list_byte bytes)
                else Err (ErrIo (mkIoError "InvalidData" "stream did not contain valid UTF-8"))
  end.

Definition load_contents (contents : string) : BResult (Identity Sk) :=
  let? persisted := identity_err "decode identity file" (json_from_str contents) in
  let? k := identity_err "decode private key" (from_pkcs8_pem (pi_private_key_pem persisted)) in
  fail_if! negb (key_size k * 8 =? RSA_BITS)
    with ErrIdentity ("identity file contains an RSA key with " +:+ dec (key_size k * 8)
                      +:+ " bits; expected " +:+ dec RSA_BITS) in
  fail_if! negb (is_valid_uid (pi_uid persisted))
    with ErrIdentity "identity file contains an invalid uid" in
  fail_if! negb (str_len (pi_pairing_code persisted) =? 6)
           || negb (forallb is_ascii_digit (as_bytes (pi_pairing_code persisted)))
    with ErrIdentity "identity file contains an invalid pairing_code" in
  fail_if! negb (is_valid_access_code (pi_access_code persisted))
    with ErrIdentity "identity file contains an invalid access_code" in
  Ok (mkIdentity k (pi_uid persisted) (pi_pairing_code persisted) (pi_access_code persisted)).
Definition load (d : D) (path : string) : BResult (Identity Sk) :=
  let? contents := read_to_string d path in load_contents contents.

Definition load_auto (d : D) (path : string) (pairing : Result string (list byte))
    : BResult (Identity Sk) :=
  let? contents := map_err ErrIo (disk_read d path) in
  if looks_like_pem contents then load_pem contents pairing else load d path.

Definition PRIVATE_DIR : Z := 448.   (* 0o700 *)
Definition PRIVATE_FILE : Z := 384.  (* 0o600 *)

Definition not_a_directory (p : string) : BlnkError :=
  ErrIdentity ("identity parent is not a directory: " +:+ p).

(** The [while] loop of [ensure_private_parent] over the parents of a path. *)
Fixpoint missing_directories (d : D) (candidates missing : list string) : BResult (list string) :=
  match candidates with
  | [] => Ok missing
  | candidate :: candidates =>
      if str_is_empty candidate then Ok missing else
      match disk_is_dir d candidate with
      | Ok is_dir => if is_dir then Ok missing else Err (not_a_directory candidate)
      | Err error =>
          if str_eqb (io_kind error) NotFound
          then missing_directories d candidates (missing ++ [candidate])
          else Err (ErrIo error)
      end
  end.

(** One iteration of its [for] loop. *)
Definition create_private_directory (directory : string) : SM D BlnkError unit :=
  fun d =>
  match create_dir directory d with
  | (d, Ok _) => io (set_mode directory PRIVATE_DIR) d
  | (d, Err error) =>
      if str_eqb (io_kind error) AlreadyExists then
        match disk_is_dir d directory with
        | Err e => (d, Err (ErrIo e))
        | Ok false => (d, Err (not_a_directory directory))
        | Ok true => io (set_mode directory PRIVATE_DIR) d
        end
      else (d, Err (ErrIo error))
  end.
Fixpoint create_private_directories (l : list string) : SM D BlnkError unit :=
  match l with
  | [] => retS tt
  | directory :: l => do* create_private_directory directory in create_private_directories l
  end.

Definition ensure_private_parent (parent : string) : SM D BlnkError unit :=
  fun d =>
  match missing_directories d (ancestors parent) [] with
  | Err e => (d, Err e)
  | Ok missing => create_private_directories (rev missing) d
  end.

Definition write_temporary (temporary path : string) (payload : list byte) : SM D BlnkError unit :=
  do* io (create_new temporary) in
  do* io (set_mode temporary PRIVATE_FILE) in
  do* io (write_all temporary payload) in
  do* io (sync_all temporary) in
  io (rename temporary path).

(** [suffix] is the fresh identifier in the temporary name. *)
Definition temporary_of (path suffix : string) : string := with_extension path ("tmp-" +:+ suffix).

Definition write_atomic (path : string) (payload : list byte) (suffix : string)
    : SM D BlnkError unit :=
  do* match path_parent path with
      | Some parent => if str_is_empty parent then retS tt else ensure_private_parent parent
      | None => retS tt
      end in
  fun d =>
  let '(d, r) := write_temporary (temporary_of path suffix) path payload d in
  (if is_ok r then d else (remove_file (temporary_of path suffix) d).1, r).

Definition persisted (i : Identity Sk) (pem : string) : PersistedIdentity :=
  mkPersisted pem (uid i) (pairing_code i) (access_code i).
Definition save (i : Identity Sk) (path suffix : string) : SM D BlnkError unit :=
  let* pem := liftS (identity_err "encode private key" (to_pkcs8_pem (private_key i))) in
  let* payload := liftS (identity_err "encode identity file" (json_to_string (persisted i pem))) in
  write_atomic path (as_bytes payload) suffix.
Definition save_pem_file (i : Identity Sk) (path suffix : string) : SM D BlnkError unit :=
  let* payload := liftS (save_pem i) in write_atomic path payload suffix.
Definition save_as (i : Identity Sk) (path : string) (format : IdentityFormat) (suffix : string)
    : SM D BlnkError unit :=
  match format with
  | Json => save i path suffix
  | Pem => save_pem_file i path suffix
  end.
End identity.

(** ** The PEM representation round-trips *)

Section pem_proofs.
Context `{Base64} {BL : Base64Laws} {BT : Base64Text}.

(** Encoded text: never a dash, a line end, or white space. *)
Definition plain (l : list byte) : Prop := Forall (fun b => base64_char b = true) l.

Lemma base64_char_range b :
  base64_char b = true -> 43 <= byte_val b < 128 /\ byte_val b <> 45.
Proof.
  unfold base64_char. intros Hb. repeat (apply orb_true_iff in Hb as [Hb|Hb]); bool_to_prop; lia.
Qed.

Lemma trim_start_plain l : plain l -> trim_start l = l.
Proof.
  intros Hl. destruct l as [|b l]; [done|]. inversion_clear Hl as [|? ? Hb _].
  apply base64_char_range in Hb. cbn [trim_start].
  replace (ws1 (byte_val b)) with false by (unfold ws1; symmetry; lia).
  destruct l as [|c l]; [done|].
  replace (ws2 (byte_val b) (byte_val c)) with false by (unfold ws2; symmetry; lia).
  destruct l as [|e l]; [done|].
  replace (ws3 (byte_val b) (byte_val c) (byte_val e)) with false by (unfold ws3; symmetry; lia).
  done.
Qed.

Lemma trim_end_plain l : plain l -> trim_end l = l.
Proof.
  induction 1 as [|b l Hb Hl IH]; [done|]. cbn [trim_end].
  rewrite trim_start_plain by by constructor. cbn. by rewrite IH.
Qed.

Lemma strip_cr_plain l : plain l -> strip_cr l = l.
Proof.
  intros Hl. unfold strip_cr. destruct (last l) as [b|] eqn:E; [|done].
  apply last_Some_elem_of in E. unfold plain in Hl. rewrite Forall_forall in Hl.
  specialize (Hl b E). apply base64_char_range in Hl.
  destruct (Z.eqb_spec (byte_val b) 13); [lia|done].
Qed.

Lemma lines_from_plain cur l rest :
  plain l -> lines_from cur (l ++ x0a :: rest) = strip_cr (cur ++ l) :: lines_from [] rest.
Proof.
  intros Hl. revert cur. induction Hl as [|b l Hb Hl IH]; intros cur.
  - by rewrite app_nil_r.
  - cbn [app lines_from]. apply base64_char_range in Hb.
    destruct (Z.eqb_spec (byte_val b) 10); [lia|]. by rewrite IH, <- (assoc_L (++)).
Qed.

Lemma lines_chunks cs :
  Forall plain cs -> lines (concat ((fun chunk => chunk ++ [x0a]) <$> cs)) = cs.
Proof.
  unfold lines. induction 1 as [|c cs Hc Hcs IH]; [done|]. rewrite fmap_cons. cbn [concat].
  rewrite <- (assoc_L (++)). cbn [app]. by rewrite lines_from_plain, strip_cr_plain, IH.
Qed.

Lemma Forall_chunks {A} (P : A -> Prop) n l : Forall P l -> Forall (Forall P) (chunks n l).
Proof.
  unfold chunks. generalize (length l). intros fuel. revert l.
  induction fuel as [|fuel IH]; intros [|x l] Hl; cbn [chunks_aux]; constructor.
  - by apply Forall_take.
  - by apply IH, Forall_drop.
Qed.

(** The text between the two marker lines. *)
Definition pem_body (bytes : list byte) : list byte :=
  x0a :: concat ((fun chunk => chunk ++ [x0a]) <$> chunks 64 (as_bytes (standard_encode bytes))).

Lemma body_chunks bytes : Forall plain (chunks 64 (as_bytes (standard_encode bytes))).
Proof. apply Forall_chunks, standard_alphabet. Qed.

Lemma body_decodes bytes :
  concat ((fun line => trim_end (trim_start line)) <$> lines (pem_body bytes))
  = as_bytes (standard_encode bytes).
Proof.
  unfold pem_body. change (lines (x0a :: ?l)) with ([] :: lines l).
  rewrite lines_chunks by apply body_chunks. rewrite fmap_cons. cbn [concat trim_start trim_end app].
  transitivity (concat (chunks 64 (as_bytes (standard_encode bytes)))); [|apply chunks_concat; lia].
  f_equal. pose proof (body_chunks bytes) as Hc. induction Hc as [|c cs Hc _ IH]; [done|].
  rewrite fmap_cons, IH. by rewrite trim_start_plain, trim_end_plain.
Qed.

Lemma body_no_dash bytes :
  Forall (fun c => (byte_val x2d =? byte_val c) = false) (pem_body bytes).
Proof.
  constructor; [done|]. apply Forall_concat, Forall_fmap. eapply Forall_impl; [apply body_chunks|].
  intros c Hc. cbv beta. apply Forall_app. split; [|by repeat constructor].
  eapply Forall_impl; [exact Hc|]. intros b Hb%base64_char_range. apply Z.eqb_neq.
  change (byte_val x2d) with 45. lia.
Qed.

Lemma encode_pem_block_eq bt bytes :
  encode_pem_block bt bytes
  = as_bytes (pem_begin bt) ++ pem_body bytes ++ as_bytes (pem_end bt) ++ [x0a].
Proof. unfold encode_pem_block, pem_body. by rewrite <- app_comm_cons. Qed.

(** A block is decoded from the first occurrence of its begin line. *)
Lemma decode_encoded bt bytes contents pre post :
  as_bytes contents = pre ++ encode_pem_block bt bytes ++ post ->
  find_bytes (as_bytes (pem_begin bt)) (as_bytes contents) = Some (length pre) ->
  decode_pem_block contents bt = Ok bytes.
Proof.
  intros Htext Hfind. unfold decode_pem_block. rewrite Hfind. cbn [ok_or].
  assert (Hdrop : drop (length pre + length (as_bytes (pem_begin bt))) (as_bytes contents)
                  = pem_body bytes ++ as_bytes (pem_end bt) ++ [x0a] ++ post).
  { rewrite Htext, encode_pem_block_eq, <- drop_drop, drop_app_length.
    rewrite <- !(assoc_L (++)). by rewrite drop_app_length. }
  rewrite Hdrop.
  assert (Hend : exists r, as_bytes (pem_end bt) = x2d :: r) by (eexists; reflexivity).
  destruct Hend as [r Hr].
  rewrite find_bytes_skip by (rewrite Hr; apply skippable_head, body_no_dash).
  rewrite find_bytes_here. cbn [fmap option_fmap option_map ok_or]. rewrite Nat.add_0_r.
  rewrite take_app_length, body_decodes.
  rewrite (as_bytes_inj (String.string_of_list_byte _) (standard_encode bytes))
    by apply as_bytes_string_of.
  by rewrite standard_roundtrip.
Qed.

Definition KEY_BLOCK : string := "PRIVATE KEY".
Definition CODE_BLOCK : string := "BITBANG ACCESS CODE".

Lemma key_block_skippable bytes :
  skippable (as_bytes (pem_begin CODE_BLOCK)) (encode_pem_block KEY_BLOCK bytes) = true.
Proof.
  rewrite encode_pem_block_eq. change (pem_body bytes) with ([x0a] ++ drop 1 (pem_body bytes)).
  rewrite <- (assoc_L (++)), (assoc_L (++)).
  apply skippable_app; [vm_compute; reflexivity|]. apply skippable_app; [|vm_compute; reflexivity].
  apply skippable_head, Forall_drop, body_no_dash.
Qed.

Lemma blocks_decode key code contents :
  as_bytes contents = encode_pem_block KEY_BLOCK key ++ encode_pem_block CODE_BLOCK code ->
  decode_pem_block contents KEY_BLOCK = Ok key /\ decode_pem_block contents CODE_BLOCK = Ok code.
Proof.
  intros Htext. split.
  - apply (decode_encoded _ _ _ [] (encode_pem_block CODE_BLOCK code)); [done|].
    rewrite Htext, encode_pem_block_eq, <- (assoc_L (++)). apply find_bytes_here.
  - apply (decode_encoded _ _ _ (encode_pem_block KEY_BLOCK key) []); [by rewrite app_nil_r|].
    rewrite Htext, find_bytes_skip by apply key_block_skippable.
    rewrite (encode_pem_block_eq CODE_BLOCK), find_bytes_here. cbn. f_equal. lia.
Qed.

Lemma block_ascii bt bytes :
  Forall (fun b => byte_val b < 0x80) (as_bytes (pem_begin bt)) ->
  Forall (fun b => byte_val b < 0x80) (as_bytes (pem_end bt)) ->
  Forall (fun b => byte_val b < 0x80) (encode_pem_block bt bytes).
Proof.
  intros Hb He. rewrite encode_pem_block_eq. repeat (apply Forall_app; split); try done.
  - constructor; [done|]. apply Forall_concat, Forall_fmap. eapply Forall_impl; [apply body_chunks|].
    intros c Hc. cbn. apply Forall_app. split; [|by repeat constructor].
    eapply Forall_impl; [exact Hc|]. intros b H1%base64_char_range. lia.
  - by repeat constructor.
Qed.
End pem_proofs.

Section pem_theorem.
Context {Sk Pk : Type} `{RL : RsaLaws Sk Pk} `{Sha2} `{BL : Base64Laws} {BT : Base64Text} `{RustFmt}.

(** A PEM file that [save_pem] writes is recognised and loads back: the same
    key, the same identifier and the same access code, with a fresh pairing
    code. The two blocks are found although both markers share their ends and the
    encoded text is broken into lines. *)
Theorem identity_pem_roundtrip (i : Identity Sk) code bytes random fresh :
  access_code i = url_safe_no_pad_encode code -> save_pem i = Ok bytes ->
  generate_pairing_code random = Ok fresh ->
  looks_like_pem bytes = true /\
  load_pem bytes random = Ok (mkIdentity (private_key i) (uid i) fresh (access_code i)).
Proof.
  intros Hcode Hsave Hfresh. unfold save_pem, identity_err in Hsave.
  destruct (validate_rsa_key_size (private_key i)) as [[]|] eqn:Hsize; [|done].
  destruct (derive_uid (private_key i)) as [u|] eqn:Huid; [|done].
  destruct (str_eqb (uid i) u) eqn:Hu; [|done]. apply str_eqb_eq in Hu as ->.
  destruct (to_pkcs8_der (private_key i)) as [der|] eqn:Hder; [|done].
  rewrite Hcode, url_safe_no_pad_roundtrip in Hsave. cbn [map_err] in Hsave.
  destruct (zlen code =? ACCESS_CODE_BYTES) eqn:Hlen; [|done]. cbn [negb] in Hsave.
  apply Ok_inj in Hsave. subst bytes.
  assert (Hutf : utf8_valid (encode_pem_block KEY_BLOCK der ++ encode_pem_block CODE_BLOCK code) = true).
  { apply utf8_ascii, Forall_app. split; apply block_ascii; vm_compute; repeat constructor. }
  pose proof (blocks_decode der code _ (as_bytes_string_of _)) as [Hk Hc].
  unfold KEY_BLOCK, CODE_BLOCK in Hutf, Hk, Hc. split.
  - unfold looks_like_pem. rewrite Hutf. reflexivity.
  - unfold load_pem, str_from_utf8, identity_err. rewrite Hutf. cbn [map_err]. rewrite Hk, Hc.
    rewrite Hlen. cbn [negb]. rewrite (pkcs8_der_roundtrip _ _ Hder). cbn [map_err].
    by rewrite Hsize, Huid, Hfresh, Hcode.
Qed.
End pem_theorem.

(** ** Atomic writes *)

Section write.
Context {D : Type} `{DL : DiskLaws D}.

(** The regular files are as before. *)
Definition same_files (d d' : D) : Prop := forall q, file d' q = file d q.

Lemma set_dir_mode p m d : file d p = None -> same_files d (io (set_mode p m) d).1.
Proof.
  intros Hp q. unfold io. destruct (set_mode p m d) as [d' [u|e]] eqn:E; cbn.
  - rewrite (set_mode_ok _ _ _ _ _ E). destruct (path_eqb q p) eqn:Hq; [|done].
    rewrite Hp, (file_eqb d q p Hq), Hp. done.
  - by rewrite (set_mode_err _ _ _ _ _ E).
Qed.

Lemma create_private_directory_files p d : same_files d (create_private_directory p d).1.
Proof.
  unfold create_private_directory. pose proof (create_dir_file p d) as Hc.
  destruct (create_dir p d) as [d1 [u|e]] eqn:E; cbn in Hc.
  - intros q. rewrite (set_dir_mode p PRIVATE_DIR d1); [apply Hc|].
    rewrite Hc. by eapply create_dir_ok.
  - destruct (str_eqb _ _); [|done]. destruct (disk_is_dir d1 p) as [[]|] eqn:Hd; [|done..].
    intros q. rewrite (set_dir_mode p PRIVATE_DIR d1); [apply Hc|].
    destruct (file d1 p) eqn:Hf; [|done]. apply exists_file in Hf. congruence.
Qed.

Lemma create_private_directories_files l d : same_files d (create_private_directories l d).1.
Proof.
  revert d. induction l as [|p l IH]; intros d; [done|]. cbn [create_private_directories].
  unfold bindS. pose proof (create_private_directory_files p d) as Hp.
  destruct (create_private_directory p d) as [d1 [u|e]]; [|done]. cbn in Hp.
  intros q. by rewrite IH, Hp.
Qed.

Lemma ensure_private_parent_files p d : same_files d (ensure_private_parent p d).1.
Proof.
  unfold ensure_private_parent. destruct (missing_directories _ _ _); [|done].
  apply create_private_directories_files.
Qed.

Lemma io_Ok {A} (c : D -> D * Result IoError A) d d' a :
  io c d = (d', Ok a) -> c d = (d', Ok a).
Proof. unfold io. destruct (c d) as [d1 [x|e]]; intros; by simplify_eq/=. Qed.

Lemma io_Err {A} (c : D -> D * Result IoError A) d d' e :
  io c d = (d', Err e) -> exists x, c d = (d', Err x).
Proof. unfold io. destruct (c d) as [d1 [x|x]]; intros; simplify_eq/=. eauto. Qed.

(** Writing through the temporary file: the target is replaced as a whole or not
    at all, and only the temporary path is touched besides. *)
Lemma write_temporary_effect t p payload d d' r :
  path_eqb p t = false -> write_temporary t p payload d = (d', r) ->
  match r with
  | Ok _ => forall q, file d' q = if path_eqb q p then Some (payload, PRIVATE_FILE)
                                  else if path_eqb q t then None else file d q
  | Err _ => forall q, path_eqb q t = false -> file d' q = file d q
  end.
Proof.
  intros Hne Hw. unfold write_temporary, bindS in Hw. pose proof (path_eqb_refl t) as Htt.
  destruct (io (create_new t) d) as [d1 [u1|e1]] eqn:E1.
  2: { simplify_eq. apply io_Err in E1 as [x E1]. intros q _. by eapply create_new_err. }
  apply io_Ok, create_new_ok in E1 as [Hfree [m H1]].
  destruct (io (set_mode t PRIVATE_FILE) d1) as [d2 [u2|e2]] eqn:E2.
  2: { simplify_eq. apply io_Err in E2 as [x E2]. intros q Hq.
       by rewrite (set_mode_err _ _ _ _ _ E2), H1, Hq. }
  apply io_Ok in E2. pose proof (set_mode_ok _ _ _ _ _ E2) as H2. rewrite (H1 t), Htt in H2.
  destruct (io (write_all t payload) d2) as [d3 [u3|e3]] eqn:E3.
  2: { simplify_eq. apply io_Err in E3 as [x E3]. intros q Hq.
       by rewrite (write_all_err _ _ _ _ _ E3), H2, Hq, H1, Hq. }
  apply io_Ok in E3. pose proof (write_all_ok _ _ _ _ _ E3) as H3. rewrite (H2 t), Htt in H3.
  pose proof (sync_all_file t d3) as H4.
  destruct (io (sync_all t) d3) as [d4 [u4|e4]] eqn:E4.
  2: { simplify_eq. apply io_Err in E4 as [x E4]. rewrite E4 in H4. cbn in H4. intros q Hq.
       by rewrite H4, H3, Hq, H2, Hq, H1, Hq. }
  apply io_Ok in E4. rewrite E4 in H4. cbn in H4.
  destruct (io (rename t p) d4) as [d5 [u5|e5]] eqn:E5; simplify_eq.
  - apply io_Ok in E5. intros q.
    rewrite (rename_ok _ _ (payload, PRIVATE_FILE) _ _ _ E5) by (by rewrite H4, H3, Htt).
    destruct (path_eqb q p); [done|]. destruct (path_eqb q t) eqn:Hq; [done|].
    by rewrite H4, H3, Hq, H2, Hq, H1, Hq.
  - apply io_Err in E5 as [x E5]. intros q Hq.
    by rewrite (rename_err _ _ _ _ _ E5), H4, H3, Hq, H2, Hq, H1, Hq.
Qed.

(** The files after a write: all of them when it succeeds, all but the temporary
    one when it fails. *)
Lemma write_atomic_files path payload suffix (d d' : D) r :
  path_eqb path (temporary_of path suffix) = false ->
  write_atomic path payload suffix d = (d', r) ->
  match r with
  | Ok _ => forall q, file d' q = if path_eqb q path then Some (payload, PRIVATE_FILE)
                                  else if path_eqb q (temporary_of path suffix) then None
                                  else file d q
  | Err _ => forall q, path_eqb q (temporary_of path suffix) = false -> file d' q = file d q
  end.
Proof.
  intros Hne Hw. unfold write_atomic, bindS in Hw. set (t := temporary_of path suffix) in *.
  match type of Hw with (match ?c d with _ => _ end) = _ =>
    assert (Hs : same_files d (c d).1); [|destruct (c d) as [d1 [u|e]]] end.
  { destruct (path_parent path) as [par|]; [|done]. destruct (str_is_empty par); [done|].
    apply ensure_private_parent_files. }
  2: { simplify_eq. intros. apply Hs. }
  cbn in Hs. destruct (write_temporary t path payload d1) as [d2 r2] eqn:Ew.
  apply write_temporary_effect in Ew; [|done]. injection Hw as <- <-.
  destruct r2 as [u2|e]; cbn [is_ok]; intros q.
  - by rewrite Ew, Hs.
  - intros Hq. destruct (remove_file t d2) as [d3 [u3|e3]] eqn:Er; cbn.
    + by rewrite (remove_ok _ _ _ _ Er), Hq, Ew by done.
    + by rewrite (remove_err _ _ _ _ Er), Ew by done.
Qed.

(** C27: [write_atomic] replaces the target as a whole: when it succeeds the
    target holds exactly the payload with owner-only permissions and the temporary
    file is gone; when it fails, at whatever call, the target has its old
    contents and permissions. No other file changes in either case. *)
Theorem write_atomic_effect path payload suffix (d d' : D) r :
  path_eqb path (temporary_of path suffix) = false ->
  write_atomic path payload suffix d = (d', r) ->
  (forall q, path_eqb q path = false -> path_eqb q (temporary_of path suffix) = false ->
     file d' q = file d q) /\
  match r with
  | Ok _ => file d' path = Some (payload, PRIVATE_FILE) /\ file d' (temporary_of path suffix) = None
  | Err _ => file d' path = file d path
  end.
Proof.
  intros Hne Hw. apply write_atomic_files in Hw; [|done]. destruct r; [|split; auto].
  split; [|split]; intros; rewrite Hw.
  - repeat case_match; congruence.
  - by rewrite path_eqb_refl.
  - rewrite path_eqb_sym, Hne. by rewrite path_eqb_refl.
Qed.
End write.

(** ** The JSON file *)

Lemma fmt06_digits v :
  str_len (fmt06 v) = 6 /\ forallb is_ascii_digit (as_bytes (fmt06 v)) = true.
Proof.
  unfold fmt06, str_len. rewrite as_bytes_string_of. split; [done|].
  assert (Hd : forall z, is_ascii_digit (digit z) = true).
  { intros z. unfold is_ascii_digit, digit. rewrite byte_val_of.
    pose proof (Z.mod_pos_bound z 10). rewrite (Z.mod_small _ 256) by lia. lia. }
  cbn [forallb]. by rewrite !Hd.
Qed.

Section json.
Context {Sk Pk : Type} `{RL : RsaLaws Sk Pk} `{SL : Sha2Laws} `{BL : Base64Laws} {BT : Base64Text}.
Context `{RustFmt} `{SerdeJson PersistedIdentity} {D : Type} `{DL : DiskLaws D}.

(** What every identity in use satisfies. *)
Definition identity_valid (i : Identity Sk) : Prop :=
  RSA_BITS - 7 <= modulus_bits (private_key i) <= RSA_BITS
  /\ is_valid_uid (uid i) = true
  /\ str_len (pairing_code i) = 6 /\ forallb is_ascii_digit (as_bytes (pairing_code i)) = true
  /\ is_valid_access_code (access_code i) = true.

Lemma key_size_spec k :
  (key_size k * 8 =? RSA_BITS) = true <-> RSA_BITS - 7 <= modulus_bits k <= RSA_BITS.
Proof.
  rewrite key_size_bits, Z.eqb_eq. unfold RSA_BITS. Z.to_euclidean_division_equations. lia.
Qed.

Lemma fill_len n what random bytes : 0 <= n -> fill n what random = Ok bytes -> zlen bytes = n.
Proof.
  intros Hn. unfold fill. destruct random as [r|]; [|done]. intros Hb%Ok_inj. subst.
  unfold zlen. rewrite length_take, length_app, length_replicate. lia.
Qed.

Lemma derive_uid_valid k u : derive_uid k = Ok u -> is_valid_uid u = true.
Proof.
  unfold derive_uid, identity_err. destruct (to_public_key_der _) as [der|]; [|done].
  intros Hu%Ok_inj. subst u.
  assert (Hlen : zlen (take 16 (sha256 der)) = 16)
    by (unfold zlen; rewrite length_take, sha256_length; done).
  unfold is_valid_uid, decodes_to. rewrite url_safe_no_pad_len, url_safe_no_pad_roundtrip, Hlen.
  reflexivity.
Qed.

Lemma generate_valid key pairing access i :
  generate key pairing access = Ok i -> modulus_bits (private_key i) = RSA_BITS ->
  identity_valid i.
Proof.
  unfold generate, identity_err. intros Hg Hbits. destruct key as [k|]; [|done]. cbn [map_err] in Hg.
  destruct (derive_uid k) as [u|] eqn:Hu; [|done].
  unfold generate_pairing_code, generate_access_code in Hg.
  destruct (fill 4 _ _) as [b4|] eqn:Hb4; [|done].
  destruct (fill ACCESS_CODE_BYTES _ _) as [b8|] eqn:Hb8; [|done].
  apply Ok_inj in Hg. subst i. unfold identity_valid.
  cbn [private_key uid pairing_code access_code] in *. apply fill_len in Hb8; [|done].
  rewrite Hbits. split; [done|].
  split; [by apply derive_uid_valid in Hu|]. rewrite !(proj1 (fmt06_digits _)), (proj2 (fmt06_digits _)).
  split; [done|]. split; [done|].
  unfold is_valid_access_code, decodes_to.
  by rewrite url_safe_no_pad_len, url_safe_no_pad_roundtrip, Hb8.
Qed.

(** Whatever is in the file, an identity that loads from JSON is valid: a key
    of 2048 bits (to the byte), a 16-byte identifier, six decimal digits and an
    8-byte access code. *)
Theorem loaded_identity_valid contents (i : Identity Sk) :
  load_contents contents = Ok i -> identity_valid i.
Proof.
  unfold load_contents, identity_err. intros Hl.
  destruct (json_from_str contents) as [p|]; [|done]. cbn [map_err] in Hl.
  destruct (from_pkcs8_pem _) as [k|]; [|done]. cbn [map_err] in Hl.
  destruct (key_size k * 8 =? RSA_BITS) eqn:Hk; [|done]. apply key_size_spec in Hk.
  destruct (is_valid_uid _) eqn:Hu; [|done].
  destruct (str_len _ =? 6) eqn:H6; [|done]. destruct (forallb _ _) eqn:Hd; [|done].
  destruct (is_valid_access_code _) eqn:Ha; [|done]. cbn [negb orb] in Hl.
  apply Ok_inj in Hl. subst i. apply Z.eqb_eq in H6. done.
Qed.

Lemma generate_key_of key pairing access i :
  generate key pairing access = Ok i -> key = Ok (private_key i).
Proof.
  unfold generate, identity_err. destruct key as [k|]; [|done]. cbn [map_err].
  repeat (case_match; try done). intros. by simplify_eq.
Qed.
(** What a successful [save] wrote. *)
Lemma save_wrote (i : Identity Sk) path suffix (d d' : D) u :
  path_eqb path (temporary_of path suffix) = false -> save i path suffix d = (d', Ok u) ->
  exists pem text, to_pkcs8_pem (private_key i) = Ok pem /\
    json_to_string (persisted i pem) = Ok text /\ file d' path = Some (as_bytes text, PRIVATE_FILE).
Proof.
  intros Hne Hs. unfold save, bindS, liftS, identity_err in Hs.
  destruct (to_pkcs8_pem (private_key i)) as [pem|]; [|done]. cbn [map_err] in Hs.
  destruct (json_to_string (persisted i pem)) as [text|] eqn:Ht; [|done]. cbn [map_err] in Hs.
  apply write_atomic_files in Hs; [|done]. exists pem, text. split_and!; [done..|].
  by rewrite Hs, path_eqb_refl.
Qed.

(** What a successful [save] leaves at [path] loads as the same identity. *)
Lemma saved_identity_loads (i : Identity Sk) pem text path suffix (d d' : D) u bytes :
  identity_valid i ->
  to_pkcs8_pem (private_key i) = Ok pem -> json_to_string (persisted i pem) = Ok text ->
  json_from_str text = Ok (persisted i pem) -> utf8_valid (as_bytes text) = true ->
  path_eqb path (temporary_of path suffix) = false ->
  save i path suffix d = (d', Ok u) -> disk_read d' path = Ok bytes ->
  load d' path = Ok i /\ exists contents, file d' path = Some (contents, PRIVATE_FILE).
Proof.
  intros (Hk & Hu & H6 & Hd & Ha) Hpem Htext Hback Hutf Hne Hsave Hread.
  unfold save, bindS, liftS, identity_err in Hsave. rewrite Hpem in Hsave. cbn [map_err] in Hsave.
  rewrite Htext in Hsave. cbn [map_err] in Hsave.
  apply write_atomic_files in Hsave; [|done]. specialize (Hsave path).
  rewrite path_eqb_refl in Hsave. rename Hsave into Hfile.
  destruct (read_ok _ _ _ Hread) as [m Hm]. rewrite Hfile in Hm. injection Hm as <- <-.
  split; [|by eexists]. unfold load, read_to_string. rewrite Hread, Hutf.
  rewrite (as_bytes_inj (String.string_of_list_byte (as_bytes text)) text)
    by apply as_bytes_string_of.
  unfold load_contents, identity_err. rewrite Hback. cbn [map_err persisted pi_private_key_pem
    pi_uid pi_pairing_code pi_access_code].
  rewrite (pkcs8_pem_roundtrip _ _ Hpem). cbn [map_err].
  rewrite (proj2 (key_size_spec _) Hk), Hu, H6, Hd, Ha. cbn. by destruct i.
Qed.

(** A generated identity survives the disk: after a successful [save], reading
    the file and loading it gives the identity with its key, identifier and both
    codes, and the file is readable by its owner only. *)
Theorem generated_identity_reloads key pairing access (i : Identity Sk) pem text path suffix
    (d d' : D) u bytes :
  generate key pairing access = Ok i -> modulus_bits (private_key i) = RSA_BITS ->
  to_pkcs8_pem (private_key i) = Ok pem -> json_to_string (persisted i pem) = Ok text ->
  json_from_str text = Ok (persisted i pem) -> utf8_valid (as_bytes text) = true ->
  path_eqb path (temporary_of path suffix) = false ->
  save i path suffix d = (d', Ok u) -> disk_read d' path = Ok bytes ->
  load d' path = Ok i /\ exists contents, file d' path = Some (contents, PRIVATE_FILE).
Proof.
  intros Hg Hbits. apply saved_identity_loads. by eapply generate_valid.
Qed.
End json.

(** ** Concrete runs *)

Module Sample.
(** Keys are names; a ciphertext or signature names the key it is for. *)
Definition tagged (k : string) (l : list byte) : list byte := as_bytes k ++ x00 :: l.
Definition untag (k : string) (l : list byte) : Result string (list byte) :=
  if is_prefix (tagged k []) l then Ok (drop (length (tagged k [])) l) else Err "wrong key".

#[export] Instance rsa : Rsa string string := {|
  to_public_key k := k;
  to_public_key_der p := Ok (as_bytes p);
  from_public_key_der d := Ok (String.string_of_list_byte d);
  to_pkcs8_der k := Ok (as_bytes k);
  from_pkcs8_der d := Ok (String.string_of_list_byte d);
  to_pkcs8_pem k := Ok k;
  from_pkcs8_pem s := Ok s;
  key_size _ := 256;
  modulus_bits _ := 2048;
  rsa_sign k h := Ok (tagged k h);
  rsa_verify p h s := if bool_decide (s = tagged p h) then Ok tt else Err "verification error";
  rsa_encrypt _ p m := Ok (tagged p m);
  rsa_decrypt k c := untag k c;
|}.

Lemma string_bytes s : String.string_of_list_byte (as_bytes s) = s.
Proof. apply as_bytes_inj, as_bytes_string_of. Qed.

Lemma untag_tagged k m : untag k (tagged k m) = Ok m.
Proof.
  unfold untag. replace (tagged k m) with (tagged k [] ++ m).
  - by rewrite is_prefix_app, drop_app_length.
  - unfold tagged. by rewrite <- (assoc_L (++)).
Qed.

#[export] Instance rsa_laws : RsaLaws string string.
Proof.
  split; cbn; intros; simplify_eq; rewrite ?string_bytes; try done.
  - by rewrite bool_decide_eq_true_2.
  - exact (untag_tagged k m).
Qed.

(** Four lines of text. *)
#[export] Instance json : SerdeJson PersistedIdentity := {|
  json_to_string p :=
    Ok (String.string_of_list_byte
          (as_bytes (pi_private_key_pem p) ++ [x0a] ++ as_bytes (pi_uid p) ++ [x0a]
           ++ as_bytes (pi_pairing_code p) ++ [x0a] ++ as_bytes (pi_access_code p)));
  json_from_str s :=
    match lines (as_bytes s) with
    | [a; b; c; d] => Ok (mkPersisted (String.string_of_list_byte a) (String.string_of_list_byte b)
                            (String.string_of_list_byte c) (String.string_of_list_byte d))
    | _ => Err "EOF while parsing a value"
    end;
|}.

#[export] Existing Instances codec codec_laws codec_text Concrete.sha2 Concrete.sha2_laws
  Concrete.rust_fmt Memory.disk Memory.laws.

Definition random : Result string (list byte) := Ok (as_bytes "random bytes of the system").
Definition device : BResult (Identity string) := generate (Ok "device key") random random.
Definition identity : Identity string :=
  match device with Ok i => i | Err _ => mkIdentity "" "" "" "" end.
Definition path : string := "/home/user/.blnk/identity.json".
Definition home (faults : list bool) : Memory.Mem :=
  Memory.mkMem (<[components path := Memory.Regular (as_bytes "old") 384]>
                  (<[components "/home/user" := Memory.Dir]> ∅)) faults.
Definition text : string := match json_to_string (persisted identity "device key") with
                            | Ok s => s | Err _ => "" end.
Definition saved : Memory.Mem := (save identity path "1" (home [])).1.
End Sample.
Import Sample.

Lemma identity_pem_roundtrip_witness :
  exists bytes, save_pem identity = Ok bytes /\
    load_pem bytes random
    = Ok (mkIdentity "device key" (uid identity) (pairing_code identity) (access_code identity)).
Proof.
  destruct (save_pem identity) as [bytes|] eqn:E; [|discriminate E].
  exists bytes. split; [reflexivity|].
  refine (proj2 (identity_pem_roundtrip identity (as_bytes "random b") bytes random
                   (pairing_code identity) _ E _)); vm_compute; reflexivity.
Defined.

Lemma write_atomic_effect_witness :
  let payload := as_bytes "new" in
  let failed := write_atomic path payload "1" (home [false; false; false; false; false; true]) in
  failed.2 = Err (ErrIo Memory.injected) /\
  file failed.1 path = Some (as_bytes "old", 384).
Proof.
  cbv zeta. split; [vm_compute; reflexivity|].
  refine (proj2 (write_atomic_effect path (as_bytes "new") "1"
                   (home [false; false; false; false; false; true]) _
                   (Err (ErrIo Memory.injected)) _ _)); vm_compute; reflexivity.
Defined.

Lemma loaded_identity_valid_witness : identity_valid identity.
Proof.
  apply (loaded_identity_valid text identity). vm_compute. reflexivity.
Defined.

Lemma generated_identity_reloads_witness :
  load saved path = Ok identity /\ exists contents, file saved path = Some (contents, PRIVATE_FILE).
Proof.
  apply (generated_identity_reloads (Ok "device key") random random identity "device key" text path
           "1" (home []) saved tt (as_bytes text));
    vm_compute; reflexivity.
Defined.
