(* ===== verification/Config.v ===== *)
(** * Configuration and the device registry

    [src/src/config/mod.rs]: the settings with their defaults and the file of
    known devices. [Config::load] layers its sources with the [config] crate: how
    the crate names settings in the environment is a parameter, and so are the
    clock, the fresh suffix of the temporary name and the JSON codec. Errors are
    the texts [anyhow] carries. *)
From S2P Require Import Prelude Errors External Paths Disk.

Record Config := mkConfig {
  signaling_url : string;
  identity_path : string;
  devices_path : string;
  pin : option string;
  ice_servers : list string;
}.

Definition default_ice_servers : list string :=
  ["stun:stun.l.google.com:19302"; "stun:stun1.l.google.com:19302"].
Definition default_signaling_url : string := "wss://localhost:8443/ws".
Definition default_identity_path : string := "identity.json".
Definition default_devices_path : string := "devices.json".
Definition config_default : Config :=
  mkConfig default_signaling_url default_identity_path default_devices_path None default_ice_servers.

(** The hand-written [Debug]: the PIN is only shown to be present. *)
Definition list_debug `{RustFmt} (l : list string) : string :=
  let fix items l := match l with
                     | [] => ""
                     | [s] => str_debug s
                     | s :: l => str_debug s +:+ ", " +:+ items l
                     end in
  "[" +:+ items l +:+ "]".
Definition config_debug `{RustFmt} (c : Config) : string :=
  "Config { signaling_url: " +:+ str_debug (signaling_url c)
  +:+ ", identity_path: " +:+ str_debug (identity_path c)
  +:+ ", devices_path: " +:+ str_debug (devices_path c)
  +:+ ", pin: " +:+ match pin c with
                    | Some _ => "Some(" +:+ str_debug "[REDACTED]" +:+ ")"
                    | None => "None"
                    end
  +:+ ", ice_servers: " +:+ list_debug (ice_servers c) +:+ " }".

(** ** Loading the settings *)

(** A value of a source; scalars are their text. *)
Inductive Setting :=
| SNil
| SText (s : string)
| SList (l : list string)
| STable (t : list (string * Setting)).
Notation Settings := (list (string * Setting)).

(** [env_path prefix separator variable]: the path of the setting the variable
    gives, if it has the prefix; [type_error key v]: the text of the error when a
    value has the wrong type. *)
Class ConfigCrate := {
  env_path : string -> string -> string -> option (list string);
  type_error : string -> Setting -> string;
}.
(** The separator separates the segments of the path. *)
Class ConfigCrateLaws `{ConfigCrate} : Prop := {
  env_segments : forall prefix separator variable path,
    env_path prefix separator variable = Some path ->
    Forall (fun segment => str_contains separator segment = false) path;
}.

Definition setting (key : string) (t : Settings) : option Setting :=
  snd <$> find (fun p => str_eqb p.1 key) t.
Definition set_setting (key : string) (v : Setting) (t : Settings) : Settings :=
  filter (fun p => p.1 <> key) t ++ [(key, v)].
(** A source sets the value at a path, over what earlier sources set there. *)
Fixpoint set_path (path : list string) (v : Setting) (old : option Setting) : Setting :=
  match path with
  | [] => v
  | key :: path =>
      let t := match old with Some (STable t) => t | _ => [] end in
      STable (set_setting key (set_path path v (setting key t)) t)
  end.
Definition set_at (t : Settings) (path : list string) (v : Setting) : Settings :=
  match path with
  | [] => t
  | key :: path => set_setting key (set_path path v (setting key t)) t
  end.

Definition default_settings : Settings :=
  [("signaling_url", SText (signaling_url config_default));
   ("identity_path", SText (identity_path config_default));
   ("devices_path", SText (devices_path config_default));
   ("pin", match pin config_default with Some p => SText p | None => SNil end);
   ("ice_servers", SList (ice_servers config_default))].

Section loading.
Context `{ConfigCrate}.

Definition ENV_PREFIX : string := "BLNK".
Definition ENV_SEPARATOR : string := "_".
Definition add_env (t : Settings) (variable : string * string) : Settings :=
  match env_path ENV_PREFIX ENV_SEPARATOR variable.1 with
  | Some path => set_at t path (SText variable.2)
  | None => t
  end.

(** [file] is the content of [blnk.toml], when there is one. *)
Definition load_settings (file : option (Result string Settings)) (env : list (string * string))
    : Result string Settings :=
  let? t := match file with
            | None => Ok default_settings
            | Some (Err e) => Err e
            | Some (Ok values) => Ok (foldl (fun t p => set_at t [p.1] p.2) default_settings values)
            end in
  Ok (foldl add_env t env).

Definition text_field (key missing : string) (t : Settings) : Result string string :=
  match setting key t with
  | None => Ok missing
  | Some (SText s) => Ok s
  | Some v => Err (type_error key v)
  end.
Definition optional_field (key : string) (t : Settings) : Result string (option string) :=
  match setting key t with
  | None | Some SNil => Ok None
  | Some (SText s) => Ok (Some s)
  | Some v => Err (type_error key v)
  end.
Definition list_field (key : string) (missing : list string) (t : Settings)
    : Result string (list string) :=
  match setting key t with
  | None => Ok missing
  | Some (SList l) => Ok l
  | Some v => Err (type_error key v)
  end.
Definition try_deserialize (t : Settings) : Result string Config :=
  let? url := text_field "signaling_url" default_signaling_url t in
  let? identity := text_field "identity_path" default_identity_path t in
  let? registry := text_field "devices_path" default_devices_path t in
  let? code := optional_field "pin" t in
  let? ice := list_field "ice_servers" default_ice_servers t in
  Ok (mkConfig url identity registry code ice).

Definition config_load (file : option (Result string Settings)) (env : list (string * string))
    : Result string Config :=
  let? t := load_settings file env in try_deserialize t.
End loading.

(** ** The device registry *)

Record DeviceRecord := mkDevice {
  id : string;
  endpoint : string;
  last_seen_unix : Z;
}.
Record DeviceRegistry := mkRegistry { devices : list DeviceRecord }.
Definition registry_default : DeviceRegistry := mkRegistry [].

(** [now] is the time in seconds, 0 before the epoch. *)
Fixpoint update_first (key new_endpoint : string) (now : Z) (l : list DeviceRecord)
    : option (list DeviceRecord) :=
  match l with
  | [] => None
  | d :: l =>
      if str_eqb (id d) key then Some (mkDevice (id d) new_endpoint now :: l)
      else cons d <$> update_first key new_endpoint now l
  end.
Definition upsert (key new_endpoint : string) (now : Z) (r : DeviceRegistry) : DeviceRegistry :=
  mkRegistry (sort_by id
    (match update_first key new_endpoint now (devices r) with
     | Some l => l
     | None => devices r ++ [mkDevice key new_endpoint now]
     end)).
Definition find_device (r : DeviceRegistry) (key : string) : option DeviceRecord :=
  find (fun d => str_eqb (id d) key) (devices r).

Section registry_file.
Context {D : Type} `{Disk D} `{SerdeJson DeviceRegistry}.

Definition anyhow {A} (r : Result IoError A) : Result string A := map_err io_message r.

Definition registry_load (d : D) (path : string) : Result string DeviceRegistry :=
  if negb (path_exists d path) then Ok registry_default else
  let? bytes := anyhow (disk_read d path) in
  fail_if! negb (utf8_valid bytes) with "stream did not contain valid UTF-8" in
  let contents := String.string_of_list_byte bytes in
  if trim_is_empty contents then Ok registry_default else json_from_str contents.

Definition fs_call (c : D -> D * Result IoError unit) : SM D string unit :=
  fun d => let '(d, r) := c d in (d, anyhow r).

Definition temporary_of (path suffix : string) : string := with_extension path ("tmp-" +:+ suffix).

Definition registry_save (r : DeviceRegistry) (path suffix : string) : SM D string unit :=
  do* match path_parent path with
      | Some parent => if str_is_empty parent then retS tt else fs_call (create_dir_all parent)
      | None => retS tt
      end in
  let* payload := liftS (json_to_string r) in
  do* fs_call (write_file (temporary_of path suffix) (as_bytes payload)) in
  do* (fun d => if path_exists d path then fs_call (remove_file path) d else (d, Ok tt)) in
  fun d =>
  match rename (temporary_of path suffix) path d with
  | (d, Err error) => ((remove_file (temporary_of path suffix) d).1, Err (io_message error))
  | (d, Ok _) => (d, Ok tt)
  end.
End registry_file.

(** ** What the environment can set *)

Section loading_proofs.
Context `{ConfigCrateLaws}.

Lemma setting_set key k v t :
  setting key (set_setting k v t) = if str_eqb k key then Some v else setting key t.
Proof.
  unfold setting, set_setting. induction t as [|[k' v'] t IH].
  - cbn. by destruct (str_eqb k key).
  - rewrite filter_cons. cbn [fst]. case_decide as Hk; cbn.
    + destruct (str_eqb k' key) eqn:E; [|exact IH]. apply str_eqb_eq in E. subst k'.
      by rewrite (proj2 (str_eqb_ne _ _) (not_eq_sym Hk)).
    + subst k'. rewrite IH. by destruct (str_eqb k key).
Qed.

Lemma setting_set_at key path v t :
  head path <> Some key -> setting key (set_at t path v) = setting key t.
Proof.
  destruct path as [|k path]; [done|]. cbn [head set_at]. intros Hk. rewrite setting_set.
  by rewrite (proj2 (str_eqb_ne _ _)) by congruence.
Qed.

(** A name with the separator in it is out of reach. *)
Lemma env_out_of_reach key t env :
  str_contains ENV_SEPARATOR key = true -> setting key (foldl add_env t env) = setting key t.
Proof.
  intros Hk. revert t. induction env as [|[name value] env IH]; intros t; [done|]. cbn [foldl]. rewrite IH.
  unfold add_env. cbn [fst]. destruct (env_path _ _ _) as [path|] eqn:E; [|done].
  apply setting_set_at. apply env_segments in E. destruct path as [|k path]; [done|].
  apply Forall_inv in E. cbn. intros [= ->]. congruence.
Qed.

Lemma text_field_env key missing t env :
  str_contains ENV_SEPARATOR key = true ->
  text_field key missing (foldl add_env t env) = text_field key missing t.
Proof. intros. unfold text_field. by rewrite env_out_of_reach. Qed.
Lemma list_field_env key missing t env :
  str_contains ENV_SEPARATOR key = true ->
  list_field key missing (foldl add_env t env) = list_field key missing t.
Proof. intros. unfold list_field. by rewrite env_out_of_reach. Qed.

Lemma setting_pin env t name value :
  env_path ENV_PREFIX ENV_SEPARATOR name = Some ["pin"] ->
  setting "pin" (foldl add_env t (env ++ [(name, value)])) = Some (SText value).
Proof.
  intros Hp. rewrite foldl_snoc. unfold add_env at 1. cbn [fst]. rewrite Hp.
  cbn [set_at]. by rewrite setting_set.
Qed.

(** Of the settings only the PIN can come from the environment, and then the
    last variable for it wins over file and defaults; the signaling server, the
    two paths and the ICE servers always have the value they have without any
    environment, since their names contain the separator the variables are split
    at. *)
Theorem environment_sets_only_pin file env c c0 :
  config_load file env = Ok c -> config_load file [] = Ok c0 ->
  (signaling_url c = signaling_url c0 /\ identity_path c = identity_path c0
   /\ devices_path c = devices_path c0 /\ ice_servers c = ice_servers c0) /\
  forall init name value, env = init ++ [(name, value)] ->
    env_path ENV_PREFIX ENV_SEPARATOR name = Some ["pin"] -> pin c = Some value.
Proof.
  unfold config_load, load_settings.
  destruct (match file with None => _ | Some _ => _ end) as [t|]; [|done]. cbn [foldl].
  unfold try_deserialize. rewrite !text_field_env, list_field_env by done.
  destruct (text_field "signaling_url" default_signaling_url t),
    (text_field "identity_path" default_identity_path t),
    (text_field "devices_path" default_devices_path t),
    (list_field "ice_servers" default_ice_servers t); try done;
    destruct (optional_field "pin" (foldl _ _ _)) eqn:Hp, (optional_field "pin" t); try done.
  intros [= <-] [= <-]. split; [done|]. intros init name value -> Hn.
  unfold optional_field in Hp. rewrite (setting_pin _ _ _ _ Hn) in Hp. by simplify_eq.
Qed.
End loading_proofs.

(** ** The registry is a map from identifiers to devices *)

Definition ids_ok (r : DeviceRegistry) : Prop :=
  NoDup (id <$> devices r) /\ Sorted (key_le id) (devices r).

Definition upserts (l : list (string * string * Z)) (r : DeviceRegistry) : DeviceRegistry :=
  fold_left (fun r '(key, new_endpoint, now) => upsert key new_endpoint now r) l r.
Definition upserts_map (l : list (string * string * Z)) (m : gmap string DeviceRecord) :=
  fold_left (fun m '(key, new_endpoint, now) => <[key := mkDevice key new_endpoint now]> m) l m.

Lemma update_first_spec key e now l :
  NoDup (id <$> l) ->
  match update_first key e now l with
  | Some l' => id <$> l' = id <$> l /\ key ∈ id <$> l /\
      forall d, d ∈ l' <-> d = mkDevice key e now \/ (d ∈ l /\ id d <> key)
  | None => key ∉ id <$> l
  end.
Proof.
  induction l as [|d l IH]; intros Hnd; cbn [update_first]; [set_solver|].
  rewrite fmap_cons in Hnd. apply NoDup_cons in Hnd as [Hd Hnd]. specialize (IH Hnd).
  destruct (str_eqb (id d) key) eqn:E.
  - apply str_eqb_eq in E. subst key. rewrite !fmap_cons. split; [done|]. split; [set_solver|].
    intros x. rewrite !elem_of_cons. split; [|naive_solver]. intros [->|Hx]; [by left|].
    right. split; [by right|]. intros Heq. apply Hd. rewrite <- Heq. by apply list_elem_of_fmap_2.
  - apply bool_decide_eq_false in E. destruct (update_first key e now l) as [l'|]; cbn.
    + destruct IH as (H1 & H2 & H3). rewrite H1. split; [done|]. split; [set_solver|].
      intros x. rewrite !elem_of_cons, H3. naive_solver.
    + set_solver.
Qed.

Lemma find_device_spec r key d :
  NoDup (id <$> devices r) -> find_device r key = Some d <-> d ∈ devices r /\ id d = key.
Proof.
  unfold find_device. induction (devices r) as [|x l IH]; intros Hnd; cbn [find].
  - split; [done|]. intros [?%elem_of_nil _]. done.
  - rewrite fmap_cons in Hnd. apply NoDup_cons in Hnd as [Hx Hnd]. specialize (IH Hnd).
    destruct (str_eqb (id x) key) eqn:E.
    + apply str_eqb_eq in E. subst key. split; [intros; simplify_eq; set_solver|].
      intros [[->|Hd]%elem_of_cons Hid]; [done|]. exfalso. apply Hx. rewrite <- Hid.
      by apply list_elem_of_fmap_2.
    + apply bool_decide_eq_false in E. rewrite IH, elem_of_cons. naive_solver.
Qed.

Lemma upsert_elem key e now r d :
  NoDup (id <$> devices r) ->
  d ∈ devices (upsert key e now r) <-> d = mkDevice key e now \/ (d ∈ devices r /\ id d <> key).
Proof.
  intros Hnd. unfold upsert. cbn [devices]. rewrite sort_by_perm.
  pose proof (update_first_spec key e now (devices r) Hnd) as Hu.
  destruct (update_first _ _ _ _) as [l'|]; [apply Hu|].
  rewrite elem_of_app, list_elem_of_singleton. split; [|naive_solver].
  intros [Hd| ->]; [right|by left]. split; [done|]. intros <-. by apply Hu, list_elem_of_fmap_2.
Qed.

Lemma upsert_ok key e now r : NoDup (id <$> devices r) -> ids_ok (upsert key e now r).
Proof.
  intros Hnd. split; [|apply sort_by_sorted]. unfold upsert. cbn [devices]. rewrite sort_by_perm.
  pose proof (update_first_spec key e now (devices r) Hnd) as Hu.
  destruct (update_first _ _ _ _) as [l'|]; [by rewrite (proj1 Hu)|].
  rewrite fmap_app. apply NoDup_app. split_and!; [done| |apply NoDup_singleton].
  intros x Hx Hk. apply list_elem_of_singleton in Hk. by subst x.
Qed.

Lemma find_device_upsert key e now r other :
  NoDup (id <$> devices r) ->
  find_device (upsert key e now r) other
  = if decide (key = other) then Some (mkDevice key e now) else find_device r other.
Proof.
  intros Hnd. pose proof (proj1 (upsert_ok key e now r Hnd)) as Hnd'.
  apply option_eq. intros d. rewrite find_device_spec, upsert_elem by done. case_decide as Hk.
  - subst. split; [|naive_solver]. intros [[->|[_ ?]] ?]; done.
  - rewrite find_device_spec by done. naive_solver.
Qed.

(** C35: The registry implements a map from identifiers to devices: after any
    sequence of upserts looking an identifier up gives the last endpoint and time
    recorded for it, and the stored list is sorted by identifier with one entry
    for each. *)
Theorem registry_refines_map l r m :
  ids_ok r -> (forall key, find_device r key = m !! key) ->
  ids_ok (upserts l r) /\ forall key, find_device (upserts l r) key = upserts_map l m !! key.
Proof.
  revert r m. induction l as [|[[key e] now] l IH]; intros r m Hok Hm; [done|].
  cbn [upserts upserts_map fold_left]. apply IH.
  - apply upsert_ok, Hok.
  - intros other. rewrite find_device_upsert by apply Hok. rewrite lookup_insert, Hm. done.
Qed.

Lemma registry_refines_map_witness :
  let r := upserts [("zeta", "local://zeta", 1); ("alpha", "local://alpha", 2);
                    ("zeta", "local://updated", 3)] registry_default in
  devices r = [mkDevice "alpha" "local://alpha" 2; mkDevice "zeta" "local://updated" 3]
  /\ find_device r "zeta" = Some (mkDevice "zeta" "local://updated" 3).
Proof.
  intros r. split; [vm_compute; reflexivity|].
  refine (eq_trans (proj2 (registry_refines_map _ registry_default ∅ _ _) "zeta") _).
  - split; constructor.
  - intros key. by rewrite lookup_empty.
  - vm_compute. reflexivity.
Defined.

(** ** The registry file *)

Section file_proofs.
Context {D : Type} `{DL : DiskLaws D} `{SerdeJson DeviceRegistry}.

Lemma fs_call_Ok c (d d' : D) u : fs_call c d = (d', Ok u) -> c d = (d', Ok tt).
Proof. unfold fs_call, anyhow. destruct (c d) as [d1 [[]|e]]; intros; by simplify_eq/=. Qed.

(** The files after a successful save. *)
Lemma registry_save_Ok r path suffix text (d d' : D) u :
  path_eqb path (temporary_of path suffix) = false -> json_to_string r = Ok text ->
  registry_save r path suffix d = (d', Ok u) -> exists m, file d' path = Some (as_bytes text, m).
Proof.
  intros Hne Htext Hs. unfold registry_save in Hs.
  set (t := temporary_of path suffix) in *. unfold bindS at 1 in Hs.
  match type of Hs with (match ?c d with _ => _ end) = _ =>
    destruct (c d) as [d1 [[]|e]] end; [|done].
  unfold bindS at 1, liftS in Hs. rewrite Htext in Hs. unfold bindS at 1 in Hs.
  destruct (fs_call (write_file t (as_bytes text)) d1) as [d2 [[]|e]] eqn:E2; [|done].
  apply fs_call_Ok, write_file_ok in E2 as [m H2].
  assert (Ht2 : file d2 t = Some (as_bytes text, m)) by by rewrite H2, path_eqb_refl.
  unfold bindS in Hs.
  assert (Hmid : forall d3 v, (if path_exists d2 path then fs_call (remove_file path) d2
                               else (d2, Ok tt)) = (d3, Ok v) -> file d3 t = file d2 t).
  { intros d3 v. destruct (path_exists d2 path); [|intros; by simplify_eq].
    intros E3%fs_call_Ok. rewrite (remove_ok _ _ _ _ E3), path_eqb_sym, Hne. done. }
  destruct (if path_exists d2 path then _ else _) as [d3 [v|e]] eqn:E3; [|done].
  specialize (Hmid _ _ eq_refl). rewrite Ht2 in Hmid.
  destruct (rename t path d3) as [d4 [w|e]] eqn:E4; [|done]. simplify_eq.
  exists m. by rewrite (rename_ok _ _ _ _ _ _ E4 Hmid), path_eqb_refl.
Qed.

(** A registry that was saved loads back unchanged. *)
Theorem registry_roundtrip r path suffix text (d d' : D) u bytes :
  path_eqb path (temporary_of path suffix) = false ->
  json_to_string r = Ok text -> json_from_str text = Ok r ->
  utf8_valid (as_bytes text) = true -> trim_is_empty text = false ->
  registry_save r path suffix d = (d', Ok u) -> disk_read d' path = Ok bytes ->
  registry_load d' path = Ok r.
Proof.
  intros Hne Htext Hback Hutf Htrim Hs Hread.
  apply (registry_save_Ok r path suffix text) in Hs as [m Hfile]; [|done..].
  destruct (read_ok _ _ _ Hread) as [m' Hm]. rewrite Hfile in Hm. injection Hm as <- <-.
  unfold registry_load, path_exists. rewrite (exists_file _ _ _ Hfile), Hread. cbn [is_ok negb anyhow map_err].
  rewrite Hutf. cbn [negb].
  rewrite (as_bytes_inj (String.string_of_list_byte (as_bytes text)) text)
    by apply as_bytes_string_of.
  by rewrite Htrim.
Qed.
End file_proofs.

Module Sample.
(** A crate that splits lower-case names at the separator. *)
#[export] Instance crate : ConfigCrate := {
  env_path _ separator name :=
    if negb (str_eqb separator "_") then None else if str_eqb name "BLNK_PIN" then Some ["pin"]
    else if str_eqb name "BLNK_SIGNALING_URL" then Some ["signaling"; "url"] else None;
  type_error key _ := "invalid type for " +:+ key;
}.
Definition env : list (string * string) :=
  [("BLNK_SIGNALING_URL", "wss://example.com"); ("BLNK_PIN", "654321")].

(** One identifier, endpoint pair per two lines. *)
#[export] Instance json : SerdeJson DeviceRegistry := {|
  json_to_string r :=
    Ok (String.concat "" ((fun d => id d +:+ String (Ascii.ascii_of_nat 10) ""
                                    +:+ endpoint d +:+ String (Ascii.ascii_of_nat 10) "")
                            <$> devices r) +:+ "end");
  json_from_str s :=
    let fix pairs l := match l with
                       | a :: b :: l => mkDevice (String.string_of_list_byte a)
                                          (String.string_of_list_byte b) 0 :: pairs l
                       | _ => []
                       end in
    Ok (mkRegistry (pairs (lines (as_bytes s))));
|}.
#[export] Existing Instances Memory.disk Memory.laws.

Definition path : string := "devices.json".
Definition registry (e : string) : DeviceRegistry := upsert "fixture" e 0 registry_default.
Definition saved (faults : list bool) : Memory.Mem :=
  Memory.mkMem (Memory.nodes (registry_save (registry "old") path "1" (Memory.mkMem ∅ [])).1) faults.
Definition text (r : DeviceRegistry) : string :=
  match json_to_string r with Ok s => s | Err _ => "" end.
End Sample.
#[local] Existing Instances Sample.json Memory.disk Memory.laws.

(** The save removes the registry before it renames the new file over it: when
    the rename fails, the old and the new registry are both gone and the next
    load reports an empty one. *)
Theorem registry_save_can_lose_devices :
  let before := Sample.saved [false; false; true] in
  let '(after, r) := registry_save (Sample.registry "new") Sample.path "2" before in
  registry_load before Sample.path = Ok (Sample.registry "old")
  /\ r = Err "I/O error" /\ registry_load after Sample.path = Ok registry_default.
Proof. vm_compute. done. Qed.

Lemma registry_roundtrip_witness :
  registry_load (Sample.saved []) Sample.path = Ok (Sample.registry "old").
Proof.
  apply (registry_roundtrip (Sample.registry "old") Sample.path "1"
           (Sample.text (Sample.registry "old")) (Memory.mkMem ∅ []) (Sample.saved []) tt
           (as_bytes (Sample.text (Sample.registry "old")))); vm_compute; reflexivity.
Defined.

#[local] Existing Instance Sample.crate.

(** The address in the environment is ignored, the PIN is taken. *)
Lemma environment_sets_only_pin_witness :
  exists c, config_load None Sample.env = Ok c /\ signaling_url c = default_signaling_url
    /\ pin c = Some "654321".
Proof.
  destruct (config_load None Sample.env) as [c|e] eqn:E; [|vm_compute in E; discriminate E].
  destruct (config_load None []) as [c0|e] eqn:E0; [|vm_compute in E0; discriminate E0].
  exists c. split; [reflexivity|].
  assert (L : ConfigCrateLaws).
  { split. intros prefix separator name path. cbn. destruct (str_eqb separator "_") eqn:Es; [|done].
    apply str_eqb_eq in Es. subst separator. cbn [negb].
    repeat (case_match; [intros; simplify_eq; by repeat constructor|]). done. }
  destruct (environment_sets_only_pin _ _ _ _ E E0) as [(Hs & _) Hp].
  split; [rewrite Hs; vm_compute in E0; by simplify_eq|]. exact (Hp [("BLNK_SIGNALING_URL", "wss://example.com")] "BLNK_PIN" "654321" eq_refl eq_refl).
Defined.
