(* ===== verification/Telemetry.v ===== *)
(** * Session telemetry

    [src/src/telemetry/braintrust.rs]: spans, the collector of a session's spans
    and their OTLP encoding. The clocks and the random identifiers are arguments;
    sending the batch is HTTP and only its contents are modelled. *)
From S2P Require Import Prelude Errors.

Definition DEFAULT_OTEL_ENDPOINT : string := "https://api.braintrust.dev/otel/v1/traces".
Definition EXPORT_TIMEOUT : Z := from_secs 5.
Definition MAX_SPANS_PER_BATCH : nat := 128.

Inductive SpanKind := Session | Shell | File | Proxy.

Record TelemetrySpan := mkSpan {
  name : string;
  kind : SpanKind;
  session_id : string;
  peer_id : option string;
  span_stream_id : option Z;
  started_at_unix : Z;
  duration_ms : Z;
  success : bool;
  error : option string;
  trace_id : option string;
  span_id : option string;
  parent_span_id : option string;
  started : Z;
}.

(** What creating a span reads: the wall clock in seconds (0 before the epoch),
    the monotonic clock, and two fresh UUIDs in hexadecimal. *)
Record Reading := mkReading { unix : Z; instant : Z; uuid1 : string; uuid2 : string }.

Definition str_take (n : nat) (s : string) : string :=
  String.string_of_list_byte (take n (as_bytes s)).

Definition span_new (name : string) (kind : SpanKind) (session_id : string) (r : Reading)
    : TelemetrySpan :=
  mkSpan name kind session_id None None (unix r) 0 true None None None None (instant r).
Definition session_span (name : string) (kind : SpanKind) (session_id : string) (r : Reading)
    : TelemetrySpan :=
  let s := span_new name kind session_id r in
  mkSpan name kind session_id None None (unix r) 0 true None (Some (uuid1 r))
    (Some (str_take 16 (uuid2 r))) None (started s).
Definition child_span (parent : TelemetrySpan) (name : string) (kind : SpanKind) (stream : Z)
    (r : Reading) : TelemetrySpan :=
  mkSpan name kind (session_id parent) None (Some stream) (unix r) 0 true None
    (Some (default (uuid1 r) (trace_id parent))) (Some (str_take 16 (uuid2 r)))
    (span_id parent) (instant r).

Record SpanCollector := mkCollector {
  parent : option TelemetrySpan;
  children : list TelemetrySpan;
}.
Definition collector_new : SpanCollector := mkCollector None [].

Definition enable_parent (name : string) (kind : SpanKind) (session : string) (r : Reading)
    (c : SpanCollector) : SpanCollector :=
  mkCollector (Some (session_span name kind session r)) (children c).
Definition start_child (c : SpanCollector) (name : string) (kind : SpanKind) (stream : Z)
    (r : Reading) : option TelemetrySpan :=
  (fun p => child_span p name kind stream r) <$> parent c.

Definition non_empty (message : option string) : option string :=
  match message with Some m => if str_is_empty m then None else Some m | None => None end.
Definition finished (s : TelemetrySpan) (duration : Z) (ok : bool) (message : option string)
    : TelemetrySpan :=
  mkSpan (name s) (kind s) (session_id s) (peer_id s) (span_stream_id s) (started_at_unix s)
    duration ok (non_empty message) (trace_id s) (span_id s) (parent_span_id s) (started s).

(** [now] is the monotonic clock, in nanoseconds. *)
Definition finish_child (span : option TelemetrySpan) (ok : bool) (message : option string)
    (now : Z) (c : SpanCollector) : SpanCollector :=
  match span with
  | Some s => mkCollector (parent c)
                (children c ++ [finished s (Z.min ((now - started s) / 1000000) U64_MAX) ok message])
  | None => c
  end.
Definition finish_parent (duration : Z) (ok : bool) (message : option string) (c : SpanCollector)
    : SpanCollector :=
  mkCollector ((fun p => finished p duration ok message) <$> parent c) (children c).
Definition set_parent_peer (peer : string) (c : SpanCollector) : SpanCollector :=
  mkCollector ((fun p => mkSpan (name p) (kind p) (session_id p) (Some peer) (span_stream_id p)
                           (started_at_unix p) (duration_ms p) (success p) (error p) (trace_id p)
                           (span_id p) (parent_span_id p) (started p)) <$> parent c) (children c).
Definition into_spans (c : SpanCollector) : list TelemetrySpan :=
  match parent c with Some p => p :: children c | None => children c end.

(** ** The exporter *)

Record BraintrustExporter := mkExporter {
  endpoint : string;
  api_key : string;
  project_id : string;
}.

(** [env] is [std::env::var(..).ok()]; [client] is the outcome of building the
    HTTP client. *)
Definition from_env (env : string -> option string) (client : Result string unit)
    : Result string (option BraintrustExporter) :=
  let non_blank v := match v with Some s => if trim_is_empty s then None else Some s | None => None end in
  match non_blank (env "BRAINTRUST_API_KEY") with
  | None => Ok None
  | Some key =>
      match non_blank (env "BRAINTRUST_PROJECT_ID") with
      | None => Ok None
      | Some project =>
          let? _ := client in
          Ok (Some (mkExporter (default DEFAULT_OTEL_ENDPOINT
                                  (non_blank (env "BRAINTRUST_OTEL_ENDPOINT"))) key project))
      end
  end.

(** [serde_json::Value]. *)
Inductive Value :=
| JInt (z : Z)
| JBool (b : bool)
| JStr (s : string)
| JArr (l : list Value)
| JObj (l : list (string * Value)).

Definition span_kind_label (k : SpanKind) : string :=
  match k with Session => "session" | Shell => "shell" | File => "file" | Proxy => "proxy" end.
Definition string_attr (key value : string) : Value :=
  JObj [("key", JStr key); ("value", JObj [("stringValue", JStr value)])].
Definition bool_attr (key : string) (value : bool) : Value :=
  JObj [("key", JStr key); ("value", JObj [("boolValue", JBool value)])].
Definition int_attr (key : string) (value : Z) : Value :=
  JObj [("key", JStr key); ("value", JObj [("intValue", JInt value)])].

Definition saturating_mul (m a b : Z) : Z := Z.min (a * b) m.
Definition start_nano (s : TelemetrySpan) : Z :=
  saturating_mul U64_MAX (started_at_unix s) 1000000000.
Definition end_nano (s : TelemetrySpan) : Z :=
  saturating_mul U64_MAX (saturating_add U64_MAX (started_at_unix s) (duration_ms s)) 1000000000.

(** [fresh] supplies identifiers for a span that has none. *)
Definition encode_span (fresh : Reading) (s : TelemetrySpan) : Value :=
  let optional {A} (o : option A) (f : A -> Value) := match o with Some a => [f a] | None => [] end in
  let attributes :=
    [string_attr "blnk.session_id" (session_id s);
     string_attr "blnk.span_kind" (span_kind_label (kind s));
     bool_attr "blnk.success" (success s)]
    ++ optional (peer_id s) (string_attr "blnk.peer_id")
    ++ optional (span_stream_id s) (int_attr "blnk.stream_id")
    ++ optional (error s) (string_attr "error.message") in
  JObj
    ([("traceId", JStr (default (uuid1 fresh) (trace_id s)));
      ("spanId", JStr (default (str_take 16 (uuid2 fresh)) (span_id s)));
      ("name", JStr (name s));
      ("kind", JInt 1);
      ("startTimeUnixNano", JInt (start_nano s));
      ("endTimeUnixNano", JInt (end_nano s));
      ("attributes", JArr attributes);
      ("status", if success s then JObj [("code", JInt 1)]
                 else JObj [("code", JInt 2); ("message", JStr (default "" (error s)))])]
     ++ match parent_span_id s with Some p => [("parentSpanId", JStr p)] | None => [] end).

(** The request [export] posts: [None] when there is nothing to send. *)
Record ExportRequest := mkExport {
  export_url : string;
  export_headers : list (string * string);
  export_payload : Value;
}.
Definition export (e : BraintrustExporter) (fresh : Reading) (spans : list TelemetrySpan)
    : option ExportRequest :=
  if is_nil spans then None else
  let batch := encode_span fresh <$> take MAX_SPANS_PER_BATCH spans in
  Some (mkExport (endpoint e)
    [("Authorization", "Bearer " +:+ api_key e); ("x-bt-parent", "project_id:" +:+ project_id e);
     ("Content-Type", "application/json")]
    (JObj [("resourceSpans", JArr [JObj
       [("resource", JObj [("attributes", JArr [JObj
           [("key", JStr "service.name"); ("value", JObj [("stringValue", JStr "blnk")])]])]);
        ("scopeSpans", JArr [JObj [("scope", JObj [("name", JStr "blnk.telemetry")]);
                                   ("spans", JArr batch)]])]])])).

(** ** One session's spans form one trace *)

Inductive CollectorOp :=
| Child (name : string) (kind : SpanKind) (stream : Z) (start : Reading) (ok : bool)
        (message : option string) (now : Z)
| FinishParent (duration : Z) (ok : bool) (message : option string)
| SetPeer (peer : string).

Definition collect (op : CollectorOp) (c : SpanCollector) : SpanCollector :=
  match op with
  | Child name kind stream start ok message now =>
      finish_child (start_child c name kind stream start) ok message now c
  | FinishParent duration ok message => finish_parent duration ok message c
  | SetPeer peer => set_parent_peer peer c
  end.
Definition collect_all (ops : list CollectorOp) (c : SpanCollector) : SpanCollector :=
  fold_left (fun c op => collect op c) ops c.

(** The collector's parent is the root [root] and its children hang below it. *)
Definition one_trace (session trace span : string) (c : SpanCollector) : Prop :=
  (exists p, parent c = Some p /\ session_id p = session /\ trace_id p = Some trace
             /\ span_id p = Some span /\ parent_span_id p = None)
  /\ Forall (fun s => session_id s = session /\ trace_id s = Some trace
                      /\ parent_span_id s = Some span) (children c).

Lemma collect_one_trace session trace span op c :
  one_trace session trace span c -> one_trace session trace span (collect op c).
Proof.
  intros [(p & Hp & Hsess & Htr & Hsp & Hpar) Hc]. destruct op; cbn [collect].
  - unfold start_child, finish_child. rewrite Hp. cbn [fmap option_fmap option_map]. split.
    + exists p. done.
    + cbn. apply Forall_app. split; [done|]. constructor; [|constructor]. cbn.
      by rewrite Hsess, Htr, Hsp.
  - split; [|done]. eexists. cbn. rewrite Hp. cbn. done.
  - split; [|done]. eexists. cbn. rewrite Hp. cbn. done.
Qed.

(** Every span a session exports belongs to one trace: the parent comes first
    and owns the trace, every stream span carries the same trace and session
    identifiers and points to the parent, however streams and updates interleave;
    a collector that was never enabled exports nothing. *)
Theorem spans_form_one_trace name kind session r ops :
  (forall c, parent c = None -> children c = [] -> into_spans (collect_all ops c) = []) /\
  exists p l, into_spans (collect_all ops (enable_parent name kind session r collector_new)) = p :: l
    /\ trace_id p = Some (uuid1 r) /\ parent_span_id p = None
    /\ Forall (fun s => session_id s = session /\ trace_id s = trace_id p
                        /\ parent_span_id s = span_id p) l.
Proof.
  split.
  - induction ops as [|op ops IH]; intros c Hp Hc; cbn.
    + unfold into_spans. by rewrite Hp.
    + apply IH; destruct op; cbn; unfold finish_child, start_child; by rewrite ?Hp.
  - assert (Ht : one_trace session (uuid1 r) (str_take 16 (uuid2 r))
                   (enable_parent name kind session r collector_new)).
    { split; [|constructor]. by eexists. }
    unfold collect_all. revert Ht. generalize (enable_parent name kind session r collector_new).
    induction ops as [|op ops IH]; intros c Hc; cbn; [|by apply IH, collect_one_trace].
    destruct Hc as [(p & Hp & Hs & Htr & Hsp & Hpar) Hch]. exists p, (children c).
    unfold into_spans. rewrite Hp. split; [done|]. split; [done|]. split; [done|].
    eapply Forall_impl; [exact Hch|]. intros x (? & ? & ?). naive_solver congruence.
Qed.

(** The milliseconds of a span are added to its start in seconds: a span is
    reported as lasting a thousand times as long as it did. *)
Theorem reported_duration s :
  0 <= started_at_unix s -> 0 <= duration_ms s ->
  (started_at_unix s + duration_ms s) * 1000000000 <= U64_MAX ->
  end_nano s - start_nano s = 1000 * (duration_ms s * 1000000).
Proof.
  unfold end_nano, start_nano, saturating_mul, saturating_add, U64_MAX. lia.
Qed.
