(* ===== verification/Orchestration.v ===== *)
(** * Setting up a session through signaling

    The first half of [src/src/signaling/orchestration.rs]: a device registers,
    offers and checks the encrypted request in the answer; a client asks for a
    device, answers its offer and encrypts the PIN for it; both then run the
    session handshake over the connected peer.

    The signaling socket is the one of [Transport]. Building and connecting a
    WebRTC peer is the class [Peering]; the timers, the fresh nonce and the
    randomness of the encryption come from [Ambient]. A handshake that is cut
    off by the timeout has handled some number of messages: that number is an
    argument. *)
From S2P Require Import Prelude Errors External Rfc4648 Paths Disk Net ProxyPolicy Pairing Session.
From S2P Require Import Peer Wire Runtime Identity Signaling Transport.

Definition DEFAULT_ORCHESTRATION_TIMEOUT : Z := from_secs 15.
Definition INITIAL_RECONNECT_RETRIES : Z := 1.
Definition DEVICE_PUBLIC_KEY_STREAM : string := "device_public_key".
Definition REQUEST_NONCE_STREAM : string := "request_nonce".

(** ** The surroundings *)

Class Ambient (W : Type) := {
  (** Whether a [tokio::time::timeout] elapses before its future is ready. *)
  elapses : Z -> W -> W * bool;
  (** [Uuid::new_v4().to_string()] *)
  new_uuid : W -> W * string;
  (** What the encryption draws from the system. *)
  draw_seed : W -> W * list byte;
}.

(** The peer's construction; a session description is its SDP text. *)
Class Peering (W P : Type) := {
  peer_new : W -> W * BResult P;
  create_data_channel : string -> P -> P * BResult unit;
  create_offer : P -> P * BResult string;
  accept_offer : string -> P -> P * BResult string;
  set_remote_answer : string -> P -> P * BResult unit;
  wait_connected : P -> P * BResult unit;
  wait_channel_open : P -> P * BResult unit;
  (** [RTCSessionDescription::offer] and [answer] *)
  parse_offer : string -> Result string string;
  parse_answer : string -> Result string string;
}.

(** ** Small checks *)

Definition validate_timeout (timeout : Z) : BResult unit :=
  fail_if! timeout =? 0
    with ErrSignaling "orchestration timeout must be greater than zero" in Ok tt.
Definition require_non_empty (value field : string) : BResult unit :=
  fail_if! trim_is_empty value with ErrSignaling (field +:+ " must not be empty") in Ok tt.
Definition validate_client_id (expected actual : string) : BResult unit :=
  fail_if! negb (str_eqb expected actual)
    with ErrSignaling ("signaling client_id mismatch: expected " +:+ expected +:+ ", got "
                       +:+ actual) in
  Ok tt.
Definition unexpected_message (expected : string) (actual : SignalingMessage) : BlnkError :=
  ErrSignaling ("expected " +:+ expected +:+ ", received " +:+ message_type actual).
Definition orchestration_error (operation : string) (error : BlnkError) : BlnkError :=
  ErrSignaling (operation +:+ ": " +:+ blnk_error_display error).

(** [url_parse] is the [url] crate's parser. *)
Definition make_client (url_parse : string -> Result string Url) (endpoint : string)
    (policy : EndpointPolicy) : BResult SignalingClient :=
  let? c := client_new url_parse endpoint in
  Ok (with_reconnect_policy (with_endpoint_policy c policy)
        (reconnect_limited INITIAL_RECONNECT_RETRIES (from_millis 50))).

(** ** The encrypted request *)

(** The JSON object inside the ciphertext. *)
Record SessionRequestEnvelope := mkEnvelope {
  fingerprint : string;
  nonce : string;
  code : string;
}.

Section request.
Context {Sk Pk : Type} `{Rsa Sk Pk} `{Sha2} `{Subtle} `{Base64} `{SerdeJson SessionRequestEnvelope}.

Definition encrypted_session_request (seed : list byte) (fp request_nonce pin : string)
    (target : Pk) : BResult string :=
  let? plaintext :=
    map_err (fun error => ErrProtocol ("encode encrypted request: " +:+ error))
      (json_to_string (mkEnvelope fp request_nonce pin)) in
  let? ciphertext := encrypt_for_peer seed target (as_bytes plaintext) in
  Ok (standard_encode ciphertext).

Definition validate_encrypted_request (identity : Identity Sk)
    (encoded expected_nonce expected_pin expected_fingerprint : string) : BResult unit :=
  let? _ := require_non_empty expected_nonce "expected request nonce" in
  let? _ := require_non_empty expected_pin "expected PIN" in
  let? _ := require_non_empty expected_fingerprint "expected request fingerprint" in
  let? ciphertext :=
    map_err (fun error => ErrSignaling ("decode encrypted request: " +:+ error))
      (standard_decode encoded) in
  let? plaintext := decrypt identity ciphertext in
  let? request :=
    map_err (fun error => ErrSignaling ("decode encrypted request payload: " +:+ error))
      (json_from_str (String.string_of_list_byte plaintext)) in
  let? _ := require_non_empty (fingerprint request) "encrypted request fingerprint" in
  let? _ := require_non_empty (nonce request) "encrypted request nonce" in
  let? _ := require_non_empty (code request) "encrypted request code" in
  fail_if! negb (constant_time_string_eq (nonce request) expected_nonce)
    with ErrSignaling "encrypted request nonce does not match the pending challenge" in
  fail_if! negb (constant_time_string_eq (fingerprint request) expected_fingerprint)
    with ErrSignaling "encrypted request fingerprint does not match the negotiated answer" in
  fail_if! negb (constant_time_pin_eq (as_bytes expected_pin) (as_bytes (code request)))
    with ErrSignaling "encrypted request PIN rejected" in
  Ok tt.

Definition fingerprint_for_sdp (sdp : string) : string := standard_encode (sha256 (as_bytes sdp)).

Record RequestChallenge := mkChallenge { challenge_nonce : string; consumed : bool }.

(** The argument is the fresh identifier. *)
Definition challenge_new (uuid : string) : RequestChallenge := mkChallenge uuid false.

Definition validate_and_consume (c : RequestChallenge) (identity : Identity Sk)
    (encoded expected_pin expected_fingerprint : string) : RequestChallenge * BResult unit :=
  if consumed c
  then (c, Err (ErrSignaling "encrypted request nonce has already been consumed"))
  else (mkChallenge (challenge_nonce c) true,
        validate_encrypted_request identity encoded (challenge_nonce c) expected_pin
          expected_fingerprint).
End request.

(** ** State of a negotiation *)

Record Link (W : Type) := mkLink { world_of : W; signaling : WebSocketConnection }.
Record Talk (W P : Type) := mkTalk { link : Link W; peer_of : P }.
Arguments mkLink {W} _ _.
Arguments world_of {W} _.
Arguments signaling {W} _.
Arguments mkTalk {W P} _ _.
Arguments link {W P} _.
Arguments peer_of {W P} _.

(** How a setup ends: the world, the socket once it was opened, the peer if it
    is still held when the function returns an error, and the result. *)
Record Ended (W P A : Type) := mkEnded {
  end_world : W;
  end_signaling : option WebSocketConnection;
  end_peer : option P;
  end_result : BResult A;
}.
Arguments mkEnded {W P A} _ _ _ _.
Arguments end_world {W P A} _.
Arguments end_signaling {W P A} _.
Arguments end_peer {W P A} _.
Arguments end_result {W P A} _.

Record ServerSession (P : Type) := mkServerSession {
  server_runtime : SessionRuntime P;
  server_client_id : string;
}.
Record ClientSession (P : Type) := mkClientSession {
  client_runtime : SessionRuntime P;
  session_client_id : string;
  session_target : string;
}.
Arguments mkServerSession {P} _ _.
Arguments server_runtime {P} _.
Arguments server_client_id {P} _.
Arguments mkClientSession {P} _ _ _.
Arguments client_runtime {P} _.
Arguments session_client_id {P} _.
Arguments session_target {P} _.

Section setup.
Context {Sk Pk : Type} `{Rsa Sk Pk} `{Sha2} `{Subtle} `{Base64} `{RustFmt}.
Context `{SerdeJson SessionRequestEnvelope} `{SerdeJson WireMessage}.
Context {W P : Type} `{Dialer W} `{Ambient W} `{Peering W P} `{World P} `{ControlCodec}.

Definition on_env {A} (f : W -> W * A) : SM (Link W) BlnkError A :=
  fun l => let '(w, a) := f (world_of l) in (mkLink w (signaling l), Ok a).
Definition send_message (m : SignalingMessage) : SM (Link W) BlnkError unit :=
  fun l => let '(c, r) := conn_send m (signaling l) in (mkLink (world_of l) c, r).
Definition recv_with_timeout (timeout : Z) : SM (Link W) BlnkError SignalingMessage :=
  fun l =>
  let '(w, late) := elapses timeout (world_of l) in
  if late
  then (mkLink w (signaling l),
        Err (ErrSignaling "timed out waiting for the expected signaling message"))
  else
    let '(c, r) := conn_recv (signaling l) in
    (mkLink w c,
     match r with
     | Ok (Some message) => Ok message
     | Ok None => Err (ErrSignaling "signaling connection closed before the expected message")
     | Err error => Err error
     end).
(** [let _ = signaling.close().await]. *)
Definition close_signaling (l : Link W) : Link W :=
  mkLink (world_of l) (conn_close (signaling l)).1.

Definition on_link {A} (c : SM (Link W) BlnkError A) : SM (Talk W P) BlnkError A :=
  fun t => let '(l, r) := c (link t) in (mkTalk l (peer_of t), r).
Definition on_peer {A} (f : P -> P * BResult A) : SM (Talk W P) BlnkError A :=
  fun t => let '(p, r) := f (peer_of t) in (mkTalk (link t) p, r).
(** [let _ = peer.close().await; return Err(error)]. *)
Definition close_and_fail {A} (e : BlnkError) : SM (Talk W P) BlnkError A :=
  fun t => (mkTalk (link t) (w_close (peer_of t)).1, Err e).
Definition closing_on_error {A} (c : SM (Talk W P) BlnkError A) : SM (Talk W P) BlnkError A :=
  fun t => match c t with
           | (t, Err e) => close_and_fail e t
           | (t, Ok a) => (t, Ok a)
           end.

Definition wait_peer_ready (timeout : Z) : SM (Talk W P) BlnkError unit :=
  let* late := on_link (on_env (elapses timeout)) in
  if (late : bool) then failS (ErrPeer "timed out waiting for connected data channel") else
  do* on_peer wait_connected in on_peer wait_channel_open.

(** The peer moves into the runtime; [messages] control messages are handled
    before the handshake's timeout. *)
Definition run_handshake (config : SessionRuntimeConfig) (messages : nat) (t : Talk W P)
    : Ended W P (SessionRuntime P) :=
  let ended l p r := mkEnded (world_of l) (Some (signaling l)) p r in
  match runtime_new (peer_of t) config with
  | Err e => ended (link t) (Some (peer_of t)) (Err e)
  | Ok rt =>
      match handshake messages rt with
      | (rt, Some (Ok _)) => ended (close_signaling (link t)) None (Ok rt)
      | (rt, Some (Err e)) => ended (link t) (Some (world (rt_close rt).1)) (Err e)
      | (rt, None) =>
          ended (link t) (Some (world (rt_close rt).1))
            (Err (ErrSession "timed out during authenticated session handshake"))
      end
  end.

(** Runs [before] on the socket, makes a peer, runs [body] on both and then the
    handshake. *)
Definition negotiate {A} (url_parse : string -> Result string Url) (endpoint : string)
    (policy : EndpointPolicy) (before : SM (Link W) BlnkError A)
    (body : A -> SM (Talk W P) BlnkError unit) (config : SessionRuntimeConfig) (messages : nat)
    (w : W) : Ended W P (SessionRuntime P * A) :=
  match make_client url_parse endpoint policy with
  | Err e => mkEnded w None None (Err e)
  | Ok client =>
      match connect_with_retry client w with
      | (w, Err error) =>
          mkEnded w None None (Err (orchestration_error "connect signaling socket" error))
      | (w, Ok connection) =>
          match before (mkLink w connection) with
          | (l, Err e) => mkEnded (world_of l) (Some (signaling l)) None (Err e)
          | (l, Ok a) =>
              match peer_new (world_of l) with
              | (w, Err e) => mkEnded w (Some (signaling l)) None (Err e)
              | (w, Ok p) =>
                  match body a (mkTalk (mkLink w (signaling l)) p) with
                  | (t, Err e) =>
                      mkEnded (world_of (link t)) (Some (signaling (link t))) (Some (peer_of t)) (Err e)
                  | (t, Ok _) =>
                      let ended := run_handshake config messages t in
                      mkEnded (end_world ended) (end_signaling ended) (end_peer ended)
                        (map_ok (fun rt => (rt, a)) (end_result ended))
                  end
              end
          end
      end
  end.

(** ** The device *)

(** Registers and waits for a request; the client that asked and the challenge
    for it. *)
Definition await_request (identity : Identity Sk) (timeout : Z)
    : SM (Link W) BlnkError (string * RequestChallenge) :=
  let* public_key := liftS (public_key_b64 identity) in
  let* register := liftS (register_request_new (uid identity) public_key true) in
  do* send_message (SmRegister register) in
  let* response := recv_with_timeout timeout in
  do* match response with
      | SmRegistered response => liftS (register_response_validate response)
      | SmError error =>
          failS (ErrSignaling ("signaling rejected registration: " +:+ se_message error))
      | other => failS (unexpected_message "registered response" other)
      end in
  let* request := recv_with_timeout timeout in
  let* client_id :=
    match request with
    | SmRequest request => retS (cr_client_id request)
    | SmPairRequest _ =>
        failS (ErrSignaling
                 "pair_request requires the separate pairing flow and cannot start an authenticated session")
    | SmError error =>
        failS (ErrSignaling ("signaling rejected connection request: " +:+ se_message error))
    | other => failS (unexpected_message "connection request" other)
    end in
  do* liftS (require_non_empty client_id "client_id") in
  let* uuid := on_env new_uuid in
  retS (client_id, challenge_new uuid).

Definition receive_answer (client_id : string) (timeout : Z) : SM (Talk W P) BlnkError AnswerMessage :=
  let* message := on_link (recv_with_timeout timeout) in
  match message with
  | SmAnswer answer =>
      do* liftS (validate_client_id client_id (an_client_id answer)) in retS answer
  | SmError error =>
      close_and_fail (ErrSignaling ("signaling rejected SDP offer: " +:+ se_message error))
  | SmCandidate _ =>
      close_and_fail (ErrSignaling
        "trickle ICE candidate arrived, but the current peer boundary only supports non-trickle SDP")
  | other => close_and_fail (unexpected_message "SDP answer" other)
  end.

Definition offer_message (identity : Identity Sk) (challenge : RequestChallenge)
    (client_id sdp : string) : BResult SignalingMessage :=
  let? offer := offer_new client_id sdp in
  let? encoded := public_key_b64 identity in
  let? public_key_der :=
    map_err (fun error => ErrIdentity ("decode device public key: " +:+ error))
      (standard_decode encoded) in
  Ok (SmOffer (mkOfferMessage (of_message_type offer) (of_client_id offer) (of_sdp offer)
        (<[REQUEST_NONCE_STREAM := as_bytes (challenge_nonce challenge)]>
           (<[DEVICE_PUBLIC_KEY_STREAM := public_key_der]> (of_streams offer))))).

Definition offer_and_check (identity : Identity Sk) (pin : string) (timeout : Z)
    (asked : string * RequestChallenge) : SM (Talk W P) BlnkError unit :=
  let '(client_id, challenge) := asked in
  do* on_peer (create_data_channel "control") in
  let* sdp := closing_on_error (on_peer create_offer) in
  let* message := liftS (offer_message identity challenge client_id sdp) in
  do* closing_on_error (on_link (send_message message)) in
  let* answer := receive_answer client_id timeout in
  do* closing_on_error
        (liftS (validate_and_consume challenge identity (an_encrypted_request answer) pin
                  (fingerprint_for_sdp (an_sdp answer))).2) in
  let* description :=
    liftS (map_err (fun error => ErrPeer ("parse remote SDP answer: " +:+ error))
             (parse_answer (an_sdp answer))) in
  do* closing_on_error (on_peer (set_remote_answer description)) in
  wait_peer_ready timeout.

Definition accept_server_session (url_parse : string -> Result string Url) (endpoint : string)
    (identity : Identity Sk) (pin : string) (policy : EndpointPolicy) (timeout : Z)
    (messages : nat) (w : W) : Ended W P (ServerSession P) :=
  match validate_timeout timeout with
  | Err e => mkEnded w None None (Err e)
  | Ok _ =>
      let ended := negotiate url_parse endpoint policy (await_request identity timeout)
                     (offer_and_check identity pin timeout) (runtime_config_server pin) messages w in
      mkEnded (end_world ended) (end_signaling ended) (end_peer ended)
        (map_ok (fun '(rt, (client_id, _)) => mkServerSession rt client_id) (end_result ended))
  end.

(** ** The client *)

Definition request_offer (client_id target : string) (timeout : Z)
    : SM (Link W) BlnkError (Pk * string * string) :=
  let* request := liftS (connection_request_new client_id) in
  do* send_message (SmRequest request) in
  let* message := recv_with_timeout timeout in
  let* offer :=
    match message with
    | SmOffer offer =>
        do* liftS (validate_client_id client_id (of_client_id offer)) in retS offer
    | SmError error =>
        failS (ErrSignaling ("signaling rejected target '" +:+ target +:+ "': "
                             +:+ se_message error))
    | SmCandidate _ =>
        failS (ErrSignaling "trickle ICE candidate arrived before the non-trickle offer")
    | other => failS (unexpected_message "SDP offer" other)
    end in
  let* key_der :=
    liftS (ok_or (of_streams offer !! DEVICE_PUBLIC_KEY_STREAM)
             (ErrSignaling
                "signaling offer omitted device_public_key required for encrypted_request")) in
  let* key :=
    liftS (map_err (fun error => ErrIdentity ("parse target public key: " +:+ error))
             (from_public_key_der key_der)) in
  let* nonce_bytes :=
    liftS (ok_or (of_streams offer !! REQUEST_NONCE_STREAM)
             (ErrSignaling
                "signaling offer omitted request_nonce required for encrypted_request")) in
  let* request_nonce :=
    liftS (map_err (fun _ => ErrSignaling "signaling request_nonce is not valid UTF-8")
             (str_from_utf8 nonce_bytes)) in
  do* liftS (require_non_empty request_nonce "request_nonce") in
  let* description :=
    liftS (map_err (fun error => ErrPeer ("parse remote SDP offer: " +:+ error))
             (parse_offer (of_sdp offer))) in
  retS (key, request_nonce, description).

Definition answer_offer (client_id pin : string) (timeout : Z) (asked : Pk * string * string)
    : SM (Talk W P) BlnkError unit :=
  let '(key, request_nonce, description) := asked in
  let* sdp := closing_on_error (on_peer (accept_offer description)) in
  let* seed := on_link (on_env draw_seed) in
  let* encrypted :=
    liftS (encrypted_session_request seed (fingerprint_for_sdp sdp) request_nonce pin key) in
  let* answer := liftS (answer_new client_id sdp encrypted) in
  do* closing_on_error (on_link (send_message (SmAnswer answer))) in
  closing_on_error (wait_peer_ready timeout).

Definition connect_target (url_parse : string -> Result string Url) (endpoint : string)
    (identity : Identity Sk) (target pin : string) (policy : EndpointPolicy) (timeout : Z)
    (messages : nat) (w : W) : Ended W P (ClientSession P) :=
  match (let? _ := validate_timeout timeout in require_non_empty target "target") with
  | Err e => mkEnded w None None (Err e)
  | Ok _ =>
      let client_id := uid identity in
      let ended := negotiate url_parse endpoint policy (request_offer client_id target timeout)
                     (answer_offer client_id pin timeout) (runtime_config_client pin) messages w in
      mkEnded (end_world ended) (end_signaling ended) (end_peer ended)
        (map_ok (fun '(rt, _) => mkClientSession rt client_id target) (end_result ended))
  end.
End setup.

(** ** The encrypted request proves the PIN *)

Section request_proofs.
Context {Sk Pk : Type} `{RL : RsaLaws Sk Pk} `{Sha2} `{Subtle} {SL : SubtleLaws}.
Context `{BL : Base64Laws} `{SerdeJson SessionRequestEnvelope}.

(** Two texts with the same SHA-256 digest. *)
Definition same_digest (a b : string) : Prop := sha256 (as_bytes a) = sha256 (as_bytes b).

(** The ciphertext holds, for the device's key, the nonce of the challenge, the
    fingerprint of the answer and exactly the PIN. *)
Definition proves_pin (identity : Identity Sk) (encoded n pin fp : string) : Prop :=
  exists ciphertext plaintext request,
    standard_decode encoded = Ok ciphertext
    /\ rsa_decrypt (private_key identity) ciphertext = Ok plaintext
    /\ json_from_str (String.string_of_list_byte plaintext) = Ok request
    /\ same_digest (nonce request) n /\ same_digest (fingerprint request) fp
    /\ code request = pin /\ str_len pin = PIN_LEN.

Lemma string_eq_spec a b : constant_time_string_eq a b = true <-> same_digest a b.
Proof. apply ct_eq_spec. Qed.

Lemma require_non_empty_Ok s field : require_non_empty s field = Ok tt <-> trim_is_empty s = false.
Proof. unfold require_non_empty. by destruct (trim_is_empty s). Qed.

Lemma validate_Ok identity encoded n pin fp :
  validate_encrypted_request identity encoded n pin fp = Ok tt -> proves_pin identity encoded n pin fp.
Proof.
  unfold validate_encrypted_request, decrypt, identity_err, proves_pin. intros Hv.
  destruct (require_non_empty n _); [|done]. destruct (require_non_empty pin _); [|done].
  destruct (require_non_empty fp _); [|done].
  destruct (standard_decode encoded) as [c|]; [|done]. cbn [map_err] in Hv.
  destruct (rsa_decrypt _ c) as [m|] eqn:Hm; [|done]. cbn [map_err] in Hv.
  destruct (json_from_str _) as [r|] eqn:Hr; [|done]. cbn [map_err] in Hv.
  do 3 (destruct (require_non_empty _ _); [|done]).
  destruct (constant_time_string_eq (nonce r) n) eqn:Hn; [|done].
  destruct (constant_time_string_eq (fingerprint r) fp) eqn:Hf; [|done].
  destruct (constant_time_pin_eq _ _) eqn:Hp; [|done]. apply string_eq_spec in Hn, Hf.
  apply pin_eq_spec in Hp as [Hlen Hpin%as_bytes_inj]. exists c, m, r. done.
Qed.

(** A challenge answered by the client's own code is accepted, once: the
    request encrypted for the device with the nonce, the fingerprint and the PIN
    the device expects passes its checks, and after that (or after any failed
    attempt) the challenge refuses every further request. *)
Theorem challenge_answered_once (identity : Identity Sk) seed n pin fp encoded :
  json_roundtrips (mkEnvelope fp n pin) ->
  trim_is_empty fp = false -> trim_is_empty n = false -> trim_is_empty pin = false ->
  str_len pin = PIN_LEN ->
  encrypted_session_request seed fp n pin (public_key identity) = Ok encoded ->
  (validate_and_consume (challenge_new n) identity encoded pin fp).2 = Ok tt /\
  forall request pin' fp' again,
    let c := (validate_and_consume (challenge_new n) identity request pin' fp').1 in
    is_ok (validate_and_consume c identity again pin fp).2 = false.
Proof.
  intros (text & Htext & Hback) Hfp Hn Hpin Hlen Henc. split; [|done].
  unfold encrypted_session_request, encrypt_for_peer, identity_err in Henc. rewrite Htext in Henc.
  cbn [map_err] in Henc. destruct (rsa_encrypt _ _ _) as [c|] eqn:Hc; [|done].
  apply Ok_inj in Henc. subst encoded. unfold validate_and_consume, challenge_new. cbn [consumed snd].
  unfold validate_encrypted_request, decrypt, identity_err. cbn [challenge_nonce].
  rewrite !(proj2 (require_non_empty_Ok n _) Hn), !(proj2 (require_non_empty_Ok pin _) Hpin),
    !(proj2 (require_non_empty_Ok fp _) Hfp), standard_roundtrip. cbn [map_err].
  rewrite (decrypt_encrypt _ _ _ _ Hc). cbn [map_err].
  rewrite (as_bytes_inj (String.string_of_list_byte (as_bytes text)) text)
    by apply as_bytes_string_of.
  rewrite Hback. cbn [map_err fingerprint nonce code].
  rewrite (proj2 (require_non_empty_Ok fp _) Hfp), (proj2 (require_non_empty_Ok n _) Hn),
    (proj2 (require_non_empty_Ok pin _) Hpin).
  rewrite (proj2 (string_eq_spec n n)), (proj2 (string_eq_spec fp fp)) by done.
  rewrite (proj2 (pin_eq_spec (as_bytes pin) (as_bytes pin))) by done. done.
Qed.
End request_proofs.

(** ** A session that was set up is authenticated *)

Section setup_proofs.
Context {Sk Pk : Type} `{RL : RsaLaws Sk Pk} `{Sha2} `{Subtle} {SL : SubtleLaws}.
Context `{BL : Base64Laws} `{RustFmt} `{SerdeJson SessionRequestEnvelope} `{SerdeJson WireMessage}.
Context {W P : Type} `{Dialer W} `{Ambient W} `{Peering W P} `{World P} `{ControlCodec}.

Lemma liftS_Ok {S E A} (r : Result E A) (s s' : S) a :
  liftS r s = (s', Ok a) -> s' = s /\ r = Ok a.
Proof. unfold liftS. intros. by simplify_eq. Qed.

Lemma closing_Ok {A} (c : SM (Talk W P) BlnkError A) t t' a :
  closing_on_error c t = (t', Ok a) -> c t = (t', Ok a).
Proof. unfold closing_on_error, close_and_fail. destruct (c t) as [t1 [x|e]]; intros; by simplify_eq. Qed.

Lemma receive_answer_Ok client_id timeout (t t' : Talk W P) answer :
  receive_answer client_id timeout t = (t', Ok answer) -> an_client_id answer = client_id.
Proof.
  unfold receive_answer. intros (t1 & m & _ & Hm)%bindS_Ok.
  destruct m; try done. apply bindS_Ok in Hm as (t2 & [] & Hv & Hr).
  apply liftS_Ok in Hv as [-> Hv]. unfold retS in Hr. simplify_eq.
  unfold validate_client_id in Hv. destruct (str_eqb _ _) eqn:E; [|done].
  by apply str_eqb_eq in E.
Qed.

(** The checks a device has made when its negotiation succeeds, and the
    description it gave its peer. *)
Lemma offer_and_check_Ok (identity : Identity Sk) pin timeout client_id challenge (t t' : Talk W P) u :
  consumed challenge = false ->
  offer_and_check identity pin timeout (client_id, challenge) t = (t', Ok u) ->
  exists answer description (asked answered : Talk W P) p',
    receive_answer client_id timeout asked = (answered, Ok answer)
    /\ an_client_id answer = client_id
    /\ proves_pin identity (an_encrypted_request answer) (challenge_nonce challenge) pin
         (fingerprint_for_sdp (an_sdp answer))
    /\ parse_answer (W := W) (P := P) (an_sdp answer) = Ok description
    /\ set_remote_answer (W := W) description (peer_of answered) = (p', Ok tt).
Proof.
  intros Hc Ho. unfold offer_and_check in Ho.
  apply bindS_Ok in Ho as (t1 & [] & _ & Ho). apply bindS_Ok in Ho as (t2 & sdp & _ & Ho).
  apply bindS_Ok in Ho as (t3 & m & _ & Ho). apply bindS_Ok in Ho as (t4 & [] & _ & Ho).
  apply bindS_Ok in Ho as (t5 & answer & Ha & Ho).
  pose proof (receive_answer_Ok _ _ _ _ _ Ha) as Hid.
  apply bindS_Ok in Ho as (t6 & [] & Hv & Ho). apply closing_Ok, liftS_Ok in Hv as [-> Hv].
  apply bindS_Ok in Ho as (t7 & d & Hd & Ho). apply liftS_Ok in Hd as [-> Hd].
  apply bindS_Ok in Ho as (t8 & [] & Hs & _). apply closing_Ok in Hs.
  unfold validate_and_consume in Hv. rewrite Hc in Hv. apply validate_Ok in Hv.
  unfold on_peer in Hs. destruct (set_remote_answer d (peer_of t5)) as [p' r] eqn:E. simplify_eq.
  destruct (parse_answer (an_sdp answer)) as [d'|] eqn:Hd'; [|done]. cbn in Hd. simplify_eq.
  by exists answer, d, t4, t5, p'.
Qed.

Lemma await_request_Ok (identity : Identity Sk) timeout (l l' : Link W) client_id challenge :
  await_request identity timeout l = (l', Ok (client_id, challenge)) ->
  exists w uuid, new_uuid w = (world_of l', uuid) /\ challenge = challenge_new uuid.
Proof.
  unfold await_request. intros Ha.
  repeat (apply bindS_Ok in Ha as (? & ? & ? & Ha)). unfold retS in Ha. simplify_eq.
  match goal with Hu : on_env new_uuid ?l = _ |- _ =>
    unfold on_env in Hu; destruct (new_uuid (world_of l)) as [w' uuid] eqn:E; simplify_eq end.
  eauto.
Qed.

Lemma negotiate_Ok {A} url_parse endpoint policy (before : SM (Link W) BlnkError A) body config
    messages (w : W) rt (a : A) :
  end_result (negotiate url_parse endpoint policy before body config messages w) = Ok (rt, a) ->
  exists client w0 conn l t (t' : Talk W P) rt0,
    make_client url_parse endpoint policy = Ok client
    /\ connect_with_retry client w = (w0, Ok conn)
    /\ before (mkLink w0 conn) = (l, Ok a) /\ body a t = (t', Ok tt)
    /\ runtime_new (peer_of t') config = Ok rt0 /\ handshake messages rt0 = (rt, Some (Ok tt)).
Proof.
  unfold negotiate. destruct (make_client _ _ _) as [c|]; [|done].
  destruct (connect_with_retry c w) as [w1 [conn|]] eqn:Hw; [|done].
  destruct (before (mkLink w1 conn)) as [l' [x|]] eqn:Hb; [|done].
  destruct (peer_new (world_of l')) as [w2 [p|]]; [|done].
  destruct (body x _) as [t' [[]|]] eqn:Ht; [|done]. cbn [end_result]. unfold run_handshake.
  destruct (runtime_new _ _) as [rt0|] eqn:Hr; [|done].
  destruct (handshake messages rt0) as [rt1 [[[]|]|]] eqn:Hh; cbn; intros; simplify_eq.
  by exists c, w1, conn, l', (mkTalk (mkLink w2 (signaling l')) p), t', rt0.
Qed.

(** C5: A device hands out a session only to a client that proved the PIN twice.
    When [accept_server_session] returns a session, whatever the signaling server
    and the peer did, the connection it made carried a request of the client the
    session names and then that client's answer, whose encrypted request opened
    with the device's key to the nonce drawn for this request, to the fingerprint
    of the very description the peer was connected with and to exactly the PIN,
    and the session's own handshake ended with that PIN. *)
Theorem server_session_authenticated url_parse endpoint (identity : Identity Sk) pin policy timeout
    messages (w : W) (s : ServerSession P) :
  end_result (accept_server_session url_parse endpoint identity pin policy timeout messages w) = Ok s ->
  rt_state (server_runtime s) = Ready /\ last_auth_pin (server_runtime s) = Some pin /\
  exists client w0 conn w1 l uuid (asked answered : Talk W P) answer description p',
    make_client url_parse endpoint policy = Ok client
    /\ connect_with_retry client w = (w0, Ok conn)
    /\ await_request identity timeout (mkLink w0 conn)
       = (l, Ok (server_client_id s, challenge_new uuid))
    /\ new_uuid w1 = (world_of l, uuid)
    /\ receive_answer (server_client_id s) timeout asked = (answered, Ok answer)
    /\ an_client_id answer = server_client_id s
    /\ proves_pin identity (an_encrypted_request answer) uuid pin
         (fingerprint_for_sdp (an_sdp answer))
    /\ parse_answer (W := W) (P := P) (an_sdp answer) = Ok description
    /\ set_remote_answer (W := W) description (peer_of answered) = (p', Ok tt).
Proof.
  unfold accept_server_session. destruct (validate_timeout timeout) as [[]|]; [|done]. cbn [end_result].
  destruct (end_result (negotiate _ _ _ _ _ _ _ _)) as [[rt [client_id challenge]]|] eqn:Hn; [|done].
  intros Hs. cbn in Hs. simplify_eq. cbn [server_runtime server_client_id].
  apply negotiate_Ok in Hn as (c & w0 & conn & l & t & t' & rt0 & Hm & Hw & Hb & Ht & Hr & Hh).
  destruct (await_request_Ok _ _ _ _ _ _ Hb) as (w1 & uuid & Hu & ->).
  apply offer_and_check_Ok in Ht as (answer & d & asked & answered & p' & Hx); [|done].
  destruct (server_handshake_pin _ _ _ _ _ Hr eq_refl eq_refl Hh) as (q & Hq & _ & Hlast & Hready).
  cbn in Hq. simplify_eq. split; [done|]. split; [done|].
  exists c, w0, conn, w1, l, uuid, asked, answered, answer, d, p'. by destruct_and! Hx.
Qed.

(** A client's session has completed its handshake. *)
Lemma client_session_ready url_parse endpoint (identity : Identity Sk) target pin policy timeout
    messages (w : W) (s : ClientSession P) :
  end_result (connect_target url_parse endpoint identity target pin policy timeout messages w) = Ok s ->
  rt_state (client_runtime s) = Ready /\ session_target s = target
  /\ session_client_id s = uid identity.
Proof.
  unfold connect_target.
  destruct (validate_timeout timeout) as [[]|]; [|done].
  destruct (require_non_empty target "target") as [[]|]; [|done]. cbn [end_result].
  destruct (end_result (negotiate _ _ _ _ _ _ _ _)) as [[rt a]|] eqn:Hn; [|done].
  intros Hs. cbn in Hs. simplify_eq. apply negotiate_Ok in Hn as (c & w0 & conn & l & t & t' & rt0 & _ & _ & _ & _ & Hr & Hh).
  assert (Hrole : role (rt_config rt0) = Client).
  { unfold runtime_new in Hr. destruct (runtime_config_validate _); [|done].
    destruct (session_new _ _); [|done]. by simplify_eq. }
  by apply client_handshake_ready in Hh as (? & _ & _).
Qed.
End setup_proofs.

(** ** Concrete runs *)

Module Sample.
#[export] Existing Instances Identity.Sample.rsa Identity.Sample.rsa_laws Concrete.base64
  Concrete.base64_laws Concrete.sha2 Concrete.subtle Concrete.subtle_laws Concrete.rust_fmt
  Runtime.Sample.control_codec Transport.Sample.WireMessage_eq_dec.

Definition device : Identity string := mkIdentity "device key" "device uid" "000000" "code".
Definition newline : string := String (Ascii.ascii_of_nat 10) "".

#[export] Instance envelope : SerdeJson SessionRequestEnvelope := {|
  json_to_string e := Ok (fingerprint e +:+ newline +:+ nonce e +:+ newline +:+ code e);
  json_from_str s :=
    match lines (as_bytes s) with
    | [a; b; c] => Ok (mkEnvelope (String.string_of_list_byte a) (String.string_of_list_byte b)
                         (String.string_of_list_byte c))
    | _ => Err "expected an object"
    end;
|}.

Definition pin : string := "123456".
Definition uuid : string := "fresh nonce".
Definition encrypted : string :=
  match encrypted_session_request [] (fingerprint_for_sdp "answer") uuid pin (public_key device) with
  | Ok s => s | Err _ => "" end.

(** The messages of one exchange, written as their position. *)
Definition table : list (WireMessage * string) :=
  [(WireRegister "device uid" "device key" 3 true, "0"); (WireRegistered "123456", "1");
   (WireRequest "client" None [] false, "2");
   (WireOffer "client" "offer" {["device_public_key" := "device key"; "request_nonce" := uuid]}, "3");
   (WireAnswer "client" "answer" encrypted, "4"); (WireAnswer "other" "answer" encrypted, "5")].
#[export] Instance json : SerdeJson WireMessage := {
  json_to_string w :=
    match find (fun p => bool_decide (p.1 = w)) table with
    | Some (_, s) => Ok s | None => Err "not in the table" end;
  json_from_str s :=
    match find (fun p => str_eqb p.2 s) table with
    | Some (w, _) => Ok w | None => Err "expected value" end;
}.

(** The world is what the signaling server sends. *)
Definition Relay : Type := list string.
Definition addr : SocketAddr := mkSocketAddr (V4 (mkV4 8 8 8 8)) 9000 0 0.
#[export] Instance dialer : Dialer Relay := {
  lookup_host _ _ w := (w, Ok [addr]);
  connect_async _ w := (w, Ok (mkSocket ((fun s => Ok (Transport.WsText s)) <$> w) [] (fun _ => None)));
  sleep _ w := w;
}.
#[export] Instance ambient : Ambient Relay := {
  elapses _ w := (w, false);
  new_uuid w := (w, uuid);
  draw_seed w := (w, []);
}.

(** A peer that delivers the client's control messages and knows whether it was
    closed. *)
Record TestPeer := mkTestPeer { queue : Queue; closed : bool }.
Definition with_queue {A} (f : Queue -> Queue * A) (p : TestPeer) : TestPeer * A :=
  let '(q, a) := f (queue p) in (mkTestPeer q (closed p), a).
#[export] Instance world : World TestPeer := {
  w_send f := with_queue (w_send f);
  w_recv := with_queue w_recv;
  w_recv_within d := with_queue (w_recv_within d);
  w_select := with_queue w_select;
  w_drain _ p := p;
  w_close p := (mkTestPeer (queue p) true, Ok tt);
  w_now := with_queue w_now;
}.
#[export] Instance peering : Peering Relay TestPeer := {
  peer_new w := (w, Ok (mkTestPeer Runtime.Sample.server_queue false));
  create_data_channel _ p := (p, Ok tt);
  create_offer p := (p, Ok "offer");
  accept_offer _ p := (p, Ok "answer");
  set_remote_answer _ p := (p, Ok tt);
  wait_connected p := (p, Ok tt);
  wait_channel_open p := (p, Ok tt);
  parse_offer := Ok;
  parse_answer := Ok;
}.

Definition parse (_ : string) : Result string Url :=
  Ok (mkUrl "wss" "" None (Some "relay.example") (Some 443) (Some 443) "/" None None).
Definition accept (relayed : Relay) : Ended Relay TestPeer (ServerSession TestPeer) :=
  accept_server_session parse "wss://relay.example/" device pin PublicOnly (from_secs 15) 3 relayed.
End Sample.
Import Sample.

(** An answer for another client ends the setup with an error, but the peer that
    was made for it is dropped without being closed. *)
Theorem mismatched_answer_leaves_peer_open :
  let ended := Sample.accept ["1"; "2"; "5"] in
  is_ok (end_result ended) = false
  /\ (Sample.closed <$> end_peer ended) = Some false.
Proof. vm_compute. done. Qed.

Lemma challenge_answered_once_witness :
  let fp := fingerprint_for_sdp "answer" in
  (validate_and_consume (challenge_new uuid) device encrypted pin fp).2 = Ok tt /\
  let c := (validate_and_consume (challenge_new uuid) device "" pin fp).1 in
  is_ok (validate_and_consume c device encrypted pin fp).2 = false.
Proof.
  cbv zeta.
  pose proof (challenge_answered_once device [] uuid pin (fingerprint_for_sdp "answer") encrypted)
    as Hc.
  destruct Hc as [H1 H2]; try (vm_compute; reflexivity).
  - eexists. split; vm_compute; reflexivity.
  - split; [exact H1|]. exact (H2 "" pin (fingerprint_for_sdp "answer") encrypted).
Defined.

Lemma server_session_authenticated_witness :
  exists s, end_result (Sample.accept ["1"; "2"; "4"]) = Ok s /\
    rt_state (server_runtime s) = Ready /\ last_auth_pin (server_runtime s) = Some pin.
Proof.
  destruct (end_result (Sample.accept ["1"; "2"; "4"])) as [s|e] eqn:E.
  - exists s. split; [reflexivity|].
    destruct (server_session_authenticated _ _ _ _ _ _ _ _ _ E) as (H1 & H2 & _).
    exact (conj H1 H2).
  - vm_compute in E. discriminate E.
Defined.
