(* ===== verification/Dispatch.v ===== *)
(** * Serving and using an authenticated session

    The second half of [src/src/signaling/orchestration.rs]: the dispatcher that
    serves shell and file streams of a session one at a time, and the client side
    of both. The state is the session's runtime, the machine it runs on and the
    telemetry collector; a result is a value, a panic, or [Starved] when the fuel
    of a receive loop ran out. *)
From S2P Require Import Prelude Errors Telemetry External Paths Swsp Streams Session Peer Wire Shell.
From S2P Require Import FileTransfer FileService Runtime.

(** ** The machine *)

(** What the process does on its machine, besides the calls of [FileSys]. A
    child process may change the machine; [run_child] gives how it started, what
    its pipes delivered and how it ended; [file_timer] tells when the timeout of a
    file operation comes first. *)
Class Machine (M : Type) := {
  machine_files :: FileSys M;
  run_child : string -> ShellCommand -> M ->
    M * (Result IoError unit * list (Pipe * Result IoError (list byte)) * ChildEnd);
  process_id : M -> Z;
  next_temp : M -> M * Z;
  file_timer : M -> option nat;
  span_reading : M -> M * Reading;
  span_clock : M -> M * Z;
  print : list byte -> M -> M * Result IoError unit;
  read_local : string -> M -> M * Result IoError (list byte);
  create_local_dirs : string -> M -> M * Result IoError unit;
  write_local : string -> list byte -> M -> M * Result IoError unit;
}.

Record Host (P M : Type) := mkHost {
  rt : SessionRuntime P;
  machine : M;
  spans : SpanCollector;
}.
Arguments mkHost {P M} _ _ _.
Arguments rt {P M} _.
Arguments machine {P M} _.
Arguments spans {P M} _.

Inductive Outcome (A : Type) := Done (r : BResult A) | Panicked | Starved.
Arguments Done {A} _.
Arguments Panicked {A}.
Arguments Starved {A}.

Section host.
Context {P M : Type} `{World P} `{Machine M} `{ControlCodec} `{StreamCodec}.
Context `{Prost stream.FileInfo} `{Prost stream.FileList}.
Context `{Sha2} `{Subtle} `{WireDebug} `{RustFmt}.

Definition HM (A : Type) : Type := Host P M -> Host P M * Outcome A.
Definition retH {A} (a : A) : HM A := fun h => (h, Done (Ok a)).
Definition failH {A} (e : BlnkError) : HM A := fun h => (h, Done (Err e)).
Definition bindH {A B} (c : HM A) (k : A -> HM B) : HM B :=
  fun h => match c h with
           | (h, Done (Ok a)) => k a h
           | (h, Done (Err e)) => (h, Done (Err e))
           | (h, Panicked) => (h, Panicked)
           | (h, Starved) => (h, Starved)
           end.
(** The outcome of [c] as a value: [match c { .. }] on its result. *)
Definition tryH {A} (c : HM A) : HM (BResult A) :=
  fun h => match c h with
           | (h, Done r) => (h, Done (Ok r))
           | (h, Panicked) => (h, Panicked)
           | (h, Starved) => (h, Starved)
           end.
Definition liftH {A} (r : BResult A) : HM A := fun h => (h, Done r).
Definition on_rt {A} (c : SM (SessionRuntime P) BlnkError A) : HM A :=
  fun h => let '(rt', r) := c (rt h) in (mkHost rt' (machine h) (spans h), Done r).
Definition on_machine {A} (c : M -> M * A) : HM A :=
  fun h => let '(m, a) := c (machine h) in (mkHost (rt h) m (spans h), Done (Ok a)).
Definition on_io {A} (c : M -> M * Result IoError A) : HM A :=
  bindH (on_machine c) (fun r => liftH (map_err ErrIo r)).

Notation "'let^' x ':=' c 'in' k" := (bindH c (fun x => k))
  (at level 10, x pattern, c at level 100, k at level 200).
Notation "'do^' c 'in' k" := (bindH c (fun _ => k))
  (at level 10, c at level 100, k at level 200).

(** [println!] panics when the text cannot be written. *)
Definition println (s : string) : HM unit :=
  fun h => let '(m, r) := print (as_bytes s ++ [x0a]) (machine h) in
           (mkHost (rt h) m (spans h), match r with Ok _ => Done (Ok tt) | Err _ => Panicked end).

(** ** Telemetry around a stream *)

Definition start_span (name : string) (kind : SpanKind) (stream : Z) : HM (option TelemetrySpan) :=
  let^ reading := on_machine span_reading in
  fun h => (h, Done (Ok (start_child (spans h) name kind stream reading))).
Definition finish_span {A} (span : option TelemetrySpan) (r : BResult A) : HM unit :=
  let^ now := on_machine span_clock in
  fun h => (mkHost (rt h) (machine h)
              (finish_child span (is_ok r)
                 match r with Ok _ => None | Err e => Some (blnk_error_display e) end now (spans h)),
            Done (Ok tt)).
(** A stream's work inside its span; the result is the work's. *)
Definition in_span {A} (name : string) (kind : SpanKind) (stream : Z) (work : HM A) : HM A :=
  let^ span := start_span name kind stream in
  let^ result := tryH work in
  do^ finish_span span result in
  liftH result.

(** ** The server's streams *)

(** [ShellStreamHandler::run] on this machine: the policy is checked before the
    child is started. *)
Definition run_command (policy : ShellPolicy) (command : ShellCommand)
    : HM (BResult ShellRunResult) :=
  fun h =>
  match @policy_validate (view (machine h)) policy command with
  | Err e => (h, Done (Ok (Err e)))
  | Ok directory =>
      let '(m, (spawn, chunks, ending)) := run_child directory command (machine h) in
      (mkHost (rt h) m (spans h),
       Done (Ok (@shell_run (view (machine h)) policy command spawn chunks ending)))
  end.

Definition dispatch_shell (id : Z) (command : ShellCommand) (root : string) : HM unit :=
  do^ on_rt (accept_shell_stream id "/") in
  let^ policy := liftH (shell_policy_new root) in
  let^ result := run_command policy command in
  match result with
  | Ok result =>
      do^ if is_nil (stdout result) then retH tt
          else on_rt (send_shell_output id (stdout result) false) in
      do^ if is_nil (stderr result) then retH tt
          else on_rt (send_shell_output id (stderr result) false) in
      on_rt (send_shell_exit id (default (-1) (exit_code result)) (signaled result))
  | Err error => on_rt (send_shell_error id (blnk_error_display error))
  end.

(** The frames of an upload, up to the one with FIN. *)
Fixpoint receive_body (fuel : nat) (id : Z) (frames : list Frame) : HM (list Frame) :=
  match fuel with
  | O => fun h => (h, Starved)
  | S fuel =>
      let^ frame := on_rt recv_file_frame in
      if negb (stream_id frame =? id)
      then failH (ErrProtocol ("file stream " +:+ dec id +:+ " received frame for stream "
                               +:+ dec (stream_id frame)))
      else if is_fin (flags frame) then retH (frames ++ [frame])
      else receive_body fuel id (frames ++ [frame])
  end.

(** [service.execute]; a panic inside it unwinds. *)
Definition run_file_service (config : FileTransferConfig) (request : FileTransferRequest)
    (body : list byte) : HM FileTransferResponse :=
  let^ counter := on_machine next_temp in
  fun h =>
  match execute (file_timer (machine h)) config request body [] (process_id (machine h)) counter
          (machine h) with
  | (m, Some r) => (mkHost (rt h) m (spans h), Done r)
  | (m, None) => (mkHost (rt h) m (spans h), Panicked)
  end.

Fixpoint send_frames (frames : list Frame) : HM unit :=
  match frames with
  | [] => retH tt
  | frame :: frames => do^ on_rt (rt_send_frame frame) in send_frames frames
  end.

Definition file_config (root : string) : HM FileTransferConfig :=
  fun h => (h, Done (@file_config_new (view (machine h)) root)).

Definition dispatch_file (fuel : nat) (id : Z) (request : FileTransferRequest) (root : string)
    : HM unit :=
  do^ on_rt (accept_file_stream id "/") in
  let^ body_frames := if is_put (operation request) then receive_body fuel id [] else retH [] in
  let^ config := file_config root in
  let^ body := if is_put (operation request)
               then liftH (collect_data_frames body_frames (size request) (max_file_size config) [])
               else retH [] in
  let^ response := run_file_service config request body in
  let^ frames := liftH (encode_response_frames id response) in
  send_frames frames.

(** ** The dispatcher *)

Inductive Next := Continue | Stop.

(** One frame of the loop, after it was received. *)
Definition serve_frame (fuel : nat) (root : string) (frame : Frame) : HM Next :=
  if stream_id frame =? 0 then
    if is_fin (flags frame) then retH Stop
    else failH (ErrProtocol "unexpected control frame after session handshake")
  else if is_fin (flags frame) then
    fun h =>
    (if is_some (stream_kind (rt h) (stream_id frame))
     then do^ on_rt (rt_close_stream (stream_id frame)) in retH Continue
     else failH (ErrStream ("FIN for unknown stream id: " +:+ dec (stream_id frame)))) h
  else if negb (is_syn (flags frame)) || negb (is_dat (flags frame)) then
    failH (ErrProtocol ("stream " +:+ dec (stream_id frame) +:+ " must start with SYN|DAT"))
  else
    match decode_open_frame frame with
    | Ok command =>
        do^ in_span "stream.shell" Telemetry.Shell (stream_id frame)
              (dispatch_shell (stream_id frame) command root) in
        retH Continue
    | Err _ =>
        match decode_request_frame frame with
        | Ok request =>
            do^ in_span "stream.file" Telemetry.File (stream_id frame)
                  (dispatch_file fuel (stream_id frame) request root) in
            retH Continue
        | Err _ =>
            failH (ErrProtocol ("unknown stream opener for stream " +:+ dec (stream_id frame)))
        end
    end.

(** [cancels] tells, per iteration, whether the shutdown token wins the
    [select!]. *)
Fixpoint serve_loop (fuel : nat) (cancels : list bool) (root : string) : HM unit :=
  match fuel with
  | O => fun h => (h, Starved)
  | S fuel =>
      if default false (head cancels) then retH tt else
      let^ received := tryH (on_rt rt_recv_frame) in
      match received with
      | Err e => if receive_loop_closed e then retH tt else failH e
      | Ok frame =>
          let^ next := serve_frame fuel root frame in
          match next with
          | Stop => retH tt
          | Continue => serve_loop fuel (tail cancels) root
          end
      end
  end.

Definition serve_session_collected (fuel : nat) (cancels : list bool) (root : string) : HM unit :=
  let^ result := tryH (serve_loop fuel cancels root) in
  let^ close_result := tryH (on_rt rt_close) in
  liftH match result with Err error => Err error | Ok _ => close_result end.

(** ** The client's streams *)

Fixpoint shell_client_loop (fuel : nat) (id : Z) : HM Z :=
  match fuel with
  | O => fun h => (h, Starved)
  | S fuel =>
      let^ frame := on_rt recv_shell_frame in
      if is_fin (flags frame) then
        match decode_exit_frame frame with
        | Ok exit =>
            do^ tryH (on_rt (close_shell_stream id)) in retH (stream.code exit)
        | Err _ =>
            let message := match decode_error_frame frame with
                           | Ok error => stream.shell_error_message error
                           | Err _ => "remote shell failed"
                           end in
            do^ tryH (on_rt (close_shell_stream id)) in
            failH (ErrStream ("remote shell error: " +:+ message))
        end
      else
        let^ output := liftH (decode_output_frame frame) in
        do^ on_io (print (stream.output_data output)) in
        shell_client_loop fuel id
  end.

Definition run_shell_client_collected (fuel : nat) (command : ShellCommand) : HM Z :=
  let^ entry := on_rt (open_shell_stream "/") in
  let id := entry_id entry in
  let^ span := start_span "stream.shell" Telemetry.Shell id in
  do^ on_rt (send_shell_open id command) in
  let^ result := tryH (shell_client_loop fuel id) in
  do^ finish_span span result in
  liftH result.

(** [source.strip_prefix("remote:")]. *)
Definition REMOTE : string := "remote:".
Definition strip_remote (source : string) : option string := strip_prefix REMOTE source.

(** The chunks with their index; the last one is marked final. *)
Fixpoint send_chunks (id : Z) (index : Z) (total : Z) (cs : list (list byte)) : HM unit :=
  match cs with
  | [] => retH tt
  | chunk :: cs =>
      do^ on_rt (send_file_chunk id chunk ((index + 1) * DEFAULT_MAX_PAYLOAD_LEN >=? total)) in
      send_chunks id (index + 1) total cs
  end.
Definition send_upload (id : Z) (upload : list byte) : HM unit :=
  if is_nil upload then on_rt (send_file_chunk id [] true)
  else send_chunks id 0 (zlen upload) (chunks FRAME_DATA upload).

Fixpoint receive_response (fuel : nat) (request : FileTransferRequest) (metadata_seen : bool)
    (received : list byte) : HM (list byte) :=
  match fuel with
  | O => fun h => (h, Starved)
  | S fuel =>
      let^ frame := on_rt recv_file_frame in
      let^ received :=
        if negb metadata_seen then
          let^ metadata := liftH (decode_response_metadata request frame) in
          do^ match metadata with
              | Download info _ =>
                  println ("received=" +:+ stream.info_name info +:+ " bytes="
                           +:+ dec (stream.info_size info))
              | _ => retH tt
              end in
          retH received
        else if is_get (operation request) then retH (received ++ payload frame)
        else retH received in
      if is_fin (flags frame) then retH received
      else receive_response fuel request true received
  end.

Definition save_download (destination : string) (received : list byte) : HM unit :=
  do^ match path_parent destination with
      | Some parent => if str_is_empty parent then retH tt else on_io (create_local_dirs parent)
      | None => retH tt
      end in
  on_io (write_local destination received).

Definition run_file_client_collected (fuel : nat) (source destination : string) (overwrite : bool)
    : HM unit :=
  let^ (request, upload, local) :=
    match strip_remote source with
    | Some remote_path =>
        let^ request := liftH (request_get remote_path None) in
        retH (request, [], Some destination)
    | None =>
        let^ data := on_io (read_local source) in
        retH (request_put destination (zlen data) overwrite, data, None)
    end in
  let^ entry := on_rt (open_file_stream "/") in
  let id := entry_id entry in
  in_span "stream.file" Telemetry.File id
    (do^ on_rt (send_file_request id request) in
     do^ if is_put (operation request) then send_upload id upload else retH tt in
     let^ received := receive_response fuel request false [] in
     do^ match local with
         | Some destination =>
             do^ save_download destination received in
             println ("copied " +:+ source +:+ " -> " +:+ destination)
         | None =>
             println ("copied " +:+ source +:+ " -> remote:" +:+ destination)
         end in
     do^ on_rt (close_file_stream id) in retH tt).
End host.

(** ** Teardown *)

Section teardown.
Context {P M : Type} `{World P} `{Machine M} `{ControlCodec} `{StreamCodec}.
Context `{Prost stream.FileInfo} `{Prost stream.FileList}.
Context `{Sha2} `{Subtle} `{WireDebug} `{RustFmt}.
Implicit Types h : Host P M.

Lemma rt_close_session (r : SessionRuntime P) :
  session (rt_close r).1 = session_close (session r).
Proof.
  unfold rt_close.
  match goal with |- context [let '(_, _) := ?x in _] =>
    assert (Hx : session x.1 = session r); [|destruct x as [r1 res]] end.
  { case_match; [|done]. unfold on_world. by destruct (w_send _ _). }
  cbn in Hx. unfold on_world. destruct (is_ok res); cbn; destruct (w_close _); cbn; by rewrite Hx.
Qed.

Lemma session_close_streams s : active_streams (session_close s) = 0.
Proof. unfold active_streams, session_close. cbn. unfold registry_len. cbn. by rewrite map_size_empty. Qed.

(** However serving ends (cancelled, closed by the peer, a protocol error, a
    failing command or transfer), the session is closed afterwards and has no
    open stream; an error of the loop is reported before one of the closing. *)
Theorem serving_tears_down fuel cancels root h h' r :
  serve_session_collected fuel cancels root h = (h', Done r) ->
  rt_state (rt h') = Closed /\ active_streams (session (rt h')) = 0 /\
  (forall h1 e, serve_loop fuel cancels root h = (h1, Done (Err e)) -> r = Err e).
Proof.
  unfold serve_session_collected, bindH, tryH, liftH, on_rt.
  destruct (serve_loop fuel cancels root h) as [h1 [res| |]]; [|done..].
  pose proof (rt_close_session (rt h1)) as Hs. destruct (rt_close (rt h1)) as [r1 close]. cbn in Hs.
  intros Hr. simplify_eq. unfold rt_state. cbn. rewrite Hs. split; [done|].
  split; [apply session_close_streams|]. intros h2 e Heq. by simplify_eq.
Qed.

(** ** Nothing runs before the session is ready *)

(** The machine is only asked for the time and fresh span identifiers. *)
Inductive only_clocks : M -> M -> Prop :=
| OcRefl m : only_clocks m m
| OcReading m m' : only_clocks (span_reading m).1 m' -> only_clocks m m'
| OcClock m m' : only_clocks (span_clock m).1 m' -> only_clocks m m'.

Lemma only_clocks_trans m1 m2 m3 : only_clocks m1 m2 -> only_clocks m2 m3 -> only_clocks m1 m3.
Proof. induction 1; eauto using only_clocks. Qed.

(** A computation on a session that is not ready leaves it so and touches
    nothing on the machine. *)
Definition inert {A} (c : HM (P := P) (M := M) A) : Prop :=
  forall h, rt_state (rt h) <> Ready ->
    rt_state (rt (c h).1) <> Ready /\ only_clocks (machine h) (machine (c h).1).

Lemma inert_bind {A B} (c : HM A) (k : A -> HM B) :
  inert c -> (forall a, inert (k a)) -> inert (bindH c k).
Proof.
  intros Hc Hk h Hr. unfold bindH. specialize (Hc h Hr). destruct (c h) as [h1 [[a|e]| |]]; cbn in *;
    try done. destruct Hc as [Hr1 Hm]. destruct (Hk a h1 Hr1). eauto using only_clocks_trans.
Qed.

Lemma inert_try {A} (c : HM A) : inert c -> inert (tryH c).
Proof. intros Hc h Hr. unfold tryH. specialize (Hc h Hr). by destruct (c h) as [h1 [?| |]]. Qed.

Lemma inert_pure {A} (o : Outcome A) : inert (fun h => (h, o)).
Proof. intros h Hr. split; [done|constructor]. Qed.

(** Methods of the runtime that do not make the session ready. *)
Lemma inert_rt {A} (c : SM (SessionRuntime P) BlnkError A) :
  (forall r, rt_state r <> Ready -> rt_state (c r).1 <> Ready) -> inert (on_rt c).
Proof.
  intros Hc h Hr. unfold on_rt. specialize (Hc (rt h) Hr). destruct (c (rt h)). cbn in *.
  split; [done|constructor].
Qed.

Lemma accept_not_ready (r : SessionRuntime P) id kind path :
  rt_state r <> Ready ->
  exists e, on_session (fun s => accept_stream s id kind path) r = (r, Err e).
Proof.
  intros Hr. unfold on_session, accept_stream. unfold rt_state in Hr.
  rewrite bool_decide_eq_false_2 by done. cbn. exists (ErrSession ("cannot accept stream from " +:+ state_debug (state (session r)))). by destruct r.
Qed.

(** A stream is accepted before anything else is done for it. *)
Lemma inert_accept {A} kind id path (k : StreamEntry -> HM A) :
  inert (bindH (on_rt (on_session (fun s => accept_stream s id kind path))) k).
Proof.
  intros h Hr. unfold bindH, on_rt.
  destruct (accept_not_ready (rt h) id kind path Hr) as [e ->]. split; [done|constructor].
Qed.

Lemma inert_start name kind stream : inert (start_span name kind stream).
Proof.
  apply inert_bind; [|intros reading h Hr; split; [done|constructor]].
  intros h Hr. unfold on_machine. destruct (span_reading (machine h)) as [m x] eqn:E. cbn.
  split; [done|]. apply OcReading. rewrite E. constructor.
Qed.

Lemma inert_finish {A} span (r : BResult A) : inert (finish_span span r).
Proof.
  apply inert_bind; [|intros now h Hr; split; [done|constructor]].
  intros h Hr. unfold on_machine. destruct (span_clock (machine h)) as [m x] eqn:E. cbn.
  split; [done|]. apply OcClock. rewrite E. constructor.
Qed.

Lemma inert_span {A} name kind stream (c : HM A) : inert c -> inert (in_span name kind stream c).
Proof.
  intros Hc. apply inert_bind; [apply inert_start|intros span].
  apply inert_bind; [by apply inert_try|intros result].
  apply inert_bind; [apply inert_finish|intros _; apply inert_pure].
Qed.

Lemma inert_close id : inert (on_rt (rt_close_stream id)).
Proof.
  apply inert_rt. intros r Hr. unfold rt_close_stream, on_session, close_stream. cbn.
  destruct (Streams.close _ _) as [reg res]. unfold rt_state in *. by destruct res.
Qed.

Lemma inert_serve_frame fuel root frame : inert (serve_frame fuel root frame).
Proof.
  unfold serve_frame. destruct (stream_id frame =? 0); [destruct (is_fin _); apply inert_pure|].
  destruct (is_fin (flags frame)).
  { intros h Hr. destruct (is_some _); [|by apply inert_pure].
    revert h Hr. apply inert_bind; [apply inert_close|intros; apply inert_pure]. }
  destruct (negb _ || negb _); [apply inert_pure|].
  destruct (decode_open_frame frame); [|destruct (decode_request_frame frame); [|apply inert_pure]];
    (apply inert_bind; [|intros; apply inert_pure]); apply inert_span, inert_accept.
Qed.

Lemma inert_serve_loop fuel cancels root : inert (serve_loop fuel cancels root).
Proof.
  revert cancels. induction fuel as [|fuel IH]; intros cancels; cbn [serve_loop]; [apply inert_pure|].
  destruct (default false (head cancels)); [apply inert_pure|].
  apply inert_bind; [apply inert_try, inert_rt|intros [frame|e]].
  - intros r Hr. unfold rt_recv_frame, on_world. by destruct (w_recv _).
  - apply inert_bind; [apply inert_serve_frame|]. intros []; [apply IH|apply inert_pure].
  - destruct (receive_loop_closed e); apply inert_pure.
Qed.

(** C11: Until the session is ready, that is until the handshake has accepted the
    PIN, the dispatcher starts no command and touches no file, whatever frames
    the peer sends: the machine is at most asked for the time. *)
Theorem nothing_runs_before_ready fuel cancels root h :
  rt_state (rt h) <> Ready ->
  only_clocks (machine h) (machine (serve_session_collected fuel cancels root h).1).
Proof.
  intros Hr. unfold serve_session_collected.
  refine (proj2 ((_ : inert _) h Hr)).
  apply inert_bind; [apply inert_try, inert_serve_loop|intros res].
  apply inert_bind; [apply inert_try, inert_rt|intros; apply inert_pure].
  intros r _. unfold rt_state. by rewrite rt_close_session.
Qed.
End teardown.

(** ** Files cross the session unchanged

    Both ends over peers that deliver a queue of frames. *)

Section transfer.
Context {M : Type} `{Machine M} `{ControlCodec} `{StreamCodec}.
Context `{Prost stream.FileInfo} `{Prost stream.FileList}.
Context `{Sha2} `{Subtle} `{WireDebug} `{RustFmt}.
Implicit Types h : Host Queue M.

Definition with_world h (q : Queue) : Host Queue M :=
  mkHost (set_world (rt h) q) (machine h) (spans h).
(** [frames] sent, and [frames] taken from the front of the queue. *)
Definition push h (frames : list Frame) : Host Queue M :=
  let q := world (rt h) in with_world h (mkQueue (inbox q) (trace q ++ (Sent <$> frames)) (times q)).
Definition left h (frames rest : list Frame) : Host Queue M :=
  let q := world (rt h) in with_world h (mkQueue rest (trace q ++ (Got <$> frames)) (times q)).

Lemma push_nil h : push h [] = h.
Proof. unfold push, with_world. rewrite app_nil_r. by destruct h as [[[] ? ? ? ? ? ? ? ?] ? ?]. Qed.

Lemma push_push h l k : push (push h l) k = push h (l ++ k).
Proof. unfold push, with_world. cbn. by rewrite fmap_app, <- app_assoc. Qed.

Lemma left_left h a b k rest : left (left h a k) b rest = left h (a ++ b) rest.
Proof. unfold left, with_world. cbn. by rewrite fmap_app, <- app_assoc. Qed.

(** The stream [id] is an open file stream of a ready session. *)
Definition file_stream_open h (id : Z) : Prop :=
  id <> 0 /\ ensure_file_stream id (rt h) = (rt h, Ok tt).

Lemma push_open h l id : file_stream_open h id -> file_stream_open (push h l) id.
Proof.
  intros [Hid He]. split; [done|]. revert He. unfold ensure_file_stream, ensure_stream. cbn.
  intros He. injection He as He. f_equal. exact He.
Qed.

Lemma send_chunk h id data (final : bool) :
  file_stream_open h id -> zlen data <= DEFAULT_MAX_PAYLOAD_LEN ->
  on_rt (send_file_chunk id data final) h
  = (push h [mkFrame id (if final then DAT |: FIN else DAT |: MORE) data], Done (Ok tt)).
Proof.
  intros [Hid He] Hlen. unfold on_rt, send_file_chunk, bindS. rewrite He.
  unfold send_built, bindS, liftS, encode_data_frame. rewrite (proj2 (Z.eqb_neq id 0)) by done.
  rewrite encode_default_Ok by done. cbn [map_err]. unfold on_world. by rewrite send_fits.
Qed.

(** The frames of an upload. *)
Definition upload_frames (id : Z) (data : list byte) : list Frame :=
  if is_nil data then [mkFrame id (DAT |: FIN) []]
  else let cs := chunks FRAME_DATA data in data_frames id (length cs) 0 cs.

Lemma FRAME_DATA_Z : Z.of_nat FRAME_DATA = DEFAULT_MAX_PAYLOAD_LEN.
Proof. reflexivity. Qed.

Lemma FRAME_DATA_pos : (0 < FRAME_DATA)%nat.
Proof. apply Nat2Z.inj_lt. rewrite FRAME_DATA_Z. done. Qed.

Opaque FRAME_DATA.

(** The client's test for the last chunk is the server's. *)
Lemma send_chunks_frames fuel id index i total rest h :
  file_stream_open h id -> (length rest <= fuel)%nat -> index = Z.of_nat i ->
  total = index * DEFAULT_MAX_PAYLOAD_LEN + zlen rest ->
  let cs := chunks_aux fuel FRAME_DATA rest in
  send_chunks id index total cs h
  = (push h (data_frames id (i + length cs) i cs), Done (Ok tt)).
Proof.
  revert index i rest h. induction fuel as [|fuel IH]; intros index i rest h Ho Hl -> -> cs.
  - destruct rest; [|cbn in Hl; lia]. subst cs. cbn. by rewrite push_nil.
  - destruct rest as [|b rest]; [subst cs; cbn; by rewrite push_nil|].
    pose proof FRAME_DATA_Z as HF. pose proof FRAME_DATA_pos.
    set (r := b :: rest) in *. subst cs. change (chunks_aux (S fuel) FRAME_DATA r)
      with (take FRAME_DATA r :: chunks_aux fuel FRAME_DATA (drop FRAME_DATA r)).
    set (tail := chunks_aux fuel FRAME_DATA (drop FRAME_DATA r)).
    assert (Htail : tail = [] <-> zlen r <= DEFAULT_MAX_PAYLOAD_LEN).
    { unfold tail, zlen. rewrite <- HF. split.
      - intros Hn. destruct (drop FRAME_DATA r) as [|x l] eqn:Ed.
        + apply (f_equal length) in Ed. rewrite length_drop in Ed. cbn [length] in Ed. lia.
        + destruct fuel; [|done]. apply (f_equal length) in Ed. rewrite length_drop in Ed.
          cbn [length] in *. subst r. cbn [length] in *. lia.
      - intros Hle. rewrite drop_ge by lia. by destruct fuel. }
    assert (Hrest : (length (drop FRAME_DATA r) <= fuel)%nat)
      by (rewrite length_drop; cbn [length] in *; lia).
    cbn [send_chunks data_frames length]. unfold bindH.
    rewrite send_chunk; [|done|unfold zlen; rewrite length_take, <- HF; lia].
    assert (Hfinal : ((Z.of_nat i + 1) * DEFAULT_MAX_PAYLOAD_LEN
                      >=? Z.of_nat i * DEFAULT_MAX_PAYLOAD_LEN + zlen r)
                     = bool_decide (S i = i + S (length tail))%nat).
    { rewrite Z.geb_leb. apply eq_true_iff_eq. rewrite Z.leb_le, bool_decide_eq_true.
      assert (Hz : length tail = 0%nat <-> tail = []) by (by destruct tail).
      rewrite <- Hz in Htail. split; lia. }
    rewrite Hfinal.
    replace (i + S (length tail))%nat with (S i + length tail)%nat by lia.
    destruct (decide (zlen r <= DEFAULT_MAX_PAYLOAD_LEN)) as [Hle|Hgt].
    { rewrite (proj2 Htail Hle). done. }
    unfold tail. rewrite (IH _ (S i)); [|by apply push_open|done|lia|].
    + rewrite push_push. done.
    + unfold zlen in *. rewrite length_drop. lia.
Qed.

Lemma send_upload_frames id data h :
  file_stream_open h id ->
  send_upload id data h = (push h (upload_frames id data), Done (Ok tt)).
Proof.
  intros Ho. unfold send_upload, upload_frames. destruct (is_nil data) eqn:Hn.
  - by apply (send_chunk h id [] true).
  - apply (send_chunks_frames (length data) id 0 0 (zlen data) data h); [done..|lia].
Qed.

(** Frames of the stream [id] up to one with FIN. *)
Inductive body_of (id : Z) : list Frame -> Prop :=
| BodyLast f : stream_id f = id -> is_fin (flags f) = true -> body_of id [f]
| BodyMore f l : stream_id f = id -> is_fin (flags f) = false -> body_of id l -> body_of id (f :: l).

Lemma data_frames_body id count index cs :
  cs <> [] -> (index + length cs = count)%nat -> body_of id (data_frames id count index cs).
Proof.
  revert index. induction cs as [|c cs IH]; intros index Hne Hc; [done|]. cbn [data_frames].
  destruct cs as [|c' cs].
  - rewrite bool_decide_eq_true_2 by (cbn in Hc; lia). by apply BodyLast.
  - rewrite bool_decide_eq_false_2 by (cbn in Hc; lia). apply BodyMore; [done..|].
    apply IH; [done|]. cbn in *. lia.
Qed.

Lemma upload_frames_body id data : body_of id (upload_frames id data).
Proof.
  unfold upload_frames. destruct (is_nil data) eqn:Hn; [by apply BodyLast|].
  apply data_frames_body; [|done]. rewrite chunks_nil_iff; [by intros ->|apply FRAME_DATA_pos].
Qed.

Lemma recv_file h f rest :
  stream_id f <> 0 -> inbox (world (rt h)) = f :: rest ->
  on_rt recv_file_frame h = (left h [f] rest, Done (Ok f)).
Proof.
  intros Hid Hin. unfold on_rt, recv_file_frame, bindS, on_world. cbn. rewrite Hin.
  rewrite (proj2 (Z.eqb_neq _ _)) by done. done.
Qed.

(** The end of the session is handed on as a frame too. *)
Lemma recv_session_end h rest :
  inbox (world (rt h)) = mkFrame CONTROL_STREAM_ID FIN [] :: rest ->
  on_rt recv_file_frame h = (left h [mkFrame CONTROL_STREAM_ID FIN []] rest, Done (Ok (mkFrame CONTROL_STREAM_ID FIN []))).
Proof. intros Hin. unfold on_rt, recv_file_frame, bindS, on_world. cbn. by rewrite Hin. Qed.

Lemma receive_body_frames id fuel frames acc rest h :
  id <> 0 -> body_of id frames -> (length frames <= fuel)%nat ->
  inbox (world (rt h)) = frames ++ rest ->
  receive_body fuel id acc h = (left h frames rest, Done (Ok (acc ++ frames))).
Proof.
  intros Hid Hb. revert fuel acc h. induction Hb as [f Hf Hfin|f l Hf Hfin Hl IH];
    intros fuel acc h Hfuel Hin; (destruct fuel as [|fuel]; [cbn in Hfuel; lia|]);
    cbn [receive_body]; unfold bindH; rewrite (recv_file h f _ ltac:(congruence) Hin);
    rewrite Hf, Z.eqb_refl, Hfin; cbn [negb].
  - done.
  - rewrite IH; [|cbn in Hfuel; lia|done]. by rewrite left_left, <- app_assoc.
Qed.

(** The frames of an upload collect to the file. *)
Lemma collect_upload id data max :
  id <> 0 -> zlen data <= max ->
  collect_data_frames (upload_frames id data) (zlen data) max [] = Ok data.
Proof.
  intros Hid Hmax. unfold collect_data_frames. rewrite Z.gtb_ltb, (proj2 (Z.ltb_ge _ _)) by lia.
  unfold upload_frames. destruct (is_nil data) eqn:Hn.
  - destruct data; [|done]. cbn. by rewrite (proj2 (Z.eqb_neq id 0)) by done.
  - rewrite <- (app_nil_r (data_frames _ _ _ _)).
    rewrite collect_loop_chunks; rewrite ?chunks_concat by apply FRAME_DATA_pos.
    + cbn [app negb]. by rewrite Z.eqb_refl.
    + done.
    + rewrite chunks_nil_iff; [by intros ->|apply FRAME_DATA_pos].
    + done.
    + rewrite zlen_nil. lia.
Qed.

(** An upload crosses the session unchanged: the frames the client sends for
    a file are taken by the device's receive loop up to the last one and nothing
    further, and collect to exactly the file, for every size from empty to the
    limit. *)
Theorem upload_crosses_session id data (client server : Host Queue M) rest fuel max :
  file_stream_open client id -> zlen data <= max ->
  (length (upload_frames id data) <= fuel)%nat ->
  inbox (world (rt server)) = upload_frames id data ++ rest ->
  send_upload id data client = (push client (upload_frames id data), Done (Ok tt)) /\
  receive_body fuel id [] server = (left server (upload_frames id data) rest, Done (Ok (upload_frames id data))) /\
  collect_data_frames (upload_frames id data) (zlen data) max [] = Ok data.
Proof.
  intros Ho Hmax Hfuel Hin. split; [by apply send_upload_frames|]. split.
  - apply (receive_body_frames id fuel (upload_frames id data) []);
      [apply Ho|apply upload_frames_body|done|done].
  - apply collect_upload; [apply Ho|done].
Qed.

(** ** Downloads *)

(** Data after the metadata, up to FIN. *)
Lemma receive_data fuel request id frames acc rest h :
  id <> 0 -> operation request = Get -> body_of id frames -> (length frames <= fuel)%nat ->
  inbox (world (rt h)) = frames ++ rest ->
  receive_response fuel request true acc h
  = (left h frames rest, Done (Ok (acc ++ concat (payload <$> frames)))).
Proof.
  intros Hid Hget Hb. revert fuel acc h. induction Hb as [f Hf Hfin|f l Hf Hfin Hl IH];
    intros fuel acc h Hfuel Hin; (destruct fuel as [|fuel]; [cbn in Hfuel; lia|]);
    cbn [receive_response]; unfold bindH; rewrite (recv_file h f _ ltac:(congruence) Hin);
    cbn [negb]; rewrite Hget, Hfin; change (is_get Get) with true; unfold retH; cbv iota;
    rewrite fmap_cons; cbn [concat].
  - by rewrite app_nil_r.
  - rewrite IH; [|cbn in Hfuel; lia|done]. by rewrite left_left, <- app_assoc.
Qed.

Lemma data_frames_payload id count index cs : payload <$> data_frames id count index cs = cs.
Proof. revert index. induction cs as [|c cs IH]; intros index; cbn; [done|]. by rewrite IH. Qed.

(** The metadata frame: its text is printed, the loop goes on unless FIN. *)
Lemma receive_metadata fuel request f info rest h m :
  operation request = Get -> stream_id f <> 0 -> is_dat (flags f) = true ->
  is_syn (flags f) = false -> prost_decode (payload f) = Ok info ->
  print (as_bytes ("received=" +:+ stream.info_name info +:+ " bytes="
                   +:+ dec (stream.info_size info)) ++ [x0a]) (machine h) = (m, Ok tt) ->
  inbox (world (rt h)) = f :: rest ->
  receive_response (S fuel) request false [] h
  = let h' := mkHost (rt (left h [f] rest)) m (spans h) in
    if is_fin (flags f) then (h', Done (Ok [])) else receive_response fuel request true [] h'.
Proof.
  intros Hget Hid Hdat Hsyn Hdec Hprint Hin. cbn [receive_response]. unfold bindH at 1.
  rewrite (recv_file h f _ Hid Hin). cbn [negb]. unfold bindH, liftH, decode_response_metadata.
  rewrite (proj2 (Z.eqb_neq _ _) Hid), Hdat, Hsyn, Hget, Hdec. cbn [negb orb map_ok map_err].
  unfold println. change (machine (left h [f] rest)) with (machine h). rewrite Hprint.
  by destruct (is_fin (flags f)).
Qed.

(** A download crosses the session unchanged: from the frames the device
    builds for a file, empty or not, the client's receive loop gives exactly the
    file's bytes and stops at the last frame. *)
Theorem download_crosses_session id info data request (client : Host Queue M) m frames rest fuel :
  id <> 0 -> operation request = Get -> prost_roundtrips info ->
  encode_response_frames id (Download info data) = Ok frames ->
  print (as_bytes ("received=" +:+ stream.info_name info +:+ " bytes="
                   +:+ dec (stream.info_size info)) ++ [x0a]) (machine client) = (m, Ok tt) ->
  inbox (world (rt client)) = frames ++ rest -> (length frames <= fuel)%nat ->
  receive_response fuel request false [] client
  = (mkHost (rt (left client frames rest)) m (spans client), Done (Ok data)).
Proof.
  intros Hid Hget Hinfo Henc Hprint Hin Hfuel. unfold encode_response_frames in Henc.
  rewrite (proj2 (Z.eqb_neq id 0)) in Henc by done. apply Ok_inj in Henc. subst frames.
  destruct fuel as [|fuel]; [cbn in Hfuel; lia|].
  set (meta := mkFrame id (if is_nil data then DAT |: FIN else DAT |: MORE) (encode_to_vec info)) in *.
  assert (Hf : is_dat (flags meta) = true /\ is_syn (flags meta) = false) by (by destruct (is_nil data)).
  rewrite (receive_metadata fuel request meta info _ client m Hget Hid (proj1 Hf) (proj2 Hf)
             Hinfo Hprint Hin). subst meta.
  destruct (is_nil data) eqn:Hn; [by destruct data|]. cbv zeta. cbn [flags].
  change (is_fin (DAT |: MORE)) with false. cbv iota.
  rewrite (receive_data _ _ id (data_frames id (length (chunks FRAME_DATA data)) 0
                                  (chunks FRAME_DATA data)) [] rest); [|done|done| | |done].
  - rewrite data_frames_payload, chunks_concat by apply FRAME_DATA_pos.
    unfold left, with_world. cbn. by rewrite <- app_assoc.
  - apply data_frames_body; [|done]. rewrite chunks_nil_iff; [by intros ->|apply FRAME_DATA_pos].
  - cbn [length] in Hfuel. lia.
Qed.

(** The client takes the end of the session for the end of the file: when the
    control stream's FIN arrives after part of the data, the part is returned as
    the download, whatever size the metadata announced. *)
Theorem truncated_download_accepted id request cs acc (client : Host Queue M) rest fuel :
  id <> 0 -> operation request = Get -> (length cs < fuel)%nat ->
  inbox (world (rt client)) = ((fun c => mkFrame id (DAT |: MORE) c) <$> cs)
                              ++ mkFrame CONTROL_STREAM_ID FIN [] :: rest ->
  receive_response fuel request true acc client
  = (left client (((fun c => mkFrame id (DAT |: MORE) c) <$> cs) ++ [mkFrame CONTROL_STREAM_ID FIN []]) rest,
     Done (Ok (acc ++ concat cs))).
Proof.
  intros Hid Hget. revert fuel acc client. induction cs as [|c cs IH]; intros fuel acc h Hf Hin;
    (destruct fuel as [|fuel]; [lia|]); cbn [receive_response]; unfold bindH.
  - rewrite (recv_session_end h rest Hin). cbn [negb]. rewrite Hget.
    change (is_get Get) with true. cbn. by rewrite !app_nil_r.
  - rewrite (recv_file h (mkFrame id (DAT |: MORE) c) _ Hid Hin). cbn [negb]. rewrite Hget.
    cbn [flags payload]. change (is_fin (DAT |: MORE)) with false.
    change (is_get Get) with true. unfold retH. cbv iota.
    rewrite IH; [|cbn in Hf; lia|done]. by rewrite left_left, fmap_cons, <- app_assoc.
Qed.
End transfer.

(** ** Serving a finite peer ends *)

(** A peer that delivers finitely many more frames; sending does not add any. *)
Class FinitePeer (P : Type) `{World P} := {
  remaining : P -> nat;
  recv_fewer : forall p p' f, w_recv p = (p', Ok f) -> (remaining p' < remaining p)%nat;
  recv_error : forall p p' e, w_recv p = (p', Err e) -> (remaining p' <= remaining p)%nat;
  send_same : forall f p, (remaining (w_send f p).1 <= remaining p)%nat;
}.

Section termination.
Context {P M : Type} `{FP : FinitePeer P} `{Machine M} `{ControlCodec} `{StreamCodec}.
Context `{Prost stream.FileInfo} `{Prost stream.FileList}.
Context `{Sha2} `{Subtle} `{WireDebug} `{RustFmt}.
Implicit Types h : Host P M.

Definition pending (r : SessionRuntime P) : nat := remaining (world r).

(** The computation leaves no more frames pending, and with fewer than [n] of
    them it does not run out of fuel. *)
Definition fed (n : nat) {A} (c : HM (P := P) (M := M) A) : Prop :=
  forall h, (pending (rt (c h).1) <= pending (rt h))%nat
            /\ ((pending (rt h) < n)%nat -> (c h).2 <> Starved).

Lemma fed_bind n {A B} (c : HM A) (k : A -> HM B) : fed n c -> (forall a, fed n (k a)) -> fed n (bindH c k).
Proof.
  intros Hc Hk h. unfold bindH. specialize (Hc h) as [Hle Hs].
  destruct (c h) as [h1 [[a|e]| |]]; cbn in *; [|by split..|split; [done|]].
  - destruct (Hk a h1) as [Hle' Hf]. split; [lia|]. intros. apply Hf. lia.
  - intros Hn _. by apply Hs.
Qed.

Lemma bindH_done {A B} (c : HM A) (k : A -> HM B) h h1 a :
  c h = (h1, Done (Ok a)) -> bindH (P := P) (M := M) c k h = k a h1.
Proof. unfold bindH. by intros ->. Qed.

Lemma fed_try n {A} (c : HM A) : fed n c -> fed n (tryH c).
Proof.
  intros Hc h. unfold tryH. specialize (Hc h).
  destruct (c h) as [h1 [r| |]]; cbn in *; (split; [apply Hc|]); try done. intros Hn _. by apply (proj2 Hc).
Qed.

Lemma fed_done n {A} (r : BResult A) : fed n (fun h => (h, Done r)).
Proof. intros h. done. Qed.

Lemma fed_rt n {A} (c : SM (SessionRuntime P) BlnkError A) :
  (forall r, (pending (c r).1 <= pending r)%nat) -> fed n (on_rt c).
Proof. intros Hc h. unfold on_rt. specialize (Hc (rt h)). by destruct (c (rt h)). Qed.

Lemma fed_machine n {A} (c : M -> M * A) : fed n (on_machine c).
Proof. intros h. unfold on_machine. by destruct (c (machine h)). Qed.

(** Methods of the runtime that only receive, send, and use the session. *)
Definition quiet {A} (c : SM (SessionRuntime P) BlnkError A) : Prop :=
  forall r, (pending (c r).1 <= pending r)%nat.

Lemma quiet_bind {A B} (c : SM (SessionRuntime P) BlnkError A) (k : A -> SM _ BlnkError B) :
  quiet c -> (forall a, quiet (k a)) -> quiet (bindS c k).
Proof.
  intros Hc Hk r. unfold bindS. specialize (Hc r). destruct (c r) as [r1 [a|e]]; [|done].
  cbn in Hc. specialize (Hk a r1). lia.
Qed.

Lemma quiet_lift {A} (x : BResult A) : quiet (liftS x).
Proof. intros r. cbn. lia. Qed.

Lemma quiet_session {A} (c : SM Session.Session BlnkError A) : quiet (on_session c).
Proof. intros r. unfold on_session. by destruct (c (session r)). Qed.

Lemma quiet_send f : quiet (on_world (w_send f)).
Proof.
  intros r. unfold on_world, pending. pose proof (send_same f (world r)).
  destruct (w_send f (world r)). cbn in *. lia.
Qed.

Lemma quiet_recv : quiet (on_world w_recv).
Proof.
  intros r. unfold on_world, pending. destruct (w_recv (world r)) as [p [f|e]] eqn:E; cbn.
  - apply recv_fewer in E. lia.
  - by apply recv_error in E.
Qed.

Lemma quiet_ensure kind article id : quiet (ensure_stream kind article id).
Proof. intros r. unfold ensure_stream. cbn. lia. Qed.

Lemma quiet_send_built f : quiet (send_built f).
Proof. apply quiet_bind; [apply quiet_lift|intros; apply quiet_send]. Qed.

Lemma quiet_send_frame f : quiet (rt_send_frame f).
Proof. intros r. unfold rt_send_frame. case_match; [cbn; lia|apply quiet_send]. Qed.

Lemma quiet_recv_file : quiet recv_file_frame.
Proof.
  apply quiet_bind; [apply quiet_recv|intros f]. case_match; [intros r; cbn; lia|].
  apply quiet_bind; [apply quiet_lift|intros m r; cbn; lia].
Qed.

Lemma fed_sent n kind article id frame :
  fed n (on_rt (bindS (ensure_stream kind article id) (fun _ => send_built frame))).
Proof. apply fed_rt, quiet_bind; [apply quiet_ensure|intros; apply quiet_send_built]. Qed.

Lemma fed_span n {A} name kind stream (c : HM A) : fed n c -> fed n (in_span name kind stream c).
Proof.
  intros Hc. apply fed_bind; [|intros span; apply fed_bind; [by apply fed_try|intros res]].
  - apply fed_bind; [apply fed_machine|intros x h; done].
  - apply fed_bind; [|intros _; apply fed_done].
    apply fed_bind; [apply fed_machine|intros x h; done].
Qed.

Lemma fed_dispatch_shell n id command root : fed n (dispatch_shell id command root).
Proof.
  apply fed_bind; [apply fed_rt, quiet_session|intros _].
  apply fed_bind; [apply fed_done|intros policy].
  apply fed_bind.
  - intros h. unfold run_command. destruct (policy_validate _ _); [|done].
    by destruct (run_child _ _ _) as [m [[spawn chunks] ending]].
  - intros [result|e]; [|apply fed_sent].
    apply fed_bind; [destruct (is_nil _); [apply fed_done|apply fed_sent]|intros _].
    apply fed_bind; [destruct (is_nil _); [apply fed_done|apply fed_sent]|intros _].
    apply fed_sent.
Qed.

Lemma fed_receive_body fuel id frames : fed fuel (receive_body fuel id frames).
Proof.
  revert frames. induction fuel as [|fuel IH]; intros frames h; cbn [receive_body]; [split; [done|lia]|].
  unfold bindH, on_rt. pose proof (quiet_recv_file (rt h)) as Hq.
  destruct (recv_file_frame (rt h)) as [r [f|e]] eqn:E; cbn in Hq; [|done].
  assert (Hlt : (pending r < pending (rt h))%nat).
  { unfold recv_file_frame, bindS, on_world in E.
    destruct (w_recv (world (rt h))) as [p [f'|e]] eqn:Ew; [|done]. apply recv_fewer in Ew.
    unfold pending. case_match; [unfold retS in E; by simplify_eq/=|]. unfold liftS in E.
    by destruct (decode_control_frame f'). }
  cbn [rt machine spans]. destruct (negb _); [cbn; split; [lia|done]|].
  destruct (is_fin _); [cbn; split; [lia|done]|].
  destruct (IH (frames ++ [f]) (mkHost r (machine h) (spans h))) as [H1' H2']. cbn in *.
  split; [lia|]. intros. apply H2'. lia.
Qed.

Lemma fed_send_frames n frames : fed n (send_frames frames).
Proof.
  induction frames as [|f frames IH]; cbn [send_frames]; [apply fed_done|].
  apply fed_bind; [apply fed_rt, quiet_send_frame|intros _; apply IH].
Qed.

Lemma fed_dispatch_file fuel id request root : fed fuel (dispatch_file fuel id request root).
Proof.
  apply fed_bind; [apply fed_rt, quiet_session|intros _].
  apply fed_bind; [destruct (is_put _); [apply fed_receive_body|apply fed_done]|intros frames].
  apply fed_bind; [intros h; done|intros config].
  apply fed_bind; [destruct (is_put _); apply fed_done|intros body].
  apply fed_bind; [|intros response; apply fed_bind; [apply fed_done|intros; apply fed_send_frames]].
  apply fed_bind; [apply fed_machine|intros counter h].
  by destruct (execute _ _ _ _ _ _ _ _) as [m [r|]].
Qed.

Lemma fed_serve_frame fuel root frame : fed fuel (serve_frame fuel root frame).
Proof.
  unfold serve_frame. destruct (stream_id frame =? 0); [destruct (is_fin _); apply fed_done|].
  destruct (is_fin (flags frame)).
  { intros h. destruct (is_some _); [|done].
    revert h. apply fed_bind; [apply fed_rt, quiet_session|intros; apply fed_done]. }
  destruct (negb _ || negb _); [apply fed_done|].
  destruct (decode_open_frame frame); [|destruct (decode_request_frame frame); [|apply fed_done]];
    (apply fed_bind; [|intros; apply fed_done]); apply fed_span;
    [apply fed_dispatch_shell|apply fed_dispatch_file].
Qed.

Lemma fed_serve_loop fuel cancels root : fed fuel (serve_loop fuel cancels root).
Proof.
  revert cancels. induction fuel as [|fuel IH]; intros cancels h; cbn [serve_loop]; [split; [done|lia]|].
  destruct (default false (head cancels)); [done|].
  assert (Hrecv : tryH (on_rt rt_recv_frame) h
                  = (mkHost (set_world (rt h) (w_recv (world (rt h))).1) (machine h) (spans h),
                     Done (Ok (w_recv (world (rt h))).2))).
  { unfold tryH, on_rt, rt_recv_frame, on_world. by destruct (w_recv (world (rt h))). }
  rewrite (bindH_done _ _ _ _ _ Hrecv).
  destruct (w_recv (world (rt h))) as [p [frame|e]] eqn:E; cbn [fst snd].
  - apply recv_fewer in E. set (h1 := mkHost (set_world (rt h) p) (machine h) (spans h)).
    assert (Hlt : (pending (rt h1) < pending (rt h))%nat) by exact E.
    assert (Hf : fed fuel (bindH (serve_frame fuel root frame)
                             (fun next => match next with
                                          | Stop => retH tt
                                          | Continue => serve_loop fuel (tail cancels) root
                                          end))).
    { apply fed_bind; [apply fed_serve_frame|]. intros []; [apply IH|apply fed_done]. }
    destruct (Hf h1) as [H1' H2']. split; [lia|]. intros. apply H2'. lia.
  - apply recv_error in E. destruct (receive_loop_closed e); cbn; by split.
Qed.

(** C22: Serving a session with a peer that has finitely many frames left always
    ends, with as much fuel as there are frames: no frame is waited for twice and
    no state of the streams makes the dispatcher loop. *)
Theorem serving_terminates fuel cancels root h :
  (pending (rt h) < fuel)%nat -> (serve_session_collected fuel cancels root h).2 <> Starved.
Proof.
  intros Hlt. pose proof (fed_serve_loop fuel cancels root h) as [_ Hf]. specialize (Hf Hlt).
  unfold serve_session_collected, bindH, tryH, liftH, on_rt.
  destruct (serve_loop fuel cancels root h) as [h1 [r| |]]; [|done..].
  by destruct (rt_close (rt h1)).
Qed.
End termination.

#[export] Instance queue_finite : FinitePeer Queue.
Proof.
  refine {| remaining q := length (inbox q) |}.
  - intros p p' f. cbn. destruct (inbox p) eqn:E; intros; simplify_eq. cbn. lia.
  - intros p p' e. cbn. destruct (inbox p) eqn:E; intros; simplify_eq. by rewrite E.
  - intros f p. cbn. destruct (encode f); cbn; lia.
Defined.

(** ** Concrete runs *)

Module Sample.
#[export] Existing Instances Runtime.Sample.control_codec Runtime.Sample.debug Concrete.subtle
  Concrete.sha2 Concrete.rust_fmt toy_info toy_list Mem.mem_sys.

#[export] Instance stream_codec : StreamCodec := {|
  codec_file_op := proto3_file_op;
  codec_shell_open := Proto3.shell_open;
  codec_shell_input := Proto3.shell_input;
  codec_shell_output := {| encode_to_vec m := Proto3.put_bytes 1 (stream.output_data m);
                           prost_decode _ := Err "unused" |};
  codec_resize := Proto3.resize;
  codec_exit := {| encode_to_vec _ := []; prost_decode _ := Err "unused" |};
  codec_shell_error := {| encode_to_vec _ := []; prost_decode _ := Err "unused" |};
  codec_cancel := Proto3.shell_cancel;
|}.

(** A machine that keeps files in memory and runs every command to an empty
    success. *)
#[export] Instance on_memory : Machine Mem.Mem := {
  run_child _ _ m := (m, (Ok tt, [(Stdout, Ok []); (Stderr, Ok [])], Exited (Some 0) false));
  process_id _ := 7;
  next_temp m := (m, 0);
  file_timer _ := None;
  span_reading m := (m, mkReading 0 0 "trace" "span");
  span_clock m := (m, 0);
  print _ m := (m, Ok tt);
  read_local p m := (m, match Mem.file_at m p with Some d => Ok d | None => Err Mem.not_found end);
  create_local_dirs _ m := (m, Ok tt);
  write_local p d m :=
    (Mem.mkMem (Mem.set_path (Mem.nodes m) p (Some d)) (Mem.rename_works m), Ok tt);
}.

(** A session with the given state whose stream 5 is an open file stream. *)
Definition session_at (st : SessionState) (streams : gmap Z StreamEntry) : Session.Session :=
  Session.mkSession st session_config_default (Some "123456") 0
    (mkRegistry 1 streams 0) stats_default None.
Definition host (st : SessionState) (open : bool) (frames : list Frame) : Host Queue Mem.Mem :=
  mkHost (mkRuntime (mkQueue frames [] [])
            (session_at st (if open then {[5 := mkEntry 5 File "/"]} else ∅))
            Runtime.Sample.server [] true true false None true)
    (Mem.disk true) collector_new.

Definition request : FileTransferRequest := request_put "b" 3 false.
Definition data : list byte := [x07; x08; x09].
Definition upload : list Frame :=
  match encode_request_frame 5 request with
  | Ok f => f :: upload_frames 5 data ++ [mkFrame 5 FIN []; mkFrame 0 FIN []]
  | Err _ => []
  end.
Definition info : stream.FileInfo := stream.mkFileInfo "a" 0 false "" "".
Definition answer : list Frame :=
  match encode_response_frames 5 (Download info data) with Ok l => l | Err _ => [] end.
End Sample.
Import Sample.

(** The frames of an upload, served by a ready session, store the file. *)
Lemma served_upload_stored :
  let '(h, o) := serve_session_collected 10 [] "/srv" (Sample.host Ready false Sample.upload) in
  o = Done (Ok tt) /\ Mem.file_at (machine h) "/srv/b" = Some Sample.data.
Proof. vm_compute. done. Qed.

Lemma serving_tears_down_witness :
  let r := serve_session_collected 10 [] "/srv" (Sample.host Ready false Sample.upload) in
  rt_state (rt r.1) = Closed /\ active_streams (session (rt r.1)) = 0.
Proof.
  cbv zeta.
  destruct (serve_session_collected 10 [] "/srv" (Sample.host Ready false Sample.upload))
    as [h [r| |]] eqn:E; [|vm_compute in E; discriminate E..].
  destruct (serving_tears_down 10 [] "/srv" _ h r E) as (H1 & H2 & _).
  exact (conj H1 H2).
Defined.

Lemma nothing_runs_before_ready_witness :
  let h := Sample.host Authenticating false Sample.upload in
  only_clocks (machine h) (machine (serve_session_collected 10 [] "/srv" h).1).
Proof.
  apply nothing_runs_before_ready. vm_compute. discriminate.
Defined.

Lemma upload_crosses_session_witness :
  let frames := upload_frames 5 Sample.data in
  let client := Sample.host Ready true [] in
  let server := Sample.host Ready true (frames ++ [mkFrame 5 FIN []]) in
  send_upload 5 Sample.data client = (push client frames, Done (Ok tt)) /\
  receive_body 2 5 [] server = (left server frames [mkFrame 5 FIN []], Done (Ok frames)) /\
  collect_data_frames frames (zlen Sample.data) 100 [] = Ok Sample.data.
Proof.
  cbv zeta.
  apply (upload_crosses_session 5 Sample.data (Sample.host Ready true [])
           (Sample.host Ready true (upload_frames 5 Sample.data ++ [mkFrame 5 FIN []]))
           [mkFrame 5 FIN []] 2 100).
  - split; [done|vm_compute; reflexivity].
  - vm_compute. discriminate.
  - vm_compute. repeat constructor.
  - reflexivity.
Defined.

Lemma download_crosses_session_witness :
  let client := Sample.host Ready true (Sample.answer ++ [mkFrame 0 FIN []]) in
  (receive_response 5 (mkRequest Get "a" 0 false None) false [] client).2 = Done (Ok Sample.data).
Proof.
  cbv zeta.
  rewrite (download_crosses_session 5 Sample.info Sample.data (mkRequest Get "a" 0 false None)
             (Sample.host Ready true (Sample.answer ++ [mkFrame 0 FIN []])) (Mem.disk true)
             Sample.answer [mkFrame 0 FIN []] 5);
    [reflexivity|done|done|reflexivity|vm_compute; reflexivity|reflexivity|reflexivity|].
  vm_compute. repeat constructor.
Defined.

Lemma serving_terminates_witness :
  (serve_session_collected 6 [] "/srv" (Sample.host Ready false Sample.upload)).2 <> Starved.
Proof.
  apply serving_terminates. vm_compute. repeat constructor.
Defined.

Lemma truncated_download_accepted_witness :
  let client := Sample.host Ready true [mkFrame 5 (DAT |: MORE) [x07]; mkFrame 0 FIN []] in
  (receive_response 5 (mkRequest Get "a" 0 false None) true [] client).2 = Done (Ok [x07]).
Proof.
  cbv zeta.
  rewrite (truncated_download_accepted 5 (mkRequest Get "a" 0 false None) [[x07]] []
             (Sample.host Ready true [mkFrame 5 (DAT |: MORE) [x07]; mkFrame 0 FIN []]) [] 5);
    [reflexivity|done|done|cbn; lia|reflexivity].
Defined.
