(* ===== verification/Copy.v ===== *)
(** * A file copied from end to end

    The two halves of [src/src/signaling/orchestration.rs] run against each
    other: the file client on one machine and the dispatcher on the other, each
    with the frames the other one sends as its inbox. The code added here is the
    client's run of [cp] in [src/src/main.rs], the copy and then its close; the
    rest is [Dispatch], [FileService], [FileTransfer] and [Runtime]. *)
From S2P Require Import Prelude Errors Telemetry External Paths Swsp Streams Session Peer Wire Shell.
From S2P Require Import FileTransfer FileService Runtime Dispatch.

Section copy.
Context {M : Type} `{Machine M} `{ControlCodec} `{StreamCodec}.
Context `{Prost stream.FileInfo} `{Prost stream.FileList}.
Context `{Sha2} `{Subtle} `{WireDebug} `{RustFmt}.
Implicit Types h : Host Queue M.

(** A host with another session, machine or collector. *)
Definition seated h (s : Session.Session) : Host Queue M :=
  mkHost (set_session (rt h) s) (machine h) (spans h).
Definition on_m h (m : M) : Host Queue M := mkHost (rt h) m (spans h).
Definition spanned h (c : SpanCollector) : Host Queue M := mkHost (rt h) (machine h) c.

(** ** The device *)

Lemma accept_file h id s e :
  accept_stream (session (rt h)) id File "/" = (s, Ok e) ->
  on_rt (accept_file_stream id "/") h = (seated h s, Done (Ok e)).
Proof. intros Ha. unfold on_rt, accept_file_stream, on_session. by rewrite Ha. Qed.

Lemma send_frames_push frames h :
  rt_state (rt h) = Ready -> Forall frame_fits frames ->
  send_frames frames h = (push h frames, Done (Ok tt)).
Proof.
  revert h. induction frames as [|f frames IH]; intros h Hr Hfit; cbn [send_frames].
  - by rewrite push_nil.
  - apply Forall_cons in Hfit as [Hf Hfit].
    unfold bindH, on_rt, rt_send_frame. rewrite bool_decide_eq_true_2 by done. cbn [negb].
    unfold on_world. rewrite send_fits by done.
    change (mkHost _ (machine h) (spans h)) with (push h [f]).
    rewrite IH by done. by rewrite push_push.
Qed.

(** A frame that is too long is refused by the encoder and ends the sending. *)
Lemma send_frames_refused frames f rest h :
  rt_state (rt h) = Ready -> Forall frame_fits frames -> ~ frame_fits f ->
  exists e, send_frames (frames ++ f :: rest) h = (push h frames, Done (Err (ErrProtocol e))).
Proof.
  revert h. induction frames as [|g frames IH]; intros h Hr Hfit Hf; cbn [app send_frames].
  - unfold bindH, on_rt, rt_send_frame. rewrite bool_decide_eq_true_2 by done. cbn [negb].
    unfold on_world. destruct (send_too_long f (world (rt h)) Hf) as [e He]. rewrite He.
    exists e. rewrite push_nil. by destruct h as [[] ? ?].
  - apply Forall_cons in Hfit as [Hg Hfit].
    unfold bindH, on_rt, rt_send_frame. rewrite bool_decide_eq_true_2 by done. cbn [negb].
    unfold on_world. rewrite send_fits by done.
    change (mkHost _ (machine h) (spans h)) with (push h [g]).
    destruct (IH (push h [g])) as [e He]; [done..|]. exists e. by rewrite He, push_push.
Qed.

(** The body of a request: what the client uploads. *)
Definition body_for (id : Z) (request : FileTransferRequest) (max : Z) (frames : list Frame)
    (body : list byte) (fuel : nat) : Prop :=
  if is_put (operation request)
  then body_of id frames /\ (length frames <= fuel)%nat /\
       collect_data_frames frames (size request) max [] = Ok body
  else frames = [] /\ body = [].

Lemma run_service config request body h m' r :
  execute (file_timer (next_temp (machine h)).1) config request body []
    (process_id (next_temp (machine h)).1) (next_temp (machine h)).2 (next_temp (machine h)).1 = (m', Some r) ->
  run_file_service config request body h = (on_m h m', Done r).
Proof.
  intros He. unfold run_file_service, bindH, on_machine.
  destruct (next_temp (machine h)) as [m1 counter]. cbn in He |- *. by rewrite He.
Qed.

Lemma dispatch_file_served fuel id request root frames body rest h s e config m' response out :
  id <> 0 -> accept_stream (session (rt h)) id File "/" = (s, Ok e) ->
  @file_config_new (view (machine h)) root = Ok config ->
  body_for id request (max_file_size config) frames body fuel ->
  inbox (world (rt h)) = frames ++ rest ->
  execute (file_timer (next_temp (machine h)).1) config request body []
    (process_id (next_temp (machine h)).1) (next_temp (machine h)).2 (next_temp (machine h)).1 = (m', Some (Ok response)) ->
  encode_response_frames id response = Ok out -> Forall frame_fits out ->
  dispatch_file fuel id request root h
  = (on_m (push (left (seated h s) frames rest) out) m', Done (Ok tt)).
Proof.
  intros Hid Ha Hc Hb Hin He Ho Hfit. unfold dispatch_file. unfold bindH at 1. rewrite (accept_file h id s e Ha).
  assert (Hs : state s = Ready).
  { revert Ha. unfold accept_stream. case_match eqn:Hr; [done|]. apply negb_false_iff, bool_decide_eq_true in Hr.
    destruct (accept _ _ _ _). intros [= <- _]. exact Hr. }
  unfold body_for in Hb. destruct (is_put (operation request)) eqn:Hp.
  - destruct Hb as (Hb & Hf & Hcol). unfold bindH at 1.
    rewrite (receive_body_frames id fuel frames [] rest (seated h s)) by done. cbn [app].
    unfold bindH at 1, file_config. cbn [machine left with_world seated]. rewrite Hc.
    unfold bindH at 1, liftH. rewrite Hcol.
    unfold bindH at 1. rewrite (run_service config request body _ m' (Ok response)) by done.
    unfold bindH at 1. rewrite Ho. by rewrite send_frames_push.
  - destruct Hb as [-> ->]. unfold bindH at 1, retH at 1.
    unfold bindH at 1, file_config. cbn [machine seated]. rewrite Hc.
    unfold bindH at 1, retH at 1.
    unfold bindH at 1. rewrite (run_service config request [] _ m' (Ok response)) by done.
    unfold bindH at 1, liftH. rewrite Ho. rewrite send_frames_push by done.
    f_equal. unfold push, left, with_world, on_m, seated. cbn. by rewrite Hin, app_nil_r.
Qed.

(** A stream's work inside its span: the clocks are read around it. *)
Lemma in_span_done {A} name kind stream (work : HM A) h h' r :
  work (on_m h (span_reading (machine h)).1) = (h', Done r) ->
  exists c, in_span name kind stream work h = (spanned (on_m h' (span_clock (machine h')).1) c, Done r).
Proof.
  intros Hw. unfold in_span, start_span, finish_span, bindH, tryH, liftH, on_machine, on_m in *.
  destruct (span_reading (machine h)) as [m1 reading]. cbn in Hw |- *. rewrite Hw.
  destruct (span_clock (machine h')) as [m2 now]. cbn. by eexists.
Qed.

Lemma serve_next fuel root h f rest h' :
  inbox (world (rt h)) = f :: rest ->
  serve_frame fuel root f (left h [f] rest) = (h', Done (Ok Continue)) ->
  serve_loop (S fuel) [] root h = serve_loop fuel [] root h'.
Proof.
  intros Hin Hs. cbn [serve_loop head default]. unfold bindH at 1, tryH, on_rt, rt_recv_frame, on_world.
  cbn. rewrite Hin. unfold bindH. cbn -[serve_frame serve_loop].
  change (mkHost (set_world (rt h) (take_frame f rest (world (rt h)))) (machine h) (spans h))
    with (left h [f] rest).
  by rewrite Hs.
Qed.
Lemma serve_stop fuel root h f rest :
  inbox (world (rt h)) = f :: rest -> stream_id f = 0 -> is_fin (flags f) = true ->
  serve_loop (S fuel) [] root h = (left h [f] rest, Done (Ok tt)).
Proof.
  intros Hin Hid Hf. cbn [serve_loop head default]. unfold bindH at 1, tryH, on_rt, rt_recv_frame, on_world.
  cbn. rewrite Hin. unfold bindH, serve_frame. by rewrite Hid, Hf.
Qed.

(** The frame that opens a file stream. *)
Record opens_file (id : Z) (request : FileTransferRequest) (f : Frame) : Prop := {
  opens_id : stream_id f = id;
  opens_flags : flags f = SYN |: DAT;
  opens_no_shell : exists e, decode_open_frame f = Err e;
  opens_request : decode_request_frame f = Ok request;
}.

Lemma serve_request fuel root h f rest id request h' :
  id <> 0 -> opens_file id request f -> inbox (world (rt h)) = f :: rest ->
  dispatch_file fuel id request root (on_m (left h [f] rest) (span_reading (machine h)).1)
    = (h', Done (Ok tt)) ->
  exists c, serve_loop (S fuel) [] root h
            = serve_loop fuel [] root (spanned (on_m h' (span_clock (machine h')).1) c).
Proof.
  intros Hid [Hf Hfl [e Hsh] Hreq] Hin Hd.
  destruct (in_span_done "stream.file" Telemetry.File id (dispatch_file fuel id request root)
              (left h [f] rest) h' (Ok tt) Hd) as [c Hc].
  exists c. eapply serve_next; [done|]. unfold serve_frame.
  rewrite Hf, (proj2 (Z.eqb_neq id 0)), Hfl by done. change (is_fin (SYN |: DAT)) with false.
  change (is_syn (SYN |: DAT)) with true. change (is_dat (SYN |: DAT)) with true. cbn [negb orb].
  rewrite Hsh, Hreq. unfold bindH. by rewrite Hc.
Qed.

Lemma serve_fin fuel root h id rest e :
  id <> 0 -> inbox (world (rt h)) = mkFrame id FIN [] :: rest ->
  active (registry (session (rt h))) !! id = Some e ->
  serve_loop (S fuel) [] root h
  = serve_loop fuel [] root (seated (left h [mkFrame id FIN []] rest) (close_stream (session (rt h)) id).1).
Proof.
  intros Hid Hin He. eapply serve_next; [done|]. unfold serve_frame. cbn [stream_id flags].
  rewrite (proj2 (Z.eqb_neq id 0)) by done. change (is_fin FIN) with true. cbv iota.
  unfold stream_kind, stream_entry, registry_get. cbn [rt left with_world session set_world].
  rewrite He. cbn. unfold bindH, on_rt, rt_close_stream, on_session, close_stream. cbn.
  unfold close. by rewrite He.
Qed.

(** Closing a ready session over a queue: one FIN on the control stream. *)
Lemma close_ready h :
  rt_state (rt h) = Ready ->
  on_rt rt_close h = (seated (push h [mkFrame CONTROL_STREAM_ID FIN []])
                        (session_close (session (rt h))), Done (Ok tt)).
Proof.
  intros Hr. unfold on_rt, rt_close. rewrite Hr. cbn [negb bool_decide]. unfold on_world.
  rewrite send_fits by apply empty_fits. done.
Qed.

(** What the client sends for a request, the end of the session included, and
    what the device sends back. *)
Definition asked (id : Z) (f : Frame) (body : list Frame) : list Frame :=
  f :: body ++ [mkFrame id FIN []; mkFrame CONTROL_STREAM_ID FIN []].
Definition answered (out : list Frame) : list Frame := out ++ [mkFrame CONTROL_STREAM_ID FIN []].
(** The order in which each side does so: the client sends its whole request
    before it waits for the answer, takes the answer and then closes; the device
    takes the request before it answers, and closes after the client. *)
Definition client_steps (id : Z) (f : Frame) (body out : list Frame) : list Event :=
  (Sent <$> f :: body) ++ (Got <$> out)
  ++ [Sent (mkFrame id FIN []); Sent (mkFrame CONTROL_STREAM_ID FIN [])].
Definition device_steps (id : Z) (f : Frame) (body out : list Frame) : list Event :=
  (Got <$> f :: body) ++ (Sent <$> out)
  ++ [Got (mkFrame id FIN []); Got (mkFrame CONTROL_STREAM_ID FIN []);
      Sent (mkFrame CONTROL_STREAM_ID FIN [])].

Lemma joint_steps id f body out :
  joint (client_steps id f body out) (device_steps id f body out) [] [].
Proof.
  unfold client_steps, device_steps. apply joint_client_sends_all.
  rewrite <- (app_nil_r ([] ++ f :: body)). apply joint_device_gets_all, joint_device_sends_all.
  rewrite <- (app_nil_r ([] ++ out)). apply joint_client_gets_all.
  apply joint_client_sends, joint_client_sends. cbn [app].
  apply joint_device_gets, joint_device_gets, joint_device_sends, joint_end.
Qed.

Lemma omap_sent (l : list Frame) : omap sent_frame (Sent <$> l) = l.
Proof. induction l as [|f l IH]; [done|]. cbn. by rewrite IH. Qed.
Lemma omap_got (l : list Frame) : omap sent_frame (Got <$> l) = [].
Proof. by induction l. Qed.
Lemma sent_client_steps id f body out : omap sent_frame (client_steps id f body out) = asked id f body.
Proof. unfold client_steps. by rewrite !omap_app, omap_sent, omap_got. Qed.
Lemma sent_device_steps id f body out : omap sent_frame (device_steps id f body out) = answered out.
Proof. unfold device_steps. by rewrite !omap_app, omap_sent, omap_got. Qed.

(** The device's file service gives [response] for the request, and the machine
    is then [m']. *)
Definition service_gives (m : M) (root : string) (id : Z) (request : FileTransferRequest)
    (frames : list Frame) (fuel : nat) (m' : M) (response : FileTransferResponse) : Prop :=
  exists config body, @file_config_new (view m) root = Ok config /\
    body_for id request (max_file_size config) frames body fuel /\
    execute (file_timer (next_temp m).1) config request body [] (process_id (next_temp m).1)
      (next_temp m).2 (next_temp m).1 = (m', Some (Ok response)).

(** The end of the stream and of the session, once the request was served. *)
Lemma serving_ends fuel root h h1 id e :
  id <> 0 ->
  serve_loop (S (S (S fuel))) [] root h = serve_loop (S (S fuel)) [] root h1 ->
  inbox (world (rt h1)) = [mkFrame id FIN []; mkFrame CONTROL_STREAM_ID FIN []] ->
  rt_state (rt h1) = Ready -> active (registry (session (rt h1))) !! id = Some e ->
  exists h', serve_session_collected (S (S (S fuel))) [] root h = (h', Done (Ok tt)) /\
    trace (world (rt h')) = trace (world (rt h1)) ++
      [Got (mkFrame id FIN []); Got (mkFrame CONTROL_STREAM_ID FIN []);
       Sent (mkFrame CONTROL_STREAM_ID FIN [])] /\
    machine h' = machine h1 /\ rt_state (rt h') = Closed.
Proof.
  intros Hid Hserve Hin Hs He.
  unfold serve_session_collected. unfold bindH at 1, tryH at 1. rewrite Hserve. clear Hserve.
  erewrite (serve_fin (S fuel) root h1 id); [|done|exact Hin|exact He].
  erewrite serve_stop; [|reflexivity|done|done].
  unfold bindH, tryH. rewrite close_ready.
  - eexists. split; [reflexivity|]. cbn. by rewrite <- !app_assoc.
  - cbn. unfold rt_state, close_stream. cbn. unfold close. rewrite He. exact Hs.
Qed.

(** A free identifier is accepted. *)
Lemma accept_free (s0 : Session.Session) id kind :
  id <> 0 -> state s0 = Ready -> registry_contains (registry s0) id = false ->
  exists s, accept_stream s0 id kind "/" = (s, Ok (mkEntry id kind "/")) /\ state s = Ready /\
    active (registry s) !! id = Some (mkEntry id kind "/").
Proof.
  intros Hid Hr Hfree. unfold accept_stream, accept. rewrite bool_decide_eq_true_2 by done. cbn.
  rewrite (proj2 (Z.eqb_neq id 0)) by done. cbn. rewrite Hfree.
  eexists. split; [reflexivity|]. split; [exact Hr|]. apply lookup_insert_eq.
Qed.

Lemma device_serves fuel root h id request f frames m' response out :
  id <> 0 -> rt_state (rt h) = Ready -> registry_contains (registry (session (rt h))) id = false ->
  opens_file id request f -> inbox (world (rt h)) = asked id f frames ->
  service_gives (span_reading (machine h)).1 root id request frames (S (S fuel)) m' response ->
  encode_response_frames id response = Ok out -> Forall frame_fits out ->
  exists h', serve_session_collected (S (S (S fuel))) [] root h = (h', Done (Ok tt)) /\
    trace (world (rt h')) = trace (world (rt h)) ++ device_steps id f frames out /\
    machine h' = (span_clock m').1 /\ rt_state (rt h') = Closed.
Proof.
  intros Hid Hr Hfree Hf Hin (config & body & Hc & Hb & He) Ho Hfit.
  destruct (accept_free (session (rt h)) id File Hid Hr Hfree) as (s & Ha & Hs & He').
  pose proof (dispatch_file_served (S (S fuel)) id request root frames body
    [mkFrame id FIN []; mkFrame CONTROL_STREAM_ID FIN []]
    (on_m (left h [f] (frames ++ [mkFrame id FIN []; mkFrame CONTROL_STREAM_ID FIN []]))
       (span_reading (machine h)).1) s _ config m' response out Hid Ha Hc Hb eq_refl He Ho Hfit) as Hd.
  destruct (serve_request _ _ _ _ _ _ _ _ Hid Hf Hin Hd) as [c Hserve]. clear Hd.
  destruct (serving_ends fuel root h _ id _ Hid Hserve eq_refl Hs He') as (h' & Hrun & Hsent & Hm & Hcl).
  exists h'. rewrite Hsent, Hm. unfold device_steps. cbn. by rewrite <- !app_assoc.
Qed.

(** ** The client *)

(** The client's work and then [close]; the work's error wins. *)
Definition closed_after {A} (work : HM (P := Queue) (M := M) A) : HM (P := Queue) (M := M) A :=
  bindH (tryH work) (fun result =>
  bindH (tryH (on_rt rt_close)) (fun close_result =>
  liftH match result, close_result with
        | Err error, _ => Err error
        | Ok _, Err error => Err error
        | Ok a, Ok _ => Ok a
        end)).
Definition copy_session (fuel : nat) (source destination : string) (overwrite : bool)
    : HM (P := Queue) (M := M) unit :=
  closed_after (run_file_client_collected fuel source destination overwrite).

Lemma file_stream_opened h s e :
  registry_wf (registry (session (rt h))) -> open_stream (session (rt h)) File "/" = (s, Ok e) ->
  on_rt (open_file_stream "/") h = (seated h s, Done (Ok e)) /\
  forall h', session (rt h') = s -> file_stream_open h' (entry_id e).
Proof.
  intros Hwf Ho. split.
  { unfold on_rt, open_file_stream, rt_open_stream, on_session. by rewrite Ho. }
  intros h' Hs. unfold open_stream in Ho. case_match eqn:Hr; [done|].
  apply negb_false_iff, bool_decide_eq_true in Hr.
  destruct (open _ _ _) as [r [e'|]] eqn:E; [|done]. injection Ho as <- ->.
  apply open_Ok in E as (_ & Hv & He & Ha & _); [|done].
  split; [unfold valid_id in Hv; lia|]. unfold ensure_file_stream, ensure_stream, rt_state, stream_entry, registry_get.
  rewrite Hs. cbn. rewrite bool_decide_eq_true_2 by done. cbn [negb].
  rewrite Ha, lookup_insert_eq, He. cbn. by rewrite bool_decide_eq_true_2.
Qed.

Lemma send_request h id request f :
  file_stream_open h id -> encode_request_frame id request = Ok f -> frame_fits f ->
  on_rt (send_file_request id request) h = (push h [f], Done (Ok tt)).
Proof.
  intros [_ Ho] Hf Hfit. unfold on_rt, send_file_request, bindS, send_built, liftS. rewrite Ho, Hf.
  unfold bindS, on_world. by rewrite send_fits.
Qed.

Lemma close_file h id :
  file_stream_open h id ->
  exists e s, state s = Ready /\
    on_rt (close_file_stream id) h = (seated (push h [mkFrame id FIN []]) s, Done (Ok e)).
Proof.
  intros [_ Ho]. assert (Ho' := Ho). unfold ensure_file_stream, ensure_stream in Ho'.
  case_match eqn:Hr; [done|]. apply negb_false_iff, bool_decide_eq_true in Hr.
  destruct (stream_entry (session (rt h)) id) as [e|] eqn:He; [|done].
  unfold stream_entry, registry_get in He.
  unfold on_rt, close_file_stream, bindS, on_world, on_session, close_stream, close. rewrite Ho.
  rewrite send_fits by apply empty_fits. cbn. rewrite He. eexists e, _. split; [|reflexivity]. exact Hr.
Qed.

(** After the copy's own frames, the stream and the session are closed. *)
Lemma client_closes {A} h id (k : HM A) a :
  file_stream_open h id -> (forall h', k h' = (h', Done (Ok a))) ->
  exists h', bindH (on_rt (close_file_stream id)) (fun _ => k) h = (h', Done (Ok a)) /\
    rt_state (rt h') = Ready /\ machine h' = machine h /\ inbox (world (rt h')) = inbox (world (rt h)) /\
    trace (world (rt h')) = trace (world (rt h)) ++ [Sent (mkFrame id FIN [])].
Proof.
  intros Ho Hk. destruct (close_file h id Ho) as (e & s & Hs & Hc).
  unfold bindH. rewrite Hc, Hk. by eexists.
Qed.

Lemma println_done s h m :
  print (as_bytes s ++ [x0a]) (machine h) = (m, Ok tt) -> println s h = (on_m h m, Done (Ok tt)).
Proof. intros Hp. unfold println. by rewrite Hp. Qed.

(** The answer to an upload. *)
Lemma receive_uploaded fuel destination size overwrite id (info : stream.FileInfo) rest h :
  id <> 0 -> prost_roundtrips info ->
  inbox (world (rt h)) = mkFrame id (DAT |: FIN) (encode_to_vec info) :: rest ->
  receive_response (S fuel) (request_put destination size overwrite) false [] h
  = (left h [mkFrame id (DAT |: FIN) (encode_to_vec info)] rest, Done (Ok [])).
Proof.
  intros Hid Hrt Hin. cbn [receive_response]. unfold bindH at 1.
  rewrite (recv_file h (mkFrame id (DAT |: FIN) (encode_to_vec info)) rest Hid Hin). cbn [negb].
  unfold bindH, liftH, decode_response_metadata.
  cbn [stream_id flags payload request_put operation].
  rewrite (proj2 (Z.eqb_neq _ _) Hid), Hrt. done.
Qed.

(** What the end of the work does, from a host whose session is ready. *)
Lemma closed_after_ends {A} (work : HM A) h h1 r :
  work h = (h1, Done r) -> rt_state (rt h1) = Ready ->
  exists h', closed_after work h = (h', Done r) /\
    trace (world (rt h')) = trace (world (rt h1)) ++ [Sent (mkFrame CONTROL_STREAM_ID FIN [])] /\
    machine h' = machine h1 /\ rt_state (rt h') = Closed.
Proof.
  intros Hrun Hr. unfold closed_after, bindH, tryH, liftH. rewrite Hrun, close_ready by done.
  destruct r; by eexists.
Qed.

Definition copied_to_remote (source destination : string) : list byte :=
  as_bytes ("copied " +:+ source +:+ " -> remote:" +:+ destination) ++ [x0a].

Lemma client_uploads fuel source destination overwrite h m1 data s e f
    (info : stream.FileInfo) rest m2 :
  strip_remote source = None -> read_local source (machine h) = (m1, Ok data) ->
  registry_wf (registry (session (rt h))) -> open_stream (session (rt h)) File "/" = (s, Ok e) ->
  encode_request_frame (entry_id e) (request_put destination (zlen data) overwrite) = Ok f ->
  frame_fits f -> prost_roundtrips info ->
  inbox (world (rt h)) = mkFrame (entry_id e) (DAT |: FIN) (encode_to_vec info) :: rest ->
  print (copied_to_remote source destination) (span_reading m1).1 = (m2, Ok tt) ->
  exists h', copy_session (S fuel) source destination overwrite h = (h', Done (Ok tt)) /\
    trace (world (rt h')) = trace (world (rt h)) ++ client_steps (entry_id e) f (upload_frames (entry_id e) data)
      [mkFrame (entry_id e) (DAT |: FIN) (encode_to_vec info)] /\
    machine h' = (span_clock m2).1 /\ rt_state (rt h') = Closed.
Proof.
  intros Hrem Hread Hwf Hopen Hf Hfit Hrt Hin Hp.
  destruct (file_stream_opened (on_m h m1) s e Hwf Hopen) as [Hop Hfile].
  set (id := entry_id e) in *. set (h0 := seated (on_m h m1) s).
  set (h2 := left (push (on_m h0 (span_reading m1).1) (f :: upload_frames id data))
               [mkFrame id (DAT |: FIN) (encode_to_vec info)] rest).
  destruct (client_closes (on_m h2 m2) id (retH tt) tt (Hfile (on_m h2 m2) eq_refl) (fun _ => eq_refl))
    as (h3 & Hclose & Hr3 & Hm3 & _ & Hs3).
  destruct (in_span_done "stream.file" Telemetry.File id
    (bindH (on_rt (send_file_request id (request_put destination (zlen data) overwrite))) (fun _ =>
     bindH (send_upload id data) (fun _ =>
     bindH (receive_response (S fuel) (request_put destination (zlen data) overwrite) false [])
       (fun _ => bindH (println ("copied " +:+ source +:+ " -> remote:" +:+ destination))
       (fun _ => bindH (on_rt (close_file_stream id)) (fun _ => retH tt))))))
    h0 h3 (Ok tt)) as [c Hspan].
  { unfold bindH at 1. rewrite (send_request _ id _ f) by (first [by apply Hfile | done]).
    unfold bindH at 1. rewrite send_upload_frames by (by apply Hfile).
    unfold bindH at 1. rewrite push_push. cbn [app].
    rewrite (receive_uploaded fuel destination _ overwrite id info rest)
      by (first [apply (Hfile h0 eq_refl) | done]).
    unfold bindH at 1. change (machine h0) with m1. fold h2.
    rewrite (println_done ("copied " +:+ source +:+ " -> remote:" +:+ destination) h2 m2 Hp).
    exact Hclose. }
  destruct (closed_after_ends (run_file_client_collected (S fuel) source destination overwrite) h
              (spanned (on_m h3 (span_clock (machine h3)).1) c) (Ok tt)) as (h' & Hrun & Hs' & Hm' & Hc').
  - unfold run_file_client_collected. rewrite Hrem. unfold bindH at 1 2, on_io.
    unfold bindH at 1, on_machine. rewrite Hread. cbn [map_err liftH retH].
    unfold liftH, retH. unfold bindH at 1.
    change (mkHost (rt h) m1 (spans h)) with (on_m h m1). rewrite Hop. exact Hspan.
  - exact Hr3.
  - exists h'. split; [exact Hrun|]. rewrite Hs', Hm'. cbn [spanned on_m rt machine]. rewrite Hs3, Hm3.
    split_and!; [|done|done]. unfold client_steps, h2, push, h0, left, with_world. cbn.
    by rewrite <- !app_assoc.
Qed.

(** Saving a download on the client's machine, its directory first. *)
Definition saves (destination : string) (data : list byte) (m m' : M) : Prop :=
  exists m1, match path_parent destination with
             | Some parent => if str_is_empty parent then m1 = m
                              else create_local_dirs parent m = (m1, Ok tt)
             | None => m1 = m
             end /\ write_local destination data m1 = (m', Ok tt).

Lemma save_done destination data h m' :
  saves destination data (machine h) m' -> save_download destination data h = (on_m h m', Done (Ok tt)).
Proof.
  intros (m1 & Hd & Hw). unfold save_download, bindH at 1.
  assert (Hdirs : match path_parent destination with
                  | Some parent => if str_is_empty parent then retH tt else on_io (create_local_dirs parent)
                  | None => retH tt
                  end h = (on_m h m1, Done (Ok tt))).
  { destruct (path_parent destination) as [parent|]; [destruct (str_is_empty parent)|].
    2: { unfold on_io, bindH, on_machine, liftH. by rewrite Hd. }
    all: subst m1; by destruct h. }
  rewrite Hdirs. unfold on_io, bindH, on_machine, liftH. cbn [machine on_m]. by rewrite Hw.
Qed.

Definition received_text (info : stream.FileInfo) : list byte :=
  as_bytes ("received=" +:+ stream.info_name info +:+ " bytes=" +:+ dec (stream.info_size info)) ++ [x0a].
Definition copied_text (source destination : string) : list byte :=
  as_bytes ("copied " +:+ source +:+ " -> " +:+ destination) ++ [x0a].

Lemma client_downloads fuel source remote destination overwrite h data s e f info frames rest m1 m2 m3 :
  let request := mkRequest Get remote 0 false None in
  strip_remote source = Some remote ->
  registry_wf (registry (session (rt h))) -> open_stream (session (rt h)) File "/" = (s, Ok e) ->
  encode_request_frame (entry_id e) request = Ok f -> frame_fits f ->
  prost_roundtrips info -> encode_response_frames (entry_id e) (Download info data) = Ok frames ->
  inbox (world (rt h)) = frames ++ rest -> (length frames <= fuel)%nat ->
  print (received_text info) (span_reading (machine h)).1 = (m1, Ok tt) ->
  saves destination data m1 m2 ->
  print (copied_text source destination) m2 = (m3, Ok tt) ->
  exists h', copy_session fuel source destination overwrite h = (h', Done (Ok tt)) /\
    trace (world (rt h')) = trace (world (rt h)) ++ client_steps (entry_id e) f [] frames /\
    machine h' = (span_clock m3).1 /\ rt_state (rt h') = Closed.
Proof.
  intros request Hrem Hwf Hopen Hf Hfit Hrt Hout Hin Hfuel Hp1 Hsave Hp3.
  destruct (file_stream_opened h s e Hwf Hopen) as [Hop Hfile].
  set (id := entry_id e) in *. set (h0 := seated h s).
  set (h2 := left (push (on_m h0 (span_reading (machine h)).1) [f]) frames rest).
  destruct (client_closes (on_m h2 m3) id (retH tt) tt (Hfile (on_m h2 m3) eq_refl) (fun _ => eq_refl))
    as (h3 & Hclose & Hr3 & Hm3 & _ & Hs3).
  destruct (in_span_done "stream.file" Telemetry.File id
    (bindH (on_rt (send_file_request id request)) (fun _ =>
     bindH (retH tt) (fun _ =>
     bindH (receive_response fuel request false []) (fun received =>
     bindH (bindH (save_download destination received) (fun _ =>
            println ("copied " +:+ source +:+ " -> " +:+ destination)))
       (fun _ => bindH (on_rt (close_file_stream id)) (fun _ => retH tt))))))
    h0 h3 (Ok tt)) as [c Hspan].
  { unfold bindH at 1. rewrite (send_request _ id _ f) by (first [by apply Hfile | done]).
    unfold bindH at 1, retH at 1. unfold bindH at 1.
    rewrite (download_crosses_session id info data request _ m1 frames rest fuel)
      by (first [apply (Hfile h0 eq_refl) | done]).
    change (mkHost _ m1 _) with (on_m h2 m1). unfold bindH at 1 2.
    rewrite (save_done destination data (on_m h2 m1) m2 Hsave).
    rewrite (println_done ("copied " +:+ source +:+ " -> " +:+ destination) (on_m (on_m h2 m1) m2) m3 Hp3).
    exact Hclose. }
  destruct (closed_after_ends (run_file_client_collected fuel source destination overwrite) h
              (spanned (on_m h3 (span_clock (machine h3)).1) c) (Ok tt)) as (h' & Hrun & Hs' & Hm' & Hc').
  - unfold run_file_client_collected. rewrite Hrem. unfold bindH at 1 2, liftH at 1, retH at 1.
    cbn [request_get validate_range]. unfold bindH at 1. rewrite Hop. exact Hspan.
  - exact Hr3.
  - exists h'. split; [exact Hrun|]. rewrite Hs', Hm'. cbn [spanned on_m rt machine]. rewrite Hs3, Hm3.
    split_and!; [|done|done]. unfold client_steps, h2, push, h0, left, with_world. cbn.
    by rewrite <- !app_assoc.
Qed.

(** ** Both ends *)

Lemma request_opens id request f :
  encode_request_frame id request = Ok f -> request_in_range request ->
  prost_roundtrips (to_wire request) -> (exists e, decode_open_frame f = Err e) ->
  opens_file id request f /\ id <> 0.
Proof.
  intros Hf Hr Hrt Hsh. unfold encode_request_frame, request_encode in Hf.
  destruct (id =? 0) eqn:Hid; [done|]. apply Z.eqb_neq in Hid.
  destruct (validate_shape request) as [[]|] eqn:Hv; [|done]. cbn in Hf.
  destruct (file_request_roundtrip id request Hid Hv Hr Hrt) as (f' & Hf' & Hd).
  unfold encode_request_frame, request_encode in Hf'.
  rewrite (proj2 (Z.eqb_neq id 0) Hid), Hv in Hf'. cbn in Hf'. simplify_eq. by split.
Qed.

(** Two hosts with ready sessions, each about to receive what is given. *)
Record wired (client server : Host Queue M) (asks answers : list Frame) : Prop := {
  wired_ready : rt_state (rt server) = Ready;
  wired_asks : inbox (world (rt server)) = asks;
  wired_answers : inbox (world (rt client)) = answers;
  wired_client : registry (session (rt client)) = registry_new;
  wired_server : registry (session (rt server)) = registry_new;
  wired_opening : rt_state (rt client) = Ready;
}.
(** Both have ended, the client with [r], after these steps. *)
Record ended {A} (r : BResult A) (client : Host Queue M * Outcome A) (server : Host Queue M * Outcome unit)
    (client_did server_did : list Event) : Prop := {
  client_ended : client.2 = Done r;
  server_ended : server.2 = Done (Ok tt);
  client_traced : trace (world (rt client.1)) = client_did;
  server_traced : trace (world (rt server.1)) = server_did;
  client_shut : rt_state (rt client.1) = Closed;
  server_shut : rt_state (rt server.1) = Closed;
}.
(** ... each has sent what the other one received, and the two runs are those of
    one joint run. *)
Record completed {A} (r : BResult A) (client : Host Queue M * Outcome A) (server : Host Queue M * Outcome unit)
    (asks answers : list Frame) : Prop := {
  client_done : client.2 = Done r;
  server_done : server.2 = Done (Ok tt);
  client_sent : sent (world (rt client.1)) = asks;
  server_sent : sent (world (rt server.1)) = answers;
  run_jointly : joint (trace (world (rt client.1))) (trace (world (rt server.1))) [] [];
  client_closed : rt_state (rt client.1) = Closed;
  server_closed : rt_state (rt server.1) = Closed;
}.

Lemma ended_completed {A} (r : BResult A) client server cs path pin id f body out :
  ended r client server (client_trace cs path pin ++ client_steps id f body out)
    (server_trace cs path pin ++ device_steps id f body out) ->
  completed r client server ((frame_of <$> to_server path pin) ++ asked id f body)
    ((frame_of <$> to_client cs) ++ answered out).
Proof.
  intros [? ? Hc Hs ? ?]. split; try done; unfold sent; rewrite ?Hc, ?Hs, ?omap_app.
  - by rewrite sent_client_steps.
  - by rewrite sent_device_steps.
  - apply joint_handshake, joint_steps.
Qed.

(** The bytes an upload carries are the body of its request. *)
Lemma upload_body id destination data overwrite max fuel :
  id <> 0 -> zlen data <= max -> (length (upload_frames id data) <= fuel)%nat ->
  body_for id (request_put destination (zlen data) overwrite) max (upload_frames id data) data fuel.
Proof. intros Hid Hmax Hf. split; [apply upload_frames_body|]. split; [done|]. by apply collect_upload. Qed.

(** A served upload fits the limit and is at its target. *)
Lemma upload_executed {FL : FileLaws M} timer config destination data overwrite pid counter (m m' : M) info
    target parent :
  let request := request_put destination (zlen data) overwrite in
  @resolve_for_write (view m) config destination overwrite = Ok target ->
  path_parent target = Some parent ->
  path_eqb target (path_join parent (temp_name pid counter)) = false ->
  execute timer config request data [] pid counter m = (m', Some (Ok (Upload info))) ->
  zlen data <= max_file_size config /\ content m' target = Some data.
Proof.
  intros request Hw Hp Hne He. unfold execute in He.
  destruct (validate_shape request) as [[]|]; [|done]. destruct timer; [done|]. cbn in He.
  destruct (upload config request data [] pid counter m) as [m1 r] eqn:Hu. simplify_eq.
  destruct (upload_outcome config request data [] pid counter m m' (Ok (Upload info)) target parent Hw Hp
              Hne Hu) as (_ & Hok & _).
  by destruct (Hok eq_refl) as (_ & Hmax & Hc & _).
Qed.

(** The first stream of a session. *)
Definition first_entry (kind : StreamKind) : StreamEntry := mkEntry 1 kind "/".
Lemma opens_first (r : SessionRuntime Queue) kind :
  rt_state r = Ready -> registry (session r) = registry_new ->
  registry_wf (registry (session r)) /\
  exists s, open_stream (session r) kind "/" = (s, Ok (first_entry kind)).
Proof.
  intros Hr Hn. rewrite Hn. split; [apply registry_new_wf|].
  unfold open_stream. rewrite bool_decide_eq_true_2 by done. cbn [negb]. rewrite Hn. by eexists.
Qed.

(** An upload between two ready sessions. *)
Lemma upload_served {FL : FileLaws M} fuel source destination overwrite root
    (client server : Host Queue M) m1 data f config info target parent m2 m' :
  let request := request_put destination (zlen data) overwrite in
  let frames := upload_frames 1 data in
  let m0 := (span_reading (machine server)).1 in
  let pid := process_id (next_temp m0).1 in
  let counter := (next_temp m0).2 in
  let asks := asked 1 f frames in
  let answers := answered [mkFrame 1 (DAT |: FIN) (encode_to_vec info)] in
  strip_remote source = None -> read_local source (machine client) = (m1, Ok data) ->
  encode_request_frame 1 request = Ok f -> zlen data <= I64_MAX ->
  frame_fits f -> frame_fits (mkFrame 1 (DAT |: FIN) (encode_to_vec info)) ->
  prost_roundtrips (to_wire request) -> prost_roundtrips info ->
  (exists er, decode_open_frame f = Err er) ->
  @file_config_new (view m0) root = Ok config ->
  @resolve_for_write (view (next_temp m0).1) config destination overwrite = Ok target ->
  path_parent target = Some parent ->
  path_eqb target (path_join parent (temp_name pid counter)) = false ->
  execute (file_timer (next_temp m0).1) config request data [] pid counter (next_temp m0).1
    = (m', Some (Ok (Upload info))) ->
  print (copied_to_remote source destination) (span_reading m1).1 = (m2, Ok tt) ->
  wired client server asks answers -> (length frames + 3 <= fuel)%nat ->
  let server' := serve_session_collected fuel [] root server in
  let out := [mkFrame 1 (DAT |: FIN) (encode_to_vec info)] in
  ended (Ok tt) (copy_session fuel source destination overwrite client) server'
    (trace (world (rt client)) ++ client_steps 1 f frames out)
    (trace (world (rt server)) ++ device_steps 1 f frames out) /\
  machine server'.1 = (span_clock m').1 /\ content m' target = Some data.
Proof.
  intros request frames m0 pid counter asks answers Hrem Hread Hf Hmax Hfit1 Hfit2 Hrt Hinfo Hsh
    Hconf Hres Hpar Hne Hex Hprint [Hready Hask Hans Hrc Hrs Hopening] Hfuel server' out.
  destruct (upload_executed _ config destination data overwrite pid counter _ m' info target parent
              Hres Hpar Hne Hex) as [Hlen Hcontent].
  destruct (request_opens 1 request f Hf) as [Hop _]; [|done..|].
  { split; [pose proof (zlen_nonneg data); cbn; lia|done]. }
  destruct (opens_first (rt client) File Hopening Hrc) as (Hwf & s & Hopen).
  destruct fuel as [|[|[|fuel]]]; [lia..|].
  destruct (client_uploads (S (S fuel)) source destination overwrite client m1 data s (first_entry File) f info
              [mkFrame CONTROL_STREAM_ID FIN []] m2) as (c & Hc & Hcs & _ & Hcc); [done..|].
  destruct (device_serves fuel root server 1 request f frames m' (Upload info)
              out) as (d & Hd & Hds & Hdm & Hdc);
    [done|done|by rewrite Hrs|done|done| |done|by apply Forall_singleton|].
  - exists config, data. split; [done|]. split; [|done]. apply upload_body; [done..|fold frames; lia].
  - unfold server'. rewrite Hc, Hd. by split.
Qed.

(** The data frames of a download always fit. *)
Lemma chunks_fit fuel (data : list byte) :
  Forall (fun c : list byte => zlen c <= DEFAULT_MAX_PAYLOAD_LEN) (chunks_aux fuel FRAME_DATA data).
Proof.
  revert data. induction fuel as [|fuel IH]; intros [|b data]; cbn [chunks_aux]; try constructor.
  - unfold zlen. rewrite length_take, <- FRAME_DATA_Z. lia.
  - apply IH.
Qed.
Lemma data_frames_fit id count index cs :
  Forall (fun c : list byte => zlen c <= DEFAULT_MAX_PAYLOAD_LEN) cs ->
  Forall frame_fits (data_frames id count index cs).
Proof. intros Hc. revert index. induction Hc; intros index; cbn [data_frames]; by constructor. Qed.
Lemma download_frames_fit id (info : stream.FileInfo) data out :
  encode_response_frames id (Download info data) = Ok out ->
  zlen (encode_to_vec info) <= DEFAULT_MAX_PAYLOAD_LEN -> Forall frame_fits out.
Proof.
  unfold encode_response_frames. destruct (id =? 0); [done|]. intros Ho%Ok_inj Hl. subst out.
  constructor; [exact Hl|]. destruct (is_nil data); [constructor|].
  apply data_frames_fit, chunks_fit.
Qed.

(** A download between two ready sessions. *)
Lemma download_served fuel source remote destination overwrite root
    (client server : Host Queue M) f config p md chs out m1 m2 m3 :
  let request := mkRequest Get remote 0 false None in
  let m0 := (span_reading (machine server)).1 in
  let served := (next_temp m0).1 in
  let data := concat chs in
  let info := file_info remote md in
  let asks := asked 1 f [] in
  strip_remote source = Some remote -> encode_request_frame 1 request = Ok f ->
  prost_roundtrips (to_wire request) -> prost_roundtrips info ->
  (exists er, decode_open_frame f = Err er) ->
  @file_config_new (view m0) root = Ok config ->
  @resolve_existing (view served) config remote = Ok p ->
  @fs_metadata (view served) p = Ok md -> md_is_dir md = false -> md_len md <= max_file_size config ->
  open_file served p = Ok (Ok <$> chs) -> Forall (fun ch => ch <> []) chs -> zlen data = md_len md ->
  file_timer served = None ->
  encode_response_frames 1 (Download info data) = Ok out -> frame_fits f -> Forall frame_fits out ->
  print (received_text info) (span_reading (machine client)).1 = (m1, Ok tt) ->
  saves destination data m1 m2 ->
  print (copied_text source destination) m2 = (m3, Ok tt) ->
  wired client server asks (answered out) -> (length out + 3 <= fuel)%nat ->
  let client' := copy_session fuel source destination overwrite client in
  let server' := serve_session_collected fuel [] root server in
  ended (Ok tt) client' server' (trace (world (rt client)) ++ client_steps 1 f [] out)
    (trace (world (rt server)) ++ device_steps 1 f [] out) /\
  machine server'.1 = (span_clock served).1 /\ machine client'.1 = (span_clock m3).1.
Proof.
  intros request m0 served data info asks Hrem Hf Hrt Hinfo Hsh Hconf Hres Hmd Hdir Hmax Hread Hchs Hlen
    Htimer Hout Hfit Hfits Hp1 Hsave Hp3 [Hready Hask Hans Hrc Hrs Hopening] Hfuel client' server'.
  destruct (request_opens 1 request f Hf) as [Hop _]; [by split|done..|].
  assert (Hvalid : validate_shape request = Ok tt).
  { revert Hf. unfold encode_request_frame, request_encode. cbn [Z.eqb].
    by destruct (validate_shape request) as [[]|]. }
  assert (Hex : execute (file_timer served) config request [] [] (process_id served) (next_temp m0).2 served
                = (served, Some (Ok (Download info data)))).
  { unfold execute, execute_inner. rewrite Hvalid, Htimer. cbn [check_cancelled operation request]. f_equal.
    rewrite (download_exact config request served p md chs) by done. cbn [range request default path].
    fold data in Hlen |- *. destruct (md_len md =? 0) eqn:E0; bool_to_prop.
    - assert (Hn : data = []) by (apply nil_length_inv; unfold zlen in Hlen; lia). by rewrite Hn.
    - pose proof (zlen_nonneg data).
      rewrite Z.gtb_ltb, (proj2 (Z.ltb_ge _ _)), (proj2 (Z.leb_gt _ _)) by lia.
      cbn [orb]. rewrite drop_0, take_ge; [done|]. unfold zlen in *. lia. }
  destruct (opens_first (rt client) File Hopening Hrc) as (Hwf & s & Hopen).
  destruct fuel as [|[|[|fuel]]]; [lia..|].
  assert (Hfuel' : (length out <= S (S (S fuel)))%nat) by lia.
  destruct (client_downloads (S (S (S fuel))) source remote destination overwrite client data s
              (first_entry File)
                            f info out [mkFrame CONTROL_STREAM_ID FIN []] m1 m2 m3)
    as (c & Hc & Hcs & Hcm & Hcc); [done..|].
  destruct (device_serves fuel root server 1 request f [] served (Download info data) out)
    as (d & Hd & Hds & Hdm & Hdc); [done|done|by rewrite Hrs|done|done| |done|done|].
  - exists config, []. by split.
  - unfold client', server'. rewrite Hc, Hd. by split.
Qed.

(** ** From two new runtimes *)

(** [handshake], and then the work of the session. *)
Definition handshaken (messages : nat) : HM (P := Queue) (M := M) unit :=
  fun h => let '(r, o) := handshake messages (rt h) in
           (mkHost r (machine h) (spans h), match o with Some r => Done r | None => Starved end).
Definition client_run {A} (work : HM (P := Queue) (M := M) A) : HM (P := Queue) (M := M) A :=
  bindH (handshaken 3) (fun _ => work).
Definition device_run (fuel : nat) (root : string) : HM (P := Queue) (M := M) unit :=
  bindH (handshaken 2) (fun _ => serve_session_collected fuel [] root).

(** A device that requires the PIN and a client that has it first. *)
Record share_pin (cs cc : SessionRuntimeConfig) (pin : string) : Prop := {
  share_server : role cs = Server;
  share_client : role cc = Client;
  share_required : pin_required (session_config cs) = true;
  share_expected : cfg_expected_pin cs = Some pin;
  share_known : exists rest, cfg_auth_pins cc = pin :: rest;
  share_pin_ok : trim_is_empty pin = false;
  share_to_server : Forall carried (to_server (cfg_connect_path cc) pin);
  share_to_client : Forall carried (to_client cs);
}.

(** The handshake leads from two new runtimes to ready sessions. *)
Lemma runs_wired {CL : ControlLaws} {SL : SubtleLaws} cs cc pin asks answers ts srv cli
    (md mc : M) spd spc :
  share_pin cs cc pin ->
  runtime_new (mkQueue ((frame_of <$> to_server (cfg_connect_path cc) pin) ++ asks) [] ts) cs = Ok srv ->
  runtime_new (mkQueue ((frame_of <$> to_client cs) ++ answers) [] []) cc = Ok cli ->
  exists client server, wired client server asks answers /\
    machine client = mc /\ machine server = md /\
    trace (world (rt client)) = client_trace cs (cfg_connect_path cc) pin /\
    trace (world (rt server)) = server_trace cs (cfg_connect_path cc) pin /\
    (forall A (work : HM A), client_run work (mkHost cli mc spc) = work client) /\
    (forall fuel root, device_run fuel root (mkHost srv md spd) = serve_session_collected fuel [] root server).
Proof.
  intros [Hs Hc Hreq Hexp [rest Hknown] Hpin Hto Hfrom] Hsrv Hcli.
  destruct (handshake_exchange cs cc pin rest asks answers ts srv cli)
    as (s1 & c1 & Hs1 & Hc1 & Hst & Hct & Hss & Hsc & Hins & Hinc & Hrs & Hrc); [done..|].
  exists (mkHost c1 mc spc), (mkHost s1 md spd).
  split_and!; [by split|done..| |]; intros;
    unfold client_run, device_run, bindH, handshaken; cbn [rt]; by rewrite ?Hc1, ?Hs1.
Qed.

Context {CL : ControlLaws} {SL : SubtleLaws} (cs cc : SessionRuntimeConfig) (pin : string).
Hypothesis Hshare : share_pin cs cc pin.
Let hello := frame_of <$> to_server (cfg_connect_path cc) pin.
Let welcome := frame_of <$> to_client cs.

(** C6: Copying a file to a device works from end to end, when the device's file
    system carries the upload out: two new runtimes that share the PIN, each given
    what the other one sends, run to their ends, the client through its handshake,
    the copy and its close, the device through its handshake and its dispatcher.
    Both finish without an error and close their sessions, each has sent exactly
    the frames the other one took, and the order of what they sent and took is
    that of one run in which nobody takes a frame before the other one sent it: the
    client sends the whole file before it waits for the answer. The device's
    target then holds exactly the bytes the client read. The request and the answer
    must fit a frame; the data always do. *)
Theorem upload_end_to_end {FL : FileLaws M} fuel source destination overwrite root ts srv cli (mc md : M)
    spc spd m1 data f config info target parent m2 m' :
  let request := request_put destination (zlen data) overwrite in
  let frames := upload_frames 1 data in
  let m0 := (span_reading md).1 in
  let pid := process_id (next_temp m0).1 in
  let counter := (next_temp m0).2 in
  let asks := hello ++ asked 1 f frames in
  let answers := welcome ++ answered [mkFrame 1 (DAT |: FIN) (encode_to_vec info)] in
  runtime_new (mkQueue asks [] ts) cs = Ok srv -> runtime_new (mkQueue answers [] []) cc = Ok cli ->
  strip_remote source = None -> read_local source mc = (m1, Ok data) ->
  encode_request_frame 1 request = Ok f -> zlen data <= I64_MAX ->
  frame_fits f -> frame_fits (mkFrame 1 (DAT |: FIN) (encode_to_vec info)) ->
  prost_roundtrips (to_wire request) -> prost_roundtrips info ->
  (exists er, decode_open_frame f = Err er) ->
  @file_config_new (view m0) root = Ok config ->
  @resolve_for_write (view (next_temp m0).1) config destination overwrite = Ok target ->
  path_parent target = Some parent ->
  path_eqb target (path_join parent (temp_name pid counter)) = false ->
  execute (file_timer (next_temp m0).1) config request data [] pid counter (next_temp m0).1
    = (m', Some (Ok (Upload info))) ->
  print (copied_to_remote source destination) (span_reading m1).1 = (m2, Ok tt) ->
  (length frames + 3 <= fuel)%nat ->
  let server' := device_run fuel root (mkHost srv md spd) in
  completed (Ok tt) (client_run (copy_session fuel source destination overwrite) (mkHost cli mc spc)) server' asks answers /\
  machine server'.1 = (span_clock m').1 /\ content m' target = Some data.
Proof using CL SL Hshare.
  intros request frames m0 pid counter asks answers Hsrv Hcli. intros.
  destruct (runs_wired cs cc pin _ _ ts srv cli md mc spd spc Hshare Hsrv Hcli)
    as (client & server & Hw & <- & <- & Hsc & Hss & Hc & Hs).
  unfold server'. rewrite Hc, Hs.
  destruct (upload_served fuel source destination overwrite root client server m1 data f config info
              target parent m2 m') as (Hend & Hm & Hcontent); [done..|].
  rewrite Hsc, Hss in Hend. split; [|done]. by apply ended_completed in Hend.
Qed.

(** C7: Copying a file from a device works from end to end in the same way: from
    two new runtimes that share the PIN both runs finish without an error, each
    having sent exactly the frames the other one took, in an order of one joint
    run; the device's machine is untouched but for its counters, and what the client writes to its own
    destination are exactly the bytes of the device's file. The request and the
    file's metadata must fit a frame; the data always do. *)
Theorem download_end_to_end fuel source remote destination overwrite root ts srv cli (mc md : M)
    spc spd f config p meta chs out m1 m2 m3 :
  let request := mkRequest Get remote 0 false None in
  let m0 := (span_reading md).1 in
  let served := (next_temp m0).1 in
  let data := concat chs in
  let info := file_info remote meta in
  let asks := hello ++ asked 1 f [] in
  let answers := welcome ++ answered out in
  runtime_new (mkQueue asks [] ts) cs = Ok srv -> runtime_new (mkQueue answers [] []) cc = Ok cli ->
  strip_remote source = Some remote -> encode_request_frame 1 request = Ok f ->
  prost_roundtrips (to_wire request) -> prost_roundtrips info ->
  (exists er, decode_open_frame f = Err er) ->
  @file_config_new (view m0) root = Ok config ->
  @resolve_existing (view served) config remote = Ok p ->
  @fs_metadata (view served) p = Ok meta -> md_is_dir meta = false ->
  md_len meta <= max_file_size config ->
  open_file served p = Ok (Ok <$> chs) -> Forall (fun ch => ch <> []) chs -> zlen data = md_len meta ->
  file_timer served = None ->
  encode_response_frames 1 (Download info data) = Ok out ->
  frame_fits f -> zlen (encode_to_vec info) <= DEFAULT_MAX_PAYLOAD_LEN ->
  print (received_text info) (span_reading mc).1 = (m1, Ok tt) ->
  saves destination data m1 m2 ->
  print (copied_text source destination) m2 = (m3, Ok tt) ->
  (length out + 3 <= fuel)%nat ->
  let client' := client_run (copy_session fuel source destination overwrite) (mkHost cli mc spc) in
  let server' := device_run fuel root (mkHost srv md spd) in
  completed (Ok tt) client' server' asks answers /\
  machine server'.1 = (span_clock served).1 /\ machine client'.1 = (span_clock m3).1.
Proof using CL SL Hshare.
  intros request m0 served data info asks answers Hsrv Hcli. intros.
  destruct (runs_wired cs cc pin _ _ ts srv cli md mc spd spc Hshare Hsrv Hcli)
    as (client & server & Hw & <- & <- & Hsc & Hss & Hc & Hs).
  assert (Hfits : Forall frame_fits out) by (by eapply download_frames_fit).
  unfold client', server'. rewrite Hc, Hs.
  destruct (download_served fuel source remote destination overwrite root client server f config p meta
              chs out m1 m2 m3) as (Hend & Hm & Hm'); [done..|].
  rewrite Hsc, Hss in Hend. split; [|done]. by apply ended_completed in Hend.
Qed.
End copy.

(** ** A concrete copy, both ways *)

Module Sample.
Export Dispatch.Sample.

(** The [FileInfo] message in the proto3 wire format. *)
#[export] Instance proto3_file_info : Prost stream.FileInfo := {|
  encode_to_vec m :=
    Proto3.put_str 1 (stream.info_name m) ++ Proto3.put_int 2 (stream.info_size m)
    ++ Proto3.put_bool 3 (stream.is_dir m) ++ Proto3.put_str 4 (stream.modified m)
    ++ Proto3.put_str 5 (stream.mode m);
  prost_decode bs :=
    Proto3.decoded (l ← Proto3.fields bs; n ← Proto3.get_str 1 l; z ← Proto3.get_num 2 0 l;
      d ← Proto3.get_bool 3 l; t ← Proto3.get_str 4 l; o ← Proto3.get_str 5 l;
      Some (stream.mkFileInfo n (Proto3.signed 64 z) d t o));
|}.

Definition request_frame (r : FileTransferRequest) : Frame :=
  match encode_request_frame 1 r with Ok f => f | Err _ => mkFrame 0 FIN [] end.
Definition config : FileTransferConfig :=
  mkFileConfig "/srv" DEFAULT_MAX_FILE_SIZE DEFAULT_MAX_LIST_ENTRIES DEFAULT_OPERATION_TIMEOUT.

(** Copying [/srv/a] of one machine to [b] under the other's root. *)
Definition bytes : list byte := [x01; x02; x03].
Definition put_frame : Frame := request_frame (request_put "b" (zlen bytes) false).
Definition stored : stream.FileInfo := file_info "b" (Mem.metadata_of (Some bytes)).
Definition hello : list Frame := frame_of <$> to_server "/" Runtime.Sample.pin.
Definition welcome : list Frame := frame_of <$> to_client Runtime.Sample.server.
Definition put_asks : list Frame := hello ++ asked 1 put_frame (upload_frames 1 bytes).
Definition put_answers : list Frame :=
  welcome ++ answered [mkFrame 1 (DAT |: FIN) (encode_to_vec stored)].

(** Copying it back. *)
Definition get_frame : Frame := request_frame (mkRequest Get "a" 0 false None).
Definition found : stream.FileInfo := file_info "a" (Mem.metadata_of (Some bytes)).
Definition get_out : list Frame :=
  match encode_response_frames 1 (Download found bytes) with Ok l => l | Err _ => [] end.
Definition get_asks : list Frame := hello ++ asked 1 get_frame [].
Definition get_answers : list Frame := welcome ++ answered get_out.

(** A new runtime that will receive [frames]. *)
Definition new_host (c : SessionRuntimeConfig) (frames : list Frame) (ts : list Z) : Host Queue Mem.Mem :=
  mkHost (Runtime.Sample.fresh (mkQueue frames [] ts) c) (Mem.disk true) collector_new.
Definition device (frames : list Frame) : Host Queue Mem.Mem := new_host Runtime.Sample.server frames [5].
Definition user (frames : list Frame) : Host Queue Mem.Mem := new_host Runtime.Sample.client frames [].

#[export] Existing Instances Runtime.Sample.control_laws Concrete.subtle_laws.
Lemma shared : share_pin Runtime.Sample.server Runtime.Sample.client Runtime.Sample.pin.
Proof.
  split; [done..|by eexists|done|apply Runtime.Sample.server_messages|apply Runtime.Sample.client_messages].
Qed.
End Sample.
Import Sample.

Lemma upload_end_to_end_witness :
  completed (Ok tt) (client_run (copy_session 10 "/srv/a" "b" false) (user put_answers)) (device_run 10 "/srv" (device put_asks))
    put_asks put_answers /\
  Mem.file_at (machine (device_run 10 "/srv" (device put_asks)).1) "/srv/b" = Some bytes.
Proof.
  destruct (upload_end_to_end (H := on_memory) Runtime.Sample.server Runtime.Sample.client
    Runtime.Sample.pin shared (FL := Mem.mem_laws) 10 "/srv/a" "b" false "/srv" [5]
    (rt (device put_asks)) (rt (user put_answers)) (Mem.disk true) (Mem.disk true)
    collector_new collector_new (Mem.disk true) bytes put_frame config stored "/srv/b" "/srv"
    (Mem.disk true)
    (execute None config (request_put "b" (zlen bytes) false) bytes [] 7 0 (Mem.disk true)).1)
    as (H1 & H2 & H3); cycle -1.
  1: { split; [exact H1|]. unfold device, new_host in *. cbn [rt] in *. rewrite H2. vm_compute. reflexivity. }
  all: try (vm_compute; reflexivity).
  1-3: vm_compute; discriminate.
  - eexists. vm_compute. reflexivity.
  - vm_compute. lia.
Defined.

Lemma download_end_to_end_witness :
  let client' := client_run (copy_session 10 "remote:a" "/srv/copy" false) (user get_answers) in
  completed (Ok tt) client' (device_run 10 "/srv" (device get_asks)) get_asks get_answers /\
  Mem.file_at (machine client'.1) "/srv/copy" = Some bytes.
Proof.
  cbv zeta.
  destruct (download_end_to_end Runtime.Sample.server Runtime.Sample.client Runtime.Sample.pin shared
    10 "remote:a" "a" "/srv/copy" false "/srv" [5]
    (rt (device get_asks)) (rt (user get_answers)) (Mem.disk true) (Mem.disk true)
    collector_new collector_new get_frame config "/srv/a"
    (Mem.metadata_of (Some bytes)) [bytes] get_out (Mem.disk true)
    (write_local "/srv/copy" bytes (Mem.disk true)).1 (write_local "/srv/copy" bytes (Mem.disk true)).1)
    as (H1 & H2 & H3); cycle -1.
  1: { split; [exact H1|]. unfold user, new_host in *. cbn [rt] in *. rewrite H3. vm_compute. reflexivity. }
  all: try (vm_compute; reflexivity).
  - eexists. vm_compute. reflexivity.
  - vm_compute. discriminate.
  - by repeat constructor.
  - vm_compute. discriminate.
  - vm_compute. discriminate.
  - eexists. split; vm_compute; reflexivity.
  - vm_compute. lia.
Defined.
