(* ===== verification/Command.v ===== *)
(** * A command run from end to end

    The shell client on one machine and the dispatcher on the other run against
    each other, each with the frames the other one sends as its inbox: what
    [connect] in [src/src/main.rs] and [serve_session] in
    [src/src/signaling/orchestration.rs] do together. *)
From S2P Require Import Prelude Errors Telemetry External Paths Swsp Streams Session Peer Wire Shell.
From S2P Require Import FileTransfer FileService Runtime Dispatch Copy.

Section command.
Context {M : Type} `{Machine M} `{ControlCodec} `{StreamCodec}.
Context `{Prost stream.FileInfo} `{Prost stream.FileList}.
Context `{Sha2} `{Subtle} `{WireDebug} `{RustFmt}.
Implicit Types h : Host Queue M.

(** ** What is exchanged *)

(** The frames a device answers with, for what the command gave. *)
Definition output_frames (id : Z) (data : list byte) : list Frame :=
  if is_nil data then [] else [mkFrame id (DAT |: MORE) (encode_to_vec (stream.mkShellOutput data))].
Definition exit_message (result : ShellRunResult) : stream.ShellExit :=
  stream.mkShellExit (default (-1) (exit_code result)) (signaled result).
Definition error_message (e : BlnkError) : stream.ShellError :=
  stream.mkShellError (blnk_error_display e).
Definition shell_answer (id : Z) (r : BResult ShellRunResult) : list Frame :=
  match r with
  | Ok result =>
      output_frames id (stdout result) ++ output_frames id (stderr result)
      ++ [mkFrame id (DAT |: FIN) (encode_to_vec (exit_message result))]
  | Err e => [mkFrame id (DAT |: FIN) (encode_to_vec (error_message e))]
  end.

(** The codec reads these messages back and tells an error from an exit. *)
Definition answer_readable (r : BResult ShellRunResult) : Prop :=
  match r with
  | Ok result =>
      prost_roundtrips (stream.mkShellOutput (stdout result)) /\
      prost_roundtrips (stream.mkShellOutput (stderr result)) /\
      prost_roundtrips (exit_message result)
  | Err e =>
      trim_is_empty (blnk_error_display e) = false /\ prost_roundtrips (error_message e) /\
      exists er, prost_decode (M := stream.ShellExit) (encode_to_vec (error_message e)) = Err er
  end.

(** What the client returns, and what it prints. *)
Definition client_status (r : BResult ShellRunResult) : BResult Z :=
  match r with
  | Ok result => Ok (default (-1) (exit_code result))
  | Err e => Err (ErrStream ("remote shell error: " +:+ blnk_error_display e))
  end.
Definition shows (data : list byte) (m m' : M) : Prop :=
  if is_nil data then m' = m else print data m = (m', Ok tt).
Definition shown (r : BResult ShellRunResult) (m m' : M) : Prop :=
  match r with
  | Ok result => exists m1, shows (stdout result) m m1 /\ shows (stderr result) m1 m'
  | Err _ => m' = m
  end.

(** The command on the device: [r] is its result and the machine is then [m']. *)
Definition command_gives (m : M) (root : string) (command : ShellCommand) (m' : M)
    (r : BResult ShellRunResult) : Prop :=
  exists policy, shell_policy_new root = Ok policy /\
    match @policy_validate (view m) policy command with
    | Err e => m' = m /\ r = Err e
    | Ok directory => exists spawn chunks ending,
        run_child directory command m = (m', (spawn, chunks, ending)) /\
        r = @shell_run (view m) policy command spawn chunks ending
    end.

(** ** The device *)

(** The stream [id] is an open shell stream of a ready session. *)
Definition shell_stream_open h (id : Z) : Prop :=
  id <> 0 /\ ensure_shell_stream id (rt h) = (rt h, Ok tt).

Lemma shell_open_session h id s :
  state s = Ready -> active (registry s) !! id = Some (mkEntry id Shell "/") -> id <> 0 ->
  session (rt h) = s -> shell_stream_open h id.
Proof.
  intros Hr Ha Hid Hs. split; [done|].
  unfold ensure_shell_stream, ensure_stream, rt_state, stream_entry, registry_get. rewrite Hs.
  by rewrite bool_decide_eq_true_2, Ha by done.
Qed.

Lemma shell_open_same h h' id :
  session (rt h') = session (rt h) -> shell_stream_open h id -> shell_stream_open h' id.
Proof.
  intros Hs [Hid Ho]. split; [done|]. unfold ensure_shell_stream, ensure_stream, rt_state in *.
  rewrite Hs. by injection Ho as ->.
Qed.

Lemma send_shell h id (f : Frame) built :
  shell_stream_open h id -> built = Ok f -> frame_fits f ->
  on_rt (bindS (ensure_shell_stream id) (fun _ => send_built built)) h = (push h [f], Done (Ok tt)).
Proof.
  intros [_ Ho] -> Hf. unfold on_rt, bindS. rewrite Ho.
  unfold send_built, bindS, liftS, on_world. by rewrite send_fits.
Qed.

(** A frame that is too long is not sent. *)
Lemma send_shell_too_long h id (f : Frame) built :
  shell_stream_open h id -> built = Ok f -> ~ frame_fits f ->
  exists e, on_rt (bindS (ensure_shell_stream id) (fun _ => send_built built)) h
            = (h, Done (Err (ErrProtocol e))).
Proof.
  intros [_ Ho] -> Hf. unfold on_rt, bindS. rewrite Ho.
  unfold send_built, bindS, liftS, on_world. destruct (send_too_long f (world (rt h)) Hf) as [e He].
  exists e. rewrite He. by destruct h as [[] ? ?].
Qed.

Lemma send_output h id data :
  shell_stream_open h id -> Forall frame_fits (output_frames id data) ->
  (if is_nil data then retH tt else on_rt (send_shell_output id data false)) h
  = (push h (output_frames id data), Done (Ok tt)).
Proof.
  intros Ho. unfold output_frames. destruct (is_nil data); [intros _; by rewrite push_nil|].
  intros [Hfit _]%Forall_cons_1. apply send_shell; [done| |done].
  unfold encode_output_frame, encode_data_message. by rewrite (proj2 (Z.eqb_neq id 0)) by apply Ho.
Qed.

(** What the dispatcher does once the command has run. *)
Definition shell_reply (id : Z) (r : BResult ShellRunResult) : HM (P := Queue) (M := M) unit :=
  match r with
  | Ok result =>
      bindH (if is_nil (stdout result) then retH tt
             else on_rt (send_shell_output id (stdout result) false)) (fun _ =>
      bindH (if is_nil (stderr result) then retH tt
             else on_rt (send_shell_output id (stderr result) false)) (fun _ =>
      on_rt (send_shell_exit id (default (-1) (exit_code result)) (signaled result))))
  | Err error => on_rt (send_shell_error id (blnk_error_display error))
  end.

Lemma dispatch_runs id command root h s e m' r :
  accept_stream (session (rt h)) id Shell "/" = (s, Ok e) -> command_gives (machine h) root command m' r ->
  dispatch_shell id command root h = shell_reply id r (on_m (seated h s) m').
Proof.
  intros Ha (policy & Hp & Hr). unfold dispatch_shell. unfold bindH at 1.
  unfold on_rt at 1, accept_shell_stream, on_session. rewrite Ha.
  change (mkHost _ (machine h) (spans h)) with (seated h s).
  unfold bindH at 1, liftH at 1. rewrite Hp.
  assert (Hrun : run_command policy command (seated h s) = (on_m (seated h s) m', Done (Ok r))).
  { unfold run_command. cbn [machine seated]. destruct (policy_validate policy command).
    - destruct Hr as (spawn & chunks & ending & -> & ->). done.
    - by destruct Hr as [-> ->]. }
  unfold bindH at 1. by rewrite Hrun.
Qed.

Lemma dispatch_shell_served id command root h s e m' r :
  id <> 0 -> accept_stream (session (rt h)) id Shell "/" = (s, Ok e) ->
  state s = Ready -> active (registry s) !! id = Some (mkEntry id Shell "/") ->
  command_gives (machine h) root command m' r -> answer_readable r ->
  Forall frame_fits (shell_answer id r) ->
  dispatch_shell id command root h
  = (on_m (push (seated h s) (shell_answer id r)) m', Done (Ok tt)).
Proof.
  intros Hid Ha Hs He Hg Hread Hfit. rewrite (dispatch_runs _ _ _ _ _ _ _ _ Ha Hg).
  pose proof (fun h' => shell_open_session h' id s Hs He Hid) as Ho.
  destruct r as [result|er]; cbn [shell_reply].
  - cbn [shell_answer] in Hfit. apply Forall_app in Hfit as [Hf1 [Hf2 [Hf3 _]%Forall_cons_1]%Forall_app].
    unfold bindH at 1. rewrite send_output by (first [by apply Ho|done]).
    unfold bindH at 1. rewrite send_output by (first [by apply Ho|done]).
    rewrite push_push. unfold send_shell_exit. erewrite send_shell; [|by apply Ho| |exact Hf3].
    2: { unfold encode_exit_frame, encode_terminal_message. by rewrite (proj2 (Z.eqb_neq id 0)). }
    rewrite push_push. cbn [shell_answer]. by rewrite <- app_assoc.
  - destruct Hread as (Hne & _). apply Forall_cons_1 in Hfit as [Hfit _].
    unfold send_shell_error. erewrite send_shell; [|by apply Ho| |exact Hfit].
    2: { unfold encode_error_frame, encode_terminal_message. by rewrite Hne, (proj2 (Z.eqb_neq id 0)). }
    done.
Qed.

(** A command that ran within the shell's own limits but wrote more than one frame
    carries: its output is not divided, so the dispatcher ends in a protocol error
    after the command has run, and nothing of the answer is sent. *)
Theorem long_output_fails id command root h s e m' result :
  id <> 0 -> accept_stream (session (rt h)) id Shell "/" = (s, Ok e) ->
  state s = Ready -> active (registry s) !! id = Some (mkEntry id Shell "/") ->
  command_gives (machine h) root command m' (Ok result) ->
  is_nil (stdout result) = false -> ~ Forall frame_fits (output_frames id (stdout result)) ->
  exists why, dispatch_shell id command root h = (on_m (seated h s) m', Done (Err (ErrProtocol why))).
Proof.
  intros Hid Ha Hs He Hg Hne Hlong. rewrite (dispatch_runs _ _ _ _ _ _ _ _ Ha Hg). cbn [shell_reply].
  unfold output_frames in Hlong. rewrite Hne in Hlong.
  destruct (send_shell_too_long (on_m (seated h s) m') id
    (mkFrame id (DAT |: MORE) (encode_to_vec (stream.mkShellOutput (stdout result))))
    (encode_output_frame id (stdout result) false)) as [why Hwhy].
  - by eapply shell_open_session.
  - unfold encode_output_frame, encode_data_message. by rewrite (proj2 (Z.eqb_neq id 0)).
  - intros Hf. apply Hlong. by constructor.
  - exists why. rewrite Hne. unfold bindH at 1, send_shell_output. by rewrite Hwhy.
Qed.

Lemma serve_command fuel root h f rest id command h' :
  id <> 0 -> stream_id f = id -> flags f = SYN |: DAT -> decode_open_frame f = Ok command ->
  inbox (world (rt h)) = f :: rest ->
  dispatch_shell id command root (on_m (left h [f] rest) (span_reading (machine h)).1) = (h', Done (Ok tt)) ->
  exists c, serve_loop (S fuel) [] root h
            = serve_loop fuel [] root (spanned (on_m h' (span_clock (machine h')).1) c).
Proof.
  intros Hid Hf Hfl Hopen Hin Hd.
  destruct (in_span_done "stream.shell" Telemetry.Shell id (dispatch_shell id command root)
              (left h [f] rest) h' (Ok tt) Hd) as [c Hc].
  exists c. eapply serve_next; [done|]. unfold serve_frame.
  rewrite Hf, (proj2 (Z.eqb_neq id 0)), Hfl by done. change (is_fin (SYN |: DAT)) with false.
  change (is_syn (SYN |: DAT)) with true. change (is_dat (SYN |: DAT)) with true. cbn [negb orb].
  rewrite Hopen. unfold bindH. by rewrite Hc.
Qed.

Lemma device_runs fuel root h id command f m' r :
  id <> 0 -> rt_state (rt h) = Ready -> registry_contains (registry (session (rt h))) id = false ->
  stream_id f = id -> flags f = SYN |: DAT -> decode_open_frame f = Ok command ->
  inbox (world (rt h)) = asked id f [] ->
  command_gives (span_reading (machine h)).1 root command m' r -> answer_readable r ->
  Forall frame_fits (shell_answer id r) ->
  exists h', serve_session_collected (S (S (S fuel))) [] root h = (h', Done (Ok tt)) /\
    trace (world (rt h')) = trace (world (rt h)) ++ device_steps id f [] (shell_answer id r) /\
    machine h' = (span_clock m').1 /\ rt_state (rt h') = Closed.
Proof.
  intros Hid Hr Hfree Hf Hfl Hopen Hin Hg Hread Hfit.
  destruct (accept_free (session (rt h)) id Shell Hid Hr Hfree) as (s & Ha & Hst & Hact).
  set (h0 := on_m (left h [f] [mkFrame id FIN []; mkFrame CONTROL_STREAM_ID FIN []])
               (span_reading (machine h)).1).
  pose proof (dispatch_shell_served id command root h0 s _ m' r Hid Ha Hst Hact Hg Hread Hfit) as Hd.
  destruct (serve_command (S (S fuel)) _ _ _ _ _ _ _ Hid Hf Hfl Hopen Hin Hd) as [c Hserve].
  destruct (serving_ends fuel root h _ id _ Hid Hserve eq_refl Hst Hact) as (h' & Hrun & Hsent & Hm & Hcl).
  exists h'. rewrite Hsent, Hm. unfold device_steps. cbn. by rewrite <- !app_assoc.
Qed.

(** ** The client *)

Lemma shell_stream_opened h s e :
  registry_wf (registry (session (rt h))) -> open_stream (session (rt h)) Shell "/" = (s, Ok e) ->
  on_rt (open_shell_stream "/") h = (seated h s, Done (Ok e)) /\
  forall h', session (rt h') = s -> shell_stream_open h' (entry_id e).
Proof.
  intros Hwf Ho. split.
  { unfold on_rt, open_shell_stream, rt_open_stream, on_session. by rewrite Ho. }
  intros h'. unfold open_stream in Ho. case_match eqn:Hr; [done|].
  apply negb_false_iff, bool_decide_eq_true in Hr.
  destruct (open _ _ _) as [g [e'|]] eqn:E; [|done]. injection Ho as <- ->.
  apply open_Ok in E as (_ & Hv & He & Ha & _); [|done].
  apply shell_open_session; [done| |unfold valid_id in Hv; lia]. cbn. rewrite Ha, <- He.
  apply lookup_insert_eq.
Qed.

Lemma recv_shell h id f rest :
  shell_stream_open h id -> stream_id f = id -> is_syn (flags f) = false ->
  inbox (world (rt h)) = f :: rest ->
  on_rt recv_shell_frame h = (left h [f] rest, Done (Ok f)).
Proof.
  intros Ho Hf Hsyn Hin. destruct (shell_open_same h (left h [f] rest) id eq_refl Ho) as [Hid Ho'].
  unfold on_rt, recv_shell_frame, bindS, on_world. cbn [w_recv queue_world]. rewrite Hin.
  change CONTROL_STREAM_ID with 0. rewrite Hf, (proj2 (Z.eqb_neq id 0)), Hsyn by done.
  unfold take_frame. cbn -[ensure_shell_stream]. unfold left, with_world in Ho'. cbn -[ensure_shell_stream] in Ho'.
  by rewrite Ho'.
Qed.

(** The client ends the stream when it has the status. *)
Lemma shell_closed h id :
  shell_stream_open h id ->
  exists h' r, tryH (on_rt (close_shell_stream id)) h = (h', Done (Ok r)) /\
    rt_state (rt h') = Ready /\ machine h' = machine h /\
    trace (world (rt h')) = trace (world (rt h)) ++ [Sent (mkFrame id FIN [])].
Proof.
  intros [_ Ho]. assert (Ho' := Ho). unfold ensure_shell_stream, ensure_stream in Ho'.
  case_match eqn:Hr; [done|]. apply negb_false_iff, bool_decide_eq_true in Hr.
  unfold tryH, on_rt, close_shell_stream, bindS, on_world, on_session, close_stream, close. rewrite Ho.
  rewrite send_fits by apply empty_fits. cbn.
  destruct (active _ !! id); eexists _, _; (split; [reflexivity|]); split_and!; try done; exact Hr.
Qed.

(** An output frame is printed. *)
Lemma shell_output fuel h id data rest m' :
  shell_stream_open h id -> prost_roundtrips (stream.mkShellOutput data) ->
  inbox (world (rt h)) = output_frames id data ++ rest -> shows data (machine h) m' ->
  shell_client_loop (length (output_frames id data) + fuel) id h
  = shell_client_loop fuel id (on_m (left h (output_frames id data) rest) m').
Proof.
  unfold output_frames, shows. intros Ho Hrt Hin Hp. destruct (is_nil data).
  - subst m'. cbn [length Nat.add]. f_equal.
    destruct h as [[[i o t] ? ? ? ? ? ? ? ?] ? ?]. unfold left, with_world. cbn in *.
    by rewrite app_nil_r, Hin.
  - cbn [length Nat.add shell_client_loop]. unfold bindH at 1.
    rewrite (recv_shell h id (mkFrame id (DAT |: MORE) (encode_to_vec (stream.mkShellOutput data))) rest
               Ho eq_refl eq_refl Hin).
    cbn [flags]. change (is_fin (DAT |: MORE)) with false. cbv iota.
    unfold bindH at 1, liftH at 1, decode_output_frame.
    erewrite (decode_encode_data id _ false); [|unfold encode_data_message;
      by rewrite (proj2 (Z.eqb_neq id 0)) by apply Ho|done].
    unfold bindH at 1, on_io, bindH at 1, on_machine, liftH. cbn [machine left with_world stream.output_data].
    rewrite Hp. done.
Qed.

Lemma shell_status h id r g rest :
  shell_stream_open h id -> answer_readable r ->
  (match r with
   | Ok result => g = encode_to_vec (exit_message result)
   | Err e => g = encode_to_vec (error_message e)
   end) ->
  inbox (world (rt h)) = mkFrame id (DAT |: FIN) g :: rest -> forall fuel,
  exists h', shell_client_loop (S fuel) id h = (h', Done (client_status r)) /\
    rt_state (rt h') = Ready /\ machine h' = machine h /\
    trace (world (rt h')) = trace (world (rt h)) ++ [Got (mkFrame id (DAT |: FIN) g); Sent (mkFrame id FIN [])].
Proof.
  intros Ho Hread Hg Hin fuel. cbn [shell_client_loop]. unfold bindH at 1.
  rewrite (recv_shell h id (mkFrame id (DAT |: FIN) g) rest Ho eq_refl eq_refl Hin).
  cbn [flags]. change (is_fin (DAT |: FIN)) with true. cbv iota.
  set (h1 := left h [mkFrame id (DAT |: FIN) g] rest).
  assert (Ho' : shell_stream_open h1 id).
  { by apply (shell_open_same h). }
  destruct (shell_closed h1 id Ho') as (h' & res & Hc & Hr' & Hm' & Hs').
  exists h'. rewrite Hr', Hm', Hs'. split; [|unfold h1; cbn; by rewrite <- app_assoc].
  assert (Henc : forall {X} `{Prost X} (x : X), encode_terminal_message id x
                   = Ok (mkFrame id (DAT |: FIN) (encode_to_vec x))).
  { intros. unfold encode_terminal_message. by rewrite (proj2 (Z.eqb_neq id 0)) by apply Ho. }
  destruct r as [result|e]; subst g.
  - destruct Hread as (_ & _ & Hrt). unfold decode_exit_frame.
    rewrite (decode_encode_terminal id (exit_message result) _ _ (Henc _ _ _) Hrt).
    unfold bindH. by rewrite Hc.
  - destruct Hread as (_ & Hrt & er & Hex).
    assert (Hno : exists er', decode_exit_frame (mkFrame id (DAT |: FIN) (encode_to_vec (error_message e))) = Err er').
    { unfold decode_exit_frame, decode_terminal_message, require_shell_frame, decode_payload.
      cbn [stream_id flags payload]. rewrite (proj2 (Z.eqb_neq id 0)) by apply Ho. cbn. rewrite Hex. by eexists. }
    destruct Hno as [er' ->]. unfold decode_error_frame.
    rewrite (decode_encode_terminal id (error_message e) _ _ (Henc _ _ _) Hrt).
    unfold bindH. by rewrite Hc.
Qed.

Lemma shell_answered fuel h id r rest m' :
  shell_stream_open h id -> answer_readable r ->
  inbox (world (rt h)) = shell_answer id r ++ rest -> shown r (machine h) m' ->
  exists h', shell_client_loop (length (shell_answer id r) + fuel) id h = (h', Done (client_status r)) /\
    rt_state (rt h') = Ready /\ machine h' = m' /\
    trace (world (rt h')) = trace (world (rt h)) ++ (Got <$> shell_answer id r) ++ [Sent (mkFrame id FIN [])].
Proof.
  intros Ho Hread Hin Hsh. destruct r as [result|e].
  - destruct Hsh as (m1 & H1' & H2'). cbn [shell_answer] in *.
    rewrite !length_app, <- !Nat.add_assoc. cbn [length].
    set (last := mkFrame id (DAT |: FIN) (encode_to_vec (exit_message result))) in *.
    rewrite (shell_output _ h id (stdout result) (output_frames id (stderr result) ++ [last] ++ rest) m1);
      [|done|apply Hread|by rewrite Hin, <- !app_assoc|done].
    set (h1 := on_m _ m1).
    rewrite (shell_output _ h1 id (stderr result) ([last] ++ rest) m');
      [|by apply (shell_open_same h)|apply Hread|done|done].
    destruct (shell_status (on_m (left h1 (output_frames id (stderr result)) ([last] ++ rest)) m') id (Ok result)
                (encode_to_vec (exit_message result)) rest) with (fuel := fuel) as (h' & Hrun & Hr & Hm & Hs);
      [by apply (shell_open_same h)|done..|].
    exists h'. split_and!; [done..|]. rewrite Hs. unfold h1, left, with_world. cbn.
    by rewrite !fmap_app, <- !app_assoc.
  - cbn [shown] in Hsh. subst m'.
    exact (shell_status h id (Err e) _ rest Ho Hread eq_refl Hin fuel).
Qed.

(** [connect]'s work on the session, and then its end. *)
Definition shell_session (fuel : nat) (command : ShellCommand) : HM (P := Queue) (M := M) Z :=
  closed_after (run_shell_client_collected fuel command).

Lemma client_commands fuel command h s e f r rest m' :
  registry_wf (registry (session (rt h))) -> open_stream (session (rt h)) Shell "/" = (s, Ok e) ->
  encode_open_frame (entry_id e) command = Ok f -> frame_fits f -> answer_readable r ->
  inbox (world (rt h)) = shell_answer (entry_id e) r ++ rest ->
  shown r (span_reading (machine h)).1 m' -> (length (shell_answer (entry_id e) r) <= fuel)%nat ->
  exists h', shell_session fuel command h = (h', Done (client_status r)) /\
    trace (world (rt h')) = trace (world (rt h)) ++ client_steps (entry_id e) f [] (shell_answer (entry_id e) r) /\
    machine h' = (span_clock m').1 /\ rt_state (rt h') = Closed.
Proof.
  intros Hwf Hopen Hf Hfit Hread Hin Hsh Hfuel.
  destruct (shell_stream_opened h s e Hwf Hopen) as [Hop Hshell].
  set (id := entry_id e) in *. set (h0 := on_m (seated h s) (span_reading (machine h)).1).
  destruct (shell_answered (fuel - length (shell_answer id r)) (push h0 [f]) id r rest m')
    as (h1 & Hloop & Hr1 & Hm1 & Hs1); [by apply Hshell|done..|].
  replace (length (shell_answer id r) + (fuel - length (shell_answer id r)))%nat with fuel in Hloop by lia.
  assert (Hrun : exists c, run_shell_client_collected fuel command h
                           = (spanned (on_m h1 (span_clock m').1) c, Done (client_status r))).
  { unfold run_shell_client_collected. unfold bindH at 1. rewrite Hop.
    unfold bindH at 1, start_span, bindH at 1, on_machine. cbn [machine seated].
    destruct (span_reading (machine h)) as [m0 reading] eqn:Em. cbn [fst] in *.
    change (mkHost (rt (seated h s)) m0 (spans (seated h s))) with h0.
    unfold bindH at 1, send_shell_open. rewrite (send_shell h0 id f) by (first [by apply Hshell|done]).
    fold id. unfold bindH at 1, tryH. rewrite Hloop.
    unfold bindH at 1, finish_span, bindH at 1, on_machine, liftH. rewrite Hm1.
    destruct (span_clock m') as [m2 now]. cbn. by eexists. }
  destruct Hrun as [c Hrun].
  destruct (closed_after_ends (run_shell_client_collected fuel command) h _ _ Hrun Hr1)
    as (h' & Hh' & Hs' & Hm' & Hc').
  exists h'. split; [exact Hh'|]. rewrite Hs', Hm'. cbn [spanned on_m rt machine]. rewrite Hs1.
  split_and!; [|done|done]. unfold client_steps. cbn. by rewrite <- !app_assoc.
Qed.

(** ** Both ends *)

Context {CL : ControlLaws} {SL : SubtleLaws} (cs cc : SessionRuntimeConfig) (pin : string).
Hypothesis Hshare : share_pin cs cc pin.
Let hello := frame_of <$> to_server (cfg_connect_path cc) pin.
Let welcome := frame_of <$> to_client cs.

(** C8: Running a command on a device works from end to end, when the command and
    each frame of the answer fit the frame limit of 16 KiB: from two new runtimes
    that share the PIN, whatever the command does there (it is refused, cannot be
    started, fails, runs out of time, or exits with output), both sides run to
    their ends and close their sessions, each having sent exactly the frames the
    other one took, in an order of one joint run; the client prints exactly the
    command's standard output and then its standard error and returns its exit
    code, or reports the device's error. (Without the condition see
    [long_output_fails].) *)
Theorem command_end_to_end fuel command root ts srv cli (mc md : M) spc spd f r m1 m' :
  let asks := hello ++ asked 1 f [] in
  let answers := welcome ++ answered (shell_answer 1 r) in
  runtime_new (mkQueue asks [] ts) cs = Ok srv -> runtime_new (mkQueue answers [] []) cc = Ok cli ->
  encode_open_frame 1 command = Ok f -> trim_is_empty (program command) = false ->
  prost_roundtrips (stream.mkShellOpen "shell" (program command) (args command) (cwd command)) ->
  command_gives (span_reading md).1 root command m' r -> answer_readable r ->
  frame_fits f -> Forall frame_fits (shell_answer 1 r) ->
  shown r (span_reading mc).1 m1 -> (3 <= fuel)%nat ->
  let client' := client_run (shell_session fuel command) (mkHost cli mc spc) in
  let server' := device_run fuel root (mkHost srv md spd) in
  completed (client_status r) client' server' asks answers /\
  machine client'.1 = (span_clock m1).1 /\ machine server'.1 = (span_clock m').1.
Proof using CL SL Hshare.
  intros asks answers Hsrv Hcli Hf Hprog Hrt Hg Hread Hfit Hfits Hsh Hfuel client' server'.
  destruct (runs_wired cs cc pin _ _ ts srv cli md mc spd spc Hshare Hsrv Hcli)
    as (client & server & [Hready Hask Hans Hrc Hrs Hopening] & <- & <- & Hsc & Hss & Hc & Hs).
  assert (Hopen : decode_open_frame f = Ok command /\ stream_id f = 1 /\ flags f = SYN |: DAT).
  { destruct (shell_open_roundtrip 1 command ltac:(done) Hprog Hrt) as (f' & Hf' & Hid & _ & Hd).
    rewrite Hf in Hf'. simplify_eq. unfold encode_open_frame in Hf. cbn in Hf. by simplify_eq. }
  destruct Hopen as (Hd & Hid & Hfl).
  destruct (opens_first (rt client) Shell Hopening Hrc) as (Hwf & s & Ho).
  assert (Hlen : (length (shell_answer 1 r) <= fuel)%nat).
  { destruct r as [result|]; [|cbn; lia]. cbn [shell_answer]. unfold output_frames.
    destruct (is_nil (stdout result)), (is_nil (stderr result)); cbn [length app]; lia. }
  destruct (client_commands fuel command client s (first_entry Shell) f r
              [mkFrame CONTROL_STREAM_ID FIN []] m1) as (c & Hcr & Hcs & Hcm & Hcc); [done..|].
  destruct fuel as [|[|[|fuel]]]; [lia..|].
  destruct (device_runs fuel root server 1 command f m' r) as (d & Hdr & Hds & Hdm & Hdc);
    [done|done|by rewrite Hrs|done..|].
  unfold client', server'. rewrite Hc, Hs. rewrite Hsc in Hcs. rewrite Hss in Hds.
  assert (Hend : ended (client_status r) (shell_session (S (S (S fuel))) command client)
    (serve_session_collected (S (S (S fuel))) [] root server)
    (client_trace cs (cfg_connect_path cc) pin ++ client_steps 1 f [] (shell_answer 1 r))
    (server_trace cs (cfg_connect_path cc) pin ++ device_steps 1 f [] (shell_answer 1 r))).
  { rewrite Hcr, Hdr. by split. }
  rewrite Hcr, Hdr in *. split; [by apply ended_completed in Hend|by split].
Qed.
End command.

(** ** Two concrete commands *)

Module Sample.
Export Copy.Sample.

(** The messages of a shell stream in the proto3 wire format. *)
#[export] Instance proto3_shell : StreamCodec := {|
  codec_file_op := proto3_file_op;
  codec_shell_open := Proto3.shell_open;
  codec_shell_input := Proto3.shell_input;
  codec_shell_output :=
    {| encode_to_vec m := Proto3.put_bytes 1 (stream.output_data m);
       prost_decode bs := Proto3.decoded (l ← Proto3.fields bs; d ← Proto3.get_len 1 [] l;
                                          Some (stream.mkShellOutput d)) |};
  codec_resize := Proto3.resize;
  codec_exit :=
    {| encode_to_vec m := Proto3.put_int 1 (stream.code m) ++ Proto3.put_bool 2 (stream.signaled m);
       prost_decode bs := Proto3.decoded (l ← Proto3.fields bs; c ← Proto3.get_i32 1 l;
                                          s ← Proto3.get_bool 2 l; Some (stream.mkShellExit c s)) |};
  codec_shell_error :=
    {| encode_to_vec m := Proto3.put_str 1 (stream.shell_error_message m);
       prost_decode bs := Proto3.decoded (l ← Proto3.fields bs; t ← Proto3.get_str 1 l;
                                          Some (stream.mkShellError t)) |};
  codec_cancel := Proto3.shell_cancel;
|}.

(** A machine whose commands write [hi] and exit with 3, and which keeps what is
    printed on it in a file. *)
#[export] Instance talking : Machine Mem.Mem := {
  run_child _ _ m :=
    (m, (Ok tt, [(Stdout, Ok [x68; x69]); (Stdout, Ok []); (Stderr, Ok [])], Exited (Some 3) false));
  process_id _ := 7;
  next_temp m := (m, 0);
  file_timer _ := None;
  span_reading m := (m, mkReading 0 0 "trace" "span");
  span_clock m := (m, 0);
  print l m := (Mem.mkMem (Mem.set_path (Mem.nodes m) "/dev/tty"
                  (Some (default [] (Mem.file_at m "/dev/tty") ++ l))) (Mem.rename_works m), Ok tt);
  read_local p m := (m, Err Mem.not_found);
  create_local_dirs _ m := (m, Ok tt);
  write_local _ _ m := (m, Ok tt);
}.

Definition greet : ShellCommand := mkShellCommand "greet" [] "".
Definition greeted : BResult ShellRunResult := Ok (mkShellRunResult [x68; x69] [] (Some 3) false).
Definition open_frame : Frame :=
  match encode_open_frame 1 greet with Ok f => f | Err _ => mkFrame 0 FIN [] end.
Definition shell_asks : list Frame := hello ++ asked 1 open_frame [].
Definition shell_answers : list Frame := welcome ++ answered (shell_answer 1 greeted).
End Sample.
Import Sample.

Lemma command_end_to_end_witness :
  let client' := client_run (shell_session 5 greet) (user shell_answers) in
  completed (Ok 3) client' (device_run 5 "/srv" (device shell_asks)) shell_asks shell_answers /\
  Mem.file_at (machine client'.1) "/dev/tty" = Some [x68; x69].
Proof.
  cbv zeta.
  destruct (command_end_to_end (H := talking) Runtime.Sample.server Runtime.Sample.client
    Runtime.Sample.pin shared 5 greet "/srv" [5]
    (rt (device shell_asks)) (rt (user shell_answers)) (Mem.disk true) (Mem.disk true)
    collector_new collector_new open_frame greeted
    (print [x68; x69] (Mem.disk true)).1 (Mem.disk true)) as (H1 & H2 & H3); cycle -1.
  1: { split; [exact H1|]. unfold user, new_host in *. cbn [rt] in *. rewrite H2. vm_compute. reflexivity. }
  1-5: vm_compute; reflexivity.
  - exists (mkShellPolicy "/srv" ∅ ∅ DEFAULT_MAX_OUTPUT_BYTES DEFAULT_MAX_ARGUMENTS
              DEFAULT_MAX_ARGUMENT_BYTES DEFAULT_TIMEOUT).
    split; [reflexivity|].
    exists (Ok tt), [(Stdout, Ok [x68; x69]); (Stdout, Ok []); (Stderr, Ok [])], (Exited (Some 3) false).
    split; [reflexivity|vm_compute; reflexivity].
  - split_and!; vm_compute; reflexivity.
  - vm_compute. discriminate.
  - repeat constructor; vm_compute; discriminate.
  - exists (print [x68; x69] (Mem.disk true)).1. split; vm_compute; reflexivity.
  - lia.
Defined.

(** A machine whose commands write 16 KiB, well within the shell's output limit. *)
Definition chatty : Machine Mem.Mem :=
  {| run_child _ _ m :=
       (m, (Ok tt, [(Stdout, Ok (replicate 16384 x68)); (Stdout, Ok []); (Stderr, Ok [])], Exited (Some 0) false));
     process_id := @process_id _ talking; next_temp := @next_temp _ talking;
     file_timer := @file_timer _ talking; span_reading := @span_reading _ talking;
     span_clock := @span_clock _ talking; print := @print _ talking;
     read_local := @read_local _ talking; create_local_dirs := @create_local_dirs _ talking;
     write_local := @write_local _ talking |}.

(** There the device's run ends in a protocol error and the client never gets an answer. *)
Lemma long_output_fails_example :
  let '(server', o) := device_run (H := chatty) 5 "/srv" (device shell_asks) in
  (exists why, o = Done (Err (ErrProtocol why))) /\
  forall code, (client_run (shell_session 5 greet) (user (sent (world (rt server'))))).2 <> Done (Ok code).
Proof.
  destruct (device_run (H := chatty) 5 "/srv" (device shell_asks)) as [server' o] eqn:E.
  vm_compute in E. injection E as <- <-. split; [by eexists|]. intros code. vm_compute. done.
Qed.

(** A command the device cannot run there is reported as the device's error. *)
Lemma refused_command_reported :
  let command := mkShellCommand "greet" [] "nowhere" in
  let f := match encode_open_frame 1 command with Ok f => f | Err _ => mkFrame 0 FIN [] end in
  let '(server', o) := device_run 5 "/srv" (device (hello ++ asked 1 f [])) in
  o = Done (Ok tt) /\
  (client_run (shell_session 5 command) (user (sent (world (rt server'))))).2
  = Done (Err (ErrStream ("remote shell error: " +:+ blnk_error_display (ErrIo Mem.not_found)))).
Proof. vm_compute. done. Qed.
