(* ===== verification/Rtc.v ===== *)
(** * Building and connecting a peer

    The part of [src/src/peer/mod.rs] that drives a WebRTC connection: building
    it, the data channel, offers and answers after ICE gathering, the wait for an
    empty send buffer, and the harness that connects two peers in process. The
    calls of the [webrtc] crate are the class [RtcApi]; the callbacks it makes
    are the script of [Peer]. The result implements the interface [Peering] that
    the session setup is written against. *)
From S2P Require Import Prelude Errors Swsp Peer Orchestration.

Definition DEFAULT_UDP_BIND : string := "127.0.0.1:0".

(** Calls of the crate on the surroundings [W] and on a connection [C]; errors
    are their text, descriptions are SDP text. [build] also gives the callbacks
    the connection will make. *)
Class RtcApi (W C : Type) := {
  register_default_codecs : W -> W * Result string unit;
  register_default_interceptors : W -> W * Result string unit;
  build : list (list string) -> list string -> W -> W * Result string (C * WebRtc);
  rtc_create_data_channel : string -> C -> C * Result string unit;
  rtc_create_offer : C -> C * Result string string;
  rtc_create_answer : C -> C * Result string string;
  rtc_set_local_description : string -> C -> C * Result string unit;
  rtc_set_remote_description : string -> C -> C * Result string unit;
  rtc_local_description : C -> C * option string;
  rtc_outstanding_bytes : C -> C * Result string Z;
  rtc_parse_offer : string -> Result string string;
  rtc_parse_answer : string -> Result string string;
}.

(** A peer: the handle of [Peer] and its connection. *)
Record Rtc (C : Type) := mkRtc { handle : PeerHandle; connection : C }.
Arguments mkRtc {C} _ _.
Arguments handle {C} _.
Arguments connection {C} _.

Section rtc.
Context {W C : Type} `{RtcApi W C}.

(** ** Construction *)

Definition with_ice_servers (ice_servers : list string) (w : W) : W * BResult (Rtc C) :=
  match register_default_codecs w with
  | (w, Err error) => (w, Err (peer_error "register codecs" error))
  | (w, Ok _) =>
      match register_default_interceptors w with
      | (w, Err error) => (w, Err (peer_error "register interceptors" error))
      | (w, Ok _) =>
          let servers := if is_nil ice_servers then [] else [ice_servers] in
          match build servers [DEFAULT_UDP_BIND] w with
          | (w, Err error) => (w, Err (peer_error "build peer connection" error))
          | (w, Ok (c, script)) =>
              (w, Ok (mkRtc (mkPeer peer_events_new [] false [] script) c))
          end
      end
  end.
Definition rtc_new : W -> W * BResult (Rtc C) := with_ice_servers [].

(** ** Calls on a peer *)

Definition on_connection {A} (operation : string) (call : C -> C * Result string A)
    : SM (Rtc C) BlnkError A :=
  fun p => let '(c, r) := call (connection p) in
           (mkRtc (handle p) c, map_err (peer_error operation) r).
Definition on_handle {A} (call : PeerHandle -> PeerHandle * BResult A) : SM (Rtc C) BlnkError A :=
  fun p => let '(h, r) := call (handle p) in (mkRtc h (connection p), r).

Definition rtc_data_channel (label : string) : SM (Rtc C) BlnkError unit :=
  do* on_connection "create data channel" (rtc_create_data_channel label) in
  on_handle (fun h => (set_events h (install_channel (events h)), Ok tt)).

(** The description is read back after gathering: it then has the candidates. *)
Definition gathered_description (missing : string) : SM (Rtc C) BlnkError string :=
  do* on_handle wait_for_gathering in
  fun p => let '(c, d) := rtc_local_description (connection p) in
           (mkRtc (handle p) c, ok_or d (ErrPeer missing)).

Definition offer : SM (Rtc C) BlnkError string :=
  let* offer := on_connection "create offer" rtc_create_offer in
  do* on_connection "set local offer" (rtc_set_local_description offer) in
  gathered_description "local offer is unavailable".

Definition answer_to (offer : string) : SM (Rtc C) BlnkError string :=
  do* on_connection "set remote offer" (rtc_set_remote_description offer) in
  let* answer := on_connection "create answer" rtc_create_answer in
  do* on_connection "set local answer" (rtc_set_local_description answer) in
  gathered_description "local answer is unavailable".

Definition remote_answer (answer : string) : SM (Rtc C) BlnkError unit :=
  on_connection "set remote answer" (rtc_set_remote_description answer).

(** The buffer is read again every millisecond; [readings] bounds how often
    before the timeout. *)
Fixpoint drain_loop (readings : nat) : SM (Rtc C) BlnkError unit :=
  match readings with
  | O => failS (ErrPeer "timed out waiting for data-channel send buffer")
  | S readings =>
      let* bytes := on_connection "read data-channel send buffer" rtc_outstanding_bytes in
      if bytes =? 0 then retS tt else drain_loop readings
  end.
Definition wait_send_buffer_empty (readings : nat) : SM (Rtc C) BlnkError unit :=
  do* on_handle get_channel in drain_loop readings.

(** ** The interfaces it implements *)

#[export] Instance rtc_peering : Peering W (Rtc C) := {
  peer_new := rtc_new;
  create_data_channel := rtc_data_channel;
  create_offer := offer;
  accept_offer := answer_to;
  set_remote_answer := remote_answer;
  Orchestration.wait_connected := on_handle Peer.wait_connected;
  Orchestration.wait_channel_open := on_handle Peer.wait_channel_open;
  parse_offer := rtc_parse_offer;
  parse_answer := rtc_parse_answer;
}.
End rtc.

(** ** Two peers in process *)

Section harness.
Context {W P : Type} `{Peering W P}.

(** Two peers and a computation on either of them. *)
Definition on_offerer {A} (c : SM P BlnkError A) : SM (P * P) BlnkError A :=
  fun '(o, a) => let '(o, r) := c o in ((o, a), r).
Definition on_answerer {A} (c : SM P BlnkError A) : SM (P * P) BlnkError A :=
  fun '(o, a) => let '(a, r) := c a in ((o, a), r).

Definition connect_pair (label : string) : SM (P * P) BlnkError unit :=
  do* on_offerer (create_data_channel label) in
  let* offer := on_offerer create_offer in
  let* answer := on_answerer (accept_offer offer) in
  do* on_offerer (set_remote_answer answer) in
  do* on_offerer Orchestration.wait_connected in
  do* on_answerer Orchestration.wait_connected in
  do* on_offerer Orchestration.wait_channel_open in
  on_answerer Orchestration.wait_channel_open.

(** The offerer and the answerer. *)
Definition harness_new (label : string) (w : W) : W * BResult (P * P) :=
  match peer_new w with
  | (w, Err e) => (w, Err e)
  | (w, Ok offerer) =>
      match peer_new w with
      | (w, Err e) => (w, Err e)
      | (w, Ok answerer) =>
          (w, match connect_pair label (offerer, answerer) with
              | (both, Ok _) => Ok both
              | (_, Err e) => Err e
              end)
      end
  end.
End harness.

(** ** What a connected peer has been through *)

Section proofs.
Context {W C : Type} `{RtcApi W C}.

Lemma wait_Ok poll timeout p p' :
  wait poll timeout p = (p', Ok tt) -> poll p' = Some (Ok tt).
Proof. intros (n & _ & _ & [?|(_ & _ & ?)])%wait_fuel_spec; [done|done|lia]. Qed.

(** Flags that are set stay set while callbacks arrive. *)
Definition keeps (p p' : PeerHandle) : Prop :=
  (connected_state (events p) = true -> connected_state (events p') = true) /\
  (gathering_done (events p) = true -> gathering_done (events p') = true) /\
  (channel_opened (events p) = true -> channel_opened (events p') = true).

#[local] Instance keeps_preorder : PreOrder keeps.
Proof. split; [by intros p|]. unfold keeps. intros p q r; naive_solver. Qed.

Lemma deliver_keeps p ev : keeps p (deliver p ev).
Proof.
  destruct ev as [[]|[]|[]| |[|b d| | |]]; cbn; try done.
  - unfold install_channel. by case_match.
  - by case_match.
Qed.

Lemma wait_keeps poll timeout p p' r : wait poll timeout p = (p', r) -> keeps p p'.
Proof.
  intros (n & Hn & _)%wait_fuel_spec; [|lia]. revert p Hn.
  induction n as [|n IH]; intros p Hn; simplify_eq/=; [done|].
  destruct (advance p) as [q|] eqn:E; [|done]. apply IH in Hn. etrans; [|exact Hn].
  unfold advance in E. destruct (upcoming _) as [|ev rest]; [done|]. simplify_eq.
  etrans; [|apply deliver_keeps]. done.
Qed.

Lemma on_handle_inv {A} (call : PeerHandle -> PeerHandle * BResult A) (p p' : Rtc C) r :
  on_handle call p = (p', r) ->
  call (handle p) = (handle p', r) /\ connection p' = connection p.
Proof. unfold on_handle. destruct (call _) eqn:E. by intros [= <- <-]. Qed.

Lemma on_connection_handle {A} op (call : C -> C * Result string A) (p p' : Rtc C) r :
  on_connection op call p = (p', r) -> handle p' = handle p.
Proof. unfold on_connection. destruct (call _). by intros [= <- <-]. Qed.

Lemma gathered_description_Ok missing (p p' : Rtc C) sdp :
  gathered_description missing p = (p', Ok sdp) ->
  gathering_done (events (handle p')) = true /\ keeps (handle p) (handle p') /\
  exists c, rtc_local_description c = (connection p', Some sdp).
Proof.
  unfold gathered_description. intros (p1 & [] & [Hw _]%on_handle_inv & Hd)%bindS_Ok.
  destruct (rtc_local_description (connection p1)) as [c [d|]] eqn:E; simplify_eq/=.
  split_and!; [|by apply wait_keeps in Hw|eauto].
  apply wait_Ok in Hw. unfold poll_gathering in Hw. by destruct (gathering_done _).
Qed.

Lemma offer_Ok (p p' : Rtc C) sdp :
  offer p = (p', Ok sdp) ->
  gathering_done (events (handle p')) = true /\ keeps (handle p) (handle p') /\
  exists c, rtc_local_description c = (connection p', Some sdp).
Proof.
  unfold offer. intros (p1 & o & H1%on_connection_handle & Ho)%bindS_Ok.
  apply bindS_Ok in Ho as (p2 & [] & H2%on_connection_handle & Hg).
  apply gathered_description_Ok in Hg as (? & Hk & ?). rewrite H2, H1 in Hk. done.
Qed.

Lemma answer_Ok o (p p' : Rtc C) sdp :
  answer_to o p = (p', Ok sdp) ->
  gathering_done (events (handle p')) = true /\ keeps (handle p) (handle p') /\
  exists c, rtc_local_description c = (connection p', Some sdp).
Proof.
  unfold answer_to. intros (p0 & [] & H0%on_connection_handle & Ho)%bindS_Ok.
  apply bindS_Ok in Ho as (p1 & a & H1%on_connection_handle & Ho).
  apply bindS_Ok in Ho as (p2 & [] & H2%on_connection_handle & Hg).
  apply gathered_description_Ok in Hg as (? & Hk & ?). rewrite H2, H1, H0 in Hk. done.
Qed.

(** A description leaves a peer only after its candidates were gathered, and it
    is the one the connection reports then, so it can be used without trickling
    candidates. *)
Theorem descriptions_are_gathered (p p' : Rtc C) remote sdp :
  offer p = (p', Ok sdp) \/ answer_to remote p = (p', Ok sdp) ->
  gathering_done (events (handle p')) = true /\
  exists c, rtc_local_description c = (connection p', Some sdp).
Proof. intros [Ho%offer_Ok|Ha%answer_Ok]; naive_solver. Qed.

Lemma connected_Ok (p p' : Rtc C) :
  on_handle Peer.wait_connected p = (p', Ok tt) ->
  connected_state (events (handle p')) = true /\ keeps (handle p) (handle p').
Proof.
  intros [Hw _]%on_handle_inv. split; [|by apply wait_keeps in Hw].
  apply wait_Ok in Hw. unfold poll_connected in Hw. destruct (connected_state _); [done|by case_match].
Qed.

Lemma channel_open_Ok (p p' : Rtc C) :
  on_handle Peer.wait_channel_open p = (p', Ok tt) ->
  channel_opened (events (handle p')) = true /\ keeps (handle p) (handle p').
Proof.
  intros [Hw _]%on_handle_inv. split; [|by apply wait_keeps in Hw].
  apply wait_Ok in Hw. unfold poll_channel_open in Hw.
  destruct (channel_opened _); [done|]. case_match; [done|by case_match].
Qed.

Lemma offerer_Ok {A} (c : SM (Rtc C) BlnkError A) o a s r :
  on_offerer c (o, a) = (s, r) -> exists o', c o = (o', r) /\ s = (o', a).
Proof. cbn. destruct (c o) as [o' r']. intros [= <- <-]. eauto. Qed.
Lemma answerer_Ok {A} (c : SM (Rtc C) BlnkError A) o a s r :
  on_answerer c (o, a) = (s, r) -> exists a', c a = (a', r) /\ s = (o, a').
Proof. cbn. destruct (c a) as [a' r']. intros [= <- <-]. eauto. Qed.

(** A harness that is returned connects its two peers: both connections are
    up, both data channels are open, both had gathered their candidates, and the
    answerer was given the description the offerer's connection reported and the
    offerer the one the answerer's reported. *)
Theorem harness_connects label (w w' : W) (o a : Rtc C) :
  harness_new label w = (w', Ok (o, a)) ->
  Forall (fun p => connected_state (events (handle p)) = true
                   /\ gathering_done (events (handle p)) = true
                   /\ channel_opened (events (handle p)) = true) [o; a] /\
  exists o0 o1 o2 a0 a1 sdp_o sdp_a,
    offer (W := W) o0 = (o1, Ok sdp_o) /\ answer_to sdp_o a0 = (a1, Ok sdp_a)
    /\ remote_answer sdp_a o1 = (o2, Ok tt).
Proof.
  unfold harness_new. destruct (peer_new w) as [w1 [o0|]]; [|done].
  destruct (peer_new w1) as [w2 [a0|]]; [|done].
  destruct (connect_pair label (o0, a0)) as [s [[]|]] eqn:E; [|done]. intros [= _ ->].
  unfold connect_pair in E. cbn [create_data_channel create_offer accept_offer set_remote_answer
    Orchestration.wait_connected Orchestration.wait_channel_open rtc_peering] in E.
  apply bindS_Ok in E as (? & [] & (o1 & _ & ->)%offerer_Ok & E).
  apply bindS_Ok in E as (? & sdp_o & (o2 & Ho & ->)%offerer_Ok & E).
  apply bindS_Ok in E as (? & sdp_a & (a1 & Ha & ->)%answerer_Ok & E).
  apply bindS_Ok in E as (? & [] & (o3 & Hs & ->)%offerer_Ok & E).
  apply bindS_Ok in E as (? & [] & (o4 & H1 & ->)%offerer_Ok & E).
  apply bindS_Ok in E as (? & [] & (a2 & H2 & ->)%answerer_Ok & E).
  apply bindS_Ok in E as (? & [] & (o5 & H3 & ->)%offerer_Ok & (a3 & H4 & E)%answerer_Ok).
  injection E as -> ->. pose proof (offer_Ok _ _ _ Ho) as (Hg & _). pose proof (answer_Ok _ _ _ _ Ha) as (Hg' & _).
  pose proof (on_connection_handle _ _ _ _ _ Hs) as Hh.
  apply connected_Ok in H1 as [? K1], H2 as [? K2]. apply channel_open_Ok in H3 as [? K3], H4 as [? K4].
  rewrite Hh in K1. unfold keeps in *. split; [|by exists o1, o2, o3, a0, a1, sdp_o, sdp_a].
  repeat apply Forall_cons_2; naive_solver.
Qed.
End proofs.

(** ** A concrete run *)

Module Sample.
(** A crate whose connections gather, connect and open their channel. *)
Definition script : WebRtc :=
  mkWebRtc [IceGatheringStateChange true; OnDataChannel; ConnectionStateChange PcConnected;
            ChannelEvent OnOpen] [] None.
#[export] Instance api : RtcApi unit (option string) := {
  register_default_codecs w := (w, Ok tt);
  register_default_interceptors w := (w, Ok tt);
  build _ _ w := (w, Ok (None, script));
  rtc_create_data_channel _ c := (c, Ok tt);
  rtc_create_offer c := (c, Ok "offer");
  rtc_create_answer c := (c, Ok "answer");
  rtc_set_local_description d _ := (Some (d +:+ " with candidates"), Ok tt);
  rtc_set_remote_description _ c := (c, Ok tt);
  rtc_local_description c := (c, c);
  rtc_outstanding_bytes c := (c, Ok 0);
  rtc_parse_offer := Ok;
  rtc_parse_answer := Ok;
}.
End Sample.
Import Sample.

Lemma harness_connects_witness :
  exists o a : Rtc (option string),
    harness_new "control" tt = (tt, Ok (o, a)) /\ connected_state (events (handle o)) = true /\
    connection o = Some "offer with candidates".
Proof.
  destruct (harness_new (P := Rtc (option string)) "control" tt) as [[] [[o a]|e]] eqn:E.
  - exists o, a. split; [reflexivity|].
    pose proof (proj1 (harness_connects _ _ _ _ _ E)) as Hf.
    split; [exact (proj1 (Forall_inv Hf))|]. vm_compute in E. by simplify_eq.
  - vm_compute in E. discriminate E.
Defined.
