(* ===== verification/Qr.v ===== *)
(** * Pairing QR codes

    [src/src/utils/qr.rs]. The payload is the JSON object that [serde_json::json!]
    builds, its keys in the order of the map; the [qrcode] crate is the class
    [QrCrate]. *)
From S2P Require Import Prelude Errors.

(** ** JSON text *)

Definition QUOTE : byte := x22.
Definition BACKSLASH : byte := x5c.

Definition escape_byte (b : byte) : list byte :=
  match b with
  | x22 | x5c => [BACKSLASH; b]
  | x08 => [BACKSLASH; x62]
  | x09 => [BACKSLASH; x74]
  | x0a => [BACKSLASH; x6e]
  | x0c => [BACKSLASH; x66]
  | x0d => [BACKSLASH; x72]
  | _ => if byte_val b <? 32
         then [BACKSLASH; x75; x30; x30]
                ++ as_bytes (hex_digit (byte_val b / 16) +:+ hex_digit (byte_val b mod 16))
         else [b]
  end.
Definition json_string (s : string) : list byte :=
  QUOTE :: concat (escape_byte <$> as_bytes s) ++ [QUOTE].
Definition json_member (kv : string * string) : list byte :=
  json_string kv.1 ++ x3a :: json_string kv.2.
Fixpoint json_members (l : list (string * string)) : list byte :=
  match l with
  | [] => []
  | [kv] => json_member kv
  | kv :: l => json_member kv ++ x2c :: json_members l
  end.
Definition json_object (l : list (string * string)) : list byte := x7b :: json_members l ++ [x7d].

(** ** The payload *)

Record PairingQrPayload := mkQrPayload {
  qr_uid : string;
  qr_pairing_code : string;
  qr_endpoint : string;
}.

Definition to_payload_string (p : PairingQrPayload) : string :=
  String.string_of_list_byte
    (json_object (sort_by fst [("uid", qr_uid p); ("pairing_code", qr_pairing_code p);
                               ("endpoint", qr_endpoint p)])).

(** ** Rendering *)

(** [with_version] is version 4 with error correction M; [build_dense] and
    [build_char] are the two renderers with the colours and sizes of the source. *)
Class QrCrate := {
  QrCode : Type;
  qr_with_version : string -> Result string QrCode;
  qr_new : string -> Result string QrCode;
  build_dense : QrCode -> string;
  build_char : QrCode -> string;
}.

Section render.
Context `{QrCrate}.

Definition or_else {E A} (r : Result E A) (k : Result E A) : Result E A :=
  match r with Ok a => Ok a | Err _ => k end.

Definition render_qr_terminal (content : string) : Result string string :=
  let? code := or_else (qr_with_version content) (qr_new content) in
  Ok (build_dense code).
Definition render_qr_ascii (content : string) : Result string string :=
  let? code := qr_new content in
  Ok (build_char code).
End render.

(** ** Reading a payload *)

Definition hex_value (b : byte) : option Z :=
  let v := byte_val b in
  if (48 <=? v) && (v <=? 57) then Some (v - 48)
  else if (97 <=? v) && (v <=? 102) then Some (v - 87) else None.

(** The next character of a string's text and what follows it; [None] at the
    closing quote. *)
Definition read_char (l : list byte) : option (byte * list byte) :=
  match l with
  | x22 :: _ | [] => None
  | x5c :: x62 :: l => Some (x08, l)
  | x5c :: x74 :: l => Some (x09, l)
  | x5c :: x6e :: l => Some (x0a, l)
  | x5c :: x66 :: l => Some (x0c, l)
  | x5c :: x72 :: l => Some (x0d, l)
  | x5c :: x75 :: x30 :: x30 :: h :: o :: l =>
      match hex_value h, hex_value o with
      | Some h, Some o => Some (byte_of (16 * h + o), l)
      | _, _ => None
      end
  | x5c :: b :: l => Some (b, l)
  | b :: l => Some (b, l)
  end.
Fixpoint read_chars (fuel : nat) (l : list byte) : list byte * list byte :=
  match fuel with
  | O => ([], l)
  | S fuel => match read_char l with
              | Some (b, l) => let '(s, l) := read_chars fuel l in (b :: s, l)
              | None => ([], l)
              end
  end.
Definition read_string (l : list byte) : option (string * list byte) :=
  match l with
  | x22 :: l => match read_chars (length l) l with
                | (s, x22 :: l) => Some (String.string_of_list_byte s, l)
                | _ => None
                end
  | _ => None
  end.
Definition read_member (l : list byte) : option (string * string * list byte) :=
  match read_string l with
  | Some (k, x3a :: l) => match read_string l with
                          | Some (v, l) => Some (k, v, l)
                          | None => None
                          end
  | _ => None
  end.
Fixpoint read_members (fuel : nat) (l : list byte) : option (list (string * string)) :=
  match fuel with
  | O => None
  | S fuel =>
      match read_member l with
      | Some (k, v, [x7d]) => Some [(k, v)]
      | Some (k, v, x2c :: l) => cons (k, v) <$> read_members fuel l
      | _ => None
      end
  end.
Definition read_object (l : list byte) : option (list (string * string)) :=
  match l with x7b :: l => read_members (length l) l | _ => None end.

Definition field (key : string) (l : list (string * string)) : option string :=
  snd <$> find (fun kv => str_eqb kv.1 key) l.
(** What a device that scans the code gets. *)
Definition scan_payload (s : string) : option PairingQrPayload :=
  match read_object (as_bytes s) with
  | Some l =>
      match field "uid" l, field "pairing_code" l, field "endpoint" l with
      | Some u, Some c, Some e => Some (mkQrPayload u c e)
      | _, _, _ => None
      end
  | None => None
  end.

(** ** The reader inverts the text *)

Lemma read_escaped b l : read_char (escape_byte b ++ l) = Some (b, l).
Proof. by destruct b. Qed.
Lemma escape_length b : (1 <= length (escape_byte b))%nat.
Proof. destruct b; cbn; lia. Qed.

Lemma read_chars_escaped fuel s l :
  (length (concat (escape_byte <$> s)) < fuel)%nat ->
  read_chars fuel (concat (escape_byte <$> s) ++ QUOTE :: l) = (s, QUOTE :: l).
Proof.
  revert fuel. induction s as [|b s IH]; intros [|fuel]; cbn; try lia; [done|].
  rewrite length_app, <- app_assoc, read_escaped. intros Hf.
  pose proof (escape_length b). by rewrite IH by lia.
Qed.

Lemma read_json_string s l : read_string (json_string s ++ l) = Some (s, l).
Proof.
  unfold json_string. cbn -[read_chars]. rewrite <- app_assoc. cbn -[read_chars].
  rewrite read_chars_escaped by (rewrite length_app; cbn; lia). cbn.
  f_equal. f_equal. by apply String.string_of_list_byte_of_string.
Qed.

Lemma read_json_member kv l : read_member (json_member kv ++ l) = Some (kv, l).
Proof.
  unfold read_member, json_member. rewrite <- app_assoc, read_json_string. cbn -[json_string].
  rewrite read_json_string. by destruct kv.
Qed.

Lemma json_member_length kv : (1 <= length (json_member kv))%nat.
Proof. unfold json_member. rewrite length_app. cbn. lia. Qed.

Lemma read_json_members fuel l :
  l <> [] -> (length (json_members l) < fuel)%nat ->
  read_members fuel (json_members l ++ [x7d]) = Some l.
Proof.
  revert fuel. induction l as [|kv l IH]; intros [|fuel] Hne Hf; try done; [lia|].
  destruct l as [|kv' l]; cbn [read_members json_members].
  - rewrite read_json_member. by destruct kv.
  - rewrite <- app_assoc. cbn [app]. rewrite read_json_member. destruct kv as [k v]. cbn.
    rewrite IH; [done|done|]. cbn [json_members] in Hf. rewrite length_app in Hf. cbn in Hf |- *. lia.
Qed.

(** a device that reads the QR code gets exactly the identifier, the
    pairing code and the endpoint that were put in, whatever characters they
    have. *)
Theorem payload_roundtrip p : scan_payload (to_payload_string p) = Some p.
Proof.
  unfold scan_payload, to_payload_string. rewrite as_bytes_string_of.
  unfold json_object, read_object. rewrite read_json_members; [by destruct p|done|].
  rewrite length_app. cbn. lia.
Qed.

(** The second renderer never helps: when it succeeds the first one has. *)
Theorem ascii_fallback_unreachable `{QrCrate} content image :
  render_qr_ascii content = Ok image ->
  exists image', render_qr_terminal content = Ok image' /\
    or_else (render_qr_terminal content) (render_qr_ascii content) = Ok image'.
Proof.
  unfold render_qr_ascii, render_qr_terminal.
  destruct (qr_new content) as [code|]; cbn; [|done]. intros _.
  destruct (qr_with_version content) as [code'|]; cbn; eauto.
Qed.

(** ** Concrete payloads *)
Module QrSample.
Definition payload : PairingQrPayload :=
  mkQrPayload "dev-123" "654321" "ws://127.0.0.1:8080".
#[export] Instance crate : QrCrate := {
  QrCode := string;
  qr_with_version s := if str_len s <=? 62 then Ok s else Err "data too long";
  qr_new s := if str_len s <=? 2331 then Ok s else Err "data too long";
  build_dense s := "dense " +:+ s;
  build_char s := "ascii " +:+ s;
}.

Lemma rendered : to_payload_string payload = String.string_of_list_byte
  (as_bytes "{" ++ [x22] ++ as_bytes "endpoint" ++ [x22; x3a; x22] ++ as_bytes "ws://127.0.0.1:8080"
   ++ [x22; x2c; x22] ++ as_bytes "pairing_code" ++ [x22; x3a; x22] ++ as_bytes "654321"
   ++ [x22; x2c; x22] ++ as_bytes "uid" ++ [x22; x3a; x22] ++ as_bytes "dev-123" ++ [x22]
   ++ as_bytes "}") /\
  render_qr_terminal (to_payload_string payload) = Ok ("dense " +:+ to_payload_string payload).
Proof. vm_compute. done. Qed.
End QrSample.
Import QrSample.

Lemma ascii_fallback_unreachable_witness :
  exists image', render_qr_terminal "blnk:pair:test" = Ok image'.
Proof.
  destruct (@ascii_fallback_unreachable QrSample.crate "blnk:pair:test" "ascii blnk:pair:test" eq_refl)
    as (image' & Hr & _).
  by exists image'.
Defined.
