(* ===== verification/Cli.v ===== *)
(** * The command line

    [src/src/main.rs] and [src/src/config/args.rs]: the commands, written over
    the components they call. A command runs on the process: the surroundings
    and the sessions it holds, which stay visible after it returns. Each side of
    the in-process fixture runs against its own peer, and what the spawned server
    does to the machine is accounted for when it is joined. *)
From S2P Require Import Prelude Errors Telemetry External Rfc4648 Paths Disk Net ProxyPolicy Pairing.
From S2P Require Import Session Peer Wire Shell FileTransfer FileService Runtime Identity Signaling.
From S2P Require Import Transport Orchestration Dispatch Config Discovery Web WebServer Fixture Rtc Qr.

(** ** Arguments *)

Record ServeArgs := mkServeArgs {
  serve_signaling_url : option string;
  serve_local_fixture : bool;
  serve_once : bool;
  serve_pin : option string;
  serve_qr : bool;
}.
Record ConnectArgs := mkConnectArgs {
  connect_to : option string;
  connect_local_fixture : bool;
  connect_command : list string;
  connect_pin : option string;
}.
Record CpArgs := mkCpArgs {
  cp_target : option string;
  cp_source : string;
  cp_destination : string;
  cp_local_fixture : bool;
  cp_overwrite : bool;
  cp_pin : option string;
}.
Record WebArgs := mkWebArgs {
  web_host : IpAddr;
  web_port : Z;
  web_origin : string;
  web_bootstrap_token : option string;
}.
Record DevicesArgs := mkDevicesArgs { devices_list : bool; devices_local : bool }.

Inductive Commands :=
| CServe (args : ServeArgs)
| CConnect (args : ConnectArgs)
| CCp (args : CpArgs)
| CDevices (args : DevicesArgs)
| CWeb (args : WebArgs)
| CVersion.
Record Cli := mkCli { command : Commands }.

Definition LOCAL_FIXTURE_DEVICE_ID : string := "local-fixture".
Definition DEFAULT_FIXTURE_PIN : string := "123456".
Definition CARGO_PKG_VERSION : string := "0.2.18".

Definition newline : string := String.string_of_list_byte [x0a].
Definition tab : string := String.string_of_list_byte [x09].

(** [a.or(b)]. *)
Definition opt_or {A} (a b : option A) : option A := match a with Some _ => a | None => b end.

(** ** Errors and effects *)

(** [anyhow::Error]: its messages, the outermost context first. *)
Definition Anyhow : Type := list string.
Definition anyhow_display (e : Anyhow) : string := default "" (head e).
Definition context {A} (message : string) (r : Result Anyhow A) : Result Anyhow A :=
  map_err (cons message) r.
Definition of_blnk {A} (r : BResult A) : Result Anyhow A :=
  map_err (fun e => [blnk_error_display e]) r.
Definition of_io {A} (r : Result IoError A) : Result Anyhow A := map_err (fun e => [io_message e]) r.
Definition of_text {A} (r : Result string A) : Result Anyhow A := map_err (fun e => [e]) r.

(** How a command ends: it returns, it panics, or it waits beyond the bounds
    given to its loops. *)
Inductive Ran (A : Type) := Returned (r : Result Anyhow A) | Panics | Hangs.
Arguments Returned {A} _.
Arguments Panics {A}.
Arguments Hangs {A}.

(** What the process takes from its surroundings, besides the calls the
    components make. [sigint] is how an interrupt meets a running session: not
    at all, with an error of the handler, or as the cancellations the serving
    loop sees. *)
Class Process (W Sk : Type) := {
  config_file : W -> option (Result string Settings);
  env_vars : W -> list (string * string);
  env_var : string -> W -> option string;
  current_dir : W -> Result IoError string;
  temp_dir : W -> string;
  remove_dir_all : string -> W -> W * Result IoError unit;
  generate_key : W -> W * Result string Sk;
  draw_random : W -> W * Result string (list byte);
  temp_suffix : W -> W * string;
  unix_now : W -> W * Z;
  ctrl_c : W -> W * Result IoError unit;
  sigint : W -> W * option (Result IoError (list bool));
  join_fixture : W -> W * Result string unit;
  join_web : W -> W * Result string (Result IoError unit);
  mdns : W -> W * (bool * list Received);
  http_client : W -> Result string unit;
  post : ExportRequest -> W -> W;
}.

(** The process: its surroundings and the sessions of the command, in the state
    in which they are dropped when it returns. *)
Record Proc (W P : Type) := mkProc {
  env : W;
  client : option (SessionRuntime P);
  server : option (SessionRuntime P);
}.
Arguments mkProc {W P} _ _ _.
Arguments env {W P} _.
Arguments client {W P} _.
Arguments server {W P} _.

Definition CM (W P A : Type) : Type := Proc W P -> Proc W P * Ran A.

Section monad.
Context {W P : Type}.

Definition retC {A} (a : A) : CM W P A := fun p => (p, Returned (Ok a)).
Definition liftC {A} (r : Result Anyhow A) : CM W P A := fun p => (p, Returned r).
Definition bailC {A} (message : string) : CM W P A := liftC (Err [message]).
Definition bindC {A B} (c : CM W P A) (k : A -> CM W P B) : CM W P B :=
  fun p => match c p with
           | (p, Returned (Ok a)) => k a p
           | (p, Returned (Err e)) => (p, Returned (Err e))
           | (p, Panics) => (p, Panics)
           | (p, Hangs) => (p, Hangs)
           end.
(** The result of [c] as a value. *)
Definition tryC {A} (c : CM W P A) : CM W P (Result Anyhow A) :=
  fun p => match c p with
           | (p, Returned r) => (p, Returned (Ok r))
           | (p, Panics) => (p, Panics)
           | (p, Hangs) => (p, Hangs)
           end.
Definition on_env {A} (f : W -> W * A) : CM W P A :=
  fun p => let '(w, a) := f (env p) in (mkProc w (client p) (server p), Returned (Ok a)).
Definition peek {A} (f : W -> A) : CM W P A := fun p => (p, Returned (Ok (f (env p)))).
Definition set_client (rt : SessionRuntime P) (p : Proc W P) : Proc W P :=
  mkProc (env p) (Some rt) (server p).
Definition set_server (rt : SessionRuntime P) (p : Proc W P) : Proc W P :=
  mkProc (env p) (client p) (Some rt).
Definition hold (set : SessionRuntime P -> Proc W P -> Proc W P) (rt : SessionRuntime P)
    : CM W P unit := fun p => (set rt p, Returned (Ok tt)).
End monad.

Notation "'let%' x ':=' c 'in' k" := (bindC c (fun x => k))
  (at level 10, x pattern, c at level 100, k at level 200).
Notation "'do%' c 'in' k" := (bindC c (fun _ => k))
  (at level 10, c at level 100, k at level 200).

(** ** Pure parts *)

(** The default command of a session, off Windows. *)
Definition shell_command_from_args (args : list string) : Result Anyhow ShellCommand :=
  match args with
  | [] => Ok (with_arg (shell_command_new "printf") "blnk local fixture connected\n")
  | program :: rest => Ok (with_args (shell_command_new program) rest)
  end.

Definition ensure_known_device (registry : DeviceRegistry) (target : string) : Result Anyhow unit :=
  match find_device registry target with
  | None => Err ["unknown device '" +:+ target
                 +:+ "'; run `blnk devices --list` or use --local-fixture"]
  | Some _ => Ok tt
  end.

Section commands.
Context {Sk Pk : Type} `{Rsa Sk Pk} `{Sha2} `{Subtle} `{Base64} `{RustFmt}.
Context `{SerdeJson PersistedIdentity} `{SerdeJson DeviceRegistry}.
Context `{SerdeJson SessionRequestEnvelope} `{SerdeJson WireMessage}.
Context `{ConfigCrate} `{HttpHeader} `{QrCrate} `{ControlCodec} `{StreamCodec}.
Context `{Prost stream.FileInfo} `{Prost stream.FileList} `{WireDebug}.
Context {W P : Type} `{Disk W} `{Dialer W} `{Ambient W} `{Peering W P} `{World P}.
Context `{Machine W} `{Listener W} `{Process W Sk}.
(** The URL parser, the control messages a handshake may take and the frames a
    receive loop may take. *)
Context (url_parse : string -> Result string Url) (messages fuel : nat).

(** [println!] panics when the text cannot be written. *)
Definition say (s : string) : CM W P unit :=
  fun p => let '(w, r) := print (as_bytes s ++ [x0a]) (env p) in
           (mkProc w (client p) (server p),
            match r with Ok _ => Returned (Ok tt) | Err _ => Panics end).

(** ** Identity and registry *)

Definition load_config : CM W P Config :=
  fun p => liftC (context "load blnk configuration"
                    (of_text (config_load (config_file (env p)) (env_vars (env p))))) p.

(** The random draws happen whether or not the key could be generated. *)
Definition generate_identity : W -> W * BResult (Identity Sk) :=
  fun w =>
  let '(w, key) := generate_key w in
  let '(w, pairing) := draw_random w in
  let '(w, access) := draw_random w in
  (w, generate key pairing access).

Definition load_or_create_identity (path : string) : CM W P (Identity Sk) :=
  let% known := peek (fun w => path_exists w path) in
  if known then fun p => liftC (of_blnk (Identity.load (env p) path)) p else
  let% generated := on_env generate_identity in
  let% identity := liftC (context "generate identity" (of_blnk generated)) in
  let% suffix := on_env temp_suffix in
  let% saved := on_env (Identity.save identity path suffix) in
  do% liftC (context ("save identity to " +:+ path) (of_blnk saved)) in
  retC identity.

Definition load_registry (config : Config) : CM W P DeviceRegistry :=
  fun p => liftC (context "load device registry"
                    (of_text (registry_load (env p) (devices_path config)))) p.

Definition remember_fixture (config : Config) : CM W P unit :=
  let% registry := load_registry config in
  let% now := on_env unix_now in
  let registry := upsert LOCAL_FIXTURE_DEVICE_ID "in-process://loopback" now registry in
  let% suffix := on_env temp_suffix in
  let% saved := on_env (registry_save registry (devices_path config) suffix) in
  liftC (context "save device registry" (of_text saved)).

(** ** Telemetry of a session *)

Definition load_telemetry : CM W P (option BraintrustExporter) :=
  fun p => liftC (context "init braintrust telemetry"
                    (of_text (from_env (fun k => env_var k (env p)) (http_client (env p))))) p.

Definition session_collector (telemetry : option BraintrustExporter) (name : string)
    (kind : SpanKind) (session_id : string) : CM W P SpanCollector :=
  match telemetry with
  | None => retC collector_new
  | Some _ =>
      let% reading := on_env span_reading in
      retC (enable_parent name kind session_id reading collector_new)
  end.

Definition export_session_span (telemetry : option BraintrustExporter) (collector : SpanCollector)
    (peer : string) (started_at : Z) (outcome : Result Anyhow unit) : CM W P unit :=
  match telemetry with
  | None => liftC outcome
  | Some exporter =>
      let% now := on_env span_clock in
      let collector :=
        finish_parent (Z.min ((now - started_at) / 1000000) U64_MAX) (is_ok outcome)
          match outcome with Ok _ => None | Err e => Some (anyhow_display e) end collector in
      let collector := set_parent_peer peer collector in
      let% fresh := on_env span_reading in
      do% match export exporter fresh (into_spans collector) with
          | Some request => on_env (fun w => (post request w, tt))
          | None => retC tt
          end in
      liftC outcome
  end.

(** ** Work on a session *)

(** Runs [c] on the session [rt]; the process keeps the session as it is left. *)
Definition hosted {A} (set : SessionRuntime P -> Proc W P -> Proc W P) (rt : SessionRuntime P)
    (collector : SpanCollector) (c : HM (P := P) (M := W) A)
    : CM W P (SessionRuntime P * SpanCollector * BResult A) :=
  fun p =>
  let '(h, o) := c (mkHost rt (env p) collector) in
  (set (Dispatch.rt h) (mkProc (machine h) (client p) (server p)),
   match o with
   | Done r => Returned (Ok (Dispatch.rt h, spans h, r))
   | Panicked => Panics
   | Starved => Hangs
   end).

(** The client's work and then [close]; the work's error wins. *)
Definition used_and_closed {A} (rt : SessionRuntime P) (collector : SpanCollector)
    (work : HM (P := P) (M := W) A) : CM W P (SpanCollector * Result Anyhow A) :=
  let% (rt, collector, result) := hosted set_client rt collector work in
  let% (_, collector, closed) := hosted set_client rt collector (on_rt rt_close) in
  retC (collector,
        match result, closed with
        | Err error, _ => of_blnk (Err error)
        | Ok _, Err error => of_blnk (Err error)
        | Ok a, Ok _ => Ok a
        end).

Definition exit_status (r : Result Anyhow Z) : Result Anyhow unit :=
  let? code := r in
  if code =? 0 then Ok tt else Err ["remote shell exited with status " +:+ dec code].

(** [run_shell_client], [run_file_client] and [serve_session_with_shutdown]: the
    collected variants with a collector nobody reads. *)
Definition run_shell_client (command : ShellCommand) : HM (P := P) (M := W) Z :=
  run_shell_client_collected fuel command.
Definition run_file_client (source destination : string) (overwrite : bool)
    : HM (P := P) (M := W) unit :=
  run_file_client_collected fuel source destination overwrite.

(** [let _ = server_task.await]: neither an error nor a panic of the task
    matters. *)
Definition join_server (rt : SessionRuntime P) (root : string) : CM W P unit :=
  fun p =>
  match hosted set_server rt collector_new (serve_session_collected fuel [] root) p with
  | (p, Hangs) => (p, Hangs)
  | (p, _) => (p, Returned (Ok tt))
  end.

(** ** The in-process fixture *)

Definition complete (message : string) (o : option (BResult unit)) : CM W P unit :=
  match o with
  | Some r => liftC (context message (of_blnk r))
  | None => fun p => (p, Hangs)
  end.

Definition fixture_pair (pin : string) : CM W P (SessionRuntime P * SessionRuntime P) :=
  let% made := on_env (harness_new "control") in
  let% (offerer, answerer) := liftC (context "create local WebRTC fixture" (of_blnk made)) in
  let% c := liftC (context "create fixture client runtime"
                     (of_blnk (runtime_new offerer (runtime_config_client pin)))) in
  let% s := liftC (context "create fixture server runtime"
                     (of_blnk (runtime_new answerer (runtime_config_server pin)))) in
  let '(c, client_result) := handshake messages c in
  let '(s, server_result) := handshake messages s in
  do% hold set_client c in
  do% hold set_server s in
  do% complete "complete fixture client handshake" client_result in
  do% complete "complete fixture server handshake" server_result in
  retC (c, s).

Definition get_current_dir (message : string) : CM W P string :=
  fun p => liftC (context message (of_io (current_dir (env p)))) p.

Definition run_local_shell (pin : string) (command : ShellCommand) : CM W P Z :=
  let% (c, s) := fixture_pair pin in
  let% root := get_current_dir "get shell fixture root" in
  let% (_, result) := used_and_closed c collector_new (run_shell_client command) in
  do% join_server s root in
  liftC result.

Definition run_local_cp_inner (fixture_root source destination : string) (overwrite : bool)
    : CM W P unit :=
  let% (c, s) := fixture_pair DEFAULT_FIXTURE_PIN in
  let% (_, result) := used_and_closed c collector_new
                        (run_file_client source destination overwrite) in
  do% join_server s fixture_root in
  liftC result.

Definition run_local_cp (source destination : string) (overwrite : bool) : CM W P unit :=
  let% uuid := on_env new_uuid in
  let% temp := peek temp_dir in
  let fixture_root := path_join temp ("blnk-fixture-" +:+ uuid) in
  let% created := on_env (create_dir_all fixture_root) in
  do% liftC (context "create file fixture root" (of_io created)) in
  let% result := tryC (run_local_cp_inner fixture_root source destination overwrite) in
  let% _ := on_env (remove_dir_all fixture_root) in
  liftC result.

(** ** The commands *)

Definition in_running (rt : SessionRuntime P) (collector : SpanCollector) (root : string)
    : CM W P (SpanCollector * Result Anyhow unit) :=
  let% signal := on_env sigint in
  let serve cancels :=
    let% (_, collector, r) :=
      hosted set_server rt collector (serve_session_collected fuel cancels root) in
    retC (collector, context "serve remote session" (of_blnk r)) in
  match signal with
  | None => serve []
  | Some (Ok cancels) => serve cancels
  | Some (Err e) => retC (collector, context "wait for shutdown signal" (of_io (Err e)))
  end.

Definition show_qr (identity : Identity Sk) (signaling_url : string) : CM W P unit :=
  let payload_str :=
    to_payload_string (mkQrPayload (uid identity) (pairing_code identity) signaling_url) in
  do% say (newline +:+ "--- Pairing QR Code ---") in
  do% match or_else (render_qr_terminal payload_str) (render_qr_ascii payload_str) with
      | Ok qr_rendered => say qr_rendered
      | Err err => say ("Failed to render QR: " +:+ err)
      end in
  say ("-----------------------" +:+ newline).

Definition serve_fixture (pin : string) (once : bool) : CM W P unit :=
  let% started := on_env (start_with_config
                            (mkFixtureConfig pin false false false)) in
  let% fixture := liftC (context "start local signaling fixture" (of_blnk started)) in
  do% say ("fixture_url=" +:+ fixture_url fixture) in
  do% say "fixture_pin_configured=true" in
  do% if once then retC tt else
      do% say "serve_status=running; press Ctrl-C to stop" in
      let% signal := on_env ctrl_c in
      liftC (context "wait for shutdown signal" (of_io signal)) in
  let% joined := on_env join_fixture in
  liftC (context "stop local fixture" (of_blnk (fixture_shutdown joined fixture))).

Definition serve_remote (identity : Identity Sk) (signaling_url pin : string) (once : bool)
    : CM W P unit :=
  let% started := on_env span_clock in
  let% session :=
    fun p =>
    let ended := accept_server_session url_parse signaling_url identity pin PublicOnly
                   DEFAULT_ORCHESTRATION_TIMEOUT messages (env p) in
    liftC (context "establish remote signaling/WebRTC session" (of_blnk (end_result ended)))
      (mkProc (end_world ended) (client p) (server p)) in
  let rt := server_runtime session in
  let client_id := server_client_id session in
  do% hold set_server rt in
  let% telemetry := load_telemetry in
  do% say ("serve_status=connected; client_id=" +:+ client_id) in
  let% root := get_current_dir "get serve root" in
  let% collector := session_collector telemetry "session.serve" Telemetry.Session "serve" in
  let% (collector, result) :=
    if once then
      let% (_, collector, r) :=
        hosted set_server rt collector (serve_session_collected fuel [] root) in
      retC (collector, context "serve remote session" (of_blnk r))
    else
      do% say "serve_status=running; press Ctrl-C to stop" in
      in_running rt collector root in
  export_session_span telemetry collector client_id started result.

(** The mDNS responder that is started here announces nothing
    ([Discovery.start_announcing]). *)
Definition run_serve (args : ServeArgs) : CM W P unit :=
  let% config := load_config in
  let signaling_url := default (signaling_url config) (serve_signaling_url args) in
  let% identity := load_or_create_identity (identity_path config) in
  do% say ("identity_uid=" +:+ uid identity) in
  do% say "signaling_endpoint_configured=true" in
  do% if serve_qr args then show_qr identity signaling_url else retC tt in
  if serve_local_fixture args then
    serve_fixture (default (pairing_code identity) (opt_or (serve_pin args) (pin config)))
      (serve_once args)
  else
    let% pin := liftC (ok_or (opt_or (serve_pin args) (pin config))
                         ["remote serve requires --pin or BLNK_PIN"]) in
    serve_remote identity signaling_url pin (serve_once args).

Definition run_web (args : WebArgs) : CM W P unit :=
  let% variable := peek (env_var "BLNK_WEB_TOKEN") in
  let% bootstrap_token := liftC (ok_or (opt_or (web_bootstrap_token args) variable)
                                   ["web requires --bootstrap-token or BLNK_WEB_TOKEN"]) in
  let bind_addr := mkSocketAddr (web_host args) (web_port args) 0 0 in
  let config := with_bind_addr (config_loopback (web_origin args) bootstrap_token) bind_addr in
  let% started := on_env (server_start url_parse config) in
  let% surface := liftC (context "start browser control surface" (of_blnk started)) in
  do% say ("browser_control_url=" +:+ server_url surface) in
  do% say "browser_control_origin_configured=true" in
  do% say "browser_control_status=running; press Ctrl-C to stop" in
  let% signal := on_env ctrl_c in
  do% liftC (context "wait for shutdown signal" (of_io signal)) in
  let% joined := on_env join_web in
  liftC (context "stop browser control surface" (of_blnk (server_shutdown joined surface).2)).

(** A known device, the identity and a PIN, and then the session with it. *)
Definition open_session (config : Config) (target pin_arg : option string)
    (no_target no_pin : string) : CM W P (string * Z * ClientSession P) :=
  let% target := liftC (ok_or target [no_target]) in
  let% registry := load_registry config in
  do% liftC (ensure_known_device registry target) in
  let% device := liftC (ok_or (find_device registry target)
                          ["device '" +:+ target +:+ "' disappeared from the registry"]) in
  let% identity := load_or_create_identity (identity_path config) in
  let% pin := liftC (ok_or (opt_or pin_arg (pin config)) [no_pin]) in
  let% started := on_env span_clock in
  let% session :=
    fun p =>
    let ended := connect_target url_parse (Config.endpoint device) identity target pin PublicOnly
                   DEFAULT_ORCHESTRATION_TIMEOUT messages (env p) in
    liftC (context "establish remote signaling/WebRTC session" (of_blnk (end_result ended)))
      (mkProc (end_world ended) (client p) (server p)) in
  do% hold set_client (client_runtime session) in
  retC (target, started, session).

Definition run_connect (args : ConnectArgs) : CM W P unit :=
  let% config := load_config in
  if connect_local_fixture args then
    let code := default DEFAULT_FIXTURE_PIN (opt_or (connect_pin args) (pin config)) in
    let% command := liftC (shell_command_from_args (connect_command args)) in
    let% result := run_local_shell code command in
    do% remember_fixture config in
    liftC (exit_status (Ok result))
  else
    let% (target, started, session) :=
      open_session config (connect_to args) (connect_pin args)
        "connect requires --target or --local-fixture"
        "connect to a remote device requires --pin or BLNK_PIN" in
    let% telemetry := load_telemetry in
    let% collector := session_collector telemetry "session.connect" Telemetry.Shell target in
    let% command := liftC (shell_command_from_args (connect_command args)) in
    let% (collector, result) :=
      used_and_closed (client_runtime session) collector
        (run_shell_client_collected fuel command) in
    export_session_span telemetry collector (session_client_id session) started
      (exit_status result).

Definition run_cp (args : CpArgs) : CM W P unit :=
  let% config := load_config in
  if cp_local_fixture args then
    do% run_local_cp (cp_source args) (cp_destination args) (cp_overwrite args) in
    remember_fixture config
  else
    let% (target, started, session) :=
      open_session config (cp_target args) (cp_pin args)
        "remote cp requires --target or --local-fixture"
        "remote cp requires --pin or BLNK_PIN" in
    let% telemetry := load_telemetry in
    let% collector := session_collector telemetry "session.copy" Telemetry.File target in
    let% (collector, result) :=
      used_and_closed (client_runtime session) collector
        (run_file_client_collected fuel (cp_source args) (cp_destination args)
           (cp_overwrite args)) in
    export_session_span telemetry collector (session_client_id session) started result.

Definition tabbed (l : list string) : string := String.concat tab l.
Fixpoint say_all (l : list string) : CM W P unit :=
  match l with
  | [] => retC tt
  | s :: l => do% say s in say_all l
  end.

Definition run_devices (args : DevicesArgs) : CM W P unit :=
  if devices_local args then
    do% say "Discovering blnk peers on local network (mDNS)..." in
    let% (bound, received) := on_env mdns in
    let% peers := liftC (context "mDNS peer discovery failed"
                           (of_blnk (discover_local_peers bound received).2)) in
    if is_nil peers then say "No local blnk peers found." else
    do% say (tabbed ["ID"; "IP"; "PORT"; "HOST"]) in
    say_all ((fun peer => tabbed [Discovery.peer_id peer; ip_display (peer_ip peer);
                                  dec (peer_port peer); default "-" (host_name peer)]) <$> peers)
  else
    let% config := load_config in
    let% registry := load_registry config in
    if is_nil (devices registry) then say "No devices registered." else
    if devices_list args || negb (is_nil (devices registry)) then
      do% say (tabbed ["ID"; "ENDPOINT"; "LAST_SEEN_UNIX"]) in
      say_all ((fun device => tabbed [Config.id device; Config.endpoint device;
                                      dec (last_seen_unix device)]) <$> devices registry)
    else retC tt.

Definition main (cli : Cli) : CM W P unit :=
  match command cli with
  | CServe args => run_serve args
  | CConnect args => run_connect args
  | CCp args => run_cp args
  | CDevices args => run_devices args
  | CWeb args => run_web args
  | CVersion => say ("blnk " +:+ CARGO_PKG_VERSION)
  end.
End commands.
