(* ===== verification/CliProofs.v ===== *)
(** * What the commands guarantee

    The properties of [Cli]: when a command may reach the network, that the
    sessions it had are closed when it returns, what success means, that the
    device's identity is created once; and runs of the whole program. *)
From S2P Require Import Prelude Errors Telemetry External Rfc4648 Paths Disk Net ProxyPolicy Pairing.
From S2P Require Import Session Peer Wire Shell FileTransfer FileService Runtime Identity Signaling.
From S2P Require Import Transport Orchestration Dispatch Config Discovery Web WebServer Fixture Rtc Qr.
From S2P Require Import Cli.

(** ** What a command does to its process *)

Section facts.
Context {Sk Pk : Type} `{Rsa Sk Pk} `{Sha2} `{Subtle} `{Base64} `{RustFmt}.
Context `{SerdeJson PersistedIdentity} `{SerdeJson DeviceRegistry}.
Context `{SerdeJson SessionRequestEnvelope} `{SerdeJson WireMessage}.
Context `{ConfigCrate} `{HttpHeader} `{QrCrate} `{ControlCodec} `{StreamCodec}.
Context `{Prost stream.FileInfo} `{Prost stream.FileList} `{WireDebug}.
Context {W P : Type} `{Disk W} `{Dialer W} `{Ambient W} `{Peering W P} `{World P}.
Context `{Machine W} `{Listener W} `{Process W Sk}.
Context (url_parse : string -> Result string Url) (messages fuel : nat).

(** Changes of the surroundings that no signaling socket takes part in: the
    calls of every component that is not given the dialer. *)
Inductive offline : W -> W -> Prop :=
| off_refl w : offline w w
| off_trans w1 w2 w3 : offline w1 w2 -> offline w2 w3 -> offline w1 w3
| off_print l w : offline w (print l w).1
| off_clock w : offline w (span_clock w).1
| off_reading w : offline w (span_reading w).1
| off_key w : offline w (generate_key w).1
| off_random w : offline w (draw_random w).1
| off_suffix w : offline w (temp_suffix w).1
| off_now w : offline w (unix_now w).1
| off_uuid w : offline w (new_uuid w).1
| off_ctrl_c w : offline w (ctrl_c w).1
| off_join_fixture w : offline w (join_fixture w).1
| off_join_web w : offline w (join_web w).1
| off_mdns w : offline w (mdns w).1
| off_bind a w : offline w (tcp_bind a w).1
| off_peer w : offline w (peer_new w).1
| off_create_dir_all d w : offline w (create_dir_all d w).1
| off_remove_dir_all d w : offline w (remove_dir_all d w).1
| off_save i path suffix w : offline w (Identity.save i path suffix w).1
| off_registry r path suffix w : offline w (registry_save r path suffix w).1
| off_shell command h : offline (machine h) (machine (run_shell_client_collected (P := P) fuel command h).1)
| off_file source destination overwrite h :
    offline (machine h)
      (machine (run_file_client_collected (P := P) fuel source destination overwrite h).1)
| off_serve cancels root h :
    offline (machine h) (machine (serve_session_collected (P := P) fuel cancels root h).1).

#[local] Hint Resolve off_refl off_print off_clock off_reading off_key off_random off_suffix off_now
  off_uuid off_ctrl_c off_join_fixture off_join_web off_mdns off_bind off_peer off_create_dir_all
  off_remove_dir_all off_save off_registry off_shell off_file off_serve : offline.
#[local] Instance offline_preorder : PreOrder offline.
Proof. split; [exact off_refl|exact off_trans]. Qed.

(** A command, started in whatever state, stays offline. *)
Definition stays {A} (c : CM W P A) : Prop := forall p, offline (env p) (env (c p).1).
(** It also leaves the sessions as they are. *)
Definition local {A} (c : CM W P A) : Prop :=
  forall p, offline (env p) (env (c p).1) /\ client (c p).1 = client p /\ server (c p).1 = server p.

Lemma local_stays {A} (c : CM W P A) : local c -> stays c.
Proof. intros Hc p. apply Hc. Qed.
Lemma local_lift {A} (r : Result Anyhow A) : local (liftC r).
Proof. intros p. auto with offline. Qed.
Lemma local_ret {A} (a : A) : local (retC a).
Proof. apply local_lift. Qed.
Lemma local_peek {A} (f : W -> A) : local (peek f).
Proof. intros p. auto with offline. Qed.
Lemma local_lift_env {A} (f : W -> Result Anyhow A) : local (fun p => liftC (f (env p)) p).
Proof. intros p. auto with offline. Qed.
Lemma local_env {A} (f : W -> W * A) : (forall w, offline w (f w).1) -> local (on_env f).
Proof. intros Hf p. unfold on_env. specialize (Hf (env p)). by destruct (f (env p)). Qed.
Lemma stays_env {A} (f : W -> W * A) : (forall w, offline w (f w).1) -> stays (on_env f).
Proof. intros. by apply local_stays, local_env. Qed.
Lemma stays_bind {A B} (c : CM W P A) (k : A -> CM W P B) :
  stays c -> (forall a, stays (k a)) -> stays (bindC c k).
Proof.
  intros Hc Hk p. unfold bindC. specialize (Hc p). destruct (c p) as [p1 [[a|e]| |]]; try done.
  cbn in Hc. etrans; [exact Hc|apply Hk].
Qed.
Lemma local_bind {A B} (c : CM W P A) (k : A -> CM W P B) :
  local c -> (forall a, local (k a)) -> local (bindC c k).
Proof.
  intros Hc Hk p. unfold bindC. destruct (Hc p) as (Ho & Hcl & Hs).
  destruct (c p) as [p1 [[a|e]| |]]; try done. cbn in *. destruct (Hk a p1) as (Ho' & -> & ->).
  split; [by etrans|done].
Qed.
Lemma stays_try {A} (c : CM W P A) : stays c -> stays (tryC c).
Proof. intros Hc p. specialize (Hc p). unfold tryC. by destruct (c p) as [p1 []]. Qed.
Lemma stays_client rt : stays (hold set_client rt).
Proof. intros p. apply off_refl. Qed.
Lemma stays_server rt : stays (hold set_server rt).
Proof. intros p. apply off_refl. Qed.
Lemma stays_hosted_client {A} rt collector (c : HM (P := P) (M := W) A) :
  (forall h, offline (machine h) (machine (c h).1)) -> stays (hosted set_client rt collector c).
Proof.
  intros Hc p. specialize (Hc (mkHost rt (env p) collector)). unfold hosted.
  by destruct (c (mkHost rt (env p) collector)).
Qed.
Lemma stays_hosted_server {A} rt collector (c : HM (P := P) (M := W) A) :
  (forall h, offline (machine h) (machine (c h).1)) -> stays (hosted set_server rt collector c).
Proof.
  intros Hc p. specialize (Hc (mkHost rt (env p) collector)). unfold hosted.
  by destruct (c (mkHost rt (env p) collector)).
Qed.
Lemma off_rt {A} (c : SM (SessionRuntime P) BlnkError A) (h : Host P W) :
  offline (machine h) (machine (on_rt c h).1).
Proof. unfold on_rt. destruct (c (Dispatch.rt h)). apply off_refl. Qed.

(** ** The parts that stay offline *)

Lemma local_say s : local (say s).
Proof.
  intros p. unfold say. pose proof (off_print (as_bytes s ++ [x0a]) (env p)) as Ho.
  by destruct (print _ _).
Qed.
Lemma local_say_all l : local (say_all l).
Proof. induction l as [|s l IH]; [apply local_ret|]. apply local_bind; [apply local_say|done]. Qed.

Lemma off_generate w : offline w (generate_identity w).1.
Proof.
  unfold generate_identity. pose proof (off_key w). destruct (generate_key w) as [w1 k].
  pose proof (off_random w1). destruct (draw_random w1) as [w2 a].
  pose proof (off_random w2). destruct (draw_random w2) as [w3 b]. cbn in *.
  by do 2 (etrans; [eassumption|]).
Qed.
Lemma off_harness label w : offline w (harness_new label w).1.
Proof.
  unfold harness_new. pose proof (off_peer w). destruct (peer_new w) as [w1 [o|]]; [|done].
  pose proof (off_peer w1). destruct (peer_new w1) as [w2 [a|]]; cbn in *; by etrans.
Qed.
Lemma off_fixture config w : offline w (start_with_config config w).1.
Proof.
  unfold start_with_config. case_match; [|auto with offline].
  pose proof (off_bind FIXTURE_ADDR w). by destruct (tcp_bind FIXTURE_ADDR w) as [w1 []].
Qed.
Lemma off_web config w : offline w (server_start url_parse config w).1.
Proof.
  unfold server_start. case_match; [|auto with offline].
  pose proof (off_bind (bind_addr config) w). by destruct (tcp_bind (bind_addr config) w) as [w1 []].
Qed.

Ltac walk db := repeat first
  [ progress intros | progress cbv beta zeta
  | match goal with |- context [match ?x with (_, _) => _ end] => is_var x; destruct x end
  | solve [auto with db offline nocore]
  | apply local_bind | apply stays_bind | apply local_env | apply stays_env
  | case_match ].

#[local] Hint Resolve local_lift local_ret local_peek local_say local_say_all local_lift_env
  off_generate off_harness off_fixture off_web off_rt : cli.

Lemma local_load_config : local load_config.
Proof. intros p. apply local_lift. Qed.
Lemma local_load_registry config : local (load_registry config).
Proof. intros p. apply local_lift. Qed.
Lemma local_load_telemetry : local load_telemetry.
Proof. intros p. apply local_lift. Qed.
Lemma local_current_dir m : local (get_current_dir m).
Proof. intros p. apply local_lift. Qed.
Lemma local_stored (path : string) : local (fun p => liftC (of_blnk (Identity.load (env p) path)) p).
Proof. intros p. apply local_lift. Qed.
#[local] Hint Resolve local_load_config local_load_registry local_load_telemetry local_current_dir
  local_stored : cli.

Lemma local_identity path : local (load_or_create_identity path).
Proof. unfold load_or_create_identity. walk cli. Qed.
Lemma local_remember config : local (remember_fixture config).
Proof. unfold remember_fixture. walk cli. Qed.
Lemma local_collector telemetry name kind id : local (session_collector telemetry name kind id).
Proof. unfold session_collector. walk cli. Qed.
Lemma local_qr (identity : Identity Sk) url : local (show_qr identity url).
Proof. unfold show_qr. walk cli. Qed.
Lemma local_serve_fixture code once : local (serve_fixture code once).
Proof. unfold serve_fixture. walk cli. Qed.
Lemma local_web args : local (run_web url_parse args).
Proof. unfold run_web. walk cli. Qed.
Lemma local_devices args : local (run_devices args).
Proof. unfold run_devices. walk cli. Qed.
#[local] Hint Resolve local_identity local_remember local_collector local_qr local_serve_fixture
  local_web local_devices : cli.
#[local] Hint Resolve local_stays stays_client stays_server stays_hosted_client
  stays_hosted_server stays_try : cli.

Lemma stays_used {A} rt collector (work : HM (P := P) (M := W) A) :
  (forall h, offline (machine h) (machine (work h).1)) -> stays (used_and_closed rt collector work).
Proof. intros Hw. unfold used_and_closed. walk cli. Qed.
Lemma stays_join rt root : stays (join_server fuel rt root).
Proof.
  intros p. unfold join_server.
  pose proof (stays_hosted_server rt collector_new (serve_session_collected fuel [] root)
                (off_serve [] root) p) as Hs.
  by destruct (hosted _ _ _ _ p) as [p' [[]| |]].
Qed.
Lemma stays_complete m o : stays (complete m o).
Proof. destruct o; [auto with cli|]. intros p. apply off_refl. Qed.
#[local] Hint Resolve stays_used stays_join stays_complete : cli.

Lemma stays_fixture_pair code : stays (fixture_pair messages code).
Proof. unfold fixture_pair. walk cli. Qed.
#[local] Hint Resolve stays_fixture_pair : cli.
Lemma stays_local_shell code c : stays (run_local_shell messages fuel code c).
Proof. unfold run_local_shell, run_shell_client. walk cli. Qed.
Lemma stays_local_cp_inner root source destination overwrite :
  stays (run_local_cp_inner messages fuel root source destination overwrite).
Proof. unfold run_local_cp_inner, run_file_client. walk cli. Qed.
#[local] Hint Resolve stays_local_cp_inner : cli.
Lemma stays_local_cp source destination overwrite :
  stays (run_local_cp messages fuel source destination overwrite).
Proof. unfold run_local_cp. walk cli. Qed.
#[local] Hint Resolve stays_local_shell stays_local_cp : cli.

(** ** What it takes to reach the network *)

(** The target is a device of the registry and there is a PIN, given or
    configured. *)
Definition known_target (target pin_arg : option string) (w : W) : Prop :=
  exists config name registry device code,
    config_load (config_file w) (env_vars w) = Ok config /\ target = Some name /\
    registry_load w (devices_path config) = Ok registry /\
    find_device registry name = Some device /\ opt_or pin_arg (pin config) = Some code.

(** What lets a command dial the signaling server. *)
Definition may_dial (c : Commands) (w : W) : Prop :=
  match c with
  | CServe args =>
      serve_local_fixture args = false /\
      exists config code, config_load (config_file w) (env_vars w) = Ok config /\
        opt_or (serve_pin args) (pin config) = Some code
  | CConnect args =>
      connect_local_fixture args = false /\ known_target (connect_to args) (connect_pin args) w
  | CCp args => cp_local_fixture args = false /\ known_target (cp_target args) (cp_pin args) w
  | CDevices _ | CWeb _ | CVersion => False
  end.

(** [c] ends without a value, offline and with the sessions as they were. *)
Definition refused {A} (c : CM W P A) (p : Proc W P) : Prop :=
  (forall a, (c p).2 <> Returned (Ok a)) /\ offline (env p) (env (c p).1) /\
  client (c p).1 = client p /\ server (c p).1 = server p.

Lemma refused_err {A} (c : CM W P A) p e : c p = (p, Returned (Err e)) -> refused c p.
Proof. unfold refused. intros ->. split; [done|]. split; [apply off_refl|done]. Qed.
Lemma refused_bind {A B} (c : CM W P A) (k : A -> CM W P B) p : refused c p -> refused (bindC c k) p.
Proof.
  unfold refused, bindC. intros (Hn & Ho). destruct (c p) as [p' [[a|e]| |]]; cbn in *; try done.
  by destruct (Hn a).
Qed.
Lemma refused_after {A B} (c : CM W P A) (k : A -> CM W P B) p :
  local c -> (forall a p', c p = (p', Returned (Ok a)) -> refused (k a) p') -> refused (bindC c k) p.
Proof.
  unfold refused, bindC. intros Hl Hk. destruct (Hl p) as (Ho & Hc & Hs).
  destruct (c p) as [p' [[a|e]| |]]; cbn in *; try done.
  destruct (Hk a p' eq_refl) as (Hn & Ho' & -> & ->). split; [done|]. split; [by etrans|done].
Qed.

(** Without a known target and a PIN no session is opened. *)
Lemma open_session_refused config target pin_arg m1 m2 p :
  config_load (config_file (env p)) (env_vars (env p)) = Ok config ->
  known_target target pin_arg (env p) \/
  refused (open_session url_parse messages config target pin_arg m1 m2) p.
Proof.
  intros Hc. destruct target as [name|]; [|right; by eapply refused_err].
  destruct (registry_load (env p) (devices_path config)) as [registry|e] eqn:Hr.
  2: { right. eapply refused_after; [auto with cli|]. intros a p' Ha. injection Ha as <- <-.
       eapply refused_bind, refused_err. unfold load_registry, liftC. by rewrite Hr. }
  destruct (find_device registry name) as [device|] eqn:Hf;
    destruct (opt_or pin_arg (pin config)) as [code|] eqn:Hp;
    try (left; by exists config, name, registry, device, code); right;
    (eapply refused_after; [auto with cli|]; intros a p' Ha; injection Ha as <- <-;
     eapply refused_after; [auto with cli|]; intros a p' Ha; unfold load_registry, liftC in Ha;
     rewrite Hr in Ha; injection Ha as <- <-).
  - eapply refused_after; [auto with cli|]. intros [] p2 _.
    eapply refused_after; [auto with cli|]. intros d p3 _.
    eapply refused_after; [auto with cli|]. intros i p4 _.
    eapply refused_bind, refused_err. unfold liftC. by rewrite Hp.
  - eapply refused_bind, refused_err. unfold liftC, ensure_known_device. by rewrite Hf.
  - eapply refused_bind, refused_err. unfold liftC, ensure_known_device. by rewrite Hf.
Qed.

Lemma config_loaded {A} (k : Config -> CM W P A) p :
  (exists config, config_load (config_file (env p)) (env_vars (env p)) = Ok config /\
     bindC load_config k p = k config p) \/
  refused (bindC load_config k) p.
Proof.
  destruct (config_load (config_file (env p)) (env_vars (env p))) as [config|e] eqn:Hc.
  - left. exists config. unfold bindC, load_config, liftC. by rewrite Hc.
  - right. eapply refused_bind, refused_err. unfold load_config, liftC. by rewrite Hc.
Qed.

Lemma stays_fail {A B} (e : Anyhow) (k : A -> CM W P B) : stays (bindC (liftC (Err e)) k).
Proof. intros p. apply off_refl. Qed.
#[local] Hint Resolve stays_fail : cli.

Ltac with_config p :=
  match goal with |- context [bindC load_config ?k] =>
    destruct (config_loaded k p) as [(config & Hc & ->)|(_ & Ho & _)]; [cbv beta zeta|by right] end.

(** C14: a command reaches the signaling network only with authority: [serve]
    with a PIN and without the fixture; [connect] and [cp] for a device of the
    registry, with a PIN and without the fixture; no other command at all. In
    every other case all the command does to its surroundings is what components
    that have no dialer do. *)
Theorem dials_need_authority cli p :
  may_dial (command cli) (env p) \/ offline (env p) (env (main url_parse messages fuel cli p).1).
Proof.
  assert (Hstay : forall (A : Type) (c : CM W P A), stays c -> offline (env p) (env (c p).1))
    by (intros A c Hc; apply Hc).
  destruct cli as [[args|args|args|args|args|]]; unfold main; cbn [command may_dial].
  4-6: right; apply Hstay; auto with cli.
  - unfold run_serve. with_config p.
    destruct (serve_local_fixture args) eqn:Hl; [right; apply Hstay; walk cli|].
    destruct (opt_or (serve_pin args) (pin config)) as [code|] eqn:Hp; [left; eauto|].
    right. apply Hstay. walk cli.
  - unfold run_connect. with_config p.
    destruct (connect_local_fixture args) eqn:Hl; [right; apply Hstay; walk cli|].
    destruct (open_session_refused config (connect_to args) (connect_pin args)
      "connect requires --target or --local-fixture"
      "connect to a remote device requires --pin or BLNK_PIN" p Hc) as [Hk|Hr]; [by left|right].
    eapply refused_bind in Hr as (_ & Ho & _). exact Ho.
  - unfold run_cp. with_config p.
    destruct (cp_local_fixture args) eqn:Hl; [right; apply Hstay; walk cli|].
    destruct (open_session_refused config (cp_target args) (cp_pin args)
      "remote cp requires --target or --local-fixture"
      "remote cp requires --pin or BLNK_PIN" p Hc) as [Hk|Hr]; [by left|right].
    eapply refused_bind in Hr as (_ & Ho & _). exact Ho.
Qed.

(** ** Sessions are closed *)

(** If [c] returns, [Q] holds of what it leaves. *)
Definition ends {A} (c : CM W P A) (p : Proc W P) (Q : Proc W P -> Result Anyhow A -> Prop) : Prop :=
  match c p with (p', Returned r) => Q p' r | _ => True end.

(** [c] leaves the sessions as they are. *)
Definition keeps {A} (c : CM W P A) : Prop :=
  forall p, client (c p).1 = client p /\ server (c p).1 = server p.
Lemma local_keeps {A} (c : CM W P A) : local c -> keeps c.
Proof. intros Hc p. apply Hc. Qed.
Lemma keeps_env {A} (f : W -> W * A) : keeps (on_env f).
Proof. intros p. unfold on_env. by destruct (f (env p)). Qed.
Lemma keeps_bind {A B} (c : CM W P A) (k : A -> CM W P B) :
  keeps c -> (forall a, keeps (k a)) -> keeps (bindC c k).
Proof.
  intros Hc Hk p. unfold bindC. destruct (Hc p) as [Hcl Hs].
  destruct (c p) as [p1 [[a|e]| |]]; try done. cbn in *. by destruct (Hk a p1) as [-> ->].
Qed.

Lemma ends_bind {A B} (c : CM W P A) (k : A -> CM W P B) p Q :
  ends c p (fun p' r => match r with Ok a => ends (k a) p' Q | Err e => Q p' (Err e) end) ->
  ends (bindC c k) p Q.
Proof. unfold ends, bindC. by destruct (c p) as [p1 [[a|e]| |]]. Qed.
Lemma ends_assoc {A B D} (c : CM W P A) (f : A -> CM W P B) (k : B -> CM W P D) p Q :
  ends (bindC c (fun a => bindC (f a) k)) p Q -> ends (bindC (bindC c f) k) p Q.
Proof. unfold ends, bindC. by destruct (c p) as [p1 [[a|e]| |]]. Qed.
Lemma ends_mono {A} (c : CM W P A) p (Q R : Proc W P -> Result Anyhow A -> Prop) :
  ends c p Q -> (forall p' r, Q p' r -> R p' r) -> ends c p R.
Proof. unfold ends. destruct (c p) as [p' []]; auto. Qed.
Lemma ends_keeps {A} (c : CM W P A) p (Q : Proc W P -> Result Anyhow A -> Prop) :
  keeps c ->
  (forall p' r, c p = (p', Returned r) -> client p' = client p -> server p' = server p -> Q p' r) ->
  ends c p Q.
Proof.
  unfold ends. intros Hk HQ. destruct (Hk p) as [Hc Hs]. destruct (c p) as [p' [r| |]]; try done.
  by apply HQ.
Qed.

(** The session a command is about. *)
Definition own (c : Commands) (p : Proc W P) : option (SessionRuntime P) :=
  match c with CServe _ => server p | _ => client p end.
Definition closed_if_any (o : option (SessionRuntime P)) : Prop :=
  forall rt, o = Some rt -> rt_state rt = Session.Closed.

(** The errors after which a session may be dropped without being closed. *)
Definition ABANDONING : list string :=
  ["init braintrust telemetry"; "get serve root"; "get shell fixture root";
   "complete fixture client handshake"; "complete fixture server handshake";
   "wait for shutdown signal"].
Definition abandoned {A} (r : Result Anyhow A) : Prop :=
  exists m causes, r = Err (m :: causes) /\ m ∈ ABANDONING.

(** The client is closed, or the command ended with one of these errors. *)
Definition tidy_client {A} (p : Proc W P) (r : Result Anyhow A) : Prop :=
  closed_if_any (client p) \/ abandoned r.
Definition tidy_server {A} (p : Proc W P) (r : Result Anyhow A) : Prop :=
  closed_if_any (server p) \/ abandoned r.

Lemma used_closes {A} rt collector (work : HM (P := P) (M := W) A) p :
  ends (used_and_closed rt collector work) p (fun p' _ => closed_if_any (client p') /\ server p' = server p).
Proof.
  unfold used_and_closed. apply ends_bind. unfold ends, hosted at 1.
  destruct (work _) as [h [r| |]]; try done. apply ends_bind.
  unfold ends, hosted, on_rt. cbn. pose proof (rt_close_session (Dispatch.rt h)) as Hs.
  destruct (rt_close (Dispatch.rt h)) as [r1 closed]. cbn in *. split; [|done].
  intros rt' [= <-]. unfold rt_state. by rewrite Hs.
Qed.
Lemma served_closes rt collector cancels root p :
  ends (hosted set_server rt collector (serve_session_collected fuel cancels root)) p
    (fun p' r => is_ok r = true /\ closed_if_any (server p') /\ client p' = client p).
Proof.
  unfold ends, hosted. destruct (serve_session_collected _ _ _ _) as [h [r| |]] eqn:Hs; try done.
  apply serving_tears_down in Hs as (Hs & _). cbn. split; [done|]. split; [|done].
  by intros rt' [= <-].
Qed.

#[local] Hint Resolve local_keeps keeps_env : cli.

Lemma keeps_export telemetry collector peer started outcome :
  keeps (export_session_span telemetry collector peer started outcome).
Proof.
  unfold export_session_span. destruct telemetry; [|auto with cli].
  repeat first [apply keeps_bind; intros | case_match | solve [auto with cli]].
Qed.
Lemma export_outcome telemetry collector peer started outcome p :
  ends (export_session_span telemetry collector peer started outcome) p (fun p' r =>
    r = outcome /\ client p' = client p /\ server p' = server p).
Proof.
  apply ends_keeps; [apply keeps_export|]. intros p' r Hr Hc Hs. split; [|done]. revert Hr.
  unfold export_session_span. destruct telemetry as [e|]; [|by intros [= _ <-]].
  unfold bindC at 1, on_env at 1. destruct (span_clock (env p)) as [w now].
  unfold bindC at 1, on_env at 1. cbn [env]. destruct (span_reading w) as [w' fresh].
  unfold bindC. destruct (export _ _ _); unfold liftC; cbn; intros; by simplify_eq.
Qed.
Lemma keeps_join_client rt root p :
  ends (join_server fuel rt root) p (fun p' _ => client p' = client p).
Proof.
  unfold ends, join_server, hosted. by destruct (serve_session_collected _ _ _ _) as [h [r| |]].
Qed.

(** A failing step whose error is one of those. *)
Lemma ends_context {A B} m (f : W -> Result Anyhow A) (k : A -> CM W P B) p
    (Q : Proc W P -> Result Anyhow B -> Prop) :
  m ∈ ABANDONING -> (forall a, ends (k a) p Q) -> (forall r, abandoned r -> Q p r) ->
  ends (bindC (fun p => liftC (context m (f (env p))) p) k) p Q.
Proof.
  intros Hm Hk HQ. apply ends_bind. unfold ends at 1, liftC.
  destruct (f (env p)) as [a|e]; cbn; [apply Hk|]. apply HQ. by eexists _, _.
Qed.
Lemma ends_dir {A} m (k : string -> CM W P A) p (Q : Proc W P -> Result Anyhow A -> Prop) :
  m ∈ ABANDONING -> (forall d, ends (k d) p Q) -> (forall r, abandoned r -> Q p r) ->
  ends (bindC (get_current_dir m) k) p Q.
Proof. exact (ends_context m (fun w => of_io (current_dir w)) k p Q). Qed.
Lemma ends_telemetry {A} (k : option BraintrustExporter -> CM W P A) p
    (Q : Proc W P -> Result Anyhow A -> Prop) :
  (forall t, ends (k t) p Q) -> (forall r, abandoned r -> Q p r) -> ends (bindC load_telemetry k) p Q.
Proof.
  apply (ends_context "init braintrust telemetry"
           (fun w => of_text (from_env (fun v => env_var v w) (http_client w))) k p Q).
  set_solver.
Qed.
Lemma ends_collector {A} telemetry name kind id (k : SpanCollector -> CM W P A) p Q :
  (forall c p', client p' = client p -> server p' = server p -> ends (k c) p' Q) ->
  ends (bindC (session_collector telemetry name kind id) k) p Q.
Proof.
  intros Hk. apply ends_bind. unfold session_collector. destruct telemetry; [|by apply Hk].
  unfold ends at 1, bindC, on_env, retC, liftC. destruct (span_reading (env p)). by apply Hk.
Qed.

Lemma closed_none (o : option (SessionRuntime P)) : o = None -> closed_if_any o.
Proof. by intros -> rt. Qed.
Lemma tidy_abandoned {A} (p : Proc W P) (r : Result Anyhow A) : abandoned r -> tidy_client p r.
Proof. by right. Qed.
Lemma tidy_server_abandoned {A} (p : Proc W P) (r : Result Anyhow A) : abandoned r -> tidy_server p r.
Proof. by right. Qed.
#[local] Hint Resolve tidy_abandoned tidy_server_abandoned : cli.

(** A step that keeps the sessions, before the command has one. *)
Definition forgiving {A} (has : Proc W P -> option (SessionRuntime P))
    (Q : Proc W P -> Result Anyhow A -> Prop) : Prop := forall p e, has p = None -> Q p (Err e).
Lemma ends_before {A B} c0 (c : CM W P A) (k : A -> CM W P B) p Q :
  keeps c -> own c0 p = None -> forgiving (own c0) Q ->
  (forall a p', own c0 p' = None -> ends (k a) p' Q) -> ends (bindC c k) p Q.
Proof.
  intros Hc Hp HQ Hk. apply ends_bind, ends_keeps; [done|]. intros p' r _ Hc' Hs'.
  assert (own c0 p' = None) by (destruct c0; cbn in *; congruence).
  destruct r; [by apply Hk|by apply HQ].
Qed.
Lemma forgiving_client {A} c0 :
  (forall args, c0 <> CServe args) -> forgiving (own c0) (@tidy_client A).
Proof. intros Hc p e Hp. left. apply closed_none. destruct c0; cbn in Hp; try done. by destruct (Hc args). Qed.
Lemma forgiving_server {A} args : forgiving (own (CServe args)) (@tidy_server A).
Proof. intros p e Hp. left. by apply closed_none. Qed.

Lemma ends_after {A} (c : CM W P A) p : keeps c -> closed_if_any (client p) -> ends c p tidy_client.
Proof. intros Hc Hp. apply ends_keeps; [done|]. intros p' r _ Hc' _. left. by rewrite Hc'. Qed.
Lemma ends_lift {A} (r : Result Anyhow A) p (Q : Proc W P -> Result Anyhow A -> Prop) :
  Q p r -> ends (liftC r) p Q.
Proof. done. Qed.

(** The client's work on its session and what follows. *)
Lemma ends_used {A B} rt collector (work : HM (P := P) (M := W) A)
    (k : SpanCollector * Result Anyhow A -> CM W P B) p :
  (forall a p', closed_if_any (client p') -> ends (k a) p' tidy_client) ->
  ends (bindC (used_and_closed rt collector work) k) p tidy_client.
Proof.
  intros Hk. apply ends_bind. eapply ends_mono; [apply used_closes|].
  intros p' [a|e] [Hc _]; [by apply Hk|by left].
Qed.
Lemma ends_export telemetry collector peer started outcome p :
  closed_if_any (client p) ->
  ends (export_session_span telemetry collector peer started outcome) p tidy_client.
Proof. intros Hc. apply ends_after; [apply keeps_export|done]. Qed.

Lemma ends_open {A} config target pin_arg m1 m2 (k : string * Z * ClientSession P -> CM W P A) p :
  client p = None -> (forall a p', ends (k a) p' tidy_client) ->
  ends (bindC (open_session url_parse messages config target pin_arg m1 m2) k) p tidy_client.
Proof.
  intros Hp Hk. apply ends_bind. unfold open_session.
  assert (Hf : forgiving (own CVersion) (fun p' (r : Result Anyhow (string * Z * ClientSession P)) =>
    match r with Ok a => ends (k a) p' tidy_client | Err e => tidy_client p' (@Err Anyhow A e) end)).
  { intros p' e Hp'. left. by apply closed_none. }
  repeat (eapply (ends_before CVersion); [solve [auto with cli|by intros ?]|done|done|]; cbv beta; intros ? ? ?).
  apply Hk.
Qed.

Lemma ends_complete {A} m o (k : unit -> CM W P A) p Q :
  m ∈ ABANDONING -> (ends (k tt) p Q) -> (forall r, abandoned r -> Q p r) ->
  ends (bindC (complete m o) k) p Q.
Proof.
  intros Hm Hk HQ. apply ends_bind. destruct o as [[[]|e]|]; [done| |done].
  cbn. apply HQ. by eexists _, _.
Qed.
Lemma ends_pair {A} code (k : SessionRuntime P * SessionRuntime P -> CM W P A) p :
  client p = None -> (forall a p', ends (k a) p' tidy_client) ->
  ends (bindC (fixture_pair messages code) k) p tidy_client.
Proof.
  intros Hp Hk. apply ends_bind. unfold fixture_pair.
  assert (Hf : forgiving (own CVersion) (fun p' (r : Result Anyhow (SessionRuntime P * SessionRuntime P)) =>
    match r with Ok a => ends (k a) p' tidy_client | Err e => tidy_client p' (@Err Anyhow A e) end)).
  { intros p' e Hp'. left. by apply closed_none. }
  eapply (ends_before CVersion); [auto with cli|done|done|]. intros made ? ?.
  eapply (ends_before CVersion); [auto with cli|done|done|]. intros [offerer answerer] ? ?.
  eapply (ends_before CVersion); [auto with cli|done|done|]. intros c ? ?.
  eapply (ends_before CVersion); [auto with cli|done|done|]. intros d ? ?. cbv beta.
  destruct (handshake messages c) as [c' rc]. destruct (handshake messages d) as [s' rs].
  apply ends_bind. cbn. apply ends_bind. cbn.
  apply ends_complete; [set_solver| |by intros [|] (m & cs & [=] & ?); right; eexists _, _; subst].
  apply ends_complete; [set_solver| |by intros [|] (m & cs & [=] & ?); right; eexists _, _; subst].
  apply Hk.
Qed.
Lemma ends_join {A} rt root (k : unit -> CM W P A) p :
  closed_if_any (client p) ->
  (forall p', closed_if_any (client p') -> ends (k tt) p' tidy_client) ->
  ends (bindC (join_server fuel rt root) k) p tidy_client.
Proof.
  intros Hp Hk. apply ends_bind. eapply ends_mono; [apply keeps_join_client|].
  cbv beta. intros p' [[]|e] Hc; rewrite <- Hc in Hp; [by apply Hk|by left].
Qed.

(** What follows a part that leaves the client closed. *)
Lemma ends_tidy {A B} (c : CM W P A) (k : A -> CM W P B) p :
  ends c p tidy_client -> (forall a p', closed_if_any (client p') -> ends (k a) p' tidy_client) ->
  ends (bindC c k) p tidy_client.
Proof.
  intros Hc Hk. apply ends_bind. eapply ends_mono; [exact Hc|]. intros p' [a|e] Ht.
  - apply Hk. by destruct Ht as [|(m & cs & [=] & _)].
  - destruct Ht as [|(m & cs & [= ->] & ?)]; [by left|]. right. by eexists _, _.
Qed.

Lemma tidy_local_shell code c p :
  client p = None -> ends (run_local_shell messages fuel code c) p tidy_client.
Proof.
  intros Hp. unfold run_local_shell. apply ends_pair; [done|]. intros [d s'] p1.
  apply ends_dir; [set_solver| |auto with cli]. intros root.
  apply ends_used. intros [collector r] p2 Hc. apply ends_join; [done|].
  intros p3 Hc3. by left.
Qed.
Lemma tidy_local_cp_inner root source destination overwrite p :
  client p = None ->
  ends (run_local_cp_inner messages fuel root source destination overwrite) p tidy_client.
Proof.
  intros Hp. unfold run_local_cp_inner. apply ends_pair; [done|]. intros [d s'] p1.
  apply ends_used. intros [collector r] p2 Hc. apply ends_join; [done|].
  intros p3 Hc3. by left.
Qed.
Lemma tidy_local_cp source destination overwrite p :
  client p = None ->
  ends (run_local_cp messages fuel source destination overwrite) p tidy_client.
Proof.
  intros Hp. unfold run_local_cp.
  pose proof (forgiving_client (A := unit) CVersion ltac:(done)) as Hf.
  do 4 (eapply (ends_before CVersion); [auto with cli|done|done|]; intros ? ? ?).
  apply ends_bind.
  match goal with |- ends (tryC ?c) ?q _ => assert (Ht : ends c q tidy_client) end.
  { by apply tidy_local_cp_inner. }
  unfold ends, tryC in *. destruct (run_local_cp_inner _ _ _ _ _ _ _) as [q [r| |]]; try done.
  unfold bindC, on_env. destruct (remove_dir_all _ _). cbn. exact Ht.
Qed.

(** *** The commands *)

Lemma tidy_connect args p : client p = None -> ends (run_connect url_parse messages fuel args) p tidy_client.
Proof.
  intros Hp. pose proof (forgiving_client (A := unit) CVersion ltac:(done)) as Hf. unfold run_connect.
  eapply (ends_before CVersion); [auto with cli|done|done|]. intros config p1 Hp1.
  destruct (connect_local_fixture args).
  - eapply (ends_before CVersion); [auto with cli|done|done|]. intros c p2 Hp2.
    apply ends_tidy; [by apply tidy_local_shell|]. intros r p3 Hp3.
    apply ends_after; [|done]. apply keeps_bind; auto with cli.
  - apply ends_open; [done|]. intros [[target started] session] p2.
    apply ends_telemetry; [|auto with cli]. intros t.
    apply ends_collector. intros c p3 _ _.
    destruct (connect_command args); cbn [shell_command_from_args]; apply ends_bind; cbn;
      (apply ends_used; intros [collector r] p4 Hp4; by apply ends_export).
Qed.
Lemma tidy_cp args p : client p = None -> ends (run_cp url_parse messages fuel args) p tidy_client.
Proof.
  intros Hp. pose proof (forgiving_client (A := unit) CVersion ltac:(done)) as Hf. unfold run_cp.
  eapply (ends_before CVersion); [auto with cli|done|done|]. intros config p1 Hp1.
  destruct (cp_local_fixture args).
  - apply ends_tidy; [by apply tidy_local_cp|]. intros r p3 Hp3. apply ends_after; auto with cli.
  - apply ends_open; [done|]. intros [[target started] session] p2.
    apply ends_telemetry; [|auto with cli]. intros t.
    apply ends_collector. intros c p3 _ _.
    apply ends_used. intros [collector r] p4 Hp4. by apply ends_export.
Qed.

(** Printing either works or panics. *)
Lemma ends_say {A} s (k : unit -> CM W P A) p Q :
  (forall p', ends (k tt) p' Q) -> ends (bindC (say s) k) p Q.
Proof.
  intros Hk. apply ends_bind. unfold ends at 1, say. destruct (print _ _) as [w [u|e]]; [apply Hk|done].
Qed.

(** Serving leaves the server closed, or its result tells that the signal
    handler failed. *)
Lemma ends_served {A} rt collector cancels root m
    (k : SpanCollector * Result Anyhow unit -> CM W P A) p Q :
  (forall c r p', closed_if_any (server p') -> ends (k (c, r)) p' Q) ->
  ends (bindC (let% (_, collector, r) :=
                 hosted set_server rt collector (serve_session_collected fuel cancels root) in
               retC (collector, context m (of_blnk r))) k) p Q.
Proof.
  intros Hk. apply ends_bind, ends_bind. eapply ends_mono; [apply served_closes|].
  cbv beta. intros p' [[[rt' c] r]|e] (Hok & Hs & _); [|done]. cbn. by apply Hk.
Qed.
Lemma ends_running {A} rt collector root (k : SpanCollector * Result Anyhow unit -> CM W P A) p Q :
  (forall c r p', closed_if_any (server p') \/ abandoned r -> ends (k (c, r)) p' Q) ->
  ends (bindC (in_running fuel rt collector root) k) p Q.
Proof.
  intros Hk. unfold in_running, bindC at 2, on_env. unfold ends, bindC at 1.
  destruct (sigint (env p)) as [w [[cancels|e]|]].
  - apply (ends_served rt collector cancels root "serve remote session" k
             (mkProc w (client p) (server p)) Q). auto.
  - apply Hk. right. eexists _, _. split; [done|]. set_solver.
  - apply (ends_served rt collector [] root "serve remote session" k
             (mkProc w (client p) (server p)) Q). auto.
Qed.
Lemma ends_export_server telemetry collector peer started outcome p :
  closed_if_any (server p) \/ abandoned outcome ->
  ends (export_session_span telemetry collector peer started outcome) p tidy_server.
Proof.
  intros Hc. eapply ends_mono; [apply export_outcome|]. cbv beta. intros p' r (-> & _ & Hs).
  destruct Hc; [left; by rewrite Hs|by right].
Qed.

Lemma tidy_serve args p : server p = None -> ends (run_serve url_parse messages fuel args) p tidy_server.
Proof.
  intros Hp. pose proof (forgiving_server (A := unit) args) as Hf. unfold run_serve.
  do 5 (eapply (ends_before (CServe args)); [try case_match; auto with cli|done|done|]; intros ? ? ?).
  destruct (serve_local_fixture args).
  { apply ends_keeps; [auto with cli|]. intros q r _ _ Hs. left. apply closed_none. by rewrite Hs. }
  eapply (ends_before (CServe args)); [auto with cli|done|done|]. intros code ? ?.
  unfold serve_remote.
  eapply (ends_before (CServe args)); [auto with cli|done|done|]. intros started ? ?.
  eapply (ends_before (CServe args)); [by intros ?|done|done|]. intros session ? ?. cbv beta.
  apply ends_bind. cbn. apply ends_telemetry; [|auto with cli]. intros t.
  apply ends_say. intros p1. apply ends_dir; [set_solver| |auto with cli]. intros root.
  apply ends_collector. intros c p2 _ _. destruct (serve_once args).
  - apply ends_served. intros. apply ends_export_server. by left.
  - apply ends_assoc, ends_say. intros p3. apply ends_running. intros. by apply ends_export_server.
Qed.

(** C15: whatever a command does, the session it had is closed when it returns,
    unless it returns one of six errors: telemetry that cannot be set up, the
    current directory, a failed handshake of the in-process fixture or a failed
    signal handler. A command that succeeds never leaves a session open. *)
Theorem sessions_closed cli w :
  ends (main url_parse messages fuel cli) (mkProc w None None) (fun p' r =>
    closed_if_any (own (command cli) p') \/ abandoned r).
Proof.
  assert (Hlocal : forall (c : CM W P unit) Q, keeps c ->
    (forall p', client p' = None -> forall r, Q p' r) -> ends c (mkProc w None None) Q).
  { intros c Q Hc HQ. apply ends_keeps; [done|]. intros p' r _ Hcl _. by apply HQ. }
  destruct cli as [[args|args|args|args|args|]]; unfold main; cbn [command own].
  - by apply tidy_serve.
  - by apply tidy_connect.
  - by apply tidy_cp.
  - apply Hlocal; [auto with cli|]. intros p' Hp r. left. by apply closed_none.
  - apply Hlocal; [auto with cli|]. intros p' Hp r. left. by apply closed_none.
  - apply Hlocal; [auto with cli|]. intros p' Hp r. left. by apply closed_none.
Qed.

(** ** What success means *)

(** A step of which only the failure matters. *)
Lemma ends_any {A B} (c : CM W P A) (k : A -> CM W P B) p Q :
  (forall a p', ends (k a) p' Q) -> (forall p' e, Q p' (Err e)) -> ends (bindC c k) p Q.
Proof.
  intros Hk He. apply ends_bind. unfold ends at 1. by destruct (c p) as [p' [[a|e]| |]].
Qed.

(** The work gave [a] on some session, which was then closed without an error
    and is the one the command is left with. *)
Definition worked {A} (work : HM (P := P) (M := W) A) (a : A) (p' : Proc W P) : Prop :=
  exists before h, work before = (h, Done (Ok a)) /\
    (rt_close (Dispatch.rt h)).2 = Ok tt /\ client p' = Some (rt_close (Dispatch.rt h)).1.

Lemma used_worked {A} rt collector (work : HM (P := P) (M := W) A) p :
  ends (used_and_closed rt collector work) p (fun p' r =>
    match r with Ok (_, Ok a) => worked work a p' | _ => True end).
Proof.
  unfold used_and_closed. apply ends_bind. unfold ends at 1, hosted at 1.
  destruct (work (mkHost rt (env p) collector)) as [h [r| |]] eqn:Hw; try done.
  unfold ends, bindC, hosted, on_rt, retC. cbn.
  destruct (rt_close (Dispatch.rt h)) as [r1 [[]|e]] eqn:Hc; destruct r as [a|e']; cbn; try done.
  exists (mkHost rt (env p) collector), h. by rewrite Hw, Hc.
Qed.

Lemma ends_worked {A B} rt collector (work : HM (P := P) (M := W) A)
    (k : SpanCollector * Result Anyhow A -> CM W P B) p Q :
  (forall p' e, Q p' (Err e)) ->
  (forall c a p', worked work a p' -> ends (k (c, Ok a)) p' Q) ->
  (forall c e p', ends (k (c, Err e)) p' Q) ->
  ends (bindC (used_and_closed rt collector work) k) p Q.
Proof.
  intros He Hk Hf. apply ends_bind. eapply ends_mono; [apply used_worked|]. cbv beta.
  intros p' [[c [a|e]]|e] Hw; auto.
Qed.

Lemma shell_command_ok l : exists c, shell_command_from_args l = Ok c.
Proof. destruct l; by eexists. Qed.
Lemma exit_status_ok code : exit_status (Ok code) = Ok tt -> code = 0.
Proof. unfold exit_status. by destruct (code =? 0) eqn:E; [apply Z.eqb_eq in E|]. Qed.
Lemma worked_keeps {A} (work : HM (P := P) (M := W) A) a (p p' : Proc W P) :
  client p' = client p -> worked work a p -> worked work a p'.
Proof. unfold worked. by intros ->. Qed.

Lemma local_shell_worked code c p :
  ends (run_local_shell messages fuel code c) p (fun p' r =>
    match r with Ok status => worked (run_shell_client fuel c) status p' | Err _ => True end).
Proof.
  unfold run_local_shell. apply ends_any; [|done]. intros [d s'] p1.
  apply ends_any; [|done]. intros root p2. apply ends_worked; [done| |].
  - intros col a p3 Hw. apply ends_bind. eapply ends_mono; [apply keeps_join_client|].
    intros p4 [[]|e] Hc; [|done]. by apply (worked_keeps _ _ p3).
  - intros col e p3. apply ends_any; [|done]. done.
Qed.

(** [connect] succeeds only if the remote command was run and reported
    status 0 and the session was then closed without an error. *)
Theorem connect_success args p :
  ends (run_connect url_parse messages fuel args) p (fun p' r =>
    r = Ok tt -> exists c, shell_command_from_args (connect_command args) = Ok c /\
      worked (run_shell_client fuel c) 0 p').
Proof.
  unfold run_connect. destruct (shell_command_ok (connect_command args)) as [c Hc].
  apply ends_any; [|done]. intros config p1. rewrite Hc. destruct (connect_local_fixture args).
  - apply ends_bind. cbn. apply ends_bind. eapply ends_mono; [apply local_shell_worked|]. cbv beta.
    intros p2 [status|e] Hw; [|done]. apply ends_bind, ends_keeps; [auto with cli|].
    intros p3 [[]|e] _ Hp3 _; [|done]. apply ends_lift. intros ->%exit_status_ok.
    exists c. split; [done|]. by apply (worked_keeps _ _ p2).
  - apply ends_any; [|done]. intros [[target started] session] p2.
    apply ends_any; [|done]. intros t p3. apply ends_any; [|done]. intros col p4.
    apply ends_bind. cbn. apply ends_worked; [done| |].
    + intros col' status p5 Hw. eapply ends_mono; [apply export_outcome|]. cbv beta.
      intros p6 r (-> & Hp6 & _) ->%exit_status_ok. exists c. split; [done|].
      by apply (worked_keeps _ _ p5).
    + intros col' e p5. eapply ends_mono; [apply export_outcome|]. cbv beta. by intros p6 r (-> & _) [=].
Qed.
End facts.

(** ** The identity is created once *)

Section identity.
Context {Sk Pk : Type} `{RL : RsaLaws Sk Pk} `{SL : Sha2Laws} `{BL : Base64Laws} {BT : Base64Text}.
Context `{RustFmt} `{SerdeJson PersistedIdentity} {W P : Type} `{DL : DiskLaws W} `{Process W Sk}.
Context (path : string).

(** The key generator makes keys of the requested size, the serializer writes
    UTF-8 text that it reads back, a file that exists can be read, and the
    temporary file is another one. *)
Record identity_surroundings : Prop := {
  keys_sized : forall w w' k, generate_key w = (w', Ok k) -> modulus_bits k = RSA_BITS;
  json_reads_back : forall (i : Identity Sk) pem text,
    json_to_string (persisted i pem) = Ok text ->
    json_from_str text = Ok (persisted i pem) /\ utf8_valid (as_bytes text) = true;
  readable : forall w f, file w path = Some f -> exists bytes, disk_read w path = Ok bytes;
  temporary_apart : forall w w' suffix, temp_suffix w = (w', suffix) ->
    path_eqb path (Identity.temporary_of path suffix) = false;
}.

(** C28: [load_or_create_identity] gives a device one identity: whatever it
    returned is what it returns again, with nothing changed the second time; the
    file it creates holds all of it. *)
Theorem identity_created_once (p p' : Proc W P) i :
  identity_surroundings ->
  load_or_create_identity path p = (p', Returned (Ok i)) ->
  load_or_create_identity path p' = (p', Returned (Ok i)).
Proof.
  intros [Hkeys Hjson Hread Hapart] Hl. unfold load_or_create_identity, bindC, peek in Hl.
  destruct (path_exists (env p) path) eqn:He.
  { unfold liftC in Hl. injection Hl as <- Hr.
    unfold load_or_create_identity, bindC, peek, liftC. by rewrite He, Hr. }
  unfold on_env, generate_identity in Hl.
  destruct (generate_key (env p)) as [w1 key] eqn:Hk.
  destruct (draw_random w1) as [w2 a]. destruct (draw_random w2) as [w3 b].
  cbn [env client server] in Hl. unfold liftC in Hl.
  destruct (generate key a b) as [j|] eqn:Hg; [|done]. cbn [of_blnk map_err context] in Hl.
  cbn [env client server] in Hl. destruct (temp_suffix w3) as [w4 suffix] eqn:Hx.
  apply Hapart in Hx.
  cbn [env client server] in Hl.
  destruct (Identity.save j path suffix w4) as [w5 [u|]] eqn:Hs; [|done].
  cbn in Hl. injection Hl as <- <-.
  destruct (save_wrote _ _ _ _ _ _ Hx Hs) as (pem & text & Hp & Ht & Hf).
  destruct (Hread _ _ Hf) as [bytes Hb]. destruct (Hjson _ _ _ Ht) as [Hj Hu].
  assert (Hv : identity_valid j).
  { apply (generate_valid key a b); [done|]. apply (Hkeys (env p) w1).
    by rewrite <- (generate_key_of _ _ _ _ Hg). }
  destruct (saved_identity_loads _ _ _ _ _ _ _ _ _ Hv Hp Ht Hj Hu Hx Hs Hb) as [Hload _].
  unfold load_or_create_identity, bindC, peek, path_exists. cbn [env].
  rewrite (exists_file _ _ _ Hf). unfold liftC. cbn [env is_ok]. by rewrite Hload.
Qed.
End identity.

(** ** Concrete runs *)
Module CliSample.
#[export] Existing Instances Identity.Sample.rsa Identity.Sample.rsa_laws codec codec_laws codec_text
  Concrete.sha2 Concrete.sha2_laws Concrete.subtle Concrete.subtle_laws Concrete.rust_fmt
  Runtime.Sample.control_codec Runtime.Sample.debug Dispatch.Sample.stream_codec toy_info toy_list
  Orchestration.Sample.envelope Orchestration.Sample.world Config.Sample.json Config.Sample.crate
  Web.Sample.http QrSample.crate Memory.disk Memory.laws Dispatch.Sample.on_memory Mem.mem_sys.

(** Identities as JSON objects. *)
#[export] Instance identity_json : SerdeJson PersistedIdentity := {|
  json_to_string p :=
    let l := json_object [("private_key_pem", pi_private_key_pem p); ("uid", pi_uid p);
                          ("pairing_code", pi_pairing_code p); ("access_code", pi_access_code p)] in
    if utf8_valid l then Ok (String.string_of_list_byte l) else Err "not UTF-8";
  json_from_str s :=
    match read_object (as_bytes s) with
    | Some [(_, k); (_, u); (_, c); (_, a)] => Ok (mkPersisted k u c a)
    | _ => Err "expected an object"
    end;
|}.
(** What the relay sends. *)
Definition encrypted : string :=
  match encrypted_session_request [] (fingerprint_for_sdp "answer") Orchestration.Sample.uuid "123456"
          "device key" with
  | Ok s => s | Err _ => "" end.
Definition sent : list (string * WireMessage) :=
  [("registered", WireRegistered "123456"); ("request", WireRequest "client" None [] false);
   ("answer", WireAnswer "client" "answer" encrypted)].
#[export] Instance wire_json : SerdeJson WireMessage := {
  json_to_string _ := Ok "sent";
  json_from_str s :=
    match find (fun p => str_eqb p.1 s) sent with
    | Some (_, m) => Ok m | None => Err "expected value" end;
}.

Record Sandbox := mkSandbox {
  relay : list string;
  disk : Memory.Mem;
  files : FileService.Mem.Mem;
  printed : list string;
  telemetry : bool;          (* configured, with a client that cannot be built *)
}.
Definition on_disk {A} (f : Memory.Mem -> Memory.Mem * A) (w : Sandbox) : Sandbox * A :=
  let '(d, a) := f (disk w) in (mkSandbox (relay w) d (files w) (printed w) (telemetry w), a).
Definition on_files {A} (f : FileService.Mem.Mem -> FileService.Mem.Mem * A) (w : Sandbox)
    : Sandbox * A :=
  let '(m, a) := f (files w) in (mkSandbox (relay w) (disk w) m (printed w) (telemetry w), a).

#[export] Instance sandbox_disk : Disk Sandbox := {|
  disk_is_dir w := disk_is_dir (disk w);
  disk_read w := disk_read (disk w);
  create_dir p := on_disk (create_dir p);
  create_dir_all p := on_disk (create_dir_all p);
  set_mode p m := on_disk (set_mode p m);
  create_new p := on_disk (create_new p);
  Disk.write_all p l := on_disk (Disk.write_all p l);
  sync_all p := on_disk (sync_all p);
  write_file p l := on_disk (write_file p l);
  rename p r := on_disk (rename p r);
  Disk.remove_file p := on_disk (Disk.remove_file p);
|}.
#[export] Instance sandbox_files : FileSys Sandbox := {
  view w := view (files w);
  open_file w := open_file (files w);
  read_dir w := read_dir (files w);
  create_file p := on_files (create_file p);
  FileService.write_all p l := on_files (FileService.write_all p l);
  flush_file p := on_files (flush_file p);
  try_exists w := try_exists (files w);
  FileService.remove_file p := on_files (FileService.remove_file p);
  rename_file p q := on_files (rename_file p q);
}.
#[export] Instance sandbox_machine : Machine Sandbox := {
  run_child d c := on_files (run_child d c);
  process_id w := process_id (files w);
  next_temp := on_files next_temp;
  file_timer w := file_timer (files w);
  span_reading := on_files span_reading;
  span_clock := on_files span_clock;
  print l w :=
    (mkSandbox (relay w) (disk w) (files w) (printed w ++ [String.string_of_list_byte l]) (telemetry w),
     Ok tt);
  read_local p := on_files (read_local p);
  create_local_dirs p := on_files (create_local_dirs p);
  write_local p l := on_files (write_local p l);
}.
#[export] Instance sandbox_dialer : Dialer Sandbox := {
  lookup_host _ _ w := (w, Ok [Orchestration.Sample.addr]);
  connect_async _ w :=
    (w, Ok (mkSocket ((fun s => Ok (Transport.WsText s)) <$> relay w) [] (fun _ => None)));
  sleep _ w := w;
}.
#[export] Instance sandbox_ambient : Ambient Sandbox := {
  elapses _ w := (w, false);
  new_uuid w := (w, Orchestration.Sample.uuid);
  draw_seed w := (w, []);
}.
#[export] Instance sandbox_peering : Peering Sandbox Orchestration.Sample.TestPeer := {
  peer_new w := (w, Ok (Orchestration.Sample.mkTestPeer Runtime.Sample.server_queue false));
  create_data_channel _ p := (p, Ok tt);
  create_offer p := (p, Ok "offer");
  accept_offer _ p := (p, Ok "answer");
  set_remote_answer _ p := (p, Ok tt);
  Orchestration.wait_connected p := (p, Ok tt);
  Orchestration.wait_channel_open p := (p, Ok tt);
  parse_offer := Ok;
  parse_answer := Ok;
}.
#[export] Instance sandbox_listener : Listener Sandbox := {
  tcp_bind _ w := (w, Ok tt);
  local_addr _ := Ok (loopback 4000);
}.
#[export] Instance sandbox_process : Process Sandbox string := {
  config_file _ := None;
  env_vars _ := [("BLNK_PIN", "123456")];
  env_var _ w := if telemetry w then Some "set" else None;
  current_dir _ := Ok "/";
  temp_dir _ := "/tmp";
  remove_dir_all _ w := (w, Ok tt);
  generate_key w := (w, Ok "device key");
  draw_random w := (w, Identity.Sample.random);
  temp_suffix w := (w, "1");
  unix_now w := (w, 7);
  ctrl_c w := (w, Ok tt);
  sigint w := (w, None);
  join_fixture w := (w, Ok tt);
  join_web w := (w, Ok (Ok tt));
  mdns w := (w, (false, []));
  http_client w := if telemetry w then Err "no TLS backend" else Ok tt;
  post _ w := w;
}.

Definition fresh (telemetry : bool) : Sandbox :=
  mkSandbox ["registered"; "request"; "answer"] (Memory.mkMem ∅ []) (FileService.Mem.disk true) []
    telemetry.
Definition blnk (telemetry : bool) (c : Commands)
    : Proc Sandbox Orchestration.Sample.TestPeer * Ran unit :=
  main Orchestration.Sample.parse 3 10 (mkCli c) (mkProc (fresh telemetry) None None).
Definition serve (fixture : bool) : Commands := CServe (mkServeArgs None fixture true None false).
Definition session_of (p : Proc Sandbox Orchestration.Sample.TestPeer) :=
  (fun rt => (rt_state rt, Orchestration.Sample.closed (world rt))) <$> server p.
Definition lines_of (p : Proc Sandbox Orchestration.Sample.TestPeer) : list string := printed (env p).

(** The whole program: [serve --once] finds no identity, makes one, connects,
    authenticates the client, serves it and closes; the other commands. *)
Lemma runs :
  let '(p, r) := blnk false (serve false) in
  r = Returned (Ok tt) /\ session_of p = Some (Session.Closed, true) /\
  lines_of p = (fun s => s +:+ newline) <$>
    ["identity_uid=ZGV2aWNlIGtleQAAAAAAAA"; "signaling_endpoint_configured=true";
     "serve_status=connected; client_id=client"] /\
  (blnk false (serve true)).2 = Returned (Ok tt) /\
  (blnk false (CConnect (mkConnectArgs (Some "x") false [] None))).2
    = Returned (Err ["unknown device 'x'; run `blnk devices --list` or use --local-fixture"]) /\
  lines_of (blnk false (CDevices (mkDevicesArgs true false))).1
    = ["No devices registered." +:+ newline].
Proof. vm_compute. repeat split. Qed.

(** The key store of the identity theorem: a disk in memory. *)
#[export] Instance memory_process : Process Memory.Mem string := {
  config_file _ := None;
  env_vars _ := [];
  env_var _ _ := None;
  current_dir _ := Ok "/";
  temp_dir _ := "/tmp";
  remove_dir_all _ w := (w, Ok tt);
  generate_key w := (w, Ok "device key");
  draw_random w := (w, Identity.Sample.random);
  temp_suffix w := (w, "1");
  unix_now w := (w, 7);
  ctrl_c w := (w, Ok tt);
  sigint w := (w, None);
  join_fixture w := (w, Ok tt);
  join_web w := (w, Ok (Ok tt));
  mdns w := (w, (false, []));
  http_client _ := Ok tt;
  post _ w := w;
}.
Definition path : string := "identity.json".

Lemma surroundings : @identity_surroundings string string _ _ _ _ _ _ path.
Proof.
  split.
  - by intros w w' k [= _ <-].
  - intros i pem text. cbn -[json_object read_object utf8_valid].
    case_match eqn:Hu; [|done]. intros [= <-]. rewrite as_bytes_string_of. split; [|done].
    unfold json_object, read_object. rewrite read_json_members; [done|done|].
    rewrite length_app. cbn. lia.
  - intros w f. cbn -[components]. unfold Memory.file_of.
    destruct (Memory.nodes w !! components path) as [[|contents mode]|]; try done. by eexists.
  - intros w w' suffix [= _ <-]. by vm_compute.
Qed.

(** The identity that is made on an empty disk. *)
Definition created : Proc Memory.Mem unit * Ran (Identity string) :=
  load_or_create_identity path (mkProc (Memory.mkMem ∅ []) None None).
Definition made : Identity string :=
  match created.2 with Returned (Ok i) => i | _ => Identity.Sample.identity end.
End CliSample.
Import CliSample.

(** A session that was established is dropped, still open, when telemetry is
    configured but its client cannot be built. *)
Theorem telemetry_failure_abandons_session :
  (blnk true (serve false)).2 = Returned (Err ["init braintrust telemetry"; "no TLS backend"]) /\
  session_of (blnk true (serve false)).1 = Some (Session.Ready, false).
Proof. vm_compute. done. Qed.

Lemma identity_created_once_witness :
  created.2 = Returned (Ok made) /\
  load_or_create_identity path created.1 = (created.1, Returned (Ok made)).
Proof.
  assert (E : created = (created.1, Returned (Ok made))) by (vm_compute; reflexivity).
  split; [exact (f_equal snd E)|].
  exact (identity_created_once path (mkProc (Memory.mkMem ∅ []) None None) created.1 made
           surroundings E).
Defined.
